(** * KSeF invoice tooling: a shallow embedding of the Python sources

    The development follows the three scripts of the repository:
    - [generate_invoices.py]       (random invoice generator),
    - [invoice_pdf_to_ksef_xml.py] (rule cascade, AI fallback, XML encoder,
                                    XSD validation, orchestration),
    - [ksef_xml_converter.py]      (the older encoder without validation).

    Python [str] values are sequences of Unicode code points; they are
    modelled as [list N].  Python [float] is IEEE 754 binary64 and is
    modelled by the Standard Library's [spec_float] at precision 53.
    Dictionaries with string keys are [gmap string _]. *)

From Stdlib Require Import ZArith NArith List String Ascii Bool Lia.
From Stdlib Require Import QArith Qround Qabs Qpower Qreduction Lqa.
From Stdlib Require Import Floats.SpecFloat.
From stdpp Require Import gmap strings list.

Local Open Scope N_scope.

(** ** Text *)

(** A Python [str]: a sequence of code points. *)
Abbreviation text := (list N).

Definition text_eqb (a b : text) : bool := bool_decide (a = b).

(** Bytes of a Rocq string literal. *)
Fixpoint bytes_of (s : string) : list N :=
  match s with
  | EmptyString => []
  | String a r => N_of_ascii a :: bytes_of r
  end.

(** UTF-8 decoding of the bytes of a literal, so that the patterns and the
    sample texts of the scripts can be written as they are in the source. *)
Fixpoint utf8_go (need : nat) (acc : N) (l : list N) : text :=
  match l with
  | [] => []
  | b :: r =>
      match need with
      | O =>
          if b <? 128 then b :: utf8_go 0 0 r
          else if b <? 224 then utf8_go 1 (b - 192) r
          else if b <? 240 then utf8_go 2 (b - 224) r
          else utf8_go 3 (b - 240) r
      | S n =>
          let acc' := acc * 64 + (b - 128) in
          match n with
          | O => acc' :: utf8_go 0 0 r
          | S _ => utf8_go n acc' r
          end
      end
  end.

Definition T (s : string) : text := utf8_go 0 0 (bytes_of s).

Definition chr (a : ascii) : N := N_of_ascii a.

(** ** The interpreter's Unicode tables

    [re] and the [str] methods consult CPython's Unicode database
    ([Py_UNICODE_ISDECIMAL], [Py_UNICODE_ISSPACE], the case mappings and the
    case-insensitive equivalences of [sre]).  The tables are not part of the
    repository; they are an interface here, with one instance
    ([latin_tables], below) that covers ASCII and the Polish letters. *)
Class UnicodeTables := {
  (** [\d] on [str] patterns *)
  uni_isdecimal : N -> bool;
  (** [\s] on [str] patterns, and what [str.strip()] removes *)
  uni_isspace : N -> bool;
  (** [ci_eq c x]: under [re.IGNORECASE] the pattern character [c] matches
      the text character [x] *)
  ci_eq : N -> N -> bool;
  (** [str.lower()] *)
  str_lower : text -> text;
  (** the ASCII digits are decimal digits *)
  uni_ascii_digit :
    forall x, (48 <=? x) && (x <=? 57) = true -> uni_isdecimal x = true
}.

(** ** Regular expressions: the fragment of [re] the scripts use *)

Inductive cset_item :=
| CChar (c : N)
| CRange (lo hi : N)
| CDigit
| CSpace.

Inductive regex :=
| Eps
| Lit (c : N)
| Set_ (neg : bool) (items : list cset_item)
| Cat (r1 r2 : regex)
| Alt (r1 r2 : regex)
| Star (r : regex)
| Group (i : nat) (r : regex).

(** Derived forms: [r+], [r?], [r{n}], [r{n,m}], literal strings. *)
Definition Plus (r : regex) : regex := Cat r (Star r).
Definition Opt (r : regex) : regex := Alt r Eps.

Fixpoint Rep (n : nat) (r : regex) : regex :=
  match n with
  | O => Eps
  | S n' => Cat r (Rep n' r)
  end.

Fixpoint RepUpTo (n : nat) (r : regex) : regex :=
  match n with
  | O => Eps
  | S n' => Opt (Cat r (RepUpTo n' r))
  end.

Definition RepRange (lo hi : nat) (r : regex) : regex :=
  Cat (Rep lo r) (RepUpTo (hi - lo) r).

Fixpoint Seq (rs : list regex) : regex :=
  match rs with
  | [] => Eps
  | [r] => r
  | r :: rs' => Cat r (Seq rs')
  end.

Definition Str (s : string) : regex := Seq (Lit <$> T s).

Definition digit : regex := Set_ false [CDigit].
Definition space : regex := Set_ false [CSpace].

(** Captures: group number and captured text, most recent first. *)
Abbreviation caps := (list (nat * text)).

Fixpoint cap_lookup (i : nat) (cs : caps) : option text :=
  match cs with
  | [] => None
  | (j, t) :: cs' => if Nat.eqb i j then Some t else cap_lookup i cs'
  end.

Fixpoint N_range (lo : N) (n : nat) : list N :=
  match n with
  | O => []
  | S n' => lo :: N_range (lo + 1) n'
  end.

(** A match object: where it starts, the matched text (group 0), the text
    after the match, and the groups. *)
Record rematch := {
  m_start : nat;
  m_text : text;
  m_rest : text;
  m_caps : caps
}.

Section Matcher.
Context {U : UnicodeTables}.

(** [icase] is the [re.IGNORECASE] flag. *)
Variable icase : bool.

Definition lit_matches (c x : N) : bool :=
  if icase then ci_eq c x else N.eqb c x.

Definition item_matches (it : cset_item) (x : N) : bool :=
  match it with
  | CChar c => lit_matches c x
  | CRange lo hi =>
      if icase
      then existsb (fun c => ci_eq c x) (N_range lo (N.to_nat (hi + 1 - lo)))
      else (lo <=? x) && (x <=? hi)
  | CDigit => uni_isdecimal x
  | CSpace => uni_isspace x
  end.

Definition set_matches (neg : bool) (items : list cset_item) (x : N) : bool :=
  xorb neg (existsb (fun it => item_matches it x) items).

(** Backtracking matcher in continuation-passing style: alternatives are
    tried left to right and repetition is greedy, as in [sre].  An
    iteration of a loop that consumes nothing ends the loop. *)
Fixpoint rmatch {A} (r : regex) (s : text) (cs : caps)
         (k : text -> caps -> option A) {struct r} : option A :=
  match r with
  | Eps => k s cs
  | Lit c =>
      match s with
      | x :: s' => if lit_matches c x then k s' cs else None
      | [] => None
      end
  | Set_ neg items =>
      match s with
      | x :: s' => if set_matches neg items x then k s' cs else None
      | [] => None
      end
  | Cat r1 r2 => rmatch r1 s cs (fun s' cs' => rmatch r2 s' cs' k)
  | Alt r1 r2 =>
      match rmatch r1 s cs k with
      | Some x => Some x
      | None => rmatch r2 s cs k
      end
  | Star r' =>
      (fix loop (n : nat) (s : text) (cs : caps) {struct n} : option A :=
         match n with
         | O => k s cs
         | S n' =>
             match rmatch r' s cs
                     (fun s' cs' =>
                        if (length s' <? length s)%nat then loop n' s' cs'
                        else None) with
             | Some x => Some x
             | None => k s cs
             end
         end) (length s) s cs
  | Group i r' =>
      rmatch r' s cs
        (fun s' cs' => k s' ((i, take (length s - length s') s) :: cs'))
  end.

(** [match.group(i)] for [i >= 1]; every group of the patterns below takes
    part in each of their matches, so the [None] of a group that did not
    take part never arises and the empty text stands for it. *)
Definition group (m : rematch) (i : nat) : text :=
  default [] (cap_lookup i (m_caps m)).

(** One attempt at the current position.  [must_advance] forbids an empty
    match (used by [findall] after an empty match). *)
Definition match_here (r : regex) (must_advance : bool) (pos : nat) (s : text)
  : option rematch :=
  rmatch r s []
    (fun s' cs =>
       if must_advance && (length s' =? length s)%nat then None
       else Some {| m_start := pos;
                    m_text := take (length s - length s') s;
                    m_rest := s';
                    m_caps := cs |}).

(** [re.search]: the leftmost position with a match. *)
Fixpoint search_from (r : regex) (must_advance : bool) (pos : nat) (s : text)
  : option rematch :=
  match match_here r must_advance pos s with
  | Some m => Some m
  | None =>
      match s with
      | [] => None
      | _ :: s' => search_from r false (S pos) s'
      end
  end.

Definition re_search (r : regex) (s : text) : option rematch :=
  search_from r false 0 s.

(** [re.match]: a match at the start of the text only. *)
Definition re_match (r : regex) (s : text) : option rematch :=
  match_here r false 0 s.

(** The successive non-overlapping matches, left to right. *)
Fixpoint finditer_go (fuel : nat) (r : regex) (must_advance : bool)
         (pos : nat) (s : text) : list rematch :=
  match fuel with
  | O => []
  | S fuel' =>
      match search_from r must_advance pos s with
      | None => []
      | Some m =>
          m :: finditer_go fuel' r
                 (length (m_text m) =? 0)%nat
                 (m_start m + length (m_text m))%nat (m_rest m)
      end
  end.

Definition finditer (r : regex) (s : text) : list rematch :=
  finditer_go (S (S (length s))) r false 0 s.

(** [re.findall] for a pattern with one group, then with two. *)
Definition findall1 (r : regex) (s : text) : list text :=
  (fun m => group m 1) <$> finditer r s.

Definition findall2 (r : regex) (s : text) : list (text * text) :=
  (fun m => (group m 1, group m 2)) <$> finditer r s.

(** [re.sub(r, '', s)] *)
Fixpoint sub_empty_go (ms : list rematch) (pos : nat) (s : text) : text :=
  match ms with
  | [] => s
  | m :: ms' =>
      take (m_start m - pos) s
        ++ sub_empty_go ms' (m_start m + length (m_text m))%nat (m_rest m)
  end.

Definition re_sub_empty (r : regex) (s : text) : text :=
  sub_empty_go (finditer r s) 0 s.

(** [re.split(r, s)] for a pattern without groups. *)
Fixpoint split_go (ms : list rematch) (pos : nat) (s : text) : list text :=
  match ms with
  | [] => [s]
  | m :: ms' =>
      take (m_start m - pos) s
        :: split_go ms' (m_start m + length (m_text m))%nat (m_rest m)
  end.

Definition re_split (r : regex) (s : text) : list text :=
  split_go (finditer r s) 0 s.

End Matcher.


(** ** [str] methods used by the scripts *)

(** [x in s] for a one-character [x] *)
Definition has_char (c : N) (s : text) : bool := existsb (N.eqb c) s.

(** [s.replace(c, '')] for a one-character [c] *)
Definition remove_char (c : N) (s : text) : text :=
  filter (fun x => x ≠ c) s.

(** [s.replace(c, d)] for one-character [c] and [d] *)
Definition replace_char (c d : N) (s : text) : text :=
  (fun x => if N.eqb x c then d else x) <$> s.

(** [s.split(c)] for a one-character separator *)
Fixpoint split_char (c : N) (s : text) : list text :=
  match s with
  | [] => [[]]
  | x :: s' =>
      if N.eqb x c then [] :: split_char c s'
      else
        match split_char c s' with
        | [] => [[x]]
        | p :: ps => (x :: p) :: ps
        end
  end.

(** [parts[-1]] *)
Definition last_part (ps : list text) : text := default [] (last ps).

Fixpoint is_prefix (p s : text) : bool :=
  match p, s with
  | [], _ => true
  | _ :: _, [] => false
  | a :: p', b :: s' => N.eqb a b && is_prefix p' s'
  end.

(** [p in s] *)
Fixpoint is_infix (p s : text) : bool :=
  is_prefix p s ||
  match s with
  | [] => false
  | _ :: s' => is_infix p s'
  end.

Fixpoint drop_while (f : N -> bool) (s : text) : text :=
  match s with
  | [] => []
  | x :: s' => if f x then drop_while f s' else s
  end.

Definition rdrop_while (f : N -> bool) (s : text) : text :=
  rev (drop_while f (rev s)).

(** [s.rstrip(c)] for a one-character [c] *)
Definition rstrip_char (c : N) (s : text) : text := rdrop_while (N.eqb c) s.

(** [s.zfill(w)]: zeros on the left up to width [w], after a leading sign. *)
Definition zfill (w : nat) (s : text) : text :=
  let pad := replicate (w - length s) 48 in
  match s with
  | x :: s' => if (N.eqb x 43 || N.eqb x 45) then x :: pad ++ s' else pad ++ s
  | [] => pad
  end.

Section StrUnicode.
Context {U : UnicodeTables}.

(** [s.strip()] *)
Definition strip (s : text) : text :=
  rdrop_while uni_isspace (drop_while uni_isspace s).

End StrUnicode.

(** ** A table for running the scripts on Latin and Polish text

    Decimal digits are the ASCII ones, white space is Python's
    [str.isspace], and case is known for ASCII and the Polish letters. *)

Definition latin_isdecimal (x : N) : bool := (48 <=? x) && (x <=? 57).

Definition latin_isspace (x : N) : bool :=
  ((9 <=? x) && (x <=? 13)) || ((28 <=? x) && (x <=? 32))
  || N.eqb x 133 || N.eqb x 160 || N.eqb x 5760
  || ((8192 <=? x) && (x <=? 8202))
  || N.eqb x 8232 || N.eqb x 8233 || N.eqb x 8239 || N.eqb x 8287
  || N.eqb x 12288.

Definition polish_upper : list N := T "ĄĆĘŁŃŚŹŻ".

Definition latin_lower (x : N) : N :=
  if (65 <=? x) && (x <=? 90) then x + 32
  else if N.eqb x 211 then 243
  else if existsb (N.eqb x) polish_upper then x + 1
  else x.

Definition latin_tables : UnicodeTables := {|
  uni_isdecimal := latin_isdecimal;
  uni_isspace := latin_isspace;
  ci_eq := fun c x => N.eqb (latin_lower c) (latin_lower x);
  str_lower := fun s => latin_lower <$> s;
  uni_ascii_digit := fun x (h : latin_isdecimal x = true) => h
|}.

(** ** The rule cascade: [KSeFXMLConverter.parse_invoice_with_rules] *)

Module Rules.

Definition cc (s : string) : N := hd 0 (T s).
Definition chars (s : string) : list cset_item := CChar <$> T s.

(** [\n] *)
Definition NL : N := 10.

(** [[:\s]], [[-\s]], [[,\s]], [[-/.]], [[/\-]], [[^\n]] *)
Definition colon_sp : regex := Set_ false [CChar (cc ":"); CSpace].
Definition dash_sp : regex := Set_ false [CChar (cc "-"); CSpace].
Definition comma_sp : regex := Set_ false [CChar (cc ","); CSpace].
Definition date_sep : regex := Set_ false (chars "-/.").
Definition slash_dash : regex := Set_ false (chars "/-").
Definition not_nl : regex := Set_ true [CChar NL].

(** [[A-Z0-9/\-]] *)
Definition number_char : regex :=
  Set_ false [CRange (cc "A") (cc "Z"); CRange (cc "0") (cc "9");
              CChar (cc "/"); CChar (cc "-")].

(** [[A-Za-z]] *)
Definition ascii_letter : regex :=
  Set_ false [CRange (cc "A") (cc "Z"); CRange (cc "a") (cc "z")].

(** [[A-ZĄĆĘŁŃÓŚŹŻa-ząćęłńóśźż]] and the same with [\s] *)
Definition polish_letter_items : list cset_item :=
  CRange (cc "A") (cc "Z") :: chars "ĄĆĘŁŃÓŚŹŻ"
    ++ CRange (cc "a") (cc "z") :: chars "ąćęłńóśźż".
Definition polish_letter : regex := Set_ false polish_letter_items.
Definition polish_letter_sp : regex :=
  Set_ false (polish_letter_items ++ [CSpace]).

(** [[\d,\s]] *)
Definition amount_char : regex := Set_ false [CDigit; CChar (cc ","); CSpace].

(** Pattern 1: [NIP[:\s]*(\d{3}[-\s]?\d{3}[-\s]?\d{2}[-\s]?\d{2}|\d{10})] *)
Definition nip_pattern : regex :=
  Seq [Str "NIP"; Star colon_sp;
       Group 1
         (Alt (Seq [Rep 3 digit; Opt dash_sp; Rep 3 digit; Opt dash_sp;
                    Rep 2 digit; Opt dash_sp; Rep 2 digit])
              (Rep 10 digit))].

(** Pattern 2, in the order of the source:
    - [INVOICE\s*#\s*(\d+)]
    - [Invoice\s+(?:Number|No\.?)[:\s]*(\d+)]
    - [Faktura\s+(?:Nr\.?|numer|VAT)?\s*[:\s]*([A-Z0-9/\-]+)]
    - [(?:FA|FV)[/\-](\d+[/\-]\d+[/\-]\d+)]
    - [Numer\s+faktury[:\s]*([A-Z0-9/\-]+)] *)
Definition invoice_num_patterns : list regex :=
  [ Seq [Str "INVOICE"; Star space; Lit (cc "#"); Star space;
         Group 1 (Plus digit)];
    Seq [Str "Invoice"; Plus space;
         Alt (Str "Number") (Cat (Str "No") (Opt (Lit (cc "."))));
         Star colon_sp; Group 1 (Plus digit)];
    Seq [Str "Faktura"; Plus space;
         Opt (Alt (Cat (Str "Nr") (Opt (Lit (cc "."))))
                  (Alt (Str "numer") (Str "VAT")));
         Star space; Star colon_sp; Group 1 (Plus number_char)];
    Seq [Alt (Str "FA") (Str "FV"); slash_dash;
         Group 1 (Seq [Plus digit; slash_dash; Plus digit; slash_dash;
                       Plus digit])];
    Seq [Str "Numer"; Plus space; Str "faktury"; Star colon_sp;
         Group 1 (Plus number_char)] ].

(** Pattern 3, in the order of the source:
    - [DATE[:\s]*(\d{1,2})\s+([A-Za-z]+)[,\s]+(\d{4})]
    - [(?:Invoice\s+)?Date[:\s]*(\d{1,2})\s+([A-Za-z]+)[,\s]+(\d{4})]
    - [Data\s+wystawienia[:\s]*(\d{4}-\d{2}-\d{2})]
    - [Data\s+wystawienia[:\s]*(\d{2}[-/.]\d{2}[-/.]\d{4})]
    - [Data\s+sprzedaży[:\s]*(\d{4}-\d{2}-\d{2})]
    - [Data\s+sprzedaży[:\s]*(\d{2}[-/.]\d{2}[-/.]\d{4})] *)
Definition named_month_tail : list regex :=
  [Star colon_sp; Group 1 (RepRange 1 2 digit); Plus space;
   Group 2 (Plus ascii_letter); Plus comma_sp; Group 3 (Rep 4 digit)].

Definition iso_date : regex :=
  Seq [Rep 4 digit; Lit (cc "-"); Rep 2 digit; Lit (cc "-"); Rep 2 digit].

(** [\d{2}[-/.]\d{2}[-/.]\d{4}] *)
Definition dmy_date : regex :=
  Seq [Rep 2 digit; date_sep; Rep 2 digit; date_sep; Rep 4 digit].

Definition named_date_1 : regex := Seq (Str "DATE" :: named_month_tail).
Definition named_date_2 : regex :=
  Seq (Opt (Cat (Str "Invoice") (Plus space)) :: Str "Date" :: named_month_tail).
Definition wystawienia_iso : regex :=
  Seq [Str "Data"; Plus space; Str "wystawienia"; Star colon_sp; Group 1 iso_date].
Definition wystawienia_dmy : regex :=
  Seq [Str "Data"; Plus space; Str "wystawienia"; Star colon_sp; Group 1 dmy_date].
Definition sprzedazy_iso : regex :=
  Seq [Str "Data"; Plus space; Str "sprzedaży"; Star colon_sp; Group 1 iso_date].
Definition sprzedazy_dmy : regex :=
  Seq [Str "Data"; Plus space; Str "sprzedaży"; Star colon_sp; Group 1 dmy_date].

Definition date_patterns : list regex :=
  [ named_date_1; named_date_2; wystawienia_iso; wystawienia_dmy;
    sprzedazy_iso; sprzedazy_dmy ].

(** [len(match.groups())]: the number of groups of the pattern. *)
Fixpoint ngroups (r : regex) : nat :=
  match r with
  | Eps | Lit _ | Set_ _ _ => 0
  | Cat r1 r2 | Alt r1 r2 => ngroups r1 + ngroups r2
  | Star r' => ngroups r'
  | Group _ r' => S (ngroups r')
  end.

Definition month_names : list (text * text) :=
  [ (T "january", T "01"); (T "february", T "02"); (T "march", T "03");
    (T "april", T "04"); (T "may", T "05"); (T "june", T "06");
    (T "july", T "07"); (T "august", T "08"); (T "september", T "09");
    (T "october", T "10"); (T "november", T "11"); (T "december", T "12") ].

(** [d.get(k, dflt)] on a literal dictionary *)
Fixpoint assoc_get (k : text) (d : list (text * text)) (dflt : text) : text :=
  match d with
  | [] => dflt
  | (k', v) :: d' => if text_eqb k k' then v else assoc_get k d' dflt
  end.

(** Pattern 4: the amount patterns with the field each one writes.
    - [SUBTOTAL[:\s]*([\d,\s]+(?:\.\d{2})?)\s*zł]                   price_net
    - [VAT\s+\d+%[:\s]*(?:EUR\s+)?([\d,\s]+(?:\.\d{2})?)\s*zł]      price_tax
    - [TOTAL[:\s]*([\d,\s]+(?:\.\d{2})?)\s*zł]                      price_gross
    - [(?:Wartość\s+)?[Nn]etto[:\s]*([\d,\s]+)]                     price_net
    - [(?:Wartość\s+)?VAT[:\s]*([\d,\s]+)]                          price_tax
    - [(?:Wartość\s+)?[Bb]rutto[:\s]*([\d,\s]+)]                    price_gross
    - [Razem[:\s]*([\d,\s]+)]                                       price_gross
    - [Do\s+zapłaty[:\s]*([\d,\s]+)]                                price_gross *)
Definition pln_amount : regex :=
  Group 1 (Cat (Plus amount_char)
               (Opt (Cat (Lit (cc ".")) (Rep 2 digit)))).
Definition plain_amount : regex := Group 1 (Plus amount_char).
Definition wartosc_opt : regex := Opt (Cat (Str "Wartość") (Plus space)).

Definition amount_patterns : list (regex * string) :=
  [ (Seq [Str "SUBTOTAL"; Star colon_sp; pln_amount; Star space; Str "zł"],
     "price_net"%string);
    (Seq [Str "VAT"; Plus space; Plus digit; Lit (cc "%"); Star colon_sp;
          Opt (Cat (Str "EUR") (Plus space)); pln_amount; Star space;
          Str "zł"],
     "price_tax"%string);
    (Seq [Str "TOTAL"; Star colon_sp; pln_amount; Star space; Str "zł"],
     "price_gross"%string);
    (Seq [wartosc_opt; Set_ false (chars "Nn"); Str "etto"; Star colon_sp;
          plain_amount],
     "price_net"%string);
    (Seq [wartosc_opt; Str "VAT"; Star colon_sp; plain_amount],
     "price_tax"%string);
    (Seq [wartosc_opt; Set_ false (chars "Bb"); Str "rutto"; Star colon_sp;
          plain_amount],
     "price_gross"%string);
    (Seq [Str "Razem"; Star colon_sp; plain_amount], "price_gross"%string);
    (Seq [Str "Do"; Plus space; Str "zapłaty"; Star colon_sp; plain_amount],
     "price_gross"%string) ].

(** Pattern 5:
    - [Sprzedawca[:\s]*\n([^\n]+)]
    - [INVOICE\s*\n([^\n]+)\s*\n([^\n]+street[^\n]{0,})]
      (the source writes the last [{0,}] as a star)
    - [Nabywca[:\s]*\n([^\n]+)]
    - [Bill\s+To[:\s]*([^\n]+)] *)
Definition seller_section_re : regex :=
  Seq [Str "Sprzedawca"; Star colon_sp; Lit NL; Group 1 (Plus not_nl)].
Definition seller_eng_re : regex :=
  Seq [Str "INVOICE"; Star space; Lit NL; Group 1 (Plus not_nl); Star space;
       Lit NL; Group 2 (Seq [Plus not_nl; Str "street"; Star not_nl])].
Definition buyer_section_re : regex :=
  Seq [Str "Nabywca"; Star colon_sp; Lit NL; Group 1 (Plus not_nl)].
Definition buyer_eng_re : regex :=
  Seq [Str "Bill"; Plus space; Str "To"; Star colon_sp; Group 1 (Plus not_nl)].

(** Pattern 6:
    - [(?:ul\.|al\.|pl\.)\s+([^\n,]+)]
    - [([A-ZĄĆĘŁŃÓŚŹŻa-ząćęłńóśźż]+\s+street[^,\n]+)]
    - [Bill\s+To[^\n]*\n[^\n]+\n([^\n]+)] *)
Definition not_nl_comma : regex := Set_ true [CChar NL; CChar (cc ",")].
Definition street_pattern : regex :=
  Seq [Alt (Str "ul.") (Alt (Str "al.") (Str "pl.")); Plus space;
       Group 1 (Plus not_nl_comma)].
Definition seller_street_eng_re : regex :=
  Group 1 (Seq [Plus polish_letter; Plus space; Str "street";
                Plus not_nl_comma]).
Definition buyer_street_eng_re : regex :=
  Seq [Str "Bill"; Plus space; Str "To"; Star not_nl; Lit NL; Plus not_nl;
       Lit NL; Group 1 (Plus not_nl)].

(** Pattern 7: [(\d{2}-\d{3})[,\s]+([A-ZĄĆĘŁŃÓŚŹŻa-ząćęłńóśźż\s]+)] *)
Definition postal_pattern : regex :=
  Seq [Group 1 (Seq [Rep 2 digit; Lit (cc "-"); Rep 3 digit]);
       Plus comma_sp; Group 2 (Plus polish_letter_sp)].

(** [[-\s]], the class removed from a NIP by [re.sub] *)
Definition nip_separator : regex := dash_sp.

Section Cascade.
Context {U : UnicodeTables}.

(** The dictionary the cascade starts from. *)
Definition initial_invoice_data : gmap string text :=
  list_to_map
    [ ("seller_name", []); ("seller_tax_no", []); ("seller_street", []);
      ("seller_country", T "PL");
      ("buyer_name", []); ("buyer_tax_no", []); ("buyer_street", []);
      ("buyer_post_code", []); ("buyer_city", []);
      ("buyer_country", T "PL");
      ("currency", T "PLN"); ("issue_date", []); ("number", []);
      ("price_net", T "0.00"); ("price_tax", T "0.00");
      ("price_gross", T "0.00") ]%string.

(** [invoice_data[k]] for a key of the initial dictionary (the cascade only
    writes those keys, so the subscript never raises). *)
Definition getf (d : gmap string text) (k : string) : text := d !!! k.

(** [not s] on a [str] *)
Definition is_empty (s : text) : bool :=
  match s with [] => true | _ => false end.

(** Pattern 1: tax identifiers. *)
Definition clean_nip (n : text) : text := re_sub_empty false nip_separator n.

Definition step_nip (txt : text) (d : gmap string text) : gmap string text :=
  match findall1 true nip_pattern txt with
  | n0 :: n1 :: _ =>
      <["buyer_tax_no" := clean_nip n1]> (<["seller_tax_no" := clean_nip n0]> d)
  | [n0] => <["seller_tax_no" := clean_nip n0]> d
  | [] => d
  end%string.

(** The first pattern of a list that matches, with its match. *)
Fixpoint first_match (ps : list regex) (txt : text) : option (regex * rematch) :=
  match ps with
  | [] => None
  | p :: ps' =>
      match re_search true p txt with
      | Some m => Some (p, m)
      | None => first_match ps' txt
      end
  end.

(** Pattern 2: invoice number. *)
Definition step_number (txt : text) (d : gmap string text) : gmap string text :=
  match first_match invoice_num_patterns txt with
  | Some (p, m) =>
      <["number" := if (ngroups p =? 1)%nat then group m 1 else m_text m]> d
  | None => d
  end%string.

(** Pattern 3: issue date. *)
Definition date_of_match (p : regex) (m : rematch) : text :=
  if (ngroups p =? 3)%nat then
    let day := group m 1 in
    let month_name := group m 2 in
    let year := group m 3 in
    let month := assoc_get (str_lower month_name) month_names (T "01") in
    year ++ T "-" ++ month ++ T "-" ++ zfill 2 day
  else
    let date_str := group m 1 in
    match re_match false dmy_date date_str with
    | Some _ =>
        let parts := re_split false date_sep date_str in
        nth 2 parts [] ++ T "-" ++ nth 1 parts [] ++ T "-" ++ nth 0 parts []
    | None => date_str
    end.

Definition step_date (txt : text) (d : gmap string text) : gmap string text :=
  match first_match date_patterns txt with
  | Some (p, m) => <["issue_date" := date_of_match p m]> d
  | None => d
  end%string.

(** Pattern 4: amounts.  Every pattern is tried, in order, and each one that
    matches overwrites its field with its last match. *)
Definition normalize_amount (raw : text) : text :=
  let amount := remove_char (cc ",") (remove_char (cc " ") raw) in
  if has_char (cc ".") amount then
    let parts := split_char (cc ".") amount in
    if (length (last_part parts) =? 2)%nat then amount
    else remove_char (cc ".") amount ++ T ".00"
  else amount ++ T ".00".

Definition amount_step (txt : text) (d : gmap string text)
           (pf : regex * string) : gmap string text :=
  match last (findall1 true pf.1 txt) with
  | Some raw => <[pf.2 := normalize_amount raw]> d
  | None => d
  end.

Definition step_amounts (txt : text) (d : gmap string text) : gmap string text :=
  fold_left (amount_step txt) amount_patterns d.

(** Pattern 5: company names. *)
Definition step_names (txt : text) (d : gmap string text) : gmap string text :=
  let d1 :=
    match re_search true seller_section_re txt with
    | Some m => <["seller_name" := strip (group m 1)]> d
    | None => d
    end in
  let d2 :=
    if is_empty (getf d1 "seller_name") then
      match re_search true seller_eng_re txt with
      | Some m =>
          <["seller_street" := strip (group m 2)]>
            (<["seller_name" := strip (group m 1)]> d1)
      | None => d1
      end
    else d1 in
  let d3 :=
    match re_search true buyer_section_re txt with
    | Some m => <["buyer_name" := strip (group m 1)]> d2
    | None => d2
    end in
  if is_empty (getf d3 "buyer_name") then
    match re_search true buyer_eng_re txt with
    | Some m => <["buyer_name" := strip (group m 1)]> d3
    | None => d3
    end
  else d3.

(** Pattern 6: street addresses. *)
Definition step_streets (txt : text) (d : gmap string text) : gmap string text :=
  let d1 :=
    match findall1 true street_pattern txt with
    | s0 :: s1 :: _ =>
        <["buyer_street" := strip s1]> (<["seller_street" := strip s0]> d)
    | [s0] =>
        if is_empty (getf d "seller_street")
        then <["seller_street" := strip s0]> d
        else d
    | [] => d
    end in
  let d2 :=
    if is_empty (getf d1 "seller_street") then
      match re_search true seller_street_eng_re txt with
      | Some m => <["seller_street" := strip (group m 1)]> d1
      | None => d1
      end
    else d1 in
  if is_empty (getf d2 "buyer_street") then
    match re_search true buyer_street_eng_re txt with
    | Some m => <["buyer_street" := strip (group m 1)]> d2
    | None => d2
    end
  else d2.

(** Pattern 7: postal code and city of the buyer. *)
Definition set_buyer_postal (pc : text * text) (d : gmap string text)
  : gmap string text :=
  <["buyer_city" := rstrip_char (cc ",") (strip pc.2)]>
    (<["buyer_post_code" := pc.1]> d).

Definition step_postal (txt : text) (d : gmap string text) : gmap string text :=
  match findall2 false postal_pattern txt with
  | _ :: p1 :: _ => set_buyer_postal p1 d
  | [p0] =>
      if is_infix (T "Bill To") txt || is_empty (getf d "buyer_post_code")
      then set_buyer_postal p0 d
      else d
  | [] => d
  end.

(** The cascade, in the order of the source. *)
Definition cascade (txt : text) : gmap string text :=
  step_postal txt
    (step_streets txt
       (step_names txt
          (step_amounts txt
             (step_date txt
                (step_number txt
                   (step_nip txt initial_invoice_data)))))).

(** The completeness gate. *)
Definition required_fields : list string :=
  [ "seller_name"; "seller_tax_no"; "buyer_name"; "buyer_tax_no";
    "number"; "issue_date"; "price_net"; "price_tax"; "price_gross" ]%string.

(** [not invoice_data.get(field) or invoice_data[field] == '0.00'] *)
Definition field_missing (d : gmap string text) (field : string) : bool :=
  match d !! field with
  | None => true
  | Some v => is_empty v || text_eqb v (T "0.00")
  end.

Definition missing_fields (d : gmap string text) : list string :=
  List.filter (field_missing d) required_fields.

(** [parse_invoice_with_rules(text)]: the dictionary and the success flag. *)
Definition parse_invoice_with_rules (txt : text) : gmap string text * bool :=
  let invoice_data := cascade txt in
  match missing_fields invoice_data with
  | _ :: _ => (invoice_data, false)
  | [] => (invoice_data, true)
  end.

End Cascade.

End Rules.

(** ** Python values, exceptions and the world the scripts run in *)

(** Decimal digits of a natural number, as [str(n)] prints them. *)
Fixpoint digits_go (fuel : nat) (n : N) (acc : text) : text :=
  match fuel with
  | O => acc
  | S fuel' =>
      let acc' := (48 + n mod 10) :: acc in
      if n <? 10 then acc' else digits_go fuel' (n / 10) acc'
  end.

Definition N_to_text (n : N) : text := digits_go (S (N.to_nat (N.log2 n))) n [].

(** [str(z)] for an [int] *)
Definition Z_to_text (z : Z) : text :=
  match z with
  | Zneg p => 45 :: N_to_text (Npos p)
  | _ => N_to_text (Z.to_N z)
  end.

(** What a dictionary of the scripts may hold.  [VOther] stands for any other
    object (a number or a nested structure read from JSON), abstracted by its
    truth value and by what [str()] prints for it. *)
Inductive atom :=
| AStr (s : text)
| ANone.

Inductive pyval :=
| VStr (s : text)
| VNone
| VBool (b : bool)
| VPositions (ps : list (gmap string atom))
| VOther (truthy : bool) (printed : text).

Inductive exn :=
| KeyError (key : string)
| ValueError (msg : text)
| FileNotFoundError (msg : text)
| AttributeError
| IndexError
| OverflowError
| ZeroDivisionError
| Exception (msg : text)
| LibraryError (msg : text).

(** A PDF file, as [pdfplumber] sees it: the text of each page ([None] or
    the empty text when a page has none). *)
Abbreviation pdf := (list (option text)).

(** [datetime]: the fields [strftime] prints. *)
Record datetime := {
  dt_year : Z; dt_month : Z; dt_day : Z;
  dt_hour : Z; dt_minute : Z; dt_second : Z
}.

Record world := {
  (** text files, by path: XSD schemas and written outputs *)
  w_files : gmap string text;
  (** PDF files, by path *)
  w_pdfs : gmap string pdf;
  (** what [datetime.now()] returns *)
  w_now : datetime;
  (** the prompts sent so far to the completion service *)
  w_api_log : list text
}.

Definition set_files (f : gmap string text -> gmap string text) (w : world) : world :=
  {| w_files := f (w_files w); w_pdfs := w_pdfs w; w_now := w_now w;
     w_api_log := w_api_log w |}.

Definition log_api (prompt : text) (w : world) : world :=
  {| w_files := w_files w; w_pdfs := w_pdfs w; w_now := w_now w;
     w_api_log := w_api_log w ++ [prompt] |}.

(** Computations that read and change the world and may raise. *)
Definition M (A : Type) : Type := world -> (exn + A) * world.

Definition ret {A} (x : A) : M A := fun w => (inr x, w).
Definition raise {A} (e : exn) : M A := fun w => (inl e, w).
Definition bind {A B} (m : M A) (f : A -> M B) : M B :=
  fun w =>
    match m w with
    | (inr x, w') => f x w'
    | (inl e, w') => (inl e, w')
    end.
Definition get_world : M world := fun w => (inr w, w).
Definition modify (f : world -> world) : M unit := fun w => (inr tt, f w).

Declare Scope py_scope.
Delimit Scope py_scope with py.
Notation "x <- m ;; k" := (bind m (fun x => k))
  (at level 100, m at next level, right associativity) : py_scope.
Notation "m ;;; k" := (bind m (fun _ => k))
  (at level 100, right associativity) : py_scope.
Local Open Scope py_scope.

(** [d[key]] *)
Definition subscript {V} (d : gmap string V) (key : string) : M V :=
  match d !! key with
  | Some v => ret v
  | None => raise (KeyError key)
  end.

(** [d.get(key, dflt)] *)
Definition dict_get {V} (d : gmap string V) (key : string) (dflt : V) : V :=
  default dflt (d !! key).

(** [open(path, 'w')], [f.write(content)] and the closing of the file. *)
Definition write_file (path : string) (content : text) : M unit :=
  modify (set_files (fun fs => <[path := content]> fs)).

(** Two decimal digits, as [%m], [%d], [%H], [%M], [%S] print them. *)
Definition pad2 (z : Z) : text := zfill 2 (Z_to_text z).

(** [strftime('%Y-%m-%d')] *)
Definition strftime_date (d : datetime) : text :=
  Z_to_text (dt_year d) ++ T "-" ++ pad2 (dt_month d) ++ T "-" ++ pad2 (dt_day d).

(** [strftime('%Y-%m-%dT%H:%M:%S')] *)
Definition strftime_iso (d : datetime) : text :=
  strftime_date d ++ T "T" ++ pad2 (dt_hour d) ++ T ":" ++ pad2 (dt_minute d)
    ++ T ":" ++ pad2 (dt_second d).

(** ** XML trees and the library functions the scripts call *)

(** An [xml.etree.ElementTree.Element]: tag, attributes, text, children. *)
Inductive element :=
| Element (tag : text) (attrib : list (text * text)) (etext : pyval)
          (children : list element).

(** What [lxml] reports for a document checked against a schema. *)
Inductive xsd_outcome :=
| XsdValid
| XsdInvalid (error_log : list (Z * text))
| XsdSyntaxError (msg : text)
| XsdException (msg : text).

(** What [json.loads] returns: an object, or some other JSON value. *)
Inductive json :=
| JObject (d : gmap string pyval)
| JOther.

(** The functions of the Python libraries that the scripts call and whose
    code is not in the repository. *)
Class PyLib := {
  (** [format(v, '')], what an f-string prints for [v] *)
  py_format : pyval -> text;
  py_format_str : forall s, py_format (VStr s) = s;
  (** [ET.tostring], [minidom.parseString] and [toprettyxml] in a row, once
      the three namespaces of the converter are registered *)
  xml_pretty : element -> exn + text;
  (** [lxml]: the schema file's content and the document *)
  xsd_check : text -> text -> xsd_outcome;
  (** [json.loads]; [None] is [JSONDecodeError] *)
  json_loads : text -> option json;
  (** the prompt of the secondary extractor, a fixed template around the
      invoice text *)
  ai_prompt : text -> text
}.

(** The completion service behind [anthropic_client.messages.create]: the
    text of the first content block of the answer, or an exception. *)
Abbreviation client := (text -> exn + text).

Inductive schema := FA2 | FA3.

(** [schema_type[-1]] *)
Definition variant_number (s : schema) : text :=
  match s with FA2 => T "2" | FA3 => T "3" end.

(** ** The encoder: [KSeFXMLConverter.convert_to_ksef_xml] *)

Module Encoder.

Definition namespace : text := T "http://crd.gov.pl/wzor/2023/06/29/12648/".
Definition namespace_xsi : text := T "http://www.w3.org/2001/XMLSchema-instance".

(** [f"{{{self.namespace}}}name"] *)
Definition qn (name : string) : text := T "{" ++ namespace ++ T "}" ++ T name.

(** An element with text and no children, and one with children only. *)
Definition leaf (name : string) (v : pyval) : element := Element (qn name) [] v [].
Definition node (name : string) (children : list element) : element :=
  Element (qn name) [] VNone children.

Definition leaf_str (name : string) (s : string) : element := leaf name (VStr (T s)).

(** The annotation block: constants of the source. *)
Definition adnotacje : element :=
  node "Adnotacje"
    [ leaf_str "P_16" "2"; leaf_str "P_17" "2"; leaf_str "P_18" "2";
      leaf_str "P_18A" "2";
      node "Zwolnienie" [leaf_str "P_19N" "1"];
      node "NoweSrodkiTransportu" [leaf_str "P_22N" "1"];
      leaf_str "P_23" "2";
      node "PMarzy" [leaf_str "P_PMarzyN" "1"] ].

(** The keys the encoder reads without a default, in the order it reads
    them. *)
Definition encoder_required : list string :=
  [ "seller_tax_no"; "seller_name"; "seller_street"; "buyer_tax_no";
    "buyer_name"; "buyer_street"; "buyer_post_code"; "buyer_city";
    "currency"; "issue_date"; "number"; "price_net"; "price_tax";
    "price_gross" ]%string.

Section Encode.
Context {L : PyLib}.

(** The tree, built in the order of the source: the clock is read for the
    header, then the keys are read one after the other; the first absent key
    without a default raises [KeyError]. *)
Definition build_tree (variant : text) (invoice_data : gmap string pyval)
  : M element :=
  w <- get_world ;;
  let created := strftime_iso (w_now w) in
  let naglowek :=
    node "Naglowek"
      [ Element (qn "KodFormularza")
          [ (T "kodSystemowy", T "FA (" ++ variant ++ T ")");
            (T "wersjaSchemy", T "1-0E") ]
          (VStr (T "FA")) [];
        leaf "WariantFormularza" (VStr variant);
        leaf "DataWytworzeniaFa" (VStr created) ] in
  seller_tax_no <- subscript invoice_data "seller_tax_no" ;;
  seller_name <- subscript invoice_data "seller_name" ;;
  let seller_country := dict_get invoice_data "seller_country" (VStr (T "PL")) in
  seller_street <- subscript invoice_data "seller_street" ;;
  let podmiot1 :=
    node "Podmiot1"
      [ node "DaneIdentyfikacyjne"
          [leaf "NIP" seller_tax_no; leaf "Nazwa" seller_name];
        node "Adres" [leaf "KodKraju" seller_country; leaf "AdresL1" seller_street] ] in
  buyer_tax_no <- subscript invoice_data "buyer_tax_no" ;;
  buyer_name <- subscript invoice_data "buyer_name" ;;
  let buyer_country := dict_get invoice_data "buyer_country" (VStr (T "PL")) in
  buyer_street <- subscript invoice_data "buyer_street" ;;
  buyer_post_code <- subscript invoice_data "buyer_post_code" ;;
  buyer_city <- subscript invoice_data "buyer_city" ;;
  let adres_l1_2 :=
    py_format buyer_street ++ T ", " ++ py_format buyer_post_code ++ T " "
      ++ py_format buyer_city in
  let podmiot2 :=
    node "Podmiot2"
      [ node "DaneIdentyfikacyjne"
          [leaf "NIP" buyer_tax_no; leaf "Nazwa" buyer_name];
        node "Adres" [leaf "KodKraju" buyer_country;
                      leaf "AdresL1" (VStr adres_l1_2)] ] in
  currency <- subscript invoice_data "currency" ;;
  issue_date <- subscript invoice_data "issue_date" ;;
  number <- subscript invoice_data "number" ;;
  price_net <- subscript invoice_data "price_net" ;;
  price_tax <- subscript invoice_data "price_tax" ;;
  price_gross <- subscript invoice_data "price_gross" ;;
  let fa :=
    node "Fa"
      [ leaf "KodWaluty" currency; leaf "P_1" issue_date; leaf "P_2" number;
        leaf "P_13_1" price_net; leaf "P_14_1" price_tax; leaf "P_15" price_gross;
        adnotacje; leaf_str "RodzajFaktury" "VAT" ] in
  ret (Element (qn "Faktura")
         [ (T "{" ++ namespace_xsi ++ T "}schemaLocation",
            namespace ++ T " http://crd.gov.pl/wzor/2023/06/29/12648/schemat.xsd") ]
         VNone [naglowek; podmiot1; podmiot2; fa]).

(** [convert_to_ksef_xml]: the tree, then its pretty-printed text. *)
Definition convert_with_variant (variant : text) (invoice_data : gmap string pyval)
  : M text :=
  root <- build_tree variant invoice_data ;;
  match xml_pretty root with
  | inr xml => ret xml
  | inl e => raise e
  end.

End Encode.

End Encoder.

(** ** [ksef_xml_converter.py]: the older converter *)

Module Legacy.

Section Legacy.
Context {L : PyLib}.

(** The variant is the constant [2] there. *)
Definition convert_to_ksef_xml (invoice_data : gmap string pyval) : M text :=
  Encoder.convert_with_variant (T "2") invoice_data.

(** [save_ksef_xml(invoice_data, output_path)] *)
Definition save_ksef_xml (invoice_data : gmap string pyval) (output_path : string)
  : M unit :=
  xml_content <- convert_to_ksef_xml invoice_data ;;
  write_file output_path xml_content.

End Legacy.

End Legacy.

(** ** [invoice_pdf_to_ksef_xml.py]: the converter with validation, the
       secondary extractor and the orchestration *)

(** [s.split(sep)] for a non-empty separator *)
Fixpoint split_on_go (fuel : nat) (sep acc s : text) : list text :=
  match fuel with
  | O => [rev acc ++ s]
  | S fuel' =>
      match s with
      | [] => [rev acc]
      | x :: s' =>
          if is_prefix sep s
          then rev acc :: split_on_go fuel' sep [] (drop (length sep) s)
          else split_on_go fuel' sep (x :: acc) s'
      end
  end.

Definition split_on (sep s : text) : list text :=
  split_on_go (S (length s)) sep [] s.

(** [sep.join(parts)] *)
Fixpoint join (sep : text) (parts : list text) : text :=
  match parts with
  | [] => []
  | [p] => p
  | p :: ps => p ++ sep ++ join sep ps
  end.

Module Converter.

Record converter := {
  schema_type : schema;
  (** [self.schema_path], set by [__init__] *)
  schema_path : string;
  (** [self.anthropic_client]; [None] when no API key is configured *)
  anthropic_client : option client
}.

(** [__init__]: the schema file sits under the project root and is named
    after the variant; the client exists when a key is given or found in
    the environment. *)
Definition new_converter (project_root : string) (c : option client)
           (s : schema) : converter :=
  {| schema_type := s;
     schema_path :=
       (project_root ++ "/src/main/resources/schemat_FA("
          ++ match s with FA2 => "2" | FA3 => "3" end ++ ")_v1-0E.xsd")%string;
     anthropic_client := c |}.

Section Converter.
Context {U : UnicodeTables} {L : PyLib}.

Variable self : converter.

Definition convert_to_ksef_xml (invoice_data : gmap string pyval) : M text :=
  Encoder.convert_with_variant (variant_number (schema_type self)) invoice_data.

(** [validate_against_xsd(xml_content)]: raises [FileNotFoundError] when the
    schema file is absent, and otherwise returns [(is_valid, error_message)]. *)
Definition validate_against_xsd (xml_content : text) : M (bool * option text) :=
  w <- get_world ;;
  match w_files w !! schema_path self with
  | None => raise (FileNotFoundError (T "XSD schema file not found: "
                                        ++ T (schema_path self)))
  | Some schema_doc =>
      match xsd_check schema_doc xml_content with
      | XsdValid => ret (true, None)
      | XsdInvalid error_log =>
          let errors :=
            (fun e : Z * text => T "Line " ++ Z_to_text e.1 ++ T ": " ++ e.2)
              <$> error_log in
          ret (false, Some (join [Rules.NL] errors))
      | XsdSyntaxError msg => ret (false, Some (T "XML syntax error: " ++ msg))
      | XsdException msg => ret (false, Some (T "Validation error: " ++ msg))
      end
  end.

(** [str(error_message)] inside the f-strings of the two [ValueError]s *)
Definition print_message (m : option text) : text := default (T "None") m.

(** [save_ksef_xml(invoice_data, output_path, validate=True)] *)
Definition save_ksef_xml (invoice_data : gmap string pyval)
           (output_path : string) (validate : bool) : M unit :=
  xml_content <- convert_to_ksef_xml invoice_data ;;
  (if validate then
     r <- validate_against_xsd xml_content ;;
     if r.1 then ret tt
     else raise (ValueError (T "XML validation failed:" ++ [Rules.NL]
                               ++ print_message r.2))
   else ret tt) ;;;
  write_file output_path xml_content.

(** The text of a PDF: the pages that have text, two newlines between them. *)
Definition joined_pages (pages : pdf) : text :=
  let text_content :=
    omap (fun p : option text =>
            match p with
            | Some (x :: t) => Some (x :: t)
            | _ => None
            end) pages in
  join [Rules.NL; Rules.NL] text_content.

(** [extract_text_from_pdf(pdf_path)] *)
Definition extract_text_from_pdf (pdf_path : string) : M text :=
  w <- get_world ;;
  match w_pdfs w !! pdf_path with
  | None => raise (FileNotFoundError (T "PDF file not found: " ++ T pdf_path))
  | Some pages => ret (joined_pages pages)
  end.

(** The code fence of a Markdown answer is removed before parsing. *)
Definition unfence (response_text : text) : text :=
  if is_prefix (T "```") response_text then
    let inner := nth 1 (split_on (T "```") response_text) [] in
    let inner' := if is_prefix (T "json") inner then drop 4 inner else inner in
    strip inner'
  else response_text.

(** [parse_invoice_from_text(text)]: the secondary extractor.  Every call
    that reaches the completion service is recorded in the world. *)
Definition parse_invoice_from_text (txt : text) : M json :=
  match anthropic_client self with
  | None => raise (ValueError (T "Anthropic API key not configured. "))
  | Some create =>
      let prompt := ai_prompt txt in
      modify (log_api prompt) ;;;
      match create prompt with
      | inl e => raise (Exception (T "Failed to parse invoice data: "))
      | inr answer =>
          let response_text := unfence (strip answer) in
          match json_loads response_text with
          | None => raise (Exception (T "Failed to parse JSON from AI response: "))
          | Some invoice_data => ret invoice_data
          end
      end
  end.

(** [invoice_data.get('number')] in the log call after parsing: it raises on
    a value that is not a dictionary. *)
Definition as_dict (j : json) : M (gmap string pyval) :=
  match j with
  | JObject d => ret d
  | JOther => raise AttributeError
  end.

(** [if output_path:] *)
Definition path_given (output_path : option string) : option string :=
  match output_path with
  | Some (String a s) => Some (String a s)
  | _ => None
  end.

(** The second half of [convert_pdf_to_ksef_xml]: the parsed record is
    encoded, the XML is validated, and it is written when a path is given. *)
Definition encode_validate_write (output_path : option string) (parsed : json)
  : M text :=
  invoice_data <- as_dict parsed ;;
  xml_content <- convert_to_ksef_xml invoice_data ;;
  r <- validate_against_xsd xml_content ;;
  (if r.1 then ret tt
   else raise (ValueError (T "Generated XML does not conform to KSeF schema:"
                             ++ [Rules.NL] ++ print_message r.2))) ;;;
  match path_given output_path with
  | Some p => write_file p xml_content
  | None => ret tt
  end ;;;
  ret xml_content.

(** The first half: rule-based parsing unless [force_ai]; its record is kept
    only when it is complete, and the secondary extractor is called when
    there is none. *)
Definition rule_based (force_ai : bool) (txt : text) : option json :=
  if force_ai then None
  else
    let '(invoice_data, success) := Rules.parse_invoice_with_rules txt in
    if success then Some (JObject (VStr <$> invoice_data)) else None.

Definition extract_record (force_ai : bool) (txt : text) : M json :=
  match rule_based force_ai txt with
  | Some j => ret j
  | None =>
      match anthropic_client self with
      | None =>
          raise (ValueError
                   (T "Rule-based parsing failed and Claude AI is not configured. "))
      | Some _ => parse_invoice_from_text txt
      end
  end.

(** [convert_pdf_to_ksef_xml(pdf_path, output_path=None, force_ai=False)] *)
Definition convert_pdf_to_ksef_xml (pdf_path : string)
           (output_path : option string) (force_ai : bool) : M text :=
  txt <- extract_text_from_pdf pdf_path ;;
  parsed <- extract_record force_ai txt ;;
  encode_validate_write output_path parsed.

End Converter.

End Converter.

(** ** Python [float]: IEEE 754 binary64 *)

Module PyFloat.

Local Open Scope Z_scope.

Abbreviation float := spec_float.

Definition is_finite (x : float) : bool :=
  match x with
  | S754_zero _ | S754_finite _ _ _ => true
  | _ => false
  end.

(** The exact value of a float (0 for the infinities and NaN). *)
Definition to_Q (x : float) : Q :=
  match x with
  | S754_finite s m e =>
      let v := (inject_Z (Zpos m) * Qpower 2 e)%Q in
      if s then Qopp v else v
  | _ => 0%Q
  end.

(** Rounding of a non-negative rational to the nearest integer, ties to
    even. *)
Definition round_half_even (q : Q) : Z :=
  let f := Qfloor q in
  match Qcompare (q - inject_Z f) (1 # 2) with
  | Lt => f
  | Gt => f + 1
  | Eq => if Z.even f then f else f + 1
  end.

(** [ilog2 a] is the [k] with [2^k <= a < 2^(k+1)], for [a > 0]. *)
Definition ilog2 (a : Q) : Z :=
  let k0 := Z.log2 (Qnum a) - Z.log2 (Zpos (Qden a)) in
  if Qle_bool (Qpower 2 k0) a then k0 else k0 - 1.

(** Rounding to binary64, to nearest with ties to even, of the magnitude
    [a > 0] with sign [s]: 53 significant bits, exponents from -1074, and
    infinity from [2^1024] on. *)
Definition round_float (s : bool) (a : Q) : float :=
  let e := Z.max (ilog2 a - 52) (-1074) in
  let m := round_half_even (a * Qpower 2 (- e)) in
  let '(m', e') := if m =? 2 ^ 53 then (2 ^ 52, e + 1) else (m, e) in
  match m' with
  | Zpos p => if e' <=? 971 then S754_finite s p e' else S754_infinity s
  | _ => S754_zero s
  end.

(** The exact result [q] of an operation, rounded; an exact zero is [+0]. *)
Definition round_signed (q : Q) : float :=
  match Qcompare q 0 with
  | Eq => S754_zero false
  | Lt => round_float true (Qopp q)
  | Gt => round_float false q
  end.

Definition sign_of (x : float) : bool :=
  match x with
  | S754_zero s | S754_infinity s | S754_finite s _ _ => s
  | S754_nan => false
  end.

Definition fopp (x : float) : float := SFopp x.

(** [x * y] *)
Definition fmul (x y : float) : float :=
  let s := xorb (sign_of x) (sign_of y) in
  match x, y with
  | S754_nan, _ | _, S754_nan => S754_nan
  | S754_infinity _, S754_zero _ | S754_zero _, S754_infinity _ => S754_nan
  | S754_infinity _, _ | _, S754_infinity _ => S754_infinity s
  | S754_zero _, _ | _, S754_zero _ => S754_zero s
  | S754_finite _ _ _, S754_finite _ _ _ =>
      round_float s (Qabs (to_Q x) * Qabs (to_Q y))
  end.

(** [x + y] *)
Definition fadd (x y : float) : float :=
  match x, y with
  | S754_nan, _ | _, S754_nan => S754_nan
  | S754_infinity sx, S754_infinity sy =>
      if Bool.eqb sx sy then x else S754_nan
  | S754_infinity _, _ => x
  | _, S754_infinity _ => y
  | S754_zero sx, S754_zero sy =>
      if Bool.eqb sx sy then x else S754_zero false
  | S754_zero _, _ => y
  | _, S754_zero _ => x
  | S754_finite _ _ _, S754_finite _ _ _ => round_signed (to_Q x + to_Q y)
  end.

(** [x - y] *)
Definition fsub (x y : float) : float := fadd x (fopp y).

(** [x / y]; a zero divisor raises [ZeroDivisionError]. *)
Definition fdiv (x y : float) : exn + float :=
  let s := xorb (sign_of x) (sign_of y) in
  match x, y with
  | _, S754_zero _ => inl ZeroDivisionError
  | S754_nan, _ | _, S754_nan => inr S754_nan
  | S754_infinity _, S754_infinity _ => inr S754_nan
  | S754_infinity _, _ => inr (S754_infinity s)
  | _, S754_infinity _ => inr (S754_zero s)
  | S754_zero _, _ => inr (S754_zero s)
  | S754_finite _ _ _, S754_finite _ _ _ =>
      inr (round_float s (Qabs (to_Q x) / Qabs (to_Q y)))
  end.

(** The float nearest to [c * 10^p], with the sign [s], for [c >= 0]; the
    fraction is reduced to lowest terms first. *)
Definition of_decimal (s : bool) (c : Z) (p : Z) : float :=
  match c with
  | Zpos _ => round_float s (Qred (inject_Z c * Qpower 10 p))
  | _ => S754_zero s
  end.

(** The float nearest to [n] hundredths. *)
Definition of_cents (n : Z) : float := of_decimal false n (-2).

(** [float(z)] for an [int]: the nearest float; an [int] beyond the range
    raises [OverflowError]. *)
Definition of_int (z : Z) : exn + float :=
  let x := round_signed (inject_Z z) in
  if is_finite x then inr x else inl OverflowError.

(** [round(x, 2)]: the decimal with two places nearest to the exact value of
    [x] (ties to even), read back as a float.  Infinities and NaN round to
    themselves; the sign of a zero result is the sign of [x]. *)
Definition round2 (x : float) : float :=
  match x with
  | S754_finite s m e =>
      of_decimal s (round_half_even (inject_Z (Zpos m) * Qpower 2 e * 100)) (-2)
  | _ => x
  end.

(** *** [repr] of a float: the shortest decimal that reads back *)

(** [decpt v] is the [t] with [10^(t-1) <= v < 10^t], for [v > 0]. *)
Fixpoint decpt_up (fuel : nat) (v : Q) (t : Z) : Z :=
  match fuel with
  | O => t
  | S fuel' => if Qle_bool (Qpower 10 t) v then decpt_up fuel' v (t + 1) else t
  end.

Definition decpt (m : positive) (e : Z) : Z :=
  let v := (inject_Z (Zpos m) * Qpower 2 e)%Q in
  (* a lower estimate from the binary exponent, then a short search *)
  let bits := Z.log2 (Zpos m) + e in
  let t0 := (bits * 30103) / 100000 - 1 in
  decpt_up 8 v t0.

(** The candidates with [k] digits around [v], and whether each reads back
    as the float itself. *)
Definition reads_back (x : float) (s : bool) (c p : Z) : bool :=
  match SFcompare x (of_decimal s c p) with
  | Some Eq => true
  | _ => false
  end.

Definition candidate (x : float) (s : bool) (m : positive) (e : Z) (t : Z) (k : Z)
  : option Z :=
  let v := (inject_Z (Zpos m) * Qpower 2 e)%Q in
  let scaled := (v * Qpower 10 (k - t))%Q in
  let lo := Qfloor scaled in
  let hi := lo + 1 in
  let lo_ok := reads_back x s lo (t - k) in
  let hi_ok := reads_back x s hi (t - k) in
  match lo_ok, hi_ok with
  | true, false => Some lo
  | false, true => Some hi
  | false, false => None
  | true, true =>
      match Qcompare (scaled - inject_Z lo) (1 # 2) with
      | Lt => Some lo
      | Gt => Some hi
      | Eq => Some (if Z.even lo then lo else hi)
      end
  end.

Fixpoint shortest_go (fuel : nat) (x : float) (s : bool) (m : positive) (e t k : Z)
  : Z * Z :=
  match fuel with
  | O => (Qfloor (inject_Z (Zpos m) * Qpower 2 e * Qpower 10 (k - t)), k)
  | S fuel' =>
      match candidate x s m e t k with
      | Some c => (c, k)
      | None => shortest_go fuel' x s m e t (k + 1)
      end
  end.

(** Trailing zeros are dropped from the digits (the exponent grows). *)
Fixpoint strip_zeros (fuel : nat) (c p : Z) : Z * Z :=
  match fuel with
  | O => (c, p)
  | S fuel' =>
      if (c mod 10 =? 0) && negb (c =? 0) then strip_zeros fuel' (c / 10) (p + 1)
      else (c, p)
  end.

(** The digits [c] and the exponent [p] of the shortest decimal [c * 10^p]
    that reads back as the finite non-zero float. *)
Definition shortest (x : float) (s : bool) (m : positive) (e : Z) : Z * Z :=
  let t := decpt m e in
  let '(c, k) := shortest_go 17 x s m e t 1 in
  strip_zeros 18 c (t - k).

(** The two layouts of [repr]: positional when the decimal point falls within
    [-4 < decpt <= 16], with an exponent otherwise. *)
Definition zeros (n : Z) : text := replicate (Z.to_nat n) 48%N.

Definition layout (digits : text) (dp : Z) : text :=
  let nd := Z.of_nat (length digits) in
  if (dp <=? -4) || (16 <? dp) then
    let mant :=
      match digits with
      | d :: (_ :: _) as rest => d :: T "." ++ rest
      | _ => digits
      end in
    let ex := dp - 1 in
    mant ++ T "e" ++ (if ex <? 0 then T "-" else T "+")
         ++ zfill 2 (Z_to_text (Z.abs ex))
  else if dp <=? 0 then T "0." ++ zeros (- dp) ++ digits
  else if nd <=? dp then digits ++ zeros (dp - nd) ++ T ".0"
  else take (Z.to_nat dp) digits ++ T "." ++ drop (Z.to_nat dp) digits.

(** [str(x)] for a float *)
Definition float_str (x : float) : text :=
  match x with
  | S754_nan => T "nan"
  | S754_infinity s => if s then T "-inf" else T "inf"
  | S754_zero s => if s then T "-0.0" else T "0.0"
  | S754_finite s m e =>
      let '(c, p) := shortest x s m e in
      let digits := Z_to_text c in
      (if s then T "-" else []) ++ layout digits (Z.of_nat (length digits) + p)
  end.

(** *** [float(s)] on the texts that [str] prints

    [float] accepts more (surrounding white space, underscores, other
    spellings of infinity); the scripts only pass it what [str] printed. *)

Fixpoint digits_value (s : text) (acc : Z) : option Z :=
  match s with
  | [] => Some acc
  | d :: s' =>
      if ((48 <=? d) && (d <=? 57))%N
      then digits_value s' (10 * acc + Z.of_N (d - 48))
      else None
  end.

(** A non-empty run of ASCII digits. *)
Definition digits_opt (s : text) : option Z :=
  match s with
  | [] => None
  | _ => digits_value s 0
  end.

Definition signed_digits (s : text) : option Z :=
  match s with
  | 45%N :: s' => Z.opp <$> digits_opt s'
  | 43%N :: s' => digits_opt s'
  | _ => digits_opt s
  end.

Definition parse_unsigned (s : bool) (body : text) : option float :=
  if text_eqb body (T "inf") then Some (S754_infinity s)
  else if text_eqb body (T "nan") then Some S754_nan
  else
    match split_char 101%N body with
    | mant :: rest =>
        ex ← match rest with
             | [] => Some 0
             | [e] => signed_digits e
             | _ => None
             end;
        match split_char 46%N mant with
        | [ip] => c ← digits_opt ip; Some (of_decimal s c ex)
        | [ip; fp] =>
            ci ← digits_opt ip;
            cf ← digits_opt fp;
            let n := Z.of_nat (length fp) in
            Some (of_decimal s (ci * 10 ^ n + cf) (ex - n))
        | _ => None
        end
    | [] => None
    end.

Definition float_of_str (s : text) : exn + float :=
  let r :=
    match s with
    | 45%N :: body => parse_unsigned true body
    | _ => parse_unsigned false s
    end in
  match r with
  | Some x => inr x
  | None => inl (ValueError (T "could not convert string to float"))
  end.

(** *** Numbers of a configuration file: [int] or [float] *)

Inductive num :=
| NInt (z : Z)
| NFloat (x : float).

Definition to_float (n : num) : exn + float :=
  match n with
  | NInt z => of_int z
  | NFloat x => inr x
  end.

(** [str(n)] *)
Definition num_str (n : num) : text :=
  match n with
  | NInt z => Z_to_text z
  | NFloat x => float_str x
  end.

(** [round(n, 2)]: an [int] is returned as it is. *)
Definition num_round2 (n : num) : num :=
  match n with
  | NInt z => NInt z
  | NFloat x => NFloat (round2 x)
  end.

(** *** The built-in [sum] on floats

    CPython adds the floats from left to right; from version 3.12 on it
    carries a compensation term (Neumaier's variant of Kahan's summation)
    that is added at the end. *)
Inductive sum_algorithm := Plain | Compensated.

Definition fabs_ge (x y : float) : bool :=
  match SFcompare (SFabs x) (SFabs y) with
  | Some (Gt | Eq) => true
  | _ => false
  end.

Definition is_zero (x : float) : bool :=
  match x with S754_zero _ => true | _ => false end.

Fixpoint neumaier (f c : float) (xs : list float) : float :=
  match xs with
  | [] => if negb (is_zero c) && is_finite c then fadd f c else f
  | x :: xs' =>
      let t := fadd f x in
      let c' := if fabs_ge f x then fadd c (fadd (fsub f t) x)
                else fadd c (fadd (fsub x t) f) in
      neumaier t c' xs'
  end.

(** [sum(xs)] for floats [xs]: the start value is the [int] 0, which is also
    the result for no items; the first float is added to it as [0.0 + x]. *)
Definition py_sum (alg : sum_algorithm) (xs : list float) : num :=
  match xs with
  | [] => NInt 0
  | x :: xs' =>
      let first := fadd (S754_zero false) x in
      NFloat match alg with
             | Plain => fold_left fadd xs' first
             | Compensated => neumaier first (S754_zero false) xs'
             end
  end.

End PyFloat.

(** ** Dates: [datetime + timedelta(days=n)] *)

Module Calendar.

Local Open Scope Z_scope.

(** Days since 1970-01-01 of a date of the proleptic Gregorian calendar. *)
Definition days_from_civil (y m d : Z) : Z :=
  let y' := if m <=? 2 then y - 1 else y in
  let era := y' / 400 in
  let yoe := y' - era * 400 in
  let doy := (153 * (if 2 <? m then m - 3 else m + 9) + 2) / 5 + d - 1 in
  let doe := yoe * 365 + yoe / 4 - yoe / 100 + doy in
  era * 146097 + doe - 719468.

Definition civil_from_days (z : Z) : Z * Z * Z :=
  let z' := z + 719468 in
  let era := z' / 146097 in
  let doe := z' - era * 146097 in
  let yoe := (doe - doe / 1460 + doe / 36524 - doe / 146096) / 365 in
  let y := yoe + era * 400 in
  let doy := doe - (365 * yoe + yoe / 4 - yoe / 100) in
  let mp := (5 * doy + 2) / 153 in
  let d := doy - (153 * mp + 2) / 5 + 1 in
  let m := if mp <? 10 then mp + 3 else mp - 9 in
  (if m <=? 2 then y + 1 else y, m, d).

(** [date + timedelta(days=n)]; years outside 1..9999 raise
    [OverflowError]. *)
Definition plus_days (date : datetime) (n : Z) : exn + datetime :=
  let '(y, m, d) :=
    civil_from_days (days_from_civil (dt_year date) (dt_month date) (dt_day date) + n) in
  if (1 <=? y) && (y <=? 9999) then
    inr {| dt_year := y; dt_month := m; dt_day := d;
           dt_hour := dt_hour date; dt_minute := dt_minute date;
           dt_second := dt_second date |}
  else inl OverflowError.

End Calendar.

(** ** The generator: [generate_invoices.py] *)

Module Generator.

Import PyFloat.
Local Open Scope Z_scope.

(** An entry of the product catalogue. *)
Record product := {
  p_name : text;
  price_net_min : num;
  price_net_max : num
}.

(** The configuration; an absent key is [None] and gets the default of the
    [.get] that reads it.  The record describes a file of the shape of the
    default configuration: its sections are mappings, the tax rate, the
    counts and the days are integers, the prices are numbers, the names of
    the products and the unit are texts.  [load_config] returns what
    [yaml.safe_load] read and checks nothing, so the entries that the
    generator copies into the invoice without computing with them (those of
    the seller and of the buyer, the payment type, the currency and the
    language) are Python values of any type: an unquoted tax number is an
    [int], a key without a value is [None]. *)
Record config := {
  c_products : list product;
  c_min_positions : option Z;
  c_max_positions : option Z;
  c_min_quantity : option Z;
  c_max_quantity : option Z;
  c_tax_rate : option Z;
  c_quantity_unit : option text;
  c_payment_days : option Z;
  c_payment_type : option pyval;
  c_currency : option pyval;
  c_lang : option pyval;
  c_seller : gmap string pyval;
  c_buyer : gmap string pyval
}.

(** The truth value of a Python value, as [if v] and [v or w] take it. *)
Definition truthy (v : pyval) : bool :=
  match v with
  | VStr [] | VNone | VPositions [] => false
  | VStr (_ :: _) | VPositions (_ :: _) => true
  | VBool b => b
  | VOther t _ => t
  end.

(** What [random] returns while one line is generated: the product picked
    by [random.choice] (its index), the quantity from [random.randint], and
    the value of [random.random()] inside [random.uniform]. *)
Record line_draw := {
  d_product : nat;
  d_quantity : Z;
  d_random : float
}.

(** What [random] returns for the parties of one invoice. *)
Record party_draw := {
  r_seller_nip : text;
  r_seller_account : text;
  r_buyer_nip : text;
  r_company : text;
  r_street_name : text;
  r_street_no : Z;
  r_post_code_1 : Z;
  r_post_code_2 : Z;
  r_city : text
}.

Definition lift {A} (r : exn + A) : M A :=
  match r with
  | inr x => ret x
  | inl e => raise e
  end.

(** [random.uniform(a, b)], that is [a + (b - a) * random()]. *)
Definition num_sub (b a : num) : M num :=
  match b, a with
  | NInt zb, NInt za => ret (NInt (zb - za))
  | _, _ =>
      fb <- lift (to_float b) ;;
      fa <- lift (to_float a) ;;
      ret (NFloat (fsub fb fa))
  end.

Definition uniform (a b : num) (r : float) : M float :=
  d <- num_sub b a ;;
  fd <- lift (to_float d) ;;
  fa <- lift (to_float a) ;;
  ret (fadd fa (fmul fd r)).

(** The six amounts of a line, in the order the source computes them. *)
Record amounts := {
  a_price_net : float;
  a_price_tax : float;
  a_price_gross : float;
  a_total_price_net : float;
  a_total_price_tax : float;
  a_total_price_gross : float
}.

Definition line_amounts (drawn : float) (tax_rate quantity : Z) : M amounts :=
  let price_net := round2 drawn in
  rate <- lift (of_int tax_rate) ;;
  hundred <- lift (of_int 100) ;;
  pct <- lift (fdiv (fmul price_net rate) hundred) ;;
  let price_tax := round2 pct in
  let price_gross := round2 (fadd price_net price_tax) in
  qty <- lift (of_int quantity) ;;
  ret {| a_price_net := price_net;
         a_price_tax := price_tax;
         a_price_gross := price_gross;
         a_total_price_net := round2 (fmul price_net qty);
         a_total_price_tax := round2 (fmul price_tax qty);
         a_total_price_gross := round2 (fmul price_gross qty) |}.

Section Generate.
Variable cfg : config.

Definition tax_rate : Z := default 23 (c_tax_rate cfg).
Definition quantity_unit : text := default (T "szt") (c_quantity_unit cfg).

(** One iteration of the loop of [generate_positions]. *)
Definition generate_position (d : line_draw) : M (gmap string atom) :=
  match c_products cfg !! d_product d with
  | None => raise IndexError
  | Some product =>
      let quantity := d_quantity d in
      drawn <- uniform (price_net_min product) (price_net_max product) (d_random d) ;;
      a <- line_amounts drawn tax_rate quantity ;;
      qf <- lift (of_int quantity) ;;
      ret (list_to_map
             [ ("name", AStr (p_name product));
               ("price_net", AStr (float_str (a_price_net a)));
               ("quantity", AStr (float_str qf));
               ("total_price_gross", AStr (float_str (a_total_price_gross a)));
               ("total_price_net", AStr (float_str (a_total_price_net a)));
               ("additional_info", AStr []);
               ("quantity_unit", AStr quantity_unit);
               ("tax", AStr (Z_to_text tax_rate));
               ("price_gross", AStr (float_str (a_price_gross a)));
               ("price_tax", AStr (float_str (a_price_tax a)));
               ("total_price_tax", AStr (float_str (a_total_price_tax a)));
               ("discount", ANone);
               ("discount_percent", ANone);
               ("tax2", AStr (T "0"));
               ("code", ANone) ]%string)
  end.

(** [generate_positions()]: as many lines as [random.randint(min_pos,
    max_pos)] returned, that is one per draw. *)
Fixpoint generate_positions (draws : list line_draw) : M (list (gmap string atom)) :=
  match draws with
  | [] => ret []
  | d :: draws' =>
      position <- generate_position d ;;
      positions <- generate_positions draws' ;;
      ret (position :: positions)
  end.

(** What [random] may return, given the configuration. *)
Definition valid_draws (draws : list line_draw) : Prop :=
  default 1 (c_min_positions cfg) <= Z.of_nat (length draws)
    <= default 5 (c_max_positions cfg)
  /\ Forall (fun d =>
               (d_product d < length (c_products cfg))%nat
               /\ default 1 (c_min_quantity cfg) <= d_quantity d
                    <= default 10 (c_max_quantity cfg)
               /\ SFleb (S754_zero false) (d_random d) = true
               /\ SFltb (d_random d) (S754_finite false 4503599627370496 (-52)) = true)
            draws.

(** [generate_seller()]: the configured values are passed on as they are. *)
Definition generate_seller (r : party_draw) : gmap string pyval :=
  let seller := c_seller cfg in
  let get k dflt := default (VStr dflt) (seller !! k) in
  list_to_map
    [ ("seller_name", get "name" (T "DEFAULT SELLER"));
      ("seller_tax_no", get "tax_no" (r_seller_nip r));
      ("seller_street", get "street" (T "ul. Sprzedawcy 1"));
      ("seller_post_code", get "post_code" (T "00-000"));
      ("seller_city", get "city" (T "Warszawa"));
      ("seller_country", get "country" (T "PL"));
      ("seller_email", get "email" []);
      ("seller_phone", get "phone" []);
      ("seller_fax", VStr []);
      ("seller_www", VStr []);
      ("seller_person", get "person" []);
      ("seller_bank", get "bank" (T "PKO BP"));
      ("seller_bank_account", get "bank_account" (r_seller_account r)) ]%string.

(** [d.get(k)] where it stands for a condition or before [or]: the value
    when it is present and true, [None] otherwise. *)
Definition get_true (d : gmap string pyval) (k : string) : option pyval :=
  match d !! k with
  | Some v => if truthy v then Some v else None
  | None => None
  end.

(** [generate_buyer()]: the configured buyer when it has a name that is
    true, a random one otherwise. *)
Definition generate_buyer (r : party_draw) : gmap string pyval :=
  let buyer := c_buyer cfg in
  let get k dflt := default (VStr dflt) (buyer !! k) in
  match get_true buyer "name" with
  | Some name =>
      list_to_map
        [ ("buyer_name", name);
          ("buyer_tax_no", default (VStr (r_buyer_nip r)) (get_true buyer "tax_no"));
          ("buyer_street", get "street" (T "ul. Kupujacego 10"));
          ("buyer_post_code", get "post_code" (T "00-001"));
          ("buyer_city", get "city" (T "Warszawa"));
          ("buyer_country", get "country" (T "PL"));
          ("buyer_email", get "email" []);
          ("buyer_phone", get "phone" []);
          ("buyer_company", VBool true) ]%string
  | None =>
      list_to_map
        [ ("buyer_name", VStr (r_company r));
          ("buyer_tax_no", VStr (r_buyer_nip r));
          ("buyer_street",
            VStr (T "ul. " ++ r_street_name r ++ T " " ++ Z_to_text (r_street_no r)));
          ("buyer_post_code",
            VStr (Z_to_text (r_post_code_1 r) ++ T "-" ++ Z_to_text (r_post_code_2 r)));
          ("buyer_city", VStr (r_city r));
          ("buyer_country", VStr (T "PL"));
          ("buyer_email", VStr []);
          ("buyer_phone", VStr []);
          ("buyer_company", VBool true) ]%string
  end.


(** [float(p[key])] for the key of a line total. *)
Definition total_of (key : string) (p : gmap string atom) : M float :=
  v <- subscript p key ;;
  match v with
  | AStr s => lift (float_of_str s)
  | ANone => raise (Exception (T "float() argument must be a string or a real number"))
  end.

Fixpoint totals_of (key : string) (ps : list (gmap string atom)) : M (list float) :=
  match ps with
  | [] => ret []
  | p :: ps' =>
      x <- total_of key p ;;
      xs <- totals_of key ps' ;;
      ret (x :: xs)
  end.

(** [str(round(sum(float(p[key]) for p in positions), 2))] *)
Definition aggregate (alg : sum_algorithm) (key : string)
           (positions : list (gmap string atom)) : M text :=
  xs <- totals_of key positions ;;
  ret (num_str (num_round2 (py_sum alg xs))).

(** [generate_invoice(invoice_number, date=None)] *)
Definition generate_invoice (alg : sum_algorithm) (draws : list line_draw)
           (parties : party_draw) (invoice_number : Z) (date : option datetime)
  : M (gmap string pyval) :=
  w <- get_world ;;
  let date := default (w_now w) date in
  let payment_days := default 7 (c_payment_days cfg) in
  let issue_date := strftime_date date in
  let sell_date := strftime_date date in
  due <- lift (Calendar.plus_days date payment_days) ;;
  let payment_to := strftime_date due in
  positions <- generate_positions draws ;;
  price_net <- aggregate alg "total_price_net" positions ;;
  price_tax <- aggregate alg "total_price_tax" positions ;;
  price_gross <- aggregate alg "total_price_gross" positions ;;
  let invoice : gmap string pyval :=
    list_to_map
      [ ("number", VStr (Z_to_text invoice_number ++ T "/" ++ Z_to_text (dt_month date)
                           ++ T "/" ++ Z_to_text (dt_year date)));
        ("place", VStr []);
        ("sell_date", VStr sell_date);
        ("payment_type", default (VStr (T "transfer")) (c_payment_type cfg));
        ("price_net", VStr price_net);
        ("price_gross", VStr price_gross);
        ("currency", default (VStr (T "PLN")) (c_currency cfg));
        ("description", VStr []);
        ("kind", VStr (T "vat"));
        ("payment_to", VStr payment_to);
        ("paid", VStr price_gross);
        ("seller_bank_account_id", VNone);
        ("lang", default (VStr (T "pl")) (c_lang cfg));
        ("issue_date", VStr issue_date);
        ("price_tax", VStr price_tax);
        ("oid", VStr []);
        ("discount", VStr (T "0.0"));
        ("show_discount", VBool false);
        ("description_long", VStr []);
        ("buyer_tax_no_kind", VNone);
        ("seller_tax_no_kind", VNone);
        ("description_footer", VStr []);
        ("sell_date_kind", VStr []);
        ("payment_to_kind", VStr (T "1"));
        ("exchange_currency", VNone);
        ("discount_kind", VStr (T "percent_total"));
        ("income", VBool true);
        ("exchange_kind", VStr (T "nbp"));
        ("exchange_rate", VStr (T "1.0"));
        ("delivery_address", VStr []);
        ("buyer_person", VStr []);
        ("buyer_bank_account", VNone);
        ("buyer_bank", VNone);
        ("exchange_note", VStr []);
        ("exchange_currency_rate", VNone);
        ("exchange_date", VNone);
        ("split_payment", VStr (T "0"));
        ("buyer_mobile_phone", VStr []);
        ("seller_bdo_no", VStr []);
        ("e_receipt_view_url", VNone);
        ("buyer_www", VNone);
        ("buyer_fax", VNone);
        ("positions", VPositions positions) ]%string in
  (* invoice.update(seller); invoice.update(buyer) *)
  ret (generate_buyer parties ∪ (generate_seller parties ∪ invoice)).

End Generate.

End Generator.

(** * Sample inputs *)

Module Samples.

Import Rules.

(** Lines joined by [\n]. *)
Definition lines (ls : list string) : text := join [NL] (T <$> ls).

(** A Polish invoice, as the text of its PDF. *)
Definition polish_invoice : text :=
  lines [ "Faktura numer 12/4/2025";
          "Data wystawienia: 02.04.2025";
          "Sprzedawca";
          "ACME SP Z O O";
          "ul. Testowa 1, 00-950 Warszawa";
          "NIP 123-456-78-90";
          "Nabywca";
          "MEGA CORP";
          "NIP 9876543210";
          "Netto: 1000 PLN";
          "VAT: 230 PLN";
          "Brutto: 1230 PLN" ]%string.

(** The same without the buyer's tax identifier. *)
Definition incomplete_invoice : text :=
  lines [ "Faktura numer 12/4/2025";
          "Data wystawienia: 02.04.2025";
          "Sprzedawca";
          "ACME SP Z O O";
          "NIP 123-456-78-90";
          "Nabywca";
          "MEGA CORP";
          "Netto: 1000 PLN";
          "VAT: 230 PLN";
          "Brutto: 1230 PLN" ]%string.

Definition date_line : text := T "Data wystawienia: 02.04.2025".

(** An English date line before the Polish one. *)
Definition two_dates : text :=
  lines [ "Date: 1 May 2024"; "Data wystawienia: 02.04.2025" ]%string.

(** A net total with a decimal comma. *)
Definition comma_amount : text := T "Wartość netto: 1234,56 PLN".

(** One address line with a postal code, no [Bill To]. *)
Definition one_postal : text :=
  lines [ "Sprzedawca"; "ACME"; "ul. Testowa 1, 00-950 Warszawa" ]%string.

(** *** A stand-in for the Python libraries

    A plain rendering of the tree, a checker that accepts a document when it
    contains the text of the schema file, and a reader of JSON that knows one
    answer.  They serve to run the converter on the samples. *)

Fixpoint render (fuel : nat) (indent : text) (e : element) : text :=
  match fuel with
  | O => []
  | S fuel' =>
      let '(Element tag attrib etext children) := e in
      let name := last_part (split_char 125 tag) in
      let attrs :=
        concat ((fun a : text * text =>
                   T " " ++ last_part (split_char 125 a.1) ++ T "='" ++ a.2 ++ T "'")
                  <$> attrib) in
      let body :=
        match etext with
        | VStr s => s
        | _ => []
        end in
      match children with
      | [] =>
          indent ++ T "<" ++ name ++ attrs ++ T ">" ++ body ++ T "</" ++ name
            ++ T ">" ++ [NL]
      | _ =>
          indent ++ T "<" ++ name ++ attrs ++ T ">" ++ [NL]
            ++ concat (render fuel' (indent ++ T "    ") <$> children)
            ++ indent ++ T "</" ++ name ++ T ">" ++ [NL]
      end
  end.

Definition sample_format (v : pyval) : text :=
  match v with
  | VStr s => s
  | VNone => T "None"
  | VBool true => T "True"
  | VBool false => T "False"
  | VPositions _ => T "[...]"
  | VOther _ printed => printed
  end.

(** The record a well-behaved completion service answers with. *)
Definition ai_record : gmap string pyval :=
  VStr <$> (list_to_map
    [ ("seller_name", T "ACME SP Z O O"); ("seller_tax_no", T "1234567890");
      ("seller_street", T "Testowa 1"); ("seller_country", T "PL");
      ("buyer_name", T "MEGA CORP"); ("buyer_tax_no", T "9876543210");
      ("buyer_street", T "Nowa 5"); ("buyer_post_code", T "00-950");
      ("buyer_city", T "Warszawa"); ("buyer_country", T "PL");
      ("currency", T "PLN"); ("issue_date", T "2025-04-02");
      ("number", T "12/4/2025"); ("price_net", T "1000.00");
      ("price_tax", T "230.00"); ("price_gross", T "1230.00") ]%string
    : gmap string text).

Definition sample_lib : PyLib := {|
  py_format := sample_format;
  py_format_str := fun s => eq_refl;
  xml_pretty := fun e => inr (render 8 [] e);
  xsd_check := fun schema_doc xml =>
    if is_infix schema_doc xml then XsdValid
    else XsdInvalid [(1%Z, T "Element not expected")];
  json_loads := fun s =>
    if is_prefix (T "{") s then Some (JObject ai_record) else None;
  ai_prompt := fun txt => T "Extract invoice data. Invoice Text:" ++ [NL] ++ txt
|}.

Definition sample_client : client := fun prompt => inr (T "```json{ }```").

Definition schema_file : string :=
  "/project/src/main/resources/schemat_FA(2)_v1-0E.xsd".

Definition clock : datetime :=
  {| dt_year := 2025; dt_month := 4; dt_day := 28;
     dt_hour := 9; dt_minute := 5; dt_second := 7 |}.

(** A world with the schema file and two PDFs; the schema text [<Faktura] is
    contained in every document the converter prints, [<Rachunek] in none. *)
Definition world_with (schema_doc : string) : world :=
  {| w_files := {[ schema_file := T schema_doc ]};
     w_pdfs := {[ "good.pdf"%string := [Some polish_invoice];
                  "partial.pdf"%string := [Some incomplete_invoice] ]};
     w_now := clock;
     w_api_log := [] |}.

Definition accepting_world : world := world_with "<Faktura".
Definition rejecting_world : world := world_with "<Rachunek".

(** The same world one second later. *)
Definition later_world : world :=
  {| w_files := ∅; w_pdfs := ∅;
     w_now := {| dt_year := 2025; dt_month := 4; dt_day := 28;
                 dt_hour := 9; dt_minute := 5; dt_second := 8 |};
     w_api_log := [] |}.

Definition with_ai : Converter.converter :=
  Converter.new_converter "/project" (Some sample_client) FA2.
Definition without_ai : Converter.converter :=
  Converter.new_converter "/project" None FA2.

(** A complete record, and the same without the buyer's postal code. *)
Definition no_post_code : gmap string pyval := delete "buyer_post_code"%string ai_record.

(** *** Generator configurations *)

Import PyFloat Generator.

(** One product [A] with the net price [price] as both ends of its range,
    tax rate 23 and lines of quantity [qty]. *)
Definition one_product (price qty : Z) : config :=
  {| c_products := [ {| p_name := T "A"; price_net_min := NInt price;
                        price_net_max := NInt price |} ];
     c_min_positions := Some 1%Z; c_max_positions := Some 1%Z;
     c_min_quantity := Some qty; c_max_quantity := Some qty;
     c_tax_rate := Some 23%Z; c_quantity_unit := None;
     c_payment_days := None; c_payment_type := None; c_currency := None;
     c_lang := None; c_seller := ∅; c_buyer := ∅ |}.

(** The scenario of the specification: price 100, one line of quantity 2. *)
Definition scenario : config := one_product 100 2.

(** A line of product 0 with the quantity [qty]; [random()] returned 0.5. *)
Definition one_half : float := S754_finite false 4503599627370496 (-53).
Definition draw_of (qty : Z) : line_draw :=
  {| d_product := 0; d_quantity := qty; d_random := one_half |}.

(** The line the scenario generates. *)
Definition scenario_position : gmap string atom :=
  list_to_map
    [ ("name", AStr (T "A")); ("price_net", AStr (T "100.0"));
      ("quantity", AStr (T "2.0"));
      ("total_price_gross", AStr (T "246.0"));
      ("total_price_net", AStr (T "200.0"));
      ("additional_info", AStr []);
      ("quantity_unit", AStr (T "szt")); ("tax", AStr (T "23"));
      ("price_gross", AStr (T "123.0"));
      ("price_tax", AStr (T "23.0"));
      ("total_price_tax", AStr (T "46.0"));
      ("discount", ANone); ("discount_percent", ANone);
      ("tax2", AStr (T "0")); ("code", ANone) ]%string.


Definition parties : party_draw :=
  {| r_seller_nip := T "1234567890"; r_seller_account := T "11112222333344445555666677";
     r_buyer_nip := T "9876543210"; r_company := T "MEGA CORP";
     r_street_name := T "Nowa"; r_street_no := 5;
     r_post_code_1 := 12; r_post_code_2 := 345; r_city := T "Krakow" |}.

(** A configuration file with two products whose price ranges are proper
    intervals, and with a seller and a buyer; the buyer's tax number is
    left empty. *)
Definition catalogue_products : list product :=
  [ {| p_name := T "A"; price_net_min := NInt 100; price_net_max := NInt 500 |};
    {| p_name := T "B"; price_net_min := NInt 7; price_net_max := NInt 90 |} ].

Definition configured_seller : gmap string pyval :=
  list_to_map
    [ ("name", VStr (T "ACME SP Z O O")); ("tax_no", VStr (T "1234567890"));
      ("street", VStr (T "ul. Testowa 1")) ]%string.

Definition configured_buyer : gmap string pyval :=
  list_to_map
    [ ("name", VStr (T "MEGA CORP")); ("tax_no", VStr []);
      ("city", VStr (T "Gdynia")) ]%string.

Definition catalogue_with (seller : gmap string pyval) : config :=
  {| c_products := catalogue_products;
     c_min_positions := Some 1%Z; c_max_positions := Some 5%Z;
     c_min_quantity := Some 1%Z; c_max_quantity := Some 10%Z;
     c_tax_rate := Some 23%Z; c_quantity_unit := Some (T "szt");
     c_payment_days := Some 14%Z; c_payment_type := Some (VStr (T "transfer"));
     c_currency := Some (VStr (T "PLN")); c_lang := Some (VStr (T "pl"));
     c_seller := seller; c_buyer := configured_buyer |}.

Definition catalogue : config := catalogue_with configured_seller.


(** Three lines: product A three times at [random()] = 0.7, product B seven
    times at 0.30000000000000004, product A once at 0.06251370645697074. *)
Definition last_draw : line_draw :=
  {| d_product := 0; d_quantity := 1;
     d_random := S754_finite false 4504587281682592 (-56) |}.

Definition three_draws : list line_draw :=
  [ {| d_product := 0; d_quantity := 3;
       d_random := S754_finite false 6305039478318694 (-53) |};
    {| d_product := 1; d_quantity := 7;
       d_random := S754_finite false 5404319552844596 (-54) |};
    last_draw ].

End Samples.

(** * Amounts in hundredths

    The notions in which the properties of the generated amounts are stated:
    the rounding error of binary64, floats that are not negative, amounts
    counted in hundredths, and the bounds on a configuration and on what
    [random] returns under which the arithmetic of the generator is exact. *)

Module Amounts.

Import PyFloat Generator.

(** The relative rounding error of binary64, and its absolute error near
    zero. *)
Definition eps : Q := Qpower 2 (-53).
Definition eta : Q := Qpower 2 (-1075).

(** A finite float that is not negative; this excludes [-0.0]. *)
Definition nonneg (x : float) : Prop := is_finite x = true /\ sign_of x = false.

(** An ASCII digit. *)
Definition is_digit (d : N) : Prop := (48 <= d <= 57)%N.

(** The number a run of digits denotes, after the digits already read. *)
Definition digits_num (s : text) (acc : Z) : Z :=
  fold_left (fun a d => (10 * a + Z.of_N (d - 48))%Z) s acc.

(** The sum of a list of amounts in hundredths. *)
Definition zsum (cs : list Z) : Z := fold_right Z.add 0%Z cs.

(** A line total of at most [2 * 10^8] currency units, in hundredths. *)
Definition line_cents_ok (c : Z) : Prop := (0 <= c <= 20000000000)%Z.

(** The value of a number of the configuration. *)
Definition num_value (n : num) : Q :=
  match n with
  | NInt z => inject_Z z
  | NFloat x => to_Q x
  end.

Definition num_ok (n : num) : Prop :=
  match n with
  | NInt z => (0 <= z)%Z
  | NFloat x => nonneg x
  end.

(** The three totals of a line, in hundredths: net [nt.1], tax [nt.2] and
    gross, their sum. *)
Definition line_totals (p : gmap string atom) (nt : Z * Z) : Prop :=
  (0 <= nt.1 <= 10000000000)%Z /\ (0 <= nt.2 <= 10000000000)%Z
  /\ p !! "total_price_net"%string = Some (AStr (float_str (of_cents nt.1)))
  /\ p !! "total_price_tax"%string = Some (AStr (float_str (of_cents nt.2)))
  /\ p !! "total_price_gross"%string
     = Some (AStr (float_str (of_cents (nt.1 + nt.2)%Z))).

(** A product whose price range lies within [0, 99999]. *)
Definition bounded_product (p : product) : Prop :=
  num_ok (price_net_min p) /\ num_ok (price_net_max p)
  /\ (num_value (price_net_min p) <= num_value (price_net_max p))%Q
  /\ (num_value (price_net_max p) <= 99999)%Q.

(** A quantity of 1 to 1000 and a value of [random()] within [[0, 1]]. *)
Definition bounded_draw (d : line_draw) : Prop :=
  (1 <= d_quantity d <= 1000)%Z /\ nonneg (d_random d)
  /\ (to_Q (d_random d) <= 1)%Q.

End Amounts.

(** * The amount in words: [pdf_generator.py] *)

Module Pdf.

Import PyFloat Generator.
Local Open Scope Z_scope.

(** [int(x)] for a float: the integer towards zero. *)
Definition int_of_float (x : float) : exn + Z :=
  match x with
  | S754_nan => inl (ValueError (T "cannot convert float NaN to integer"))
  | S754_infinity _ => inl OverflowError
  | _ => inr (if Qle_bool 0 (to_Q x) then Qfloor (to_Q x) else Qceiling (to_Q x))
  end.

(** [round(x)] for a float: the nearest integer, ties to even. *)
Definition round_to_int (x : float) : exn + Z :=
  match x with
  | S754_nan => inl (ValueError (T "cannot convert float NaN to integer"))
  | S754_infinity _ => inl OverflowError
  | _ => inr (round_half_even (to_Q x))
  end.

Definition ones : list text :=
  T <$> [ ""; "jeden"; "dwa"; "trzy"; "cztery"; "pięć"; "sześć"; "siedem";
          "osiem"; "dziewięć" ]%string.
Definition teens : list text :=
  T <$> [ "dziesięć"; "jedenaście"; "dwanaście"; "trzynaście"; "czternaście";
          "piętnaście"; "szesnaście"; "siedemnaście"; "osiemnaście";
          "dziewiętnaście" ]%string.
Definition tens : list text :=
  T <$> [ ""; ""; "dwadzieścia"; "trzydzieści"; "czterdzieści"; "pięćdziesiąt";
          "sześćdziesiąt"; "siedemdziesiąt"; "osiemdziesiąt";
          "dziewięćdziesiąt" ]%string.
Definition hundreds : list text :=
  T <$> [ ""; "sto"; "dwieście"; "trzysta"; "czterysta"; "pięćset"; "sześćset";
          "siedemset"; "osiemset"; "dziewięćset" ]%string.

(** [l[i]]: a negative index counts from the end. *)
Definition item (l : list text) (i : Z) : M text :=
  let n := Z.of_nat (length l) in
  let j := if i <? 0 then i + n else i in
  if (0 <=? j) && (j <? n) then
    match l !! Z.to_nat j with
    | Some x => ret x
    | None => raise IndexError
    end
  else raise IndexError.

(** [convert_group(num)]: a group of three digits in words; [//] and [%]
    round towards minus infinity, as [Z.div] and [Z.modulo] do. *)
Definition convert_group (num : Z) : M text :=
  if num =? 0 then ret []
  else
    let h := num / 100 in
    let t := (num mod 100) / 10 in
    let o := num mod 10 in
    result <- (if 0 <? h then x <- item hundreds h ;; ret [x] else ret []) ;;
    result <- (if t =? 1 then x <- item teens o ;; ret (result ++ [x])
               else
                 result <- (if 0 <? t then x <- item tens t ;; ret (result ++ [x])
                            else ret result) ;;
                 (if 0 <? o then x <- item ones o ;; ret (result ++ [x])
                  else ret result)) ;;
    ret (join (T " ") result).

(** [num % 10 in [2, 3, 4] and (num % 100 < 10 or num % 100 >= 20)] *)
Definition takes_plural (num : Z) : bool :=
  existsb (Z.eqb (num mod 10)) [2; 3; 4]
  && ((num mod 100 <? 10) || (20 <=? num mod 100)).

Definition zloty_form (num : Z) : text :=
  if num =? 1 then T "złoty"
  else if takes_plural num then T "złote"
  else T "złotych".

Definition grosze_form (num : Z) : text :=
  if num =? 1 then T "grosz"
  else if takes_plural num then T "grosze"
  else T "groszy".

(** The words for the whole part. *)
Definition zloty_words (zloty : Z) : M text :=
  if zloty =? 0 then ret (T "zero")
  else if zloty <? 1000 then convert_group zloty
  else if zloty <? 1000000 then
    let thousands := zloty / 1000 in
    let remainder := zloty mod 1000 in
    thousands_word <- convert_group thousands ;;
    let thousands_word :=
      if thousands =? 1 then T "tysiąc"
      else if takes_plural thousands then thousands_word ++ T " tysiące"
      else thousands_word ++ T " tysięcy" in
    words <- (if 0 <? remainder
              then x <- convert_group remainder ;; ret [thousands_word; x]
              else ret [thousands_word]) ;;
    ret (join (T " ") words)
  else ret (Z_to_text zloty).

(** The body of [_number_to_words_pl] once [zloty] and [grosze] are known. *)
Definition amount_in_words (zloty grosze : Z) : M text :=
  if (zloty =? 0) && (grosze =? 0) then ret (T "zero złotych zero groszy")
  else
    zloty_words <- zloty_words zloty ;;
    let result := zloty_words ++ T " " ++ zloty_form zloty in
    if 0 <? grosze then
      grosze_words <- convert_group grosze ;;
      ret (result ++ T " " ++ grosze_words ++ T " " ++ grosze_form grosze)
    else ret result.

(** [_number_to_words_pl(amount)] *)
Definition number_to_words_pl (amount : float) : M text :=
  zloty <- lift (int_of_float amount) ;;
  whole <- lift (of_int zloty) ;;
  hundred <- lift (of_int 100) ;;
  grosze <- lift (round_to_int (fmul (fsub amount whole) hundred)) ;;
  amount_in_words zloty grosze.

(** [float(data['price_gross'])] followed by [_number_to_words_pl], as
    [_create_payment_info] does for a value that is a string. *)
Definition gross_in_words (price_gross : text) : M text :=
  gross <- lift (float_of_str price_gross) ;;
  number_to_words_pl gross.

End Pdf.

(** ** Reading an amount in words

    The words of [_number_to_words_pl] read back, word by word: the value
    read so far and, after the word for the currency, the whole part.  It
    serves to show that the words determine the amount. *)

Module Reading.

Import PyFloat Generator Pdf.
Local Open Scope Z_scope.

Inductive word :=
| Number (v : Z)
| Thousand
| Zloty
| Grosz
| Unknown.

Fixpoint index_from (k : Z) (t : text) (l : list text) : option Z :=
  match l with
  | [] => None
  | x :: l' => if text_eqb t x then Some k else index_from (k + 1) t l'
  end.

Definition is_one_of (t : text) (l : list string) : bool :=
  existsb (fun s => text_eqb t (T s)) l.

Definition classify (t : text) : word :=
  if is_one_of t ["złoty"; "złote"; "złotych"]%string then Zloty
  else if is_one_of t ["grosz"; "grosze"; "groszy"]%string then Grosz
  else if is_one_of t ["tysiąc"; "tysiące"; "tysięcy"]%string then Thousand
  else if text_eqb t (T "zero") then Number 0
  else
    match index_from 0 t hundreds, index_from 0 t tens,
          index_from 0 t teens, index_from 0 t ones with
    | Some i, _, _, _ => Number (100 * i)
    | _, Some i, _, _ => Number (10 * i)
    | _, _, Some i, _ => Number (10 + i)
    | _, _, _, Some i => Number i
    | _, _, _, _ =>
        match digits_opt t with
        | Some v => Number v
        | None => Unknown
        end
    end.

Definition read_step (st : Z * option Z) (t : text) : Z * option Z :=
  match classify t with
  | Number v => (st.1 + v, st.2)
  | Thousand => ((if st.1 =? 0 then 1 else st.1) * 1000, st.2)
  | Zloty => (0, Some st.1)
  | Grosz | Unknown => st
  end.

Definition read_words (s : text) (st : Z * option Z) : Z * option Z :=
  fold_left read_step (split_char 32 s) st.

(** The whole part and the hundredths. *)
Definition read_amount (s : text) : Z * Z :=
  match read_words s (0, None) with
  | (cur, Some whole) => (whole, cur)
  | (cur, None) => (cur, 0)
  end.

(** The numbers a list of words stands for, when all of them are numbers. *)
Fixpoint numbers_of (ws : list word) : option (list Z) :=
  match ws with
  | [] => Some []
  | Number v :: ws' => cons v <$> numbers_of ws'
  | _ :: ws' => None
  end.

(** The words of a group of three digits, in any world, are numbers that
    add up to the group. *)
Definition group_reads (w : world) (n : Z) : bool :=
  match convert_group n w with
  | (inr s, _) =>
      match numbers_of (classify <$> split_char 32 s) with
      | Some vs => fold_right Z.add 0 vs =? n
      | None => false
      end
  | _ => false
  end.

(** A word that does not begin with a digit. *)
Definition starts_without_digit (x : text) : bool :=
  match x with
  | [] => true
  | c :: _ => negb ((48 <=? c) && (c <=? 57))%N
  end.

End Reading.

(** * Batches of invoices: [generate_invoices] and the names of the files *)

Module Batch.

Import PyFloat Generator.
Local Open Scope Z_scope.

(** What [random] returns for one invoice of a batch: the days its date
    goes back ([random.randint(0, 30)]), its lines and its parties. *)
Record invoice_draw := {
  i_days : Z;
  i_lines : list line_draw;
  i_parties : party_draw
}.

Section Batch.
Variable cfg : config.
Variable alg : sum_algorithm.
(** The draws of the iteration that generates the invoice number [i]. *)
Variable draws : Z -> invoice_draw.

(** The loop of [generate_invoices]: [n] more iterations, from number [i]. *)
Fixpoint generate_from (start_date : datetime) (n : nat) (i : Z)
  : M (list (gmap string pyval)) :=
  match n with
  | O => ret []
  | S n' =>
      invoice_date <- lift (Calendar.plus_days start_date (- i_days (draws i))) ;;
      invoice <- generate_invoice cfg alg (i_lines (draws i)) (i_parties (draws i))
                   i (Some invoice_date) ;;
      invoices <- generate_from start_date n' (i + 1) ;;
      ret (invoice :: invoices)
  end.

(** [generate_invoices(count, start_date=None)]: [range(1, count + 1)] is
    empty for a [count] below 1. *)
Definition generate_invoices (count : Z) (start_date : option datetime)
  : M (list (gmap string pyval)) :=
  w <- get_world ;;
  let start_date := default (w_now w) start_date in
  generate_from start_date (Z.to_nat count) 1.

End Batch.

(** The file name [save_invoices] gives an invoice:
    [f"faktura-{invoice['number'].replace('/', '-')}.{output_format}"]. *)
Definition invoice_filename (number output_format : text) : text :=
  T "faktura-" ++ replace_char (Rules.cc "/") (Rules.cc "-") number
    ++ T "." ++ output_format.

End Batch.

(** * The language of a pattern

    What a pattern matches, as a relation; the matcher is sound for it, which
    tells what the text of a match and of its groups can be. *)

Section Language.
Context {U : UnicodeTables}.

(** [icase] is the [re.IGNORECASE] flag. *)
Variable icase : bool.

Inductive lang : regex -> text -> Prop :=
| lang_eps : lang Eps []
| lang_lit (c x : N) : lit_matches icase c x = true -> lang (Lit c) [x]
| lang_set (neg : bool) (items : list cset_item) (x : N) :
    set_matches icase neg items x = true -> lang (Set_ neg items) [x]
| lang_cat (r1 r2 : regex) (a b : text) :
    lang r1 a -> lang r2 b -> lang (Cat r1 r2) (a ++ b)
| lang_alt_l (r1 r2 : regex) (a : text) : lang r1 a -> lang (Alt r1 r2) a
| lang_alt_r (r1 r2 : regex) (a : text) : lang r2 a -> lang (Alt r1 r2) a
| lang_star_nil (r : regex) : lang (Star r) []
| lang_star_cons (r : regex) (a b : text) :
    lang r a -> lang (Star r) b -> lang (Star r) (a ++ b)
| lang_group (i : nat) (r : regex) (a : text) : lang r a -> lang (Group i r) a.

End Language.

(** [Group i r'] occurs in [r]. *)
Fixpoint has_group (i : nat) (r' : regex) (r : regex) : Prop :=
  match r with
  | Eps | Lit _ | Set_ _ _ => False
  | Cat r1 r2 | Alt r1 r2 => has_group i r' r1 \/ has_group i r' r2
  | Star r1 => has_group i r' r1
  | Group j r1 => (j = i /\ r1 = r') \/ has_group i r' r1
  end.

(** [Group i] lies on every path through [r]. *)
Fixpoint sure_group (i : nat) (r : regex) : bool :=
  match r with
  | Eps | Lit _ | Set_ _ _ | Star _ => false
  | Cat r1 r2 => sure_group i r1 || sure_group i r2
  | Alt r1 r2 => sure_group i r1 && sure_group i r2
  | Group j r1 => Nat.eqb i j || sure_group i r1
  end.

(** The captures [cs'] after a match of [r] that started with [cs]: the new
    ones are in front, each is the text of a group of [r] and lies in the
    language of the group's pattern, and a group on every path has one. *)
Definition captures_of {U : UnicodeTables} (icase : bool) (r : regex)
           (cs cs' : caps) : Prop :=
  exists new : caps,
    cs' = new ++ cs
    /\ (forall (i : nat) (t : text),
          In (i, t) new -> exists r', has_group i r' r /\ lang icase r' t)
    /\ (forall i : nat,
          sure_group i r = true -> exists t, cap_lookup i new = Some t).

(** * The shape of the amounts of the rules

    An amount the rule cascade stores: two characters after the last decimal
    point. *)

Definition two_decimals (v : text) : Prop :=
  exists body a b,
    v = body ++ [Rules.cc "."; a; b] /\ a <> Rules.cc "." /\ b <> Rules.cc ".".

(** A date in the form [yyyy-mm-dd]. *)
Definition iso_shaped {U : UnicodeTables} (v : text) : Prop :=
  exists year month day : text,
    v = year ++ Rules.cc "-" :: month ++ Rules.cc "-" :: day
    /\ length year = 4%nat /\ length month = 2%nat /\ length day = 2%nat
    /\ Forall (fun x => uni_isdecimal x = true) (year ++ month ++ day).

(** A character of [[\d,\s]], found without regard to case, and what is
    left of them once blanks and commas are removed. *)
Definition amount_part {U : UnicodeTables} (x : N) : Prop :=
  uni_isdecimal x = true \/ x = Rules.cc "," \/ uni_isspace x = true.

Definition amount_rest {U : UnicodeTables} (x : N) : Prop :=
  uni_isdecimal x = true \/ (uni_isspace x = true /\ x <> Rules.cc " ").

(** An amount: decimal digits, possibly with white space other than blanks
    among them, a decimal point and two decimal digits. *)
Definition amount_shaped {U : UnicodeTables} (v : text) : Prop :=
  exists (body : text) (a b : N),
    v = body ++ [Rules.cc "."; a; b]
    /\ Forall amount_rest body
    /\ uni_isdecimal a = true /\ uni_isdecimal b = true.

(** * More sample inputs *)

Module Examples.

Import PyFloat Generator.

(** The invoice the scenario generates, numbered 1, at the clock's date. *)
Definition scenario_invoice : gmap string pyval :=
  Eval vm_compute in
  match generate_invoice Samples.scenario Plain [Samples.draw_of 2] Samples.parties
          1%Z None Samples.accepting_world with
  | (inr inv, _) => inv
  | _ => ∅
  end.

(** The third line of [Samples.three_draws], generated from the catalogue. *)
Definition catalogue_position : gmap string atom :=
  Eval vm_compute in
  match generate_position Samples.catalogue Samples.last_draw
          Samples.accepting_world with
  | (inr p, _) => p
  | _ => ∅
  end.

(** The invoice of three lines generated from the catalogue, numbered 7. *)
Definition three_line_invoice : gmap string pyval :=
  Eval vm_compute in
  match generate_invoice Samples.catalogue Compensated Samples.three_draws
          Samples.parties 7%Z None Samples.accepting_world with
  | (inr inv, _) => inv
  | _ => ∅
  end.



(** Two invoice numbers: the one of the fourth pattern stands first in the
    text, the one of the third pattern after it. *)
Definition two_numbers : text :=
  Samples.lines [ "FV/1/4/2025"; "Faktura VAT 12/4/2025" ]%string.

(** A gross total given twice: the line of the later pattern comes first. *)
Definition two_totals : text :=
  Samples.lines [ "Razem: 1250 PLN"; "Brutto: 1230 PLN" ]%string.

(** A date with an abbreviated month name. *)
Definition abbreviated_month : text := T "Date: 5 Sept 2024".

(** The complete record with a city of the seller. *)
Definition with_seller_city : gmap string pyval :=
  <["seller_city"%string := VStr (T "Gdynia")]> Samples.ai_record.

(** The draws of a batch: the invoice number [i] goes back [i] days. *)
Definition batch_draws (i : Z) : Batch.invoice_draw :=
  {| Batch.i_days := i; Batch.i_lines := [Samples.draw_of 2];
     Batch.i_parties := Samples.parties |}.

(** The batch of two invoices of the scenario, from the clock's date. *)
Definition scenario_batch : list (gmap string pyval) :=
  Eval vm_compute in
  match Batch.generate_invoices Samples.scenario Plain batch_draws 2 None
          Samples.accepting_world with
  | (inr invoices, _) => invoices
  | _ => []
  end.

(** A world with a scanned PDF: two pages, none with text. *)
Definition scanned_world : world :=
  {| w_files := w_files Samples.accepting_world;
     w_pdfs := {[ "scan.pdf"%string := [None; Some []] ]};
     w_now := Samples.clock;
     w_api_log := [] |}.

(** A date of sale, day first. *)
Definition sale_date : text := T "Data sprzedaży: 31/12/2024".

(** Amounts at the end of their lines. *)
Definition amounts_at_line_ends : text :=
  Samples.lines [ "Netto: 1000"; "VAT: 230"; "Brutto: 1230" ]%string.

End Examples.

(** * Properties *)

(** ** The rule cascade *)

Section RulesFacts.
Context {U : UnicodeTables}.
Import Rules.

(** Each step of the cascade writes a fixed set of keys. *)

Lemma step_nip_other txt d k :
  k ≠ "seller_tax_no"%string -> k ≠ "buyer_tax_no"%string ->
  step_nip txt d !! k = d !! k.
Proof.
  intros H1 H2. unfold step_nip.
  destruct (findall1 true nip_pattern txt) as [|n0 [|n1 l]]; try reflexivity;
    repeat (rewrite lookup_insert_ne by congruence); reflexivity.
Qed.

Lemma step_number_other txt d k :
  k ≠ "number"%string -> step_number txt d !! k = d !! k.
Proof.
  intros H1. unfold step_number.
  destruct (first_match invoice_num_patterns txt) as [[p m]|]; try reflexivity.
  rewrite lookup_insert_ne by congruence. reflexivity.
Qed.

Lemma step_date_other txt d k :
  k ≠ "issue_date"%string -> step_date txt d !! k = d !! k.
Proof.
  intros H1. unfold step_date.
  destruct (first_match date_patterns txt) as [[p m]|]; try reflexivity.
  rewrite lookup_insert_ne by congruence. reflexivity.
Qed.

Lemma amount_fold_other txt (pats : list (regex * string)) d k :
  Forall (fun pf => pf.2 ≠ k) pats ->
  fold_left (amount_step txt) pats d !! k = d !! k.
Proof.
  intros HF. revert d. induction HF as [|pf pats Hpf _ IH]; intros d; simpl.
  - reflexivity.
  - rewrite IH. unfold amount_step.
    destruct (last (findall1 true pf.1 txt)); try reflexivity.
    rewrite lookup_insert_ne by assumption. reflexivity.
Qed.

Lemma step_amounts_other txt d k :
  k ≠ "price_net"%string -> k ≠ "price_tax"%string -> k ≠ "price_gross"%string ->
  step_amounts txt d !! k = d !! k.
Proof.
  intros H1 H2 H3. apply amount_fold_other.
  unfold amount_patterns. repeat constructor; simpl; congruence.
Qed.

Lemma step_names_other txt d k :
  k ≠ "seller_name"%string -> k ≠ "seller_street"%string ->
  k ≠ "buyer_name"%string ->
  step_names txt d !! k = d !! k.
Proof.
  intros H1 H2 H3. unfold step_names.
  repeat match goal with
         | |- context [match ?x with _ => _ end] => destruct x
         end;
    repeat (rewrite lookup_insert_ne by congruence); reflexivity.
Qed.

Lemma step_streets_other txt d k :
  k ≠ "seller_street"%string -> k ≠ "buyer_street"%string ->
  step_streets txt d !! k = d !! k.
Proof.
  intros H1 H2. unfold step_streets.
  repeat match goal with
         | |- context [match ?x with _ => _ end] => destruct x
         end;
    repeat (rewrite lookup_insert_ne by congruence); reflexivity.
Qed.

Lemma step_postal_other txt d k :
  k ≠ "buyer_post_code"%string -> k ≠ "buyer_city"%string ->
  step_postal txt d !! k = d !! k.
Proof.
  intros H1 H2. unfold step_postal, set_buyer_postal.
  repeat match goal with
         | |- context [match ?x with _ => _ end] => destruct x
         end;
    repeat (rewrite lookup_insert_ne by congruence); reflexivity.
Qed.

(** What the dictionary holds for the buyer's postal code when the last
    step starts: the initial empty text. *)
Lemma buyer_post_code_before_postal txt :
  getf (step_streets txt (step_names txt (step_amounts txt (step_date txt
          (step_number txt (step_nip txt initial_invoice_data))))))
       "buyer_post_code" = [].
Proof.
  unfold getf, lookup_total, map_lookup_total.
  rewrite step_streets_other, step_names_other, step_amounts_other,
    step_date_other, step_number_other, step_nip_other by discriminate.
  reflexivity.
Qed.

(** The issue date is written by the date step only. *)
Lemma issue_date_of_cascade txt :
  cascade txt !! "issue_date"%string
  = step_date txt (step_number txt (step_nip txt initial_invoice_data))
      !! "issue_date"%string.
Proof.
  unfold cascade.
  rewrite step_postal_other, step_streets_other, step_names_other,
    step_amounts_other by discriminate.
  reflexivity.
Qed.

(** A key outside the sixteen of the initial dictionary is never added. *)
Lemma cascade_no_seller_postal txt :
  cascade txt !! "seller_post_code"%string = None
  /\ cascade txt !! "seller_city"%string = None.
Proof.
  unfold cascade.
  split;
    rewrite step_postal_other, step_streets_other, step_names_other,
      step_amounts_other, step_date_other, step_number_other, step_nip_other
      by discriminate;
    reflexivity.
Qed.

End RulesFacts.

Section RulesClaims.
Context {U : UnicodeTables}.
Import Rules.

Lemma filter_nil_iff {A} (f : A -> bool) (l : list A) :
  List.filter f l = [] <-> (forall x, In x l -> f x = false).
Proof.
  induction l as [|a l IH]; simpl.
  - split; [intros _ x [] | reflexivity].
  - destruct (f a) eqn:Ha.
    + split; [discriminate | intros Hall; specialize (Hall a (or_introl eq_refl)); congruence].
    + rewrite IH. split.
      * intros Hall x [<- | Hx]; [assumption | apply Hall, Hx].
      * intros Hall x Hx. apply Hall. right. assumption.
Qed.

Lemma field_missing_false d f :
  field_missing d f = false
  <-> exists v, d !! f = Some v /\ v ≠ [] /\ v ≠ T "0.00".
Proof.
  unfold field_missing, text_eqb. destruct (d !! f) as [v|].
  - rewrite orb_false_iff. split.
    + intros [Hne H0]. exists v. split; [reflexivity|].
      split; [destruct v; [discriminate Hne | discriminate]|].
      apply bool_decide_eq_false in H0. exact H0.
    + intros (v' & [= <-] & Hne & H0). split.
      * destruct v; [contradiction | reflexivity].
      * apply bool_decide_eq_false. exact H0.
  - split; [discriminate | intros (v & Hv & _); discriminate].
Qed.

(** C3. [parse_invoice_with_rules] returns the dictionary of the cascade, and
    it reports success exactly when each of the nine fields [seller_name],
    [seller_tax_no], [buyer_name], [buyer_tax_no], [number], [issue_date],
    [price_net], [price_tax] and [price_gross] is present in it, is not empty
    and is not the placeholder [0.00]; when one of the nine is absent, empty
    or [0.00], the dictionary is returned with the failure flag. *)
Theorem parse_success_iff_complete (txt : text) :
  (parse_invoice_with_rules txt).1 = cascade txt
  /\ ((parse_invoice_with_rules txt).2 = true
      <-> forall f,
            In f [ "seller_name"; "seller_tax_no"; "buyer_name"; "buyer_tax_no";
                   "number"; "issue_date"; "price_net"; "price_tax";
                   "price_gross" ]%string ->
            exists v, cascade txt !! f = Some v /\ v ≠ [] /\ v ≠ T "0.00")
  /\ (forall f,
        In f [ "seller_name"; "seller_tax_no"; "buyer_name"; "buyer_tax_no";
               "number"; "issue_date"; "price_net"; "price_tax";
               "price_gross" ]%string ->
        cascade txt !! f = None \/ cascade txt !! f = Some []
        \/ cascade txt !! f = Some (T "0.00") ->
        (parse_invoice_with_rules txt).2 = false).
Proof.
  assert (Hiff : (parse_invoice_with_rules txt).2 = true
                 <-> forall f, In f required_fields ->
                       exists v, cascade txt !! f = Some v /\ v ≠ [] /\ v ≠ T "0.00").
  { unfold parse_invoice_with_rules, missing_fields.
    destruct (List.filter (field_missing (cascade txt)) required_fields)
      as [|f fs] eqn:E; simpl.
    - split; [intros _ | reflexivity].
      intros f Hf. apply field_missing_false.
      apply (proj1 (filter_nil_iff _ _) E). exact Hf.
    - split; [discriminate|]. intros Hall. exfalso.
      assert (Hin : In f (List.filter (field_missing (cascade txt)) required_fields))
        by (rewrite E; left; reflexivity).
      apply filter_In in Hin. destruct Hin as [Hf Hm].
      apply Hall, field_missing_false in Hf. congruence. }
  change [ "seller_name"; "seller_tax_no"; "buyer_name"; "buyer_tax_no";
           "number"; "issue_date"; "price_net"; "price_tax";
           "price_gross" ]%string with required_fields.
  split; [|split].
  - unfold parse_invoice_with_rules.
    destruct (missing_fields (cascade txt)); reflexivity.
  - exact Hiff.
  - intros f Hf Hv.
    destruct ((parse_invoice_with_rules txt).2) eqn:Hflag; [|reflexivity].
    exfalso. destruct (proj1 Hiff eq_refl f Hf) as (v & Hsome & Hne & Hz).
    destruct Hv as [Hv | [Hv | Hv]]; rewrite Hv in Hsome; congruence.
Qed.

Lemma dmy_reorders :
  date_of_match wystawienia_dmy
    {| m_start := 0; m_text := []; m_rest := []; m_caps := [(1%nat, T "02.04.2025")] |}
  = T "2025-04-02".
Proof.
  assert (D0 := uni_ascii_digit 48 eq_refl).
  assert (D2 := uni_ascii_digit 50 eq_refl).
  assert (D4 := uni_ascii_digit 52 eq_refl).
  assert (D5 := uni_ascii_digit 53 eq_refl).
  cbv -[uni_isdecimal]. rewrite ?D0, ?D2, ?D4, ?D5.
  cbv -[uni_isdecimal]. rewrite ?D0, ?D2, ?D4, ?D5.
  reflexivity.
Qed.

(** C7 (amended). When none of the three date patterns that come first in the
    list matches the text, and the first match of the pattern
    [Data wystawienia] with a day-first date captures [02.04.2025], the
    cascade sets [issue_date] to [2025-04-02]. *)
Theorem issue_date_day_first (txt : text) (m : rematch) :
  re_search true named_date_1 txt = None ->
  re_search true named_date_2 txt = None ->
  re_search true wystawienia_iso txt = None ->
  re_search true wystawienia_dmy txt = Some m ->
  group m 1 = T "02.04.2025" ->
  cascade txt !! "issue_date"%string = Some (T "2025-04-02").
Proof.
  intros H1 H2 H3 H4 Hg.
  rewrite issue_date_of_cascade. unfold step_date, date_patterns, first_match.
  rewrite H1, H2, H3, H4. rewrite lookup_insert_eq. f_equal.
  rewrite <- dmy_reorders. unfold date_of_match.
  change (ngroups wystawienia_dmy =? 3)%nat with false. cbv iota.
  rewrite Hg. reflexivity.
Qed.

(** C10. When the postal pattern has exactly one match in the text, the
    cascade stores its code as [buyer_post_code] and its city (stripped) as
    [buyer_city], whether or not the text contains [Bill To]; the dictionary
    has no key for a postal code or a city of the seller. *)
Theorem single_postal_match_goes_to_buyer (txt : text) (p0 : text * text) :
  findall2 false postal_pattern txt = [p0] ->
  cascade txt !! "buyer_post_code"%string = Some p0.1
  /\ cascade txt !! "buyer_city"%string
     = Some (rstrip_char (cc ",") (strip p0.2))
  /\ cascade txt !! "seller_post_code"%string = None
  /\ cascade txt !! "seller_city"%string = None.
Proof.
  intros Hone.
  destruct (cascade_no_seller_postal txt) as [Hs1 Hs2].
  repeat split; try assumption.
  - unfold cascade, step_postal. rewrite Hone, buyer_post_code_before_postal.
    rewrite orb_true_r. unfold set_buyer_postal.
    rewrite lookup_insert_ne by discriminate. apply lookup_insert_eq.
  - unfold cascade, step_postal. rewrite Hone, buyer_post_code_before_postal.
    rewrite orb_true_r. unfold set_buyer_postal. apply lookup_insert_eq.
Qed.

End RulesClaims.

(** The complete sample is returned with the success flag; the sample
    without the buyer's tax identifier, with the failure flag. *)
Lemma parse_success_iff_complete_witness :
  (Rules.parse_invoice_with_rules (U := latin_tables) Samples.polish_invoice).2 = true
  /\ Rules.cascade (U := latin_tables) Samples.incomplete_invoice
       !! "buyer_tax_no"%string = Some []
  /\ (Rules.parse_invoice_with_rules (U := latin_tables)
        Samples.incomplete_invoice).2 = false.
Proof.
  assert (Hmissing : Rules.cascade (U := latin_tables) Samples.incomplete_invoice
                       !! "buyer_tax_no"%string = Some [])
    by (vm_compute; reflexivity).
  split; [|split; [exact Hmissing|]].
  - apply (proj2 (proj1 (proj2 (parse_success_iff_complete (U := latin_tables)
                                  Samples.polish_invoice)))).
    intros f Hf.
    repeat (destruct Hf as [<- | Hf];
            [eexists; split; [vm_compute; reflexivity | split; discriminate]|]).
    destruct Hf.
  - apply (proj2 (proj2 (parse_success_iff_complete (U := latin_tables)
                           Samples.incomplete_invoice)) "buyer_tax_no"%string).
    + simpl. tauto.
    + right. left. exact Hmissing.
Defined.

(** The day-first date line alone. *)
Lemma issue_date_day_first_witness :
  Rules.cascade (U := latin_tables) Samples.date_line !! "issue_date"%string
  = Some (T "2025-04-02").
Proof.
  eapply (issue_date_day_first (U := latin_tables) Samples.date_line);
    [vm_compute; reflexivity ..].
Defined.

(** An English date line that comes first in priority takes the field. *)
Lemma issue_date_earlier_pattern_wins :
  is_infix (T "Data wystawienia: 02.04.2025") Samples.two_dates = true
  /\ Rules.cascade (U := latin_tables) Samples.two_dates !! "issue_date"%string
     = Some (T "2024-05-01").
Proof. split; vm_compute; reflexivity. Qed.

Lemma single_postal_match_goes_to_buyer_witness :
  Rules.cascade (U := latin_tables) Samples.one_postal !! "buyer_post_code"%string
    = Some (T "00-950")
  /\ Rules.cascade (U := latin_tables) Samples.one_postal !! "buyer_city"%string
    = Some (T "Warszawa")
  /\ is_infix (T "Bill To") Samples.one_postal = false.
Proof.
  destruct (single_postal_match_goes_to_buyer (U := latin_tables)
              Samples.one_postal (T "00-950", T "Warszawa"))
    as (H1 & H2 & _); [vm_compute; reflexivity|].
  split; [exact H1|]. split; [exact H2|]. vm_compute; reflexivity.
Defined.

(** ** The encoder *)

Section EncoderClaims.
Context {L : PyLib}.

Ltac unfold_encoder :=
  unfold Encoder.convert_with_variant, Encoder.build_tree, bind, get_world,
    subscript, ret, raise, dict_get.

(** Reads the next key: a present key goes on, an absent one ends the
    computation (or contradicts what is known). *)
Ltac read_key d k :=
  destruct (d !! k) eqn:?; simpl;
  [ | try congruence; try (eexists; reflexivity); try reflexivity ];
  try congruence.

Ltac read_all d :=
  read_key d "seller_tax_no"%string; read_key d "seller_name"%string;
  read_key d "seller_street"%string; read_key d "buyer_tax_no"%string;
  read_key d "buyer_name"%string; read_key d "buyer_street"%string;
  read_key d "buyer_post_code"%string; read_key d "buyer_city"%string;
  read_key d "currency"%string; read_key d "issue_date"%string;
  read_key d "number"%string; read_key d "price_net"%string;
  read_key d "price_tax"%string; read_key d "price_gross"%string.

(** Encoding leaves the world as it is. *)
Lemma convert_keeps_world variant d w :
  (Encoder.convert_with_variant variant d w).2 = w.
Proof.
  unfold_encoder. read_all d. destruct (xml_pretty _); reflexivity.
Qed.

(** Encoding depends on the world through the clock only. *)
Lemma convert_reads_clock variant d w1 w2 :
  w_now w1 = w_now w2 ->
  (Encoder.convert_with_variant variant d w1).1
  = (Encoder.convert_with_variant variant d w2).1.
Proof.
  intros Hnow. unfold_encoder. rewrite Hnow. read_all d.
  destruct (xml_pretty _); reflexivity.
Qed.

(** C8. With the same converter and the same invoice record, two encodings
    made while [datetime.now()] reads the same give the same XML text (or
    raise the same exception), whatever else differs in the world; and
    encoding changes nothing in the world. *)
Theorem encode_is_function_of_invoice_and_clock
        (self : Converter.converter) (d : gmap string pyval) (w1 w2 : world) :
  w_now w1 = w_now w2 ->
  (Converter.convert_to_ksef_xml self d w1).1
  = (Converter.convert_to_ksef_xml self d w2).1
  /\ (Converter.convert_to_ksef_xml self d w1).2 = w1
  /\ (Converter.convert_to_ksef_xml self d w2).2 = w2.
Proof.
  intros Hnow. unfold Converter.convert_to_ksef_xml.
  split; [apply convert_reads_clock, Hnow|].
  split; apply convert_keeps_world.
Qed.

Lemma missing_key_raises variant d w k :
  In k Encoder.encoder_required -> d !! k = None ->
  exists k', Encoder.convert_with_variant variant d w = (inl (KeyError k'), w).
Proof.
  intros Hin Hk. unfold Encoder.encoder_required in Hin. simpl in Hin.
  unfold_encoder.
  repeat (destruct Hin as [<- | Hin]; [read_all d|]); contradiction.
Qed.

Lemma all_keys_build variant d w :
  (forall k, In k Encoder.encoder_required -> is_Some (d !! k)) ->
  exists tree, Encoder.build_tree variant d w = (inr tree, w).
Proof.
  intros Hall.
  assert (Hk : forall k, In k Encoder.encoder_required -> d !! k ≠ None).
  { intros k Hin Hn. destruct (Hall k Hin) as [v Hv]. congruence. }
  unfold Encoder.encoder_required in Hk. simpl in Hk.
  unfold Encoder.build_tree, bind, get_world, subscript, ret, raise, dict_get.
  repeat match goal with
         | |- context [match d !! ?k with _ => _ end] =>
             destruct (d !! k) eqn:?;
             [ | exfalso; eapply (Hk k); [ tauto | assumption ] ]
         end; simpl.
  all: try (eexists; reflexivity).
Qed.

(** C9. Encoding a record that lacks [buyer_post_code] or [buyer_city]
    raises [KeyError], as it does for each of the fourteen keys read without
    a default; when those fourteen are present the tree is built, so the
    absence of [seller_country] or [buyer_country] never fails the encoding,
    and a record without them is encoded as the record with [PL] for both. *)
Theorem encoder_needs_buyer_postal_code_and_city
        (variant : text) (d : gmap string pyval) (w : world) :
  (d !! "buyer_post_code"%string = None \/ d !! "buyer_city"%string = None ->
   exists k, Encoder.convert_with_variant variant d w = (inl (KeyError k), w))
  /\ (forall k, In k Encoder.encoder_required -> d !! k = None ->
      exists k', Encoder.convert_with_variant variant d w = (inl (KeyError k'), w))
  /\ ((forall k, In k Encoder.encoder_required -> is_Some (d !! k)) ->
      exists tree, Encoder.build_tree variant d w = (inr tree, w))
  /\ Encoder.convert_with_variant variant
       (delete "seller_country"%string (delete "buyer_country"%string d)) w
     = Encoder.convert_with_variant variant
         (<["seller_country"%string := VStr (T "PL")]>
            (<["buyer_country"%string := VStr (T "PL")]> d)) w.
Proof.
  split; [|split; [|split]].
  - intros [Hk | Hk]; eapply missing_key_raises; try exact Hk;
      unfold Encoder.encoder_required; simpl; tauto.
  - intros k. apply missing_key_raises.
  - apply all_keys_build.
  - unfold_encoder.
    rewrite lookup_delete_eq, lookup_insert_eq.
    rewrite (lookup_delete_ne _ "seller_country"%string "buyer_country"%string)
      by discriminate.
    rewrite lookup_delete_eq.
    rewrite (lookup_insert_ne _ "seller_country"%string "buyer_country"%string)
      by discriminate.
    rewrite lookup_insert_eq.
    repeat (rewrite lookup_delete_ne by discriminate).
    repeat (rewrite lookup_insert_ne by discriminate).
    reflexivity.
Qed.

End EncoderClaims.

(** Two worlds that differ in their files and documents but not in what the
    clock reads. *)
Lemma encode_is_function_of_invoice_and_clock_witness :
  (Converter.convert_to_ksef_xml (L := Samples.sample_lib) Samples.with_ai
     Samples.ai_record Samples.accepting_world).1
  = (Converter.convert_to_ksef_xml (L := Samples.sample_lib) Samples.with_ai
       Samples.ai_record Samples.rejecting_world).1.
Proof.
  apply (encode_is_function_of_invoice_and_clock (L := Samples.sample_lib)
           Samples.with_ai Samples.ai_record
           Samples.accepting_world Samples.rejecting_world).
  reflexivity.
Defined.

Lemma encoder_needs_buyer_postal_code_and_city_witness :
  exists k,
    Encoder.convert_with_variant (L := Samples.sample_lib) (T "2")
      Samples.no_post_code Samples.accepting_world
    = (inl (KeyError k), Samples.accepting_world).
Proof.
  apply (encoder_needs_buyer_postal_code_and_city (L := Samples.sample_lib)
           (T "2") Samples.no_post_code Samples.accepting_world).
  left. vm_compute. reflexivity.
Defined.

(** ** Saving and the orchestration *)

Section ConverterClaims.
Context {U : UnicodeTables} {L : PyLib}.
Variable self : Converter.converter.

Lemma validate_keeps_world xml w :
  (Converter.validate_against_xsd self xml w).2 = w.
Proof.
  unfold Converter.validate_against_xsd, bind, get_world, ret, raise.
  destruct (w_files w !! _); [destruct (xsd_check _ _)|]; reflexivity.
Qed.

(** What validation returns, case by case. *)
Lemma validate_cases xml w :
  match w_files w !! Converter.schema_path self with
  | None => exists msg,
      Converter.validate_against_xsd self xml w = (inl (FileNotFoundError msg), w)
  | Some schema_doc =>
      exists msg,
      Converter.validate_against_xsd self xml w
      = (inr (match xsd_check schema_doc xml with XsdValid => true | _ => false end,
              msg), w)
  end.
Proof.
  unfold Converter.validate_against_xsd, bind, get_world, ret, raise.
  destruct (w_files w !! _); [destruct (xsd_check _ _)|]; eexists; reflexivity.
Qed.

Lemma convert_result d w :
  Converter.convert_to_ksef_xml self d w
  = ((Converter.convert_to_ksef_xml self d w).1, w).
Proof.
  rewrite <- (convert_keeps_world (variant_number (Converter.schema_type self)) d w)
    at 3.
  unfold Converter.convert_to_ksef_xml. apply surjective_pairing.
Qed.


End ConverterClaims.

Section OrchestrationClaims.
Context {U : UnicodeTables} {L : PyLib}.
Variable self : Converter.converter.

Lemma extract_text_ok pdf_path pages w :
  w_pdfs w !! pdf_path = Some pages ->
  Converter.extract_text_from_pdf pdf_path w = (inr (Converter.joined_pages pages), w).
Proof.
  intros Hp. unfold Converter.extract_text_from_pdf, bind, get_world.
  rewrite Hp. reflexivity.
Qed.

(** The second half of the conversion never calls the completion service,
    and what it returns is the encoding of the record it was given. *)
Lemma encode_validate_write_log out j w :
  w_api_log (Converter.encode_validate_write self out j w).2 = w_api_log w.
Proof.
  unfold Converter.encode_validate_write, Converter.as_dict, bind.
  destruct j as [d|]; [|reflexivity]. unfold ret at 1.
  rewrite (convert_result self d w).
  destruct (Converter.convert_to_ksef_xml self d w).1 as [e|xml]; [reflexivity|].
  pose proof (validate_cases self xml w) as Hv.
  destruct (w_files w !! Converter.schema_path self);
    destruct Hv as [msg ->]; [|reflexivity].
  simpl. destruct (xsd_check _ _); simpl; try reflexivity.
  destruct (Converter.path_given out); reflexivity.
Qed.

Lemma encode_validate_write_result out j w xml :
  (Converter.encode_validate_write self out j w).1 = inr xml ->
  exists d, j = JObject d /\ (Converter.convert_to_ksef_xml self d w).1 = inr xml.
Proof.
  unfold Converter.encode_validate_write, Converter.as_dict, bind.
  destruct j as [d|]; [|discriminate]. unfold ret at 1.
  rewrite (convert_result self d w).
  destruct (Converter.convert_to_ksef_xml self d w).1 as [e|xml'] eqn:Hc;
    [discriminate|].
  pose proof (validate_cases self xml' w) as Hv.
  destruct (w_files w !! Converter.schema_path self);
    destruct Hv as [msg ->]; [|discriminate].
  simpl. destruct (xsd_check _ _); simpl; try discriminate.
  destruct (Converter.path_given out); simpl; intros [= <-];
    exists d; (split; [reflexivity | exact Hc]).
Qed.

(** The secondary extractor, once configured, sends exactly one prompt. *)
Lemma secondary_extractor_log create txt w :
  Converter.anthropic_client self = Some create ->
  (Converter.parse_invoice_from_text self txt w).2 = log_api (ai_prompt txt) w
  /\ forall j, (Converter.parse_invoice_from_text self txt w).1 = inr j ->
       exists answer,
         create (ai_prompt txt) = inr answer
         /\ json_loads (Converter.unfence (strip answer)) = Some j.
Proof.
  intros Hc. unfold Converter.parse_invoice_from_text. rewrite Hc.
  unfold bind, modify. destruct (create (ai_prompt txt)) as [e|answer]; simpl.
  - split; [reflexivity | discriminate].
  - destruct (json_loads _) as [j0|] eqn:Hj; simpl.
    + split; [reflexivity|]. intros j [= <-]. exists answer. split; [reflexivity|exact Hj].
    + split; [reflexivity | discriminate].
Qed.

(** C4. For a readable document with text [txt]:
    - when the caller does not force the secondary extractor and the rule
      cascade succeeds, no prompt is sent to it;
    - when the cascade fails or the caller forces it, and a client is
      configured, exactly one prompt is sent, that of [txt], and an XML that
      is returned is the encoding of the record read from its answer alone;
    - when the cascade fails or the caller forces it, and no client is
      configured, the conversion raises [ValueError] and leaves the world as
      it was. *)
Theorem secondary_extractor_gating
        (pdf_path : string) (output_path : option string) (force_ai : bool)
        (w : world) (pages : pdf) :
  w_pdfs w !! pdf_path = Some pages ->
  let txt := Converter.joined_pages pages in
  let r := Converter.convert_pdf_to_ksef_xml self pdf_path output_path force_ai w in
  (force_ai = false -> (Rules.parse_invoice_with_rules txt).2 = true ->
   w_api_log r.2 = w_api_log w)
  /\ (force_ai = true \/ (Rules.parse_invoice_with_rules txt).2 = false ->
      forall create, Converter.anthropic_client self = Some create ->
      w_api_log r.2 = w_api_log w ++ [ai_prompt txt]
      /\ forall xml, r.1 = inr xml ->
           exists answer d w',
             create (ai_prompt txt) = inr answer
             /\ json_loads (Converter.unfence (strip answer)) = Some (JObject d)
             /\ (Converter.convert_to_ksef_xml self d w').1 = inr xml)
  /\ (force_ai = true \/ (Rules.parse_invoice_with_rules txt).2 = false ->
      Converter.anthropic_client self = None ->
      exists msg, r = (inl (ValueError msg), w)).
Proof.
  intros Hp. cbv zeta.
  unfold Converter.convert_pdf_to_ksef_xml, bind.
  rewrite (extract_text_ok _ _ _ Hp).
  set (txt := Converter.joined_pages pages).
  assert (Hrules :
             (force_ai = true \/ (Rules.parse_invoice_with_rules txt).2 = false) ->
             Converter.rule_based force_ai txt = None).
  { intros [-> | Hf]; [reflexivity|]. unfold Converter.rule_based.
    destruct force_ai; [reflexivity|].
    destruct (Rules.parse_invoice_with_rules txt) as [d s]. simpl in Hf.
    rewrite Hf. reflexivity. }
  split; [|split].
  - intros -> Hs. unfold Converter.extract_record, Converter.rule_based.
    destruct (Rules.parse_invoice_with_rules txt) as [d s]. simpl in Hs.
    rewrite Hs. unfold ret at 1. apply encode_validate_write_log.
  - intros Hcase create Hc. unfold Converter.extract_record.
    rewrite (Hrules Hcase), Hc.
    destruct (secondary_extractor_log create txt w Hc) as [Hlog Hans].
    destruct (Converter.parse_invoice_from_text self txt w) as [[e|j] w1] eqn:Hai;
      simpl in Hlog, Hans; subst w1.
    + split; [reflexivity | discriminate].
    + split.
      * rewrite encode_validate_write_log. reflexivity.
      * intros xml Hx.
        destruct (encode_validate_write_result _ _ _ _ Hx) as (d & -> & Hd).
        destruct (Hans _ eq_refl) as (answer & Ha & Hj).
        exists answer, d, (log_api (ai_prompt txt) w). auto.
  - intros Hcase Hc. unfold Converter.extract_record.
    rewrite (Hrules Hcase), Hc. eexists. reflexivity.
Qed.

End OrchestrationClaims.

(** A complete invoice goes through the rules alone; an incomplete one goes
    to the secondary extractor when there is one, and fails when there is
    none. *)
Lemma secondary_extractor_gating_witness :
  w_api_log (Converter.convert_pdf_to_ksef_xml (U := latin_tables)
               (L := Samples.sample_lib) Samples.with_ai "good.pdf" None false
               Samples.accepting_world).2 = []
  /\ w_api_log (Converter.convert_pdf_to_ksef_xml (U := latin_tables)
                  (L := Samples.sample_lib) Samples.with_ai "partial.pdf" None false
                  Samples.accepting_world).2
     = [ai_prompt (PyLib := Samples.sample_lib) Samples.incomplete_invoice]
  /\ exists msg,
       Converter.convert_pdf_to_ksef_xml (U := latin_tables)
         (L := Samples.sample_lib) Samples.without_ai "partial.pdf" None false
         Samples.accepting_world
       = (inl (ValueError msg), Samples.accepting_world).
Proof.
  split; [|split].
  - apply (secondary_extractor_gating (U := latin_tables) (L := Samples.sample_lib)
             Samples.with_ai "good.pdf" None false Samples.accepting_world
             [Some Samples.polish_invoice]);
      vm_compute; reflexivity.
  - refine (proj1 (proj1 (proj2 (secondary_extractor_gating (U := latin_tables)
             (L := Samples.sample_lib)
             Samples.with_ai "partial.pdf" None false Samples.accepting_world
             [Some Samples.incomplete_invoice] _)) _ Samples.sample_client _)).
    + vm_compute; reflexivity.
    + right. vm_compute; reflexivity.
    + reflexivity.
  - refine (proj2 (proj2 (secondary_extractor_gating (U := latin_tables)
             (L := Samples.sample_lib)
             Samples.without_ai "partial.pdf" None false Samples.accepting_world
             [Some Samples.incomplete_invoice] _)) _ _).
    + vm_compute; reflexivity.
    + right. vm_compute; reflexivity.
    + reflexivity.
Defined.



(** C6 (evaluation at the failing input). A net total written with a decimal
    comma, [1234,56], comes out of the cascade as [123456.00]: the comma is
    deleted, not read as the decimal point. *)
Lemma decimal_comma_is_deleted :
  Rules.cascade (U := latin_tables) Samples.comma_amount !! "price_net"%string
  = Some (T "123456.00").
Proof. vm_compute. reflexivity. Qed.

(** ** The generator *)

Section GeneratorClaims.
Import PyFloat Generator.

Lemma lift_inr {A} (r : exn + A) (x : A) (w w' : world) :
  lift r w = (inr x, w') -> r = inr x /\ w' = w.
Proof. destruct r; simpl; unfold ret, raise; intros [= -> ->]; auto. Qed.

Lemma line_amounts_spec drawn rate_z qty_z w a w' :
  line_amounts drawn rate_z qty_z w = (inr a, w') ->
  w' = w
  /\ exists rate hundred pct qty,
       of_int rate_z = inr rate /\ of_int 100 = inr hundred
       /\ of_int qty_z = inr qty
       /\ fdiv (fmul (a_price_net a) rate) hundred = inr pct
       /\ a_price_net a = round2 drawn
       /\ a_price_tax a = round2 pct
       /\ a_price_gross a = round2 (fadd (a_price_net a) (a_price_tax a))
       /\ a_total_price_net a = round2 (fmul (a_price_net a) qty)
       /\ a_total_price_tax a = round2 (fmul (a_price_tax a) qty)
       /\ a_total_price_gross a = round2 (fmul (a_price_gross a) qty).
Proof.
  unfold line_amounts, bind.
  destruct (of_int rate_z) as [e|rate]; [discriminate|].
  destruct (of_int 100) as [e|hundred]; [discriminate|]. simpl.
  destruct (fdiv (fmul (round2 drawn) rate) hundred) as [e|pct] eqn:Hd;
    [discriminate|]. simpl.
  destruct (of_int qty_z) as [e|qty]; [discriminate|]. simpl.
  unfold ret. intros [= <- <-]. simpl. split; [reflexivity|].
  exists rate, hundred, pct, qty. repeat split; auto.
Qed.

(** C1 (amended). Every generated line holds, as [str] prints them, six
    floats with: unit tax = round(unit net * rate / 100, 2), unit gross =
    round(unit net + unit tax, 2), and each line total = round(unit value *
    quantity, 2).  For the product with both ends of the price range at 100,
    rate 23 and one line of quantity 2 the six texts are [100.0], [23.0],
    [123.0], [200.0], [46.0], [246.0], whatever [random()] returns. *)
Theorem line_item_amounts :
  (forall (cfg : config) (d : line_draw) (w w' : world) (p : gmap string atom),
      generate_position cfg d w = (inr p, w') ->
      exists (a : amounts) (rate hundred pct qty : float),
        of_int (tax_rate cfg) = inr rate /\ of_int 100 = inr hundred
        /\ of_int (d_quantity d) = inr qty
        /\ fdiv (fmul (a_price_net a) rate) hundred = inr pct
        /\ a_price_tax a = round2 pct
        /\ a_price_gross a = round2 (fadd (a_price_net a) (a_price_tax a))
        /\ a_total_price_net a = round2 (fmul (a_price_net a) qty)
        /\ a_total_price_tax a = round2 (fmul (a_price_tax a) qty)
        /\ a_total_price_gross a = round2 (fmul (a_price_gross a) qty)
        /\ p !! "price_net"%string = Some (AStr (float_str (a_price_net a)))
        /\ p !! "price_tax"%string = Some (AStr (float_str (a_price_tax a)))
        /\ p !! "price_gross"%string = Some (AStr (float_str (a_price_gross a)))
        /\ p !! "total_price_net"%string
           = Some (AStr (float_str (a_total_price_net a)))
        /\ p !! "total_price_tax"%string
           = Some (AStr (float_str (a_total_price_tax a)))
        /\ p !! "total_price_gross"%string
           = Some (AStr (float_str (a_total_price_gross a))))
  /\ (forall (r : float) (w : world),
         is_finite r = true ->
         exists p,
           generate_positions Samples.scenario
             [{| d_product := 0; d_quantity := 2; d_random := r |}] w
           = (inr [p], w)
           /\ p !! "price_net"%string = Some (AStr (T "100.0"))
           /\ p !! "price_tax"%string = Some (AStr (T "23.0"))
           /\ p !! "price_gross"%string = Some (AStr (T "123.0"))
           /\ p !! "total_price_net"%string = Some (AStr (T "200.0"))
           /\ p !! "total_price_tax"%string = Some (AStr (T "46.0"))
           /\ p !! "total_price_gross"%string = Some (AStr (T "246.0"))).
Proof.
  split.
  - intros cfg d w w' p. unfold generate_position.
    destruct (c_products cfg !! d_product d) as [product|]; [|discriminate].
    unfold bind at 1.
    destruct (uniform _ _ _ w) as [[e|drawn] w1]; [discriminate|].
    unfold bind at 1.
    destruct (line_amounts drawn (tax_rate cfg) (d_quantity d) w1)
      as [[e|a] w2] eqn:Ha; [discriminate|].
    apply line_amounts_spec in Ha.
    destruct Ha as (-> & rate & hundred & pct & qty & H1 & H2 & H3 & H4 & H5
                    & H6 & H7 & H8 & H9 & H10).
    unfold bind. rewrite H3. simpl. unfold ret. intros [= <- <-].
    exists a, rate, hundred, pct, qty.
    split; [exact H1|]. split; [exact H2|]. split; [reflexivity|].
    split; [exact H4|]. split; [exact H6|]. split; [exact H7|].
    split; [exact H8|]. split; [exact H9|]. split; [exact H10|].
    repeat split; reflexivity.
  - intros r w Hr.
    assert (Hu : uniform (NInt 100) (NInt 100) r w
                 = (inr (S754_finite false 7036874417766400 (-46)), w)).
    { destruct r as [s|s| |s m e]; try discriminate Hr; reflexivity. }
    unfold generate_positions, generate_position. cbn [Samples.scenario
      Samples.one_product c_products lookup list_lookup d_product d_quantity
      d_random price_net_min price_net_max].
    unfold bind at 1 2. rewrite Hu.
    exists Samples.scenario_position.
    split; [vm_compute; reflexivity|].
    do 5 (split; [vm_compute; reflexivity|]). vm_compute; reflexivity.
Qed.

End GeneratorClaims.

Lemma line_item_amounts_witness :
  exists (a : Generator.amounts) (pct : PyFloat.float),
    PyFloat.fdiv (PyFloat.fmul (Generator.a_price_net a)
                    (S754_finite false 6473924464345088 (-48)))
                 (S754_finite false 7036874417766400 (-46)) = inr pct
    /\ Generator.a_price_tax a = PyFloat.round2 pct.
Proof.
  destruct (proj1 line_item_amounts Samples.scenario (Samples.draw_of 2)
              Samples.accepting_world Samples.accepting_world
              Samples.scenario_position)
    as (a & rate & hundred & pct & qty & H1 & H2 & H3 & H4 & H5 & _).
  - vm_compute. reflexivity.
  - exists a, pct. split; [|exact H5].
    vm_compute in H1. vm_compute in H2.
    injection H1 as <-. injection H2 as <-. exact H4.
Defined.

(** The scenario of the specification prints one fraction digit, not two. *)
Lemma scenario_prints_one_fraction_digit :
  exists p,
    Generator.generate_positions Samples.scenario [Samples.draw_of 2]
      Samples.accepting_world
    = (inr [p], Samples.accepting_world)
    /\ p !! "price_net"%string = Some (AStr (T "100.0"))
    /\ p !! "price_net"%string ≠ Some (AStr (T "100.00"))
    /\ p !! "total_price_gross"%string = Some (AStr (T "246.0"))
    /\ p !! "total_price_gross"%string ≠ Some (AStr (T "246.00")).
Proof.
  exists Samples.scenario_position. split; [vm_compute; reflexivity|].
  split; [vm_compute; reflexivity|].
  split; [vm_compute; congruence|].
  split; [vm_compute; reflexivity|].
  vm_compute; congruence.
Qed.

(** * The amounts of the generator

    Binary64 arithmetic is followed with an error bound: every operation
    returns the float nearest to the exact result, so it is off by at most
    [eps] times the magnitude (plus [eta] near zero).  Below [10^5] currency
    units per item the errors stay far below half a hundredth, and
    [round(x, 2)] recovers the amount in hundredths exactly. *)

Tactic Notation "qreplace" constr(x) "with" constr(y) "by" tactic(t) :=
  let H := fresh in assert (H : (x == y)%Q) by t; rewrite H; clear H.

Ltac qlra := unfold Qdiv in *; change (/ 100)%Q with (1 # 100)%Q in *; lra.

Ltac num_le := apply Qle_bool_iff; vm_compute; reflexivity.

Section RoundingToInteger.
Import PyFloat Generator Amounts.
Local Open Scope Q_scope.

(** ** Rounding to the nearest integer *)

Lemma round_half_even_near (q : Q) :
  Qabs (inject_Z (round_half_even q) - q) <= 1 # 2.
Proof.
  unfold round_half_even.
  pose proof (Qfloor_le q) as Hlo. pose proof (Qlt_floor q) as Hhi.
  rewrite inject_Z_plus in Hhi. change (inject_Z 1) with 1 in Hhi.
  set (f := Qfloor q) in *.
  destruct (Qcompare (q - inject_Z f) (1 # 2)) eqn:Hc.
  - apply Qeq_alt in Hc.
    destruct (Z.even f); [|rewrite inject_Z_plus; change (inject_Z 1) with 1];
      apply Qabs_Qle_condition; split; lra.
  - apply Qlt_alt in Hc. apply Qabs_Qle_condition; split; lra.
  - apply Qgt_alt in Hc. rewrite inject_Z_plus. change (inject_Z 1) with 1.
    apply Qabs_Qle_condition; split; lra.
Qed.

Lemma round_half_even_nonneg (q : Q) : 0 <= q -> (0 <= round_half_even q)%Z.
Proof.
  intros Hq. unfold round_half_even.
  assert (Hf : (0 <= Qfloor q)%Z).
  { change 0%Z with (Qfloor 0). apply Qfloor_resp_le, Hq. }
  destruct (Qcompare _ _); [destruct (Z.even _)| |]; lia.
Qed.

(** The integer within less than a half is the one chosen. *)
Lemma round_half_even_unique (q : Q) (z : Z) :
  Qabs (q - inject_Z z) < 1 # 2 -> round_half_even q = z.
Proof.
  intros Hz. apply Qabs_Qlt_condition in Hz. destruct Hz as [Hz1 Hz2].
  unfold round_half_even.
  pose proof (Qfloor_le q) as Hlo. pose proof (Qlt_floor q) as Hhi.
  set (f := Qfloor q) in *.
  assert (Hfz : (f <= z)%Z).
  { apply Z.lt_succ_r. rewrite Zlt_Qlt. unfold Z.succ.
    rewrite inject_Z_plus. change (inject_Z 1) with 1. lra. }
  assert (Hzf : (z <= f + 1)%Z).
  { apply Z.lt_succ_r. rewrite Zlt_Qlt. unfold Z.succ.
    rewrite !inject_Z_plus in *. change (inject_Z 1) with 1 in *. lra. }
  rewrite inject_Z_plus in Hhi. change (inject_Z 1) with 1 in Hhi.
  assert (Hcases : z = f \/ z = (f + 1)%Z) by lia.
  destruct Hcases as [-> | ->].
  - destruct (Qcompare (q - inject_Z f) (1 # 2)) eqn:Hc.
    + apply Qeq_alt in Hc. lra.
    + reflexivity.
    + apply Qgt_alt in Hc. lra.
  - rewrite inject_Z_plus in Hz1, Hz2. change (inject_Z 1) with 1 in Hz1, Hz2.
    destruct (Qcompare (q - inject_Z f) (1 # 2)) eqn:Hc.
    + apply Qeq_alt in Hc. lra.
    + apply Qlt_alt in Hc. lra.
    + reflexivity.
Qed.

End RoundingToInteger.

Section RoundingToFloat.
Import PyFloat Generator Amounts.
Local Open Scope Q_scope.

(** ** Powers of two *)

Lemma pow2_pos (z : Z) : 0 < 2 ^ z.
Proof. apply Qpower_0_lt. reflexivity. Qed.

Lemma pow2_plus (a b : Z) : 2 ^ (a + b) == 2 ^ a * 2 ^ b.
Proof. apply Qpower_plus. discriminate. Qed.

Lemma pow2_le (a b : Z) : (a <= b)%Z -> 2 ^ a <= 2 ^ b.
Proof. intros H. apply Qpower_le_compat_l; [exact H | discriminate]. Qed.

Lemma pow2_lt_inv (a b : Z) : 2 ^ a < 2 ^ b -> (a < b)%Z.
Proof. intros H. apply (Qpower_lt_compat_l_inv 2); [exact H | reflexivity]. Qed.

Lemma pow2_cancel (e : Z) : 2 ^ (- e) * 2 ^ e == 1.
Proof. rewrite <- pow2_plus. replace (- e + e)%Z with 0%Z by lia. reflexivity. Qed.

Lemma pow2_Z (n : Z) : (0 <= n)%Z -> inject_Z (2 ^ n) == 2 ^ n.
Proof. intros H. apply (Zpower_Qpower 2 n H). Qed.

(** ** The binary exponent *)

Lemma ilog2_le (a : Q) : 0 < a -> 2 ^ ilog2 a <= a.
Proof.
  intros Ha. unfold ilog2.
  destruct (Qle_bool _ a) eqn:Hb; [apply Qle_bool_iff, Hb|].
  destruct a as [n d]. cbn [Qnum Qden] in *.
  assert (Hn : (0 < n)%Z).
  { unfold Qlt in Ha. simpl in Ha. lia. }
  pose proof (Z.log2_spec n Hn) as [Hn1 _].
  pose proof (Z.log2_spec (Zpos d) eq_refl) as [_ Hd2].
  pose proof (Z.log2_nonneg n) as Hln. pose proof (Z.log2_nonneg (Zpos d)) as Hld.
  set (ln := Z.log2 n) in *. set (ld := Z.log2 (Zpos d)) in *.
  apply (Qmult_le_r _ _ (2 ^ (ld + 1))); [apply pow2_pos|].
  rewrite <- pow2_plus. replace (ln - ld - 1 + (ld + 1))%Z with ln by lia.
  rewrite <- (pow2_Z ln Hln).
  apply Qle_trans with (inject_Z n); [rewrite <- Zle_Qle; exact Hn1|].
  apply Qle_trans with ((n # d) * inject_Z (Zpos d)).
  - unfold Qle, Qmult, inject_Z. simpl. lia.
  - apply Qmult_le_compat_nonneg.
    + split; [unfold Qle; simpl; lia | apply Qle_refl].
    + split; [unfold Qle; simpl; lia|].
      rewrite <- (pow2_Z (ld + 1)) by lia. rewrite <- Zle_Qle.
      unfold Z.succ in Hd2. lia.
Qed.

Lemma ilog2_lt (a : Q) (K : Z) : 0 < a -> a < 2 ^ K -> (ilog2 a < K)%Z.
Proof.
  intros Ha HK. apply pow2_lt_inv.
  eapply Qle_lt_trans; [apply ilog2_le, Ha | exact HK].
Qed.

(** ** Rounding to binary64 *)


Lemma to_Q_finite s p e :
  to_Q (S754_finite s p e)
  = if s then - (inject_Z (Zpos p) * 2 ^ e) else inject_Z (Zpos p) * 2 ^ e.
Proof. reflexivity. Qed.

Lemma round_float_spec (s : bool) (a M : Q) :
  0 < a -> a <= M -> M < 2 ^ 1000 ->
  is_finite (round_float s a) = true
  /\ sign_of (round_float s a) = s
  /\ Qabs (to_Q (round_float s a) - (if s then - a else a)) <= M * eps + eta.
Proof.
  intros Ha HM HM'. unfold round_float.
  pose proof (ilog2_le a Ha) as Hk.
  assert (Hk' : (ilog2 a < 1000)%Z) by (apply ilog2_lt; [exact Ha | lra]).
  set (k := ilog2 a) in *.
  set (e := Z.max (k - 52) (-1074)).
  set (q := a * 2 ^ (- e)).
  pose proof (round_half_even_near q) as Hm.
  assert (Hq : 0 <= q).
  { apply Qmult_le_0_compat; [lra | apply Qlt_le_weak, pow2_pos]. }
  pose proof (round_half_even_nonneg q Hq) as Hm0.
  set (m := round_half_even q) in *.
  pose proof (pow2_pos e) as He.
  (* the value before normalisation *)
  assert (Hval : Qabs (inject_Z m * 2 ^ e - a) <= M * eps + eta).
  { assert (Hqa : a == q * 2 ^ e).
    { unfold q. rewrite <- Qmult_assoc, pow2_cancel. ring. }
    assert (Hhalf : Qabs (inject_Z m * 2 ^ e - a) <= (1 # 2) * 2 ^ e).
    { qreplace (inject_Z m * 2 ^ e - a) with ((inject_Z m - q) * 2 ^ e)
        by (rewrite Hqa at 1; ring).
      rewrite Qabs_Qmult, (Qabs_pos (2 ^ e)) by lra.
      apply Qmult_le_compat_r; [exact Hm | lra]. }
    eapply Qle_trans; [exact Hhalf|].
    assert (Hcase : (e = k - 52)%Z \/ (e = -1074)%Z) by (unfold e; lia).
    pose proof (pow2_pos (-1075)) as Heta. fold eta in Heta.
    assert (Heps : 0 < eps) by apply pow2_pos.
    destruct Hcase as [-> | ->].
    - qreplace ((1 # 2) * 2 ^ (k - 52)) with (2 ^ k * eps)
        by (unfold eps; change (1 # 2) with (2 ^ (-1)); rewrite <- pow2_plus;
            replace (-1 + (k - 52))%Z with (k + -53)%Z by lia;
            rewrite pow2_plus; reflexivity).
      assert (2 ^ k * eps <= M * eps).
      { apply Qmult_le_compat_r; [eapply Qle_trans; eassumption | lra]. }
      revert H. generalize (2 ^ k * eps) (M * eps). intros; lra.
    - qreplace ((1 # 2) * 2 ^ (-1074)) with eta
        by (unfold eta; change (1 # 2) with (2 ^ (-1)); rewrite <- pow2_plus;
            reflexivity).
      assert (0 <= M * eps) by (apply Qmult_le_0_compat; lra).
      lra. }
  assert (Hsgn : forall v : Q,
             Qabs (v - a) <= M * eps + eta ->
             Qabs ((if s then - v else v) - (if s then - a else a))
             <= M * eps + eta).
  { intros v Hv. destruct s; [|exact Hv].
    qreplace (- v - - a) with (- (v - a)) by ring.
    rewrite Qabs_opp. exact Hv. }
  assert (He971 : (e + 1 <= 971)%Z) by (unfold e; lia).
  destruct (m =? 2 ^ 53)%Z eqn:Hcarry.
  - apply Z.eqb_eq in Hcarry.
    change (2 ^ 52)%Z with (Zpos (2 ^ 52)%positive).
    cbv iota beta.
    destruct (e + 1 <=? 971)%Z eqn:Hle; [|apply Z.leb_gt in Hle; lia].
    split; [reflexivity|]. split; [reflexivity|].
    rewrite to_Q_finite.
    apply (Hsgn (inject_Z (Z.pos (2 ^ 52)) * 2 ^ (e + 1))).
    qreplace (inject_Z (Z.pos (2 ^ 52)) * 2 ^ (e + 1))
      with (inject_Z m * 2 ^ e)
      by (rewrite Hcarry, pow2_plus;
          change (inject_Z (2 ^ 53)) with (inject_Z (Z.pos (2 ^ 52)) * 2);
          change (2 ^ 1) with 2; ring).
    exact Hval.
  - cbv iota beta. destruct m as [|p|p]; [| |lia].
    + split; [reflexivity|]. split; [reflexivity|].
      change (to_Q (S754_zero s)) with 0.
      specialize (Hsgn (inject_Z 0 * 2 ^ e) Hval).
      assert (Hz : inject_Z 0 * 2 ^ e == 0) by (change (inject_Z 0) with 0; ring).
      destruct s; rewrite Hz in Hsgn;
        [ qreplace (0 - - a) with (- 0 - - a) by ring | ]; exact Hsgn.
    + destruct (e <=? 971)%Z eqn:Hle; [|apply Z.leb_gt in Hle; lia].
      split; [reflexivity|]. split; [reflexivity|].
      rewrite to_Q_finite. apply Hsgn, Hval.
Qed.

End RoundingToFloat.

Section FloatOperations.
Import PyFloat Generator Amounts.
Local Open Scope Q_scope.

(** ** Floats that are finite and not negative *)


Lemma to_Q_nonneg x : nonneg x -> 0 <= to_Q x.
Proof.
  intros [Hf Hs]. destruct x as [s|s| |s m e]; try discriminate Hf;
    simpl in *; subst; try lra.
  apply Qmult_le_0_compat; [unfold Qle; simpl; lia|].
  apply Qlt_le_weak, pow2_pos.
Qed.

Lemma finite_pos (m : positive) (e : Z) : 0 < inject_Z (Zpos m) * 2 ^ e.
Proof.
  apply Qmult_lt_0_compat; [reflexivity | apply pow2_pos].
Qed.

Lemma round_signed_spec (q M : Q) :
  Qabs q <= M -> M < 2 ^ 1000 ->
  is_finite (round_signed q) = true
  /\ (0 <= q -> sign_of (round_signed q) = false)
  /\ Qabs (to_Q (round_signed q) - q) <= M * eps + eta.
Proof.
  intros Hq HM. unfold round_signed.
  assert (HM0 : 0 <= M) by (eapply Qle_trans; [apply Qabs_nonneg | exact Hq]).
  assert (Hpos : 0 <= M * eps + eta).
  { pose proof (pow2_pos (-53)). pose proof (pow2_pos (-1075)).
    unfold eps, eta.
    assert (0 <= M * 2 ^ (-53)) by (apply Qmult_le_0_compat; lra). lra. }
  destruct (Qcompare q 0) eqn:Hc.
  - apply Qeq_alt in Hc. split; [reflexivity|]. split; [reflexivity|].
    change (to_Q (S754_zero false)) with 0.
    qreplace (0 - q) with 0 by (rewrite Hc; ring). exact Hpos.
  - apply Qlt_alt in Hc.
    assert (Hq' : - q <= M) by (rewrite <- Qabs_neg by lra; exact Hq).
    destruct (round_float_spec true (- q) M) as (H1 & H2 & H3);
      [lra | exact Hq' | exact HM |].
    split; [exact H1|]. split; [intros; lra|].
    assert (E : - - q == q) by ring. rewrite E in H3. exact H3.
  - apply Qgt_alt in Hc.
    assert (Hq' : q <= M) by (rewrite <- Qabs_pos by lra; exact Hq).
    destruct (round_float_spec false q M) as (H1 & H2 & H3);
      [lra | exact Hq' | exact HM |].
    split; [exact H1|]. split; [intros; exact H2|]. exact H3.
Qed.

Lemma err_nonneg (M : Q) : 0 <= M -> 0 <= M * eps + eta.
Proof.
  intros HM. pose proof (pow2_pos (-53)). pose proof (pow2_pos (-1075)).
  unfold eps, eta.
  assert (0 <= M * 2 ^ (-53)) by (apply Qmult_le_0_compat; lra). lra.
Qed.

Lemma Qabs_zero_le (d : Q) : 0 <= d -> Qabs (0 - 0) <= d.
Proof. intros. exact H. Qed.

(** [x * y] *)
Lemma fmul_spec (x y : float) (M : Q) :
  nonneg x -> nonneg y -> to_Q x * to_Q y <= M -> M < 2 ^ 1000 ->
  nonneg (fmul x y)
  /\ Qabs (to_Q (fmul x y) - to_Q x * to_Q y) <= M * eps + eta.
Proof.
  intros [Hfx Hsx] [Hfy Hsy] HM HM'.
  pose proof (to_Q_nonneg x (conj Hfx Hsx)) as Hx0.
  pose proof (to_Q_nonneg y (conj Hfy Hsy)) as Hy0.
  assert (HM0 : 0 <= M).
  { eapply Qle_trans; [|exact HM]. apply Qmult_le_0_compat; assumption. }
  pose proof (err_nonneg M HM0) as Herr.
  destruct x as [sx|sx| |sx mx ex]; try discriminate Hfx;
    destruct y as [sy|sy| |sy my ey]; try discriminate Hfy;
    simpl in Hsx, Hsy; subst.
  - split; [split; reflexivity|]. simpl.
    qreplace (0 - 0 * 0) with 0 by ring. exact Herr.
  - split; [split; reflexivity|].
    change (to_Q (fmul (S754_zero false) (S754_finite false my ey))) with 0.
    change (to_Q (S754_zero false)) with 0.
    qreplace (0 - 0 * to_Q (S754_finite false my ey)) with 0 by ring. exact Herr.
  - split; [split; reflexivity|].
    change (to_Q (fmul (S754_finite false mx ex) (S754_zero false))) with 0.
    change (to_Q (S754_zero false)) with 0.
    qreplace (0 - to_Q (S754_finite false mx ex) * 0) with 0 by ring. exact Herr.
  - change (fmul (S754_finite false mx ex) (S754_finite false my ey))
      with (round_float false (Qabs (to_Q (S754_finite false mx ex))
                               * Qabs (to_Q (S754_finite false my ey)))).
    assert (E : Qabs (to_Q (S754_finite false mx ex))
                * Qabs (to_Q (S754_finite false my ey))
                == to_Q (S754_finite false mx ex) * to_Q (S754_finite false my ey))
      by (rewrite !Qabs_pos by assumption; reflexivity).
    destruct (round_float_spec false
                (Qabs (to_Q (S754_finite false mx ex))
                 * Qabs (to_Q (S754_finite false my ey))) M)
      as (H1 & H2 & H3); [| rewrite E; exact HM | exact HM' |].
    + rewrite E. apply Qmult_lt_0_compat; apply finite_pos.
    + set (r := round_float false _) in *. cbv iota in H3.
      split; [split; assumption|]. rewrite E in H3. exact H3.
Qed.

(** [x + y] *)
Lemma fadd_spec (x y : float) (M : Q) :
  is_finite x = true -> is_finite y = true ->
  Qabs (to_Q x + to_Q y) <= M -> M < 2 ^ 1000 ->
  is_finite (fadd x y) = true
  /\ (sign_of x = false -> sign_of y = false -> sign_of (fadd x y) = false)
  /\ Qabs (to_Q (fadd x y) - (to_Q x + to_Q y)) <= M * eps + eta.
Proof.
  intros Hfx Hfy HM HM'.
  assert (HM0 : 0 <= M) by (eapply Qle_trans; [apply Qabs_nonneg | exact HM]).
  pose proof (err_nonneg M HM0) as Herr.
  destruct x as [sx|sx| |sx mx ex]; try discriminate Hfx;
    destruct y as [sy|sy| |sy my ey]; try discriminate Hfy.
  - split; [destruct sx, sy; reflexivity|].
    split; [simpl; intros -> ->; reflexivity|].
    assert (Hv : to_Q (fadd (S754_zero sx) (S754_zero sy)) = 0)
      by (destruct sx, sy; reflexivity).
    rewrite Hv. change (to_Q (S754_zero sx)) with 0. change (to_Q (S754_zero sy)) with 0.
    qreplace (0 - (0 + 0)) with 0 by ring. exact Herr.
  - split; [reflexivity|]. split; [intros _ H; exact H|].
    change (fadd (S754_zero sx) (S754_finite sy my ey)) with (S754_finite sy my ey).
    change (to_Q (S754_zero sx)) with 0.
    qreplace (to_Q (S754_finite sy my ey) - (0 + to_Q (S754_finite sy my ey)))
      with 0 by ring.
    exact Herr.
  - split; [reflexivity|]. split; [intros H _; exact H|].
    change (fadd (S754_finite sx mx ex) (S754_zero sy)) with (S754_finite sx mx ex).
    change (to_Q (S754_zero sy)) with 0.
    qreplace (to_Q (S754_finite sx mx ex) - (to_Q (S754_finite sx mx ex) + 0))
      with 0 by ring.
    exact Herr.
  - change (fadd (S754_finite sx mx ex) (S754_finite sy my ey))
      with (round_signed (to_Q (S754_finite sx mx ex) + to_Q (S754_finite sy my ey))).
    destruct (round_signed_spec _ M HM HM') as (H1 & H2 & H3).
    split; [exact H1|]. split; [|exact H3].
    intros Hsx Hsy. apply H2. simpl in Hsx, Hsy. subst.
    pose proof (finite_pos mx ex). pose proof (finite_pos my ey).
    rewrite !to_Q_finite. lra.
Qed.

Lemma to_Q_fopp x : to_Q (fopp x) == - to_Q x.
Proof.
  destruct x as [s|s| |s m e]; simpl; try ring. destruct s; simpl; ring.
Qed.

Lemma is_finite_fopp x : is_finite (fopp x) = is_finite x.
Proof. destruct x; reflexivity. Qed.

(** [x - y] *)
Lemma fsub_spec (x y : float) (M : Q) :
  is_finite x = true -> is_finite y = true ->
  Qabs (to_Q x - to_Q y) <= M -> M < 2 ^ 1000 ->
  is_finite (fsub x y) = true
  /\ Qabs (to_Q (fsub x y) - (to_Q x - to_Q y)) <= M * eps + eta.
Proof.
  intros Hfx Hfy HM HM'. unfold fsub.
  destruct (fadd_spec x (fopp y) M) as (H1 & _ & H3);
    [exact Hfx | rewrite is_finite_fopp; exact Hfy | | exact HM' |].
  - rewrite to_Q_fopp. exact HM.
  - split; [exact H1|]. rewrite to_Q_fopp in H3. exact H3.
Qed.

(** [x / y] for a positive [y] *)
Lemma fdiv_spec (x y : float) (M : Q) :
  nonneg x -> nonneg y -> 0 < to_Q y -> to_Q x / to_Q y <= M -> M < 2 ^ 1000 ->
  exists z, fdiv x y = inr z /\ nonneg z
            /\ Qabs (to_Q z - to_Q x / to_Q y) <= M * eps + eta.
Proof.
  intros [Hfx Hsx] [Hfy Hsy] Hy HM HM'.
  pose proof (to_Q_nonneg x (conj Hfx Hsx)) as Hx0.
  assert (HM0 : 0 <= M).
  { eapply Qle_trans; [|exact HM]. apply Qle_shift_div_l; [exact Hy|].
    rewrite Qmult_0_l. exact Hx0. }
  pose proof (err_nonneg M HM0) as Herr.
  destruct y as [sy|sy| |sy my ey]; try discriminate Hfy.
  { simpl in Hy. lra. }
  destruct x as [sx|sx| |sx mx ex]; try discriminate Hfx;
    simpl in Hsx, Hsy; subst.
  - eexists. split; [reflexivity|]. split; [split; reflexivity|].
    change (to_Q (S754_zero (xorb false false))) with 0.
    change (to_Q (S754_zero false)) with 0.
    qreplace (0 - 0 / to_Q (S754_finite false my ey)) with 0
      by (unfold Qdiv; ring).
    exact Herr.
  - exists (round_float false (Qabs (to_Q (S754_finite false mx ex))
                               / Qabs (to_Q (S754_finite false my ey)))).
    split; [reflexivity|].
    assert (E : Qabs (to_Q (S754_finite false mx ex))
                / Qabs (to_Q (S754_finite false my ey))
                == to_Q (S754_finite false mx ex) / to_Q (S754_finite false my ey))
      by (rewrite !Qabs_pos by (try assumption; lra); reflexivity).
    destruct (round_float_spec false
                (Qabs (to_Q (S754_finite false mx ex))
                 / Qabs (to_Q (S754_finite false my ey))) M)
      as (H1 & H2 & H3); [| rewrite E; exact HM | exact HM' |].
    + rewrite E. apply Qlt_shift_div_l; [exact Hy|].
      rewrite Qmult_0_l. apply finite_pos.
    + set (r := round_float false _) in *. cbv iota in H3.
      split; [split; assumption|]. rewrite E in H3. exact H3.
Qed.

(** ** Hundredths *)

Lemma of_cents_spec (n : Z) (M : Q) :
  (0 <= n)%Z -> inject_Z n / 100 <= M -> M < 2 ^ 1000 ->
  nonneg (of_cents n)
  /\ Qabs (to_Q (of_cents n) - inject_Z n / 100) <= M * eps + eta.
Proof.
  intros Hn HM HM'. unfold of_cents, of_decimal.
  assert (Hn0 : 0 <= inject_Z n) by (change 0 with (inject_Z 0); rewrite <- Zle_Qle; exact Hn).
  assert (HM0 : 0 <= M).
  { eapply Qle_trans; [|exact HM]. apply Qle_shift_div_l; [reflexivity | lra]. }
  destruct n as [|p|p]; [| |lia].
  - split; [split; reflexivity|]. change (to_Q (S754_zero false)) with 0.
    qreplace (0 - inject_Z 0 / 100) with 0 by reflexivity.
    apply err_nonneg, HM0.
  - assert (Hv : Qred (inject_Z (Z.pos p) * 10 ^ (-2)) == inject_Z (Z.pos p) / 100).
    { rewrite Qred_correct. reflexivity. }
    destruct (round_float_spec false (Qred (inject_Z (Z.pos p) * 10 ^ (-2))) M)
      as (H1 & H2 & H3).
    + rewrite Hv. apply Qlt_shift_div_l; [reflexivity|].
      assert (0 < inject_Z (Z.pos p)) by reflexivity. qlra.
    + rewrite Hv. exact HM.
    + exact HM'.
    + set (r := round_float false _) in *. cbv iota in H3.
      split; [split; assumption|]. rewrite Hv in H3. exact H3.
Qed.

(** [round(x, 2)] of a float close to a number of hundredths *)
Lemma round2_cents (x : float) (n : Z) :
  nonneg x -> (0 <= n)%Z ->
  Qabs (to_Q x - inject_Z n / 100) < 1 # 200 ->
  round2 x = of_cents n.
Proof.
  intros [Hf Hs] Hn Hnear.
  destruct x as [s|s| |s m e]; try discriminate Hf; simpl in Hs; subst.
  - change (to_Q (S754_zero false)) with 0 in Hnear.
    assert (Hn0 : n = 0%Z).
    { apply Qabs_Qlt_condition in Hnear. destruct Hnear as [H1 H2].
      assert (inject_Z n < inject_Z 1).
      { change (inject_Z 1) with 1. qlra. }
      rewrite <- Zlt_Qlt in H. lia. }
    subst. reflexivity.
  - unfold round2, of_cents. f_equal.
    apply round_half_even_unique.
    rewrite to_Q_finite in Hnear.
    apply Qabs_Qlt_condition in Hnear. apply Qabs_Qlt_condition.
    destruct Hnear as [H1 H2]. split; qlra.
Qed.

End FloatOperations.

Section IntegersAsFloats.
Import PyFloat Generator Amounts.
Local Open Scope Q_scope.

(** ** Integers below [2^53] are floats *)

Lemma round_float_int (s : bool) (z : Z) :
  (0 < z < 2 ^ 53)%Z ->
  is_finite (round_float s (inject_Z z)) = true
  /\ sign_of (round_float s (inject_Z z)) = s
  /\ to_Q (round_float s (inject_Z z)) == (if s then - inject_Z z else inject_Z z).
Proof.
  intros Hz. unfold round_float.
  assert (Ha : 0 < inject_Z z).
  { change 0 with (inject_Z 0). rewrite <- Zlt_Qlt. lia. }
  assert (Hk : (ilog2 (inject_Z z) < 53)%Z).
  { apply ilog2_lt; [exact Ha|]. rewrite <- (pow2_Z 53) by lia.
    rewrite <- Zlt_Qlt. lia. }
  set (k := ilog2 (inject_Z z)) in *.
  set (e := Z.max (k - 52) (-1074)).
  assert (He : (e <= 0)%Z) by (unfold e; lia).
  assert (Hp : (0 < 2 ^ (- e))%Z) by (apply Z.pow_pos_nonneg; lia).
  assert (Hm : round_half_even (inject_Z z * 2 ^ (- e)) = (z * 2 ^ (- e))%Z).
  { apply round_half_even_unique.
    qreplace (inject_Z z * 2 ^ (- e) - inject_Z (z * 2 ^ (- e))) with 0
      by (rewrite inject_Z_mult, (pow2_Z (- e)) by lia; ring).
    reflexivity. }
  rewrite Hm.
  assert (Hval : inject_Z (z * 2 ^ (- e)) * 2 ^ e == inject_Z z).
  { rewrite inject_Z_mult, (pow2_Z (- e)) by lia.
    rewrite <- Qmult_assoc, pow2_cancel. ring. }
  set (m := (z * 2 ^ (- e))%Z) in *.
  assert (Hm0 : (0 < m)%Z) by (unfold m; nia).
  assert (Hsgn : forall v : Q, v == inject_Z z ->
             (if s then - v else v) == (if s then - inject_Z z else inject_Z z)).
  { intros v Hv. destruct s; rewrite Hv; reflexivity. }
  destruct (m =? 2 ^ 53)%Z eqn:Hcarry.
  - apply Z.eqb_eq in Hcarry.
    change (2 ^ 52)%Z with (Zpos (2 ^ 52)%positive).
    cbv iota beta.
    destruct (e + 1 <=? 971)%Z eqn:Hle; [|apply Z.leb_gt in Hle; lia].
    split; [reflexivity|]. split; [reflexivity|].
    rewrite to_Q_finite. apply Hsgn. rewrite <- Hval, Hcarry, pow2_plus.
    change (inject_Z (2 ^ 53)) with (inject_Z (Z.pos (2 ^ 52)) * 2).
    change (2 ^ 1) with 2. ring.
  - cbv iota beta. destruct m as [|p|p]; try lia.
    destruct (e <=? 971)%Z eqn:Hle; [|apply Z.leb_gt in Hle; lia].
    split; [reflexivity|]. split; [reflexivity|].
    rewrite to_Q_finite. apply Hsgn, Hval.
Qed.

(** [float(z)] of an integer below [2^53] that is not negative is [z]. *)
Lemma of_int_exact (z : Z) :
  (0 <= z < 2 ^ 53)%Z ->
  exists x, of_int z = inr x /\ nonneg x /\ to_Q x == inject_Z z.
Proof.
  intros Hz. unfold of_int, round_signed.
  destruct (Z.eq_dec z 0%Z) as [->|Hz0].
  - exists (S754_zero false). split; [reflexivity|]. split; [split|]; reflexivity.
  - assert (Hc : (inject_Z z ?= 0) = Gt).
    { apply Qgt_alt. change 0 with (inject_Z 0). rewrite <- Zlt_Qlt. lia. }
    rewrite Hc.
    destruct (round_float_int false z ltac:(lia)) as (H1 & H2 & H3).
    rewrite H1. eexists. split; [reflexivity|]. split; [split; assumption | exact H3].
Qed.


(** ** Small integers are floats *)

Lemma of_int_small (z : Z) :
  (0 <= z <= 1000)%Z ->
  exists x, of_int z = inr x /\ nonneg x /\ to_Q x == inject_Z z.
Proof. intros Hz. apply of_int_exact. lia. Qed.

End IntegersAsFloats.

Section ErrorBounds.
Import PyFloat Generator Amounts.
Local Open Scope Q_scope.

(** ** Numeric bounds on the rounding error *)


Lemma eta_small : eta <= 1 # 1000000000000000000000000000000.
Proof. apply Qle_bool_iff. vm_compute. reflexivity. Qed.

Lemma eps_val : eps == 1 # 2 ^ 53.
Proof. reflexivity. Qed.

Lemma big_lt M : M <= 10 ^ 30 -> M < 2 ^ 1000.
Proof.
  intros H. eapply Qle_lt_trans; [exact H|]. apply Qlt_alt. vm_compute. reflexivity.
Qed.

(** ** [round(x, 2)] of a float that is not negative *)

Lemma round2_nonneg (x : float) :
  nonneg x ->
  round2 x = of_cents (round_half_even (to_Q x * 100))
  /\ (0 <= round_half_even (to_Q x * 100))%Z.
Proof.
  intros Hx. pose proof (to_Q_nonneg x Hx) as H0. destruct Hx as [Hf Hs].
  split.
  - destruct x as [s|s| |s m e]; try discriminate Hf; simpl in Hs; subst;
      reflexivity.
  - apply round_half_even_nonneg. lra.
Qed.

Lemma cents_bound (q : Q) (B : Z) :
  q * 100 < inject_Z B + (1 # 2) -> (round_half_even (q * 100) <= B)%Z.
Proof.
  intros HB. pose proof (round_half_even_near (q * 100)) as Hn.
  apply Qabs_Qle_condition in Hn. destruct Hn as [_ Hn].
  apply Z.lt_succ_r. rewrite Zlt_Qlt. unfold Z.succ. rewrite inject_Z_plus.
  change (inject_Z 1) with 1. lra.
Qed.


(** The error of one operation on values up to [3 * 10^8]. *)
Lemma err_unit : 300000 * eps + eta <= 1 # 10000000000.
Proof. num_le. Qed.

Lemma err_rate : 30000000 * eps + eta <= 1 # 100000000.
Proof. num_le. Qed.

Lemma err_line : 300000000 * eps + eta <= 1 # 10000000.
Proof. num_le. Qed.

Lemma Qabs_le_intro (x d : Q) : - d <= x -> x <= d -> Qabs x <= d.
Proof. intros. apply Qabs_Qle_condition. split; assumption. Qed.

Lemma Qabs_le_elim (x d : Q) : Qabs x <= d -> - d <= x /\ x <= d.
Proof. apply Qabs_Qle_condition. Qed.

(** A unit amount of [c] hundredths times a quantity. *)
Lemma scaled_total (x qf : float) (c q : Z) :
  nonneg x -> (0 <= c <= 20000000)%Z ->
  Qabs (to_Q x - inject_Z c / 100) <= 1 # 10000000000 ->
  nonneg qf -> to_Q qf == inject_Z q -> (1 <= q <= 1000)%Z ->
  round2 (fmul x qf) = of_cents (c * q).
Proof.
  intros Hx Hc Hnear Hqf Hq Hq1.
  pose proof (to_Q_nonneg x Hx) as Hx0.
  apply Qabs_le_elim in Hnear. destruct Hnear as [Hn1 Hn2].
  assert (Hc0 : 0 <= inject_Z c <= 20000000).
  { split; [change 0 with (inject_Z 0) | change 20000000 with (inject_Z 20000000)];
      rewrite <- Zle_Qle; lia. }
  assert (Hq0 : 1 <= inject_Z q <= 1000).
  { split; [change 1 with (inject_Z 1) | change 1000 with (inject_Z 1000)];
      rewrite <- Zle_Qle; lia. }
  assert (Hxb : to_Q x <= 200001) by qlra.
  assert (Hprod : to_Q x * to_Q qf <= 300000000).
  { rewrite Hq. apply Qle_trans with (200001 * 1000); [|apply Qle_bool_iff; reflexivity].
    apply Qmult_le_compat_nonneg; split; lra. }
  destruct (fmul_spec x qf 300000000 Hx Hqf Hprod) as [Hnn Herr];
    [apply big_lt; apply Qle_bool_iff; reflexivity|].
  apply round2_cents; [exact Hnn | lia |].
  pose proof err_line as He.
  apply Qabs_le_elim in Herr. destruct Herr as [He1 He2].
  rewrite Hq in He1, He2.
  rewrite inject_Z_mult.
  set (X := to_Q x) in *. set (C := inject_Z c) in *. set (Qn := inject_Z q) in *.
  set (F := to_Q (fmul x qf)) in *.
  assert (Hs1 : (X - C / 100) * Qn <= (1 # 10000000000) * 1000).
  { apply Qle_trans with ((1 # 10000000000) * Qn).
    - apply Qmult_le_compat_r; lra.
    - apply Qmult_le_l; [reflexivity | lra]. }
  assert (Hs2 : - ((1 # 10000000000) * 1000) <= (X - C / 100) * Qn).
  { apply Qle_trans with (- (1 # 10000000000) * Qn).
    - assert ((1 # 10000000000) * Qn <= (1 # 10000000000) * 1000)
        by (apply Qmult_le_l; [reflexivity | lra]).
      lra.
    - apply Qmult_le_compat_r; lra. }
  assert (E : F - C * Qn / 100 == (F - X * Qn) + (X - C / 100) * Qn)
    by (unfold Qdiv; ring).
  apply Qabs_Qlt_condition. rewrite E.
  generalize dependent ((X - C / 100) * Qn). intros Y HY1 HY2 HE.
  revert He1 He2 He. generalize (300000000 * eps + eta). generalize (X * Qn).
  intros. split; qlra.
Qed.

End ErrorBounds.

Section LineAmounts.
Import PyFloat Generator Amounts.
Local Open Scope Q_scope.

Lemma inject_Z_bounds (z lo hi : Z) :
  (lo <= z <= hi)%Z -> inject_Z lo <= inject_Z z <= inject_Z hi.
Proof. intros [H1 H2]. split; rewrite <- Zle_Qle; assumption. Qed.

(** The value of a number of hundredths up to [2 * 10^7]. *)
Lemma of_cents_unit (c : Z) :
  (0 <= c <= 20000000)%Z ->
  nonneg (of_cents c)
  /\ Qabs (to_Q (of_cents c) - inject_Z c / 100) <= 1 # 10000000000.
Proof.
  intros Hc. pose proof (inject_Z_bounds _ _ _ Hc) as Hb.
  change (inject_Z 0) with 0 in Hb. change (inject_Z 20000000) with 20000000 in Hb.
  destruct (of_cents_spec c 300000) as [H1 H2]; [lia | qlra | |].
  - apply big_lt. apply Qle_bool_iff. reflexivity.
  - split; [exact H1|]. eapply Qle_trans; [exact H2 | exact err_unit].
Qed.

(** The amounts of a line, in hundredths: with a unit net price of [U]
    hundredths and a unit tax of [V], the unit gross price is [U + V] and the
    three totals are the products with the quantity. *)
Lemma line_cents (drawn : float) (rate_z qty_z : Z) (a : amounts) (w w' : world) :
  line_amounts drawn rate_z qty_z w = (inr a, w') ->
  nonneg drawn -> to_Q drawn <= 100000 ->
  (0 <= rate_z <= 100)%Z -> (1 <= qty_z <= 1000)%Z ->
  exists U V : Z,
    U = round_half_even (to_Q drawn * 100)
    /\ (0 <= U <= 10000000)%Z /\ (0 <= V <= 10000000)%Z
    /\ (Z.abs (100 * V - U * rate_z) <= 50)%Z
    /\ a_price_net a = of_cents U
    /\ a_price_tax a = of_cents V
    /\ a_price_gross a = of_cents (U + V)
    /\ a_total_price_net a = of_cents (U * qty_z)
    /\ a_total_price_tax a = of_cents (V * qty_z)
    /\ a_total_price_gross a = of_cents ((U + V) * qty_z).
Proof.
  intros Ha Hd Hdb Hrate Hqty.
  apply line_amounts_spec in Ha.
  destruct Ha as (_ & rate & hundred & pct & qty & Hr & Hh & Hq & Hpct & Hnet
                  & Htax & Hgross & Htn & Htt & Htg).
  pose proof (to_Q_nonneg drawn Hd) as Hd0.
  (* the unit net price *)
  destruct (round2_nonneg drawn Hd) as [Hu HU0].
  set (U := round_half_even (to_Q drawn * 100)) in *.
  assert (HU : (U <= 10000000)%Z).
  { apply cents_bound. change (inject_Z 10000000) with 10000000. lra. }
  rewrite <- Hnet in Hu.
  destruct (of_cents_unit U) as [Hun Hue]; [lia|].
  rewrite <- Hu in Hun, Hue.
  pose proof (to_Q_nonneg _ Hun) as Hu0.
  pose proof (inject_Z_bounds _ _ _ (conj HU0 HU)) as HUq.
  change (inject_Z 0) with 0 in HUq. change (inject_Z 10000000) with 10000000 in HUq.
  apply Qabs_le_elim in Hue. destruct Hue as [Hue1 Hue2].
  assert (Hub : to_Q (a_price_net a) <= 100001) by qlra.
  (* the tax rate and one hundred *)
  destruct (of_int_small rate_z) as (rate' & Hr' & Hrn & Hrq); [lia|].
  rewrite Hr in Hr'. injection Hr' as <-.
  destruct (of_int_small 100) as (hundred' & Hh' & Hhn & Hhq); [lia|].
  rewrite Hh in Hh'. injection Hh' as <-.
  change (inject_Z 100) with 100 in Hhq.
  pose proof (inject_Z_bounds _ _ _ Hrate) as Hrb.
  change (inject_Z 0) with 0 in Hrb. change (inject_Z 100) with 100 in Hrb.
  (* the unit tax *)
  assert (Hp1 : to_Q (a_price_net a) * to_Q rate <= 30000000).
  { rewrite Hrq. apply Qle_trans with (100001 * 100); [|apply Qle_bool_iff; reflexivity].
    apply Qmult_le_compat_nonneg; split; lra. }
  destruct (fmul_spec (a_price_net a) rate 30000000 Hun Hrn Hp1) as [Hmn Hme];
    [apply big_lt; apply Qle_bool_iff; reflexivity|].
  pose proof (to_Q_nonneg _ Hmn) as Hm0.
  apply Qabs_le_elim in Hme. destruct Hme as [Hme1 Hme2].
  pose proof err_rate as Herate.
  assert (Hprod : to_Q (a_price_net a) * to_Q rate <= to_Q (a_price_net a) * 100).
  { rewrite Hrq. apply Qmult_le_compat_nonneg; split; lra. }
  set (fm := fmul (a_price_net a) rate) in *.
  assert (Hq1 : to_Q fm / to_Q hundred <= 300000).
  { rewrite Hhq. revert Hme2 Hprod Hp1 Herate.
    generalize (to_Q (a_price_net a) * to_Q rate) (30000000 * eps + eta).
    intros. qlra. }
  assert (Hh0 : 0 < to_Q hundred) by (rewrite Hhq; reflexivity).
  destruct (fdiv_spec fm hundred 300000 Hmn Hhn Hh0 Hq1) as (z & Hz & Hzn & Hze);
    [apply big_lt; apply Qle_bool_iff; reflexivity|].
  rewrite Hpct in Hz. injection Hz as <-.
  apply Qabs_le_elim in Hze. destruct Hze as [Hze1 Hze2].
  rewrite Hhq in Hze1, Hze2.
  pose proof err_unit as Heunit.
  pose proof (to_Q_nonneg _ Hzn) as Hz0.
  destruct (round2_nonneg pct Hzn) as [Ht HT0].
  set (V := round_half_even (to_Q pct * 100)) in *.
  assert (Hpb : to_Q pct <= to_Q (a_price_net a) + (3 # 10000000000)).
  { revert Hme2 Hprod Hze2 Herate Heunit.
    generalize (to_Q (a_price_net a) * to_Q rate) (30000000 * eps + eta)
               (300000 * eps + eta).
    intros. qlra. }
  assert (HT : (V <= 10000000)%Z).
  { apply cents_bound. change (inject_Z 10000000) with 10000000. qlra. }
  assert (Hnear : (Z.abs (100 * V - U * rate_z) <= 50)%Z).
  { pose proof (round_half_even_near (to_Q pct * 100)) as Hn. fold V in Hn.
    apply Qabs_le_elim in Hn. destruct Hn as [Hn1 Hn2].
    rewrite Hrq in Hme1, Hme2.
    assert (Hy1 : (to_Q (a_price_net a) - inject_Z U / 100) * inject_Z rate_z
                  <= (1 # 10000000000) * 100).
    { apply Qle_trans with ((1 # 10000000000) * inject_Z rate_z).
      - apply Qmult_le_compat_r; lra.
      - apply Qmult_le_l; [reflexivity | lra]. }
    assert (Hy2 : - ((1 # 10000000000) * 100)
                  <= (to_Q (a_price_net a) - inject_Z U / 100) * inject_Z rate_z).
    { apply Qle_trans with (- (1 # 10000000000) * inject_Z rate_z).
      - assert ((1 # 10000000000) * inject_Z rate_z <= (1 # 10000000000) * 100)
          by (apply Qmult_le_l; [reflexivity | lra]).
        lra.
      - apply Qmult_le_compat_r; lra. }
    assert (E : to_Q (a_price_net a) * inject_Z rate_z
                == inject_Z U * inject_Z rate_z / 100
                   + (to_Q (a_price_net a) - inject_Z U / 100) * inject_Z rate_z)
      by (unfold Qdiv; ring).
    assert (Hint : - (51) < inject_Z (100 * V - U * rate_z) < 51).
    { unfold Z.sub. rewrite inject_Z_plus, inject_Z_opp, !inject_Z_mult.
      change (inject_Z 100) with 100.
      revert Hme1 Hme2 Hze1 Hze2 Herate Heunit E Hy1 Hy2 Hn1 Hn2.
      generalize (to_Q (a_price_net a) * inject_Z rate_z)
                 ((to_Q (a_price_net a) - inject_Z U / 100) * inject_Z rate_z)
                 (inject_Z U * inject_Z rate_z)
                 (30000000 * eps + eta) (300000 * eps + eta).
      intros. split; qlra. }
    destruct Hint as [Hq1' Hq2'].
    change (- (51)) with (inject_Z (-51)) in Hq1'. change 51 with (inject_Z 51) in Hq2'.
    rewrite <- Zlt_Qlt in Hq1', Hq2'. lia. }
  rewrite <- Htax in Ht.
  destruct (of_cents_unit V) as [Htn' Hte]; [lia|].
  rewrite <- Ht in Htn', Hte.
  pose proof (to_Q_nonneg _ Htn') as Ht0.
  pose proof (inject_Z_bounds _ _ _ (conj HT0 HT)) as HTq.
  change (inject_Z 0) with 0 in HTq. change (inject_Z 10000000) with 10000000 in HTq.
  apply Qabs_le_elim in Hte. destruct Hte as [Hte1 Hte2].
  (* the unit gross price *)
  assert (Hsum : Qabs (to_Q (a_price_net a) + to_Q (a_price_tax a)) <= 300000).
  { apply Qabs_le_intro; qlra. }
  destruct (fadd_spec (a_price_net a) (a_price_tax a) 300000
              (proj1 Hun) (proj1 Htn') Hsum) as (Hgf & Hgs & Hge);
    [apply big_lt; apply Qle_bool_iff; reflexivity|].
  specialize (Hgs (proj2 Hun) (proj2 Htn')).
  apply Qabs_le_elim in Hge. destruct Hge as [Hge1 Hge2].
  assert (Hg : a_price_gross a = of_cents (U + V)).
  { rewrite Hgross. apply round2_cents; [split; assumption | lia |].
    rewrite inject_Z_plus. apply Qabs_Qlt_condition.
    revert Hge1 Hge2 Heunit. generalize (300000 * eps + eta). intros. split; qlra. }
  destruct (of_cents_unit (U + V)) as [Hgn Hgnear]; [lia|].
  rewrite <- Hg in Hgn, Hgnear.
  (* the quantity and the three totals *)
  destruct (of_int_small qty_z) as (qty' & Hq' & Hqn & Hqq); [lia|].
  rewrite Hq in Hq'. injection Hq' as <-.
  exists U, V.
  split; [reflexivity|]. split; [lia|]. split; [lia|]. split; [exact Hnear|].
  split; [exact Hu|]. split; [exact Ht|]. split; [exact Hg|].
  split; [|split].
  - rewrite Htn. apply scaled_total; try assumption; try lia.
    apply Qabs_le_intro; lra.
  - rewrite Htt. apply scaled_total; try assumption; try lia.
    apply Qabs_le_intro; lra.
  - rewrite Htg. apply scaled_total; try assumption; lia.
Qed.

End LineAmounts.

Section DecimalDigits.
Import PyFloat Generator Amounts.
Local Open Scope Z_scope.

(** ** Decimal digits *)


Lemma digits_value_num (s : text) (acc : Z) :
  Forall is_digit s -> digits_value s acc = Some (digits_num s acc).
Proof.
  intros Hs. revert acc. induction Hs as [|d s Hd _ IH]; intros acc; simpl.
  - reflexivity.
  - destruct Hd as [H1 H2].
    apply N.leb_le in H1, H2. rewrite H1, H2. simpl. apply IH.
Qed.

Lemma digits_num_app (a b : text) (acc : Z) :
  digits_num (a ++ b) acc = digits_num b (digits_num a acc).
Proof. apply fold_left_app. Qed.

Lemma digits_num_acc (s : text) (acc : Z) :
  digits_num s acc = acc * 10 ^ Z.of_nat (length s) + digits_num s 0.
Proof.
  revert acc. induction s as [|d s IH]; intros acc.
  - simpl. lia.
  - cbn [digits_num fold_left length]. fold (digits_num s (10 * acc + Z.of_N (d - 48))).
    fold (digits_num s (10 * 0 + Z.of_N (d - 48))).
    rewrite IH, (IH (10 * 0 + _)).
    rewrite Nat2Z.inj_succ, Z.pow_succ_r by lia. lia.
Qed.

Lemma digits_num_zeros (n : nat) (acc : Z) :
  digits_num (replicate n 48%N) acc = acc * 10 ^ Z.of_nat n.
Proof.
  revert acc. induction n as [|n IH]; intros acc.
  - simpl. lia.
  - cbn [replicate digits_num fold_left]. fold (digits_num (replicate n 48%N)).
    rewrite IH. rewrite Nat2Z.inj_succ, Z.pow_succ_r by lia. simpl. lia.
Qed.

Lemma zeros_digits (n : nat) : Forall is_digit (replicate n 48%N).
Proof. apply Forall_replicate. unfold is_digit. lia. Qed.

(** ** [str] of a natural number *)

Lemma digits_go_spec (fuel : nat) (n : N) (acc : text) :
  (n < 2 ^ N.of_nat fuel)%N -> (1 <= fuel)%nat ->
  exists ds,
    digits_go fuel n acc = ds ++ acc
    /\ Forall is_digit ds
    /\ digits_num ds 0 = Z.of_N n
    /\ (1 <= length ds)%nat
    /\ (Z.of_N n < 10 ^ Z.of_nat (length ds))
    /\ (n <> 0%N -> 10 ^ (Z.of_nat (length ds) - 1) <= Z.of_N n).
Proof.
  revert n acc. induction fuel as [|fuel IH]; intros n acc Hn Hfuel.
  - lia.
  - cbn [digits_go].
    assert (Hd : is_digit (48 + n mod 10)).
    { pose proof (N.mod_upper_bound n 10 ltac:(discriminate)) as Hm.
      unfold is_digit. split; [apply N.le_add_r|].
      change 57%N with (48 + 9)%N. apply N.add_le_mono_l.
      apply N.lt_succ_r. exact Hm. }
    destruct (n <? 10)%N eqn:Hlt.
    + apply N.ltb_lt in Hlt. exists [(48 + n mod 10)%N].
      rewrite N.mod_small by exact Hlt.
      split; [reflexivity|]. split; [constructor; [rewrite N.mod_small in Hd by exact Hlt; exact Hd | constructor]|].
      split.
      { unfold digits_num. cbn [fold_left].
        rewrite (N.add_comm 48), N.add_sub. lia. }
      cbn [length]. split; [lia|].
      split; [change (10 ^ Z.of_nat 1) with 10; lia|].
      intros Hn0. change (10 ^ (Z.of_nat 1 - 1)) with 1. lia.
    + apply N.ltb_ge in Hlt.
      assert (Hn' : (n / 10 < 2 ^ N.of_nat fuel)%N).
      { apply N.Div0.div_lt_upper_bound.
        rewrite Nat2N.inj_succ, N.pow_succ_r' in Hn. lia. }
      assert (Hfuel' : (1 <= fuel)%nat).
      { destruct fuel; [simpl in Hn'|lia].
        assert (n / 10 = 0)%N as H0 by lia.
        pose proof (N.div_mod n 10 ltac:(lia)) as Hdm0.
        pose proof (N.mod_upper_bound n 10 ltac:(lia)). rewrite H0 in Hdm0. lia. }
      destruct (IH (n / 10)%N ((48 + n mod 10)%N :: acc) Hn' Hfuel')
        as (ds & Hgo & Hds & Hnum & Hlen & Hup & Hlo).
      exists (ds ++ [(48 + n mod 10)%N]).
      rewrite <- app_assoc. split; [exact Hgo|].
      split; [apply Forall_app; split; [exact Hds | constructor; [exact Hd | constructor]]|].
      pose proof (N.div_mod n 10 ltac:(lia)) as Hdm.
      pose proof (N.mod_upper_bound n 10 ltac:(lia)) as Hmod.
      split.
      { rewrite digits_num_app, Hnum. unfold digits_num. cbn [fold_left].
        rewrite (N.add_comm 48), N.add_sub. lia. }
      rewrite length_app. simpl length.
      split; [lia|].
      replace (Z.of_nat (length ds + 1)) with (Z.succ (Z.of_nat (length ds))) by lia.
      rewrite Z.pow_succ_r by lia.
      split; [lia|].
      intros _. replace (Z.succ (Z.of_nat (length ds)) - 1) with (Z.succ (Z.of_nat (length ds) - 1)) by lia.
      rewrite Z.pow_succ_r by lia.
      assert (Hq0 : (n / 10 <> 0)%N).
      { intros H0. rewrite H0 in Hdm. lia. }
      specialize (Hlo Hq0). clear -Hlo Hdm.
      generalize dependent (n / 10)%N. generalize (n mod 10)%N.
      intros r q Hlo Hdm. lia.
Qed.

Lemma Z_to_text_spec (c : Z) :
  0 < c ->
  Forall is_digit (Z_to_text c)
  /\ digits_num (Z_to_text c) 0 = c
  /\ (1 <= length (Z_to_text c))%nat
  /\ 10 ^ (Z.of_nat (length (Z_to_text c)) - 1) <= c
     < 10 ^ Z.of_nat (length (Z_to_text c)).
Proof.
  intros Hc. destruct c as [|p|p]; try lia.
  unfold Z_to_text. change (Z.to_N (Z.pos p)) with (N.pos p).
  unfold N_to_text.
  destruct (digits_go_spec (S (N.to_nat (N.log2 (N.pos p)))) (N.pos p) [])
    as (ds & Hgo & Hds & Hnum & Hlen & Hup & Hlo).
  { rewrite Nat2N.inj_succ, N2Nat.id.
    apply N.log2_spec. lia. }
  { lia. }
  rewrite Hgo, app_nil_r.
  split; [exact Hds|]. split; [exact Hnum|]. split; [exact Hlen|].
  split; [apply Hlo; discriminate | exact Hup].
Qed.

End DecimalDigits.

Section ReadingDecimals.
Import PyFloat Generator Amounts.
Local Open Scope Z_scope.

(** ** Powers of ten *)

Lemma pow10_pos (z : Z) : (0 < 10 ^ z)%Q.
Proof. apply Qpower_0_lt. reflexivity. Qed.

Lemma pow10_plus (a b : Z) : (10 ^ (a + b) == 10 ^ a * 10 ^ b)%Q.
Proof. apply Qpower_plus. discriminate. Qed.

Lemma pow10_le (a b : Z) : a <= b -> (10 ^ a <= 10 ^ b)%Q.
Proof. intros H. apply Qpower_le_compat_l; [exact H | discriminate]. Qed.

Lemma pow10_lt_inv (a b : Z) : (10 ^ a < 10 ^ b)%Q -> a < b.
Proof. intros H. apply (Qpower_lt_compat_l_inv 10); [exact H | reflexivity]. Qed.

Lemma pow10_Z (n : Z) : 0 <= n -> (inject_Z (10 ^ n) == 10 ^ n)%Q.
Proof. intros H. apply (Zpower_Qpower 10 n H). Qed.

(** ** Decimals of equal value read as the same float *)

Lemma of_decimal_eq (s : bool) (c p c' p' : Z) :
  0 < c -> 0 < c' ->
  (inject_Z c * 10 ^ p == inject_Z c' * 10 ^ p')%Q ->
  of_decimal s c p = of_decimal s c' p'.
Proof.
  intros Hc Hc' H. destruct c as [|a|a]; try lia. destruct c' as [|a'|a']; try lia.
  unfold of_decimal. f_equal. apply Qred_complete. exact H.
Qed.

(** ** Splitting at a character *)

Lemma split_char_notin (c : N) (s : text) :
  Forall (fun d => d <> c) s -> split_char c s = [s].
Proof.
  induction 1 as [|d s Hd _ IH]; [reflexivity|].
  cbn [split_char]. apply N.eqb_neq in Hd. rewrite Hd, IH. reflexivity.
Qed.

Lemma split_char_once (c : N) (a b : text) :
  Forall (fun d => d <> c) a -> Forall (fun d => d <> c) b ->
  split_char c (a ++ c :: b) = [a; b].
Proof.
  intros Ha Hb. induction Ha as [|d a Hd _ IH].
  - cbn [app split_char]. rewrite N.eqb_refl, (split_char_notin c b Hb). reflexivity.
  - cbn [app split_char]. apply N.eqb_neq in Hd. rewrite Hd, IH. reflexivity.
Qed.

Lemma digits_avoid (c : N) (s : text) :
  ~ is_digit c -> Forall is_digit s -> Forall (fun d => d <> c) s.
Proof.
  intros Hc Hs. eapply Forall_impl; [exact Hs|].
  intros d Hd ->. exact (Hc Hd).
Qed.

Lemma digits_opt_num (s : text) :
  Forall is_digit s -> s <> [] -> digits_opt s = Some (digits_num s 0).
Proof.
  intros Hs Hne. destruct s as [|d s]; [congruence|].
  unfold digits_opt. apply digits_value_num, Hs.
Qed.

(** ** Reading a positional decimal *)

Lemma float_of_str_unsigned (d : N) (s : text) :
  d <> 45%N ->
  float_of_str (d :: s)
  = match parse_unsigned false (d :: s) with
    | Some x => inr x
    | None => inl (ValueError (T "could not convert string to float"))
    end.
Proof.
  intros Hd. unfold float_of_str.
  destruct d as [|p]; [reflexivity|].
  do 7 (try (destruct p as [p|p|])); try reflexivity. congruence.
Qed.

Lemma float_of_str_positional (ip fp : text) :
  Forall is_digit ip -> ip <> [] -> Forall is_digit fp -> fp <> [] ->
  float_of_str (ip ++ 46%N :: fp)
  = inr (of_decimal false
           (digits_num ip 0 * 10 ^ Z.of_nat (length fp) + digits_num fp 0)
           (0 - Z.of_nat (length fp))).
Proof.
  intros Hip Hne Hfp Hnf.
  assert (Hbody : Forall (fun d => d <> 101%N) (ip ++ 46%N :: fp)).
  { apply Forall_app. split; [|constructor; [discriminate|]];
      apply digits_avoid; try assumption; unfold is_digit; lia. }
  assert (Hip46 : Forall (fun d => d <> 46%N) ip)
    by (apply digits_avoid; [unfold is_digit; lia | exact Hip]).
  assert (Hfp46 : Forall (fun d => d <> 46%N) fp)
    by (apply digits_avoid; [unfold is_digit; lia | exact Hfp]).
  destruct ip as [|d ip']; [congruence|].
  assert (Hd : is_digit d) by (inversion Hip; assumption).
  change ((d :: ip') ++ 46%N :: fp) with (d :: (ip' ++ 46%N :: fp)) in *.
  rewrite float_of_str_unsigned by (unfold is_digit in Hd; lia).
  unfold parse_unsigned.
  assert (Hinf : text_eqb (d :: ip' ++ 46%N :: fp) (T "inf") = false).
  { apply bool_decide_eq_false. intros H. change (T "inf") with [105; 110; 102]%N in H.
    injection H as H _. unfold is_digit in Hd. lia. }
  assert (Hnan : text_eqb (d :: ip' ++ 46%N :: fp) (T "nan") = false).
  { apply bool_decide_eq_false. intros H. change (T "nan") with [110; 97; 110]%N in H.
    injection H as H _. unfold is_digit in Hd. lia. }
  rewrite Hinf, Hnan, (split_char_notin _ _ Hbody).
  change (d :: ip' ++ 46%N :: fp) with ((d :: ip') ++ 46%N :: fp).
  rewrite (split_char_once _ _ _ Hip46 Hfp46).
  rewrite (digits_opt_num _ Hip Hne), (digits_opt_num _ Hfp Hnf).
  reflexivity.
Qed.

(** ** [float(str(x))] on a positional layout *)

Lemma float_of_str_layout (c p : Z) :
  0 < c ->
  -4 < Z.of_nat (length (Z_to_text c)) + p <= 16 ->
  float_of_str (layout (Z_to_text c) (Z.of_nat (length (Z_to_text c)) + p))
  = inr (of_decimal false c p).
Proof.
  intros Hc Hdp.
  destruct (Z_to_text_spec c Hc) as (Hds & Hnum & Hlen & Hlo & Hup).
  set (ds := Z_to_text c) in *. set (nd := Z.of_nat (length ds)) in *.
  assert (Hne : ds <> []) by (destruct ds; [simpl in Hlen; lia | discriminate]).
  unfold layout. fold nd.
  replace ((nd + p <=? -4) || (16 <? nd + p)) with false
    by (symmetry; apply orb_false_iff; split; [apply Z.leb_gt | apply Z.ltb_ge]; lia).
  destruct (nd + p <=? 0) eqn:H0.
  - apply Z.leb_le in H0.
    change (T "0." ++ zeros (- (nd + p)) ++ ds)
      with ([48%N] ++ 46%N :: (zeros (- (nd + p)) ++ ds)).
    rewrite float_of_str_positional.
    + f_equal. rewrite digits_num_app. unfold zeros. rewrite digits_num_zeros.
      rewrite (digits_num_acc ds), Hnum.
      rewrite length_app, length_replicate.
      change (digits_num [48%N] 0) with 0.
      replace (0 * _ + (0 * _ * _ + c)) with c by lia.
      replace (0 - _) with p by (unfold nd in *; lia). reflexivity.
    + constructor; [unfold is_digit; lia | constructor].
    + discriminate.
    + apply Forall_app. split; [apply zeros_digits | exact Hds].
    + intros H. apply app_eq_nil in H. tauto.
  - apply Z.leb_gt in H0. destruct (nd <=? nd + p) eqn:H1.
    + apply Z.leb_le in H1.
      change (ds ++ zeros (nd + p - nd) ++ T ".0")
        with (ds ++ zeros (nd + p - nd) ++ 46%N :: [48%N]).
      rewrite app_assoc.
      rewrite float_of_str_positional.
      * f_equal. rewrite digits_num_app. unfold zeros. rewrite digits_num_zeros.
        rewrite Hnum. change (digits_num [48%N] 0) with 0.
        change (Z.of_nat (length [48%N])) with 1.
        replace (Z.of_nat (Z.to_nat (nd + p - nd))) with p by lia.
        apply of_decimal_eq.
        -- assert (0 < 10 ^ p) by (apply Z.pow_pos_nonneg; lia). nia.
        -- exact Hc.
        -- rewrite Z.add_0_r, !inject_Z_mult, (pow10_Z p), (pow10_Z 1) by lia.
           change (0 - 1) with (-1).
           rewrite <- !Qmult_assoc, <- (pow10_plus 1 (-1)).
           change (10 ^ (1 + -1))%Q with 1%Q. ring.
      * apply Forall_app. split; [exact Hds | apply zeros_digits].
      * intros H. apply app_eq_nil in H. tauto.
      * constructor; [unfold is_digit; lia | constructor].
      * discriminate.
    + apply Z.leb_gt in H1.
      change (T ".") with [46%N]. change ([46%N] ++ drop (Z.to_nat (nd + p)) ds)
        with (46%N :: drop (Z.to_nat (nd + p)) ds).
      assert (Hlt : (Z.to_nat (nd + p) < length ds)%nat) by (unfold nd in *; lia).
      rewrite float_of_str_positional.
      * f_equal.
        pose proof (digits_num_app (take (Z.to_nat (nd + p)) ds)
                      (drop (Z.to_nat (nd + p)) ds) 0) as Happ.
        rewrite take_drop, Hnum, digits_num_acc in Happ.
        rewrite <- Happ. f_equal.
        rewrite length_drop. unfold nd in *. lia.
      * apply Forall_take, Hds.
      * intros H. apply (f_equal length) in H. rewrite length_take in H.
        simpl in H. lia.
      * apply Forall_drop, Hds.
      * intros H. apply (f_equal length) in H. rewrite length_drop in H.
        simpl in H. lia.
Qed.

End ReadingDecimals.

Section ShortestDecimal.
Import PyFloat Generator Amounts.
Local Open Scope Z_scope.

(** ** Comparison of floats *)

Lemma SFcompare_refl (s : bool) (m : positive) (e : Z) :
  SFcompare (S754_finite s m e) (S754_finite s m e) = Some Eq.
Proof.
  unfold SFcompare. rewrite Z.compare_refl.
  destruct s; [rewrite Pos.compare_cont_refl | rewrite Pos.compare_cont_refl]; reflexivity.
Qed.

Lemma SFcompare_eq (s : bool) (m : positive) (e : Z) (y : float) :
  SFcompare (S754_finite s m e) y = Some Eq -> y = S754_finite s m e.
Proof.
  destruct y as [sy|sy| |sy my ey]; simpl.
  - destruct s; discriminate.
  - destruct s, sy; discriminate.
  - discriminate.
  - destruct s, sy; try discriminate.
    + destruct (e ?= ey) eqn:He; try discriminate.
      apply Z.compare_eq in He. subst ey. intros H.
      injection H as H. apply CompOpp_iff in H. simpl in H.
      change (Pos.compare_cont Eq m my) with (Pos.compare m my) in H.
      apply Pos.compare_eq in H. subst. reflexivity.
    + destruct (e ?= ey) eqn:He; try discriminate.
      apply Z.compare_eq in He. subst ey. intros H.
      injection H as H.
      change (Pos.compare_cont Eq m my) with (Pos.compare m my) in H.
      apply Pos.compare_eq in H. subst. reflexivity.
Qed.

Lemma reads_back_iff (s : bool) (m : positive) (e : Z) (s' : bool) (c p : Z) :
  reads_back (S754_finite s m e) s' c p = true
  <-> of_decimal s' c p = S754_finite s m e.
Proof.
  unfold reads_back. split.
  - destruct (SFcompare _ _) as [[| |]|] eqn:H; try discriminate.
    intros _. apply SFcompare_eq in H. exact H.
  - intros ->. rewrite SFcompare_refl. reflexivity.
Qed.

(** ** The search for the shortest decimal *)

Lemma candidate_some (x : float) (s : bool) (m : positive) (e t k c : Z) :
  candidate x s m e t k = Some c ->
  reads_back x s c (t - k) = true
  /\ (let lo := Qfloor (inject_Z (Zpos m) * 2 ^ e * 10 ^ (k - t)) in
      lo <= c <= lo + 1).
Proof.
  unfold candidate.
  set (lo := Qfloor _).
  destruct (reads_back x s lo (t - k)) eqn:Hlo,
           (reads_back x s (lo + 1) (t - k)) eqn:Hhi; try discriminate.
  - destruct (_ ?= _)%Q; [destruct (Z.even lo)| |]; intros H; injection H as <-;
      (split; [assumption | cbv zeta; lia]).
  - intros H; injection H as <-. split; [assumption | cbv zeta; lia].
  - intros H; injection H as <-. split; [assumption | cbv zeta; lia].
Qed.

Lemma candidate_found (x : float) (s : bool) (m : positive) (e t k : Z) :
  (let lo := Qfloor (inject_Z (Zpos m) * 2 ^ e * 10 ^ (k - t)) in
   reads_back x s lo (t - k) = true \/ reads_back x s (lo + 1) (t - k) = true) ->
  exists c, candidate x s m e t k = Some c.
Proof.
  unfold candidate. cbv zeta.
  set (lo := Qfloor _).
  destruct (reads_back x s lo (t - k)) eqn:Hlo,
           (reads_back x s (lo + 1) (t - k)) eqn:Hhi; intros H.
  - destruct (_ ?= _)%Q; eauto.
  - eauto.
  - eauto.
  - destruct H; discriminate.
Qed.

Lemma shortest_go_found (fuel : nat) (x : float) (s : bool) (m : positive) (e t k0 k : Z) :
  k0 <= k < k0 + Z.of_nat fuel ->
  (exists c, candidate x s m e t k = Some c) ->
  exists c k', shortest_go fuel x s m e t k0 = (c, k')
               /\ candidate x s m e t k' = Some c /\ k0 <= k' <= k.
Proof.
  revert k0. induction fuel as [|fuel IH]; intros k0 Hk Hc; [lia|].
  cbn [shortest_go]. destruct (candidate x s m e t k0) as [c0|] eqn:H0.
  - exists c0, k0. split; [reflexivity|]. split; [exact H0 | lia].
  - assert (k0 <> k) by (intros ->; destruct Hc as [c Hc]; congruence).
    destruct (IH (k0 + 1)) as (c & k' & H1 & H2 & H3); [lia | exact Hc |].
    exists c, k'. split; [exact H1|]. split; [exact H2 | lia].
Qed.

Lemma strip_zeros_spec (fuel : nat) (c p c' p' : Z) :
  0 < c -> strip_zeros fuel c p = (c', p') ->
  0 < c' /\ (inject_Z c' * 10 ^ p' == inject_Z c * 10 ^ p)%Q.
Proof.
  revert c p. induction fuel as [|fuel IH]; intros c p Hc; cbn [strip_zeros].
  - intros H. injection H as <- <-. split; [exact Hc | reflexivity].
  - destruct ((c mod 10 =? 0) && negb (c =? 0)) eqn:Hb.
    + apply andb_true_iff in Hb. destruct Hb as [Hb _]. apply Z.eqb_eq in Hb.
      pose proof (Z.div_mod c 10 ltac:(lia)) as Hdm. rewrite Hb in Hdm.
      intros H. apply IH in H; [|lia]. destruct H as [H1 H2].
      split; [exact H1|]. rewrite H2.
      rewrite pow10_plus. change (10 ^ 1)%Q with (inject_Z 10).
      rewrite (Qmult_comm (10 ^ p)), Qmult_assoc, <- inject_Z_mult.
      replace (c / 10 * 10) with c by lia. reflexivity.
    + intros H. injection H as <- <-. split; [exact Hc | reflexivity].
Qed.

(** ** The position of the decimal point *)

Lemma decpt_up_spec (fuel : nat) (v : Q) (t : Z) :
  t <= decpt_up fuel v t <= t + Z.of_nat fuel
  /\ (t < decpt_up fuel v t -> (10 ^ (decpt_up fuel v t - 1) <= v)%Q).
Proof.
  revert t. induction fuel as [|fuel IH]; intros t; cbn [decpt_up].
  - split; lia.
  - destruct (Qle_bool (10 ^ t) v) eqn:Hb.
    + destruct (IH (t + 1)) as [H1 H2]. split; [lia|].
      intros _. destruct (Z.eq_dec (decpt_up fuel v (t + 1)) (t + 1)) as [Heq|Hne].
      * rewrite Heq. replace (t + 1 - 1) with t by lia. apply Qle_bool_iff, Hb.
      * apply H2. lia.
    + split; lia.
Qed.

Lemma finite_bits (m : positive) (e : Z) :
  (2 ^ (Z.log2 (Zpos m) + e) <= inject_Z (Zpos m) * 2 ^ e
   < 2 ^ (Z.log2 (Zpos m) + e + 1))%Q.
Proof.
  pose proof (Z.log2_spec (Zpos m) eq_refl) as [H1 H2].
  pose proof (Z.log2_nonneg (Zpos m)) as H0.
  set (l := Z.log2 (Zpos m)) in *.
  split.
  - rewrite pow2_plus. apply Qmult_le_compat_r; [|apply Qlt_le_weak, pow2_pos].
    rewrite <- (pow2_Z l H0), <- Zle_Qle. exact H1.
  - replace (l + e + 1) with (Z.succ l + e) by lia.
    rewrite pow2_plus. apply Qmult_lt_compat_r; [apply pow2_pos|].
    rewrite <- (pow2_Z (Z.succ l)) by lia. rewrite <- Zlt_Qlt. exact H2.
Qed.

Lemma decpt_range (m : positive) (e : Z) :
  (1 # 128 <= inject_Z (Zpos m) * 2 ^ e)%Q ->
  (inject_Z (Zpos m) * 2 ^ e < 100000000000)%Q ->
  -4 <= decpt m e <= 11.
Proof.
  intros Hlo Hhi. unfold decpt.
  pose proof (finite_bits m e) as [Hb1 Hb2].
  set (v := (inject_Z (Zpos m) * 2 ^ e)%Q) in *.
  set (bits := Z.log2 (Zpos m) + e) in *.
  assert (Hbits : -7 <= bits <= 36).
  { split.
    - assert (-7 < bits + 1); [|lia]. apply pow2_lt_inv.
      eapply Qle_lt_trans; [|exact Hb2]. exact Hlo.
    - assert (bits < 37); [|lia]. apply pow2_lt_inv.
      eapply Qle_lt_trans; [exact Hb1|]. eapply Qlt_trans; [exact Hhi|]. reflexivity. }
  set (t0 := bits * 30103 / 100000 - 1).
  assert (Ht0 : -4 <= t0 <= 9).
  { unfold t0.
    assert (-3 <= bits * 30103 / 100000) by (apply Z.div_le_lower_bound; lia).
    assert (bits * 30103 / 100000 < 11) by (apply Z.div_lt_upper_bound; lia).
    lia. }
  destruct (decpt_up_spec 8 v t0) as [[H1 H2] H3].
  split; [lia|].
  destruct (Z.eq_dec (decpt_up 8 v t0) t0) as [Heq|Hne]; [lia|].
  assert (decpt_up 8 v t0 - 1 < 11); [|lia].
  apply pow10_lt_inv. eapply Qle_lt_trans; [apply H3; lia|].
  eapply Qlt_le_trans; [exact Hhi|]. apply Qle_bool_iff. reflexivity.
Qed.

End ShortestDecimal.

Section ReadBack.
Import PyFloat Generator Amounts.
Local Open Scope Z_scope.

Lemma err_total : (40000000000 * eps + eta <= 1 # 200000)%Q.
Proof. num_le. Qed.

(** A positive number of hundredths up to [4 * 10^12] is a finite float
    within [5 * 10^-6] of the amount. *)
Lemma of_cents_finite (n : Z) :
  0 < n <= 4000000000000 ->
  exists m e, of_cents n = S754_finite false m e
    /\ (Qabs (inject_Z (Zpos m) * 2 ^ e - inject_Z n / 100) <= 1 # 200000)%Q.
Proof.
  intros Hn.
  pose proof (inject_Z_bounds n 1 4000000000000 ltac:(lia)) as Hb.
  change (inject_Z 1) with 1%Q in Hb.
  change (inject_Z 4000000000000) with 4000000000000%Q in Hb.
  destruct (of_cents_spec n 40000000000) as [[Hf Hs] He]; [lia | qlra | |].
  { apply big_lt. apply Qle_bool_iff. reflexivity. }
  pose proof err_total as Herr.
  destruct (of_cents n) as [s|s| |s m e] eqn:Hx; try discriminate.
  - exfalso. change (to_Q (S754_zero s)) with 0%Q in He.
    apply Qabs_le_elim in He. qlra.
  - simpl in Hs. subst s. exists m, e. split; [reflexivity|].
    rewrite to_Q_finite in He. eapply Qle_trans; [exact He | exact Herr].
Qed.

Lemma of_decimal_nonpos (s : bool) (c p : Z) : c <= 0 -> of_decimal s c p = S754_zero s.
Proof. intros H. destruct c; [reflexivity | lia | reflexivity]. Qed.

(** Among the decimals [repr] tries there is one that reads back. *)
Lemma cents_candidate (n : Z) (m : positive) (e : Z) :
  0 < n ->
  of_cents n = S754_finite false m e ->
  (Qabs (inject_Z (Zpos m) * 2 ^ e - inject_Z n / 100) <= 1 # 200000)%Q ->
  -4 <= decpt m e <= 11 ->
  exists c, candidate (S754_finite false m e) false m e (decpt m e)
              (Z.max 1 (decpt m e + 2)) = Some c.
Proof.
  intros Hn Hx Hv Hr.
  set (r := decpt m e) in *. set (k := Z.max 1 (r + 2)).
  set (j := k - r - 2).
  assert (Hj : 0 <= j <= 3) by (unfold j, k; lia).
  set (v := (inject_Z (Zpos m) * 2 ^ e)%Q) in *.
  apply candidate_found. cbv zeta. fold v.
  set (lo := Qfloor (v * 10 ^ (k - r))).
  assert (HP : (10 ^ (k - r) == inject_Z (10 ^ j) * 100)%Q).
  { replace (k - r) with (j + 2) by (unfold j; lia).
    rewrite pow10_plus, (pow10_Z j) by lia. reflexivity. }
  assert (HPj : (0 < inject_Z (10 ^ j) <= 1000)%Q).
  { split.
    - change 0%Q with (inject_Z 0). rewrite <- Zlt_Qlt. apply Z.pow_pos_nonneg; lia.
    - change 1000%Q with (inject_Z (10 ^ 3)). rewrite <- Zle_Qle.
      apply Z.pow_le_mono_r; lia. }
  set (Pj := inject_Z (10 ^ j)) in *.
  assert (Hread : reads_back (S754_finite false m e) false (n * 10 ^ j) (r - k) = true).
  { apply reads_back_iff. rewrite <- Hx. unfold of_cents. apply of_decimal_eq.
    - assert (0 < 10 ^ j) by (apply Z.pow_pos_nonneg; lia). nia.
    - exact Hn.
    - rewrite inject_Z_mult. fold Pj.
      assert (Hc : (Pj * 10 ^ (r - k) == 10 ^ (-2))%Q).
      { unfold Pj. rewrite (pow10_Z j), <- pow10_plus by lia.
        replace (j + (r - k)) with (-2) by (unfold j; lia). reflexivity. }
      rewrite <- Qmult_assoc, Hc. reflexivity. }
  assert (Hs : (Qabs (v * 10 ^ (k - r) - inject_Z (n * 10 ^ j)) < 1)%Q).
  { rewrite HP, inject_Z_mult. fold Pj.
    apply Qabs_le_elim in Hv. destruct Hv as [Hv1 Hv2].
    destruct HPj as [HP1 HP2].
    set (d := (v - inject_Z n / 100)%Q) in *.
    qreplace (v * (Pj * 100) - inject_Z n * Pj)%Q with (d * (Pj * 100))%Q
      by (unfold d; field).
    assert (H1 : (d * (Pj * 100) <= (1 # 200000) * (Pj * 100))%Q)
      by (apply Qmult_le_compat_r; [exact Hv2 | lra]).
    assert (H2 : (- (1 # 200000) * (Pj * 100) <= d * (Pj * 100))%Q)
      by (apply Qmult_le_compat_r; [exact Hv1 | lra]).
    apply Qabs_Qlt_condition. split; lra. }
  apply Qabs_Qlt_condition in Hs. destruct Hs as [Hs1 Hs2].
  pose proof (Qfloor_le (v * 10 ^ (k - r))) as Hf1.
  pose proof (Qlt_floor (v * 10 ^ (k - r))) as Hf2.
  fold lo in Hf1, Hf2.
  assert (Hlo : lo = n * 10 ^ j \/ lo + 1 = n * 10 ^ j).
  { rewrite inject_Z_plus in Hf2. change (inject_Z 1) with 1%Q in Hf2.
    clearbody lo. clear Hread HP.
    generalize dependent (v * 10 ^ (k - r))%Q. intros sc Hs1 Hs2 Hf1 Hf2.
    assert (lo < n * 10 ^ j + 1).
    { rewrite Zlt_Qlt, inject_Z_plus. change (inject_Z 1) with 1%Q. lra. }
    assert (n * 10 ^ j < lo + 1 + 1).
    { rewrite Zlt_Qlt, !inject_Z_plus. change (inject_Z 1) with 1%Q. lra. }
    lia. }
  destruct Hlo as [-> | ->]; [left | right]; exact Hread.
Qed.

Lemma decimal_near (v a et : Q) :
  (1 # 128 <= v)%Q -> (v <= 40000000001)%Q -> (0 < a)%Q ->
  (0 <= et)%Q -> (et <= 1 # 1000000000000000000000000000000)%Q ->
  (- (a * (1 # 9007199254740992) + et) <= v - a
   /\ v - a <= a * (1 # 9007199254740992) + et)%Q ->
  (1 # 1000 < a < 100000000000)%Q.
Proof. intros H1 H2 H3 H4 H5 [H6 H7]. split; lra. Qed.

(** [float(str(x)) == x] for an amount of [n] hundredths. *)
Lemma float_of_str_float_str_cents (n : Z) :
  0 <= n <= 4000000000000 ->
  float_of_str (float_str (of_cents n)) = inr (of_cents n).
Proof.
  intros Hn. destruct (Z.eq_dec n 0) as [->|Hn0]; [vm_compute; reflexivity|].
  destruct (of_cents_finite n ltac:(lia)) as (m & e & Hx & Hv).
  pose proof (inject_Z_bounds n 1 4000000000000 ltac:(lia)) as Hb.
  change (inject_Z 1) with 1%Q in Hb.
  change (inject_Z 4000000000000) with 4000000000000%Q in Hb.
  assert (Hvr : (1 # 128 <= inject_Z (Zpos m) * 2 ^ e
                 /\ inject_Z (Zpos m) * 2 ^ e <= 40000000001)%Q).
  { apply Qabs_le_elim in Hv. split; qlra. }
  destruct Hvr as [Hv1 Hv2].
  assert (Hr : -4 <= decpt m e <= 11).
  { apply decpt_range; [exact Hv1|]. eapply Qle_lt_trans; [exact Hv2 | reflexivity]. }
  destruct (cents_candidate n m e ltac:(lia) Hx Hv Hr) as [ck Hck].
  destruct (shortest_go_found 17 (S754_finite false m e) false m e (decpt m e) 1
              (Z.max 1 (decpt m e + 2)) ltac:(lia) (ex_intro _ ck Hck))
    as (c0 & k' & Hgo & Hc0 & Hk').
  apply candidate_some in Hc0. cbv zeta in Hc0. destruct Hc0 as [Hrb [Hc1 Hc2]].
  apply reads_back_iff in Hrb.
  assert (Hc0 : 0 < c0).
  { destruct (Z_lt_le_dec 0 c0) as [H|H]; [exact H|].
    rewrite (of_decimal_nonpos _ _ _ H) in Hrb. discriminate. }
  destruct (strip_zeros 18 c0 (decpt m e - k')) as [c' p'] eqn:Hstrip.
  destruct (strip_zeros_spec _ _ _ _ _ Hc0 Hstrip) as [Hc' Hval].
  assert (Hdec : of_decimal false c' p' = S754_finite false m e).
  { rewrite <- Hrb. apply of_decimal_eq; assumption. }
  rewrite Hx. cbn [float_str]. unfold shortest. rewrite Hgo, Hstrip.
  cbn [app]. rewrite <- Hdec.
  apply float_of_str_layout; [exact Hc'|].
  (* the value of the decimal found *)
  set (v := (inject_Z (Zpos m) * 2 ^ e)%Q) in *.
  set (r := decpt m e) in *.
  assert (Ha0 : (0 < inject_Z c' * 10 ^ p')%Q).
  { apply Qmult_lt_0_compat; [|apply pow10_pos].
    change 0%Q with (inject_Z 0). rewrite <- Zlt_Qlt. exact Hc'. }
  assert (Ha1 : (inject_Z c' * 10 ^ p' <= v + 10000000000)%Q).
  { rewrite Hval.
    pose proof (Qfloor_le (v * 10 ^ (k' - r))) as Hf.
    assert (Hle : (inject_Z c0 <= v * 10 ^ (k' - r) + 1)%Q).
    { eapply Qle_trans; [rewrite <- Zle_Qle; exact Hc2|].
      rewrite inject_Z_plus. change (inject_Z 1) with 1%Q.
      generalize dependent (v * 10 ^ (k' - r))%Q. intros; lra. }
    eapply Qle_trans;
      [apply Qmult_le_compat_r; [exact Hle | apply Qlt_le_weak, pow10_pos]|].
    assert (Hone : (10 ^ (k' - r) * 10 ^ (r - k') == 1)%Q).
    { rewrite <- pow10_plus. replace (k' - r + (r - k')) with 0 by lia. reflexivity. }
    assert (Hp : (10 ^ (r - k') <= 10000000000)%Q).
    { change 10000000000%Q with (10 ^ 10)%Q. apply pow10_le. lia. }
    qreplace ((v * 10 ^ (k' - r) + 1) * 10 ^ (r - k'))%Q
      with (v * (10 ^ (k' - r) * 10 ^ (r - k')) + 10 ^ (r - k'))%Q by ring.
    rewrite Hone. generalize dependent (10 ^ (r - k'))%Q. intros; lra. }
  assert (Herr : (Qabs (v - inject_Z c' * 10 ^ p')
                  <= inject_Z c' * 10 ^ p' * eps + eta)%Q).
  { destruct c' as [|a|a]; try lia.
    unfold of_decimal in Hdec.
    assert (Hq : (Qred (inject_Z (Z.pos a) * 10 ^ p') == inject_Z (Z.pos a) * 10 ^ p')%Q)
      by apply Qred_correct.
    destruct (round_float_spec false (Qred (inject_Z (Z.pos a) * 10 ^ p'))
                (inject_Z (Z.pos a) * 10 ^ p')) as (_ & _ & H3).
    - rewrite Hq. exact Ha0.
    - rewrite Hq. apply Qle_refl.
    - apply big_lt. eapply Qle_trans; [exact Ha1|].
      eapply Qle_trans; [apply Qplus_le_l, Hv2|]. apply Qle_bool_iff. reflexivity.
    - rewrite Hdec in H3. cbv iota in H3. rewrite to_Q_finite in H3. fold v in H3.
      rewrite Hq in H3. exact H3. }
  assert (Hrange : (1 # 1000 < inject_Z c' * 10 ^ p' < 100000000000)%Q).
  { pose proof eta_small as Heta. rewrite eps_val in Herr.
    change (1 # 2 ^ 53)%Q with (1 # 9007199254740992)%Q in Herr.
    assert (0 <= eta)%Q by (apply Qlt_le_weak, pow2_pos).
    apply Qabs_le_elim in Herr.
    exact (decimal_near v _ eta Hv1 Hv2 Ha0 H Heta Herr). }
  destruct (Z_to_text_spec c' Hc') as (_ & _ & Hlen & Hlo & Hup).
  set (nd := Z.of_nat (length (Z_to_text c'))) in *.
  assert (Hnd : 1 <= nd) by (unfold nd; lia).
  clearbody nd.
  assert (H10 : (10 ^ (nd + p' - 1) <= inject_Z c' * 10 ^ p' < 10 ^ (nd + p'))%Q).
  { pose proof (pow10_Z (nd - 1) ltac:(lia)) as E1.
    pose proof (pow10_Z nd ltac:(lia)) as E2.
    split.
    - replace (nd + p' - 1) with ((nd - 1) + p') by lia. rewrite pow10_plus.
      apply Qmult_le_compat_r; [|apply Qlt_le_weak, pow10_pos].
      rewrite <- E1, <- Zle_Qle. exact Hlo.
    - rewrite pow10_plus. apply Qmult_lt_compat_r; [apply pow10_pos|].
      rewrite <- E2, <- Zlt_Qlt. exact Hup. }
  destruct H10 as [H10a H10b]. destruct Hrange as [Hr1 Hr2].
  split.
  - assert (-3 < nd + p'); [|lia]. apply pow10_lt_inv.
    eapply Qlt_trans; [|exact H10b]. eapply Qle_lt_trans; [|exact Hr1].
    apply Qle_bool_iff. reflexivity.
  - assert (nd + p' - 1 < 11); [|lia]. apply pow10_lt_inv.
    eapply Qle_lt_trans; [exact H10a|]. eapply Qlt_le_trans; [exact Hr2|].
    apply Qle_bool_iff. reflexivity.
Qed.

End ReadBack.

Section Sums.
Import PyFloat Generator Amounts.
Local Open Scope Q_scope.

Lemma zsum_bound (cs : list Z) :
  Forall line_cents_ok cs ->
  (0 <= zsum cs <= Z.of_nat (length cs) * 20000000000)%Z.
Proof.
  induction 1 as [|c cs Hc _ IH]; [simpl; lia|].
  unfold line_cents_ok in Hc. cbn [zsum fold_right length]. fold (zsum cs). lia.
Qed.

Lemma err_sum : 30000000000 * eps + eta <= 1 # 250000.
Proof. num_le. Qed.

Lemma err_one : 1 * eps + eta <= 1 # 1000000000000000.
Proof. num_le. Qed.

Lemma of_cents_line (c : Z) :
  line_cents_ok c ->
  nonneg (of_cents c)
  /\ Qabs (to_Q (of_cents c) - inject_Z c / 100) <= 1 # 10000000.
Proof.
  intros Hc. pose proof (inject_Z_bounds _ _ _ Hc) as Hb.
  change (inject_Z 0) with 0 in Hb.
  change (inject_Z 20000000000) with 20000000000 in Hb.
  destruct (of_cents_spec c 300000000) as [H1 H2]; [apply Hc | qlra | |].
  - apply big_lt. apply Qle_bool_iff. reflexivity.
  - split; [exact H1|]. eapply Qle_trans; [exact H2 | exact err_line].
Qed.

Lemma fadd_zero_l (x : float) : nonneg x -> fadd (S754_zero false) x = x.
Proof.
  intros [Hf Hs]. destruct x as [s|s| |s m e]; try discriminate Hf.
  - simpl in Hs. subst s. reflexivity.
  - reflexivity.
Qed.

Lemma pos_sign (x : float) : 0 < to_Q x -> sign_of x = false.
Proof.
  destruct x as [s|s| |s m e]; simpl; try (intros H; apply Qlt_irrefl in H; tauto).
  destruct s; [|reflexivity]. intros H. pose proof (finite_pos m e). lra.
Qed.

(** ** One addition of the running sum *)

Lemma sum_step_Q (tf tx tt qs qc K e : Q) :
  0 <= qs -> 0 <= qc <= 20000000000 -> qs + qc <= 2000000000000 ->
  0 <= K <= 100 ->
  - (K * (1 # 200000)) <= tf - qs / 100 <= K * (1 # 200000) ->
  - (1 # 10000000) <= tx - qc / 100 <= 1 # 10000000 ->
  - e <= tt - (tf + tx) <= e -> e <= 1 # 250000 ->
  - ((K + 1) * (1 # 200000)) <= tt - (qs + qc) / 100 <= (K + 1) * (1 # 200000).
Proof. intros. split; qlra. Qed.

Lemma sum_step (f : float) (s c : Z) (K : Q) :
  nonneg f -> (0 <= s)%Z -> line_cents_ok c -> (s + c <= 2000000000000)%Z ->
  0 <= K <= 100 ->
  Qabs (to_Q f - inject_Z s / 100) <= K * (1 # 200000) ->
  nonneg (fadd f (of_cents c))
  /\ Qabs (to_Q (fadd f (of_cents c)) - (to_Q f + to_Q (of_cents c))) <= 1 # 250000
  /\ Qabs (to_Q (fadd f (of_cents c)) - inject_Z (s + c) / 100)
     <= (K + 1) * (1 # 200000).
Proof.
  intros Hf Hs Hc Hsc HK Hfs.
  destruct (of_cents_line c Hc) as [Hx Hxe].
  pose proof (inject_Z_bounds _ _ _ Hc) as Hb.
  change (inject_Z 0) with 0 in Hb.
  change (inject_Z 20000000000) with 20000000000 in Hb.
  assert (Hqs : 0 <= inject_Z s) by (change 0 with (inject_Z 0); rewrite <- Zle_Qle; exact Hs).
  assert (Hqsc : inject_Z s + inject_Z c <= 2000000000000).
  { rewrite <- inject_Z_plus. change 2000000000000 with (inject_Z 2000000000000).
    rewrite <- Zle_Qle. exact Hsc. }
  pose proof (to_Q_nonneg _ Hf) as Hf0. pose proof (to_Q_nonneg _ Hx) as Hx0.
  apply Qabs_le_elim in Hfs. apply Qabs_le_elim in Hxe.
  destruct (fadd_spec f (of_cents c) 30000000000) as (H1 & H2 & H3).
  - apply Hf.
  - apply Hx.
  - apply Qabs_le_intro; qlra.
  - apply big_lt. apply Qle_bool_iff. reflexivity.
  - pose proof err_sum as He.
    assert (H3' : Qabs (to_Q (fadd f (of_cents c)) - (to_Q f + to_Q (of_cents c)))
                  <= 1 # 250000) by (eapply Qle_trans; [exact H3 | exact He]).
    split; [split; [exact H1 | apply H2; [apply Hf | apply Hx]]|].
    split; [exact H3'|].
    apply Qabs_le_elim in H3'. rewrite inject_Z_plus.
    apply Qabs_le_intro;
      apply (sum_step_Q (to_Q f) (to_Q (of_cents c)) _ (inject_Z s) (inject_Z c) K
               (1 # 250000)); try assumption; try apply Qle_refl.
Qed.

(** ** One step of the compensation term *)

Lemma comp_step_Q (tu tw tc tc' a b K : Q) :
  0 <= K <= 100 ->
  - (1 # 250000) <= tu - a <= 1 # 250000 ->
  - (1 # 250000) <= a + b <= 1 # 250000 ->
  - (1 # 1000000000000000) <= tw - (tu + b) <= 1 # 1000000000000000 ->
  - (K * (1 # 100000)) <= tc <= K * (1 # 100000) ->
  - (1 # 1000000000000000) <= tc' - (tc + tw) <= 1 # 1000000000000000 ->
  - ((K + 1) * (1 # 100000)) <= tc' <= (K + 1) * (1 # 100000).
Proof. intros. split; lra. Qed.

Lemma comp_term (a b cacc : float) (d : Q) (K : Q) :
  is_finite a = true -> is_finite b = true -> is_finite cacc = true ->
  0 <= K <= 100 ->
  Qabs (to_Q a - to_Q b) <= 30000000000 ->
  Qabs (to_Q a - to_Q b + d) <= 1 # 250000 ->
  forall y : float, is_finite y = true -> to_Q y == d ->
  Qabs (to_Q cacc) <= K * (1 # 100000) ->
  is_finite (fadd cacc (fadd (fsub a b) y)) = true
  /\ Qabs (to_Q (fadd cacc (fadd (fsub a b) y))) <= (K + 1) * (1 # 100000).
Proof.
  intros Ha Hb Hc HK Hab Habd y Hy Hyd Hcacc.
  pose proof err_sum as He1. pose proof err_one as He2.
  destruct (fsub_spec a b 30000000000 Ha Hb Hab) as [Hu Hue].
  { apply big_lt. apply Qle_bool_iff. reflexivity. }
  assert (Hue' : Qabs (to_Q (fsub a b) - (to_Q a - to_Q b)) <= 1 # 250000)
    by (eapply Qle_trans; [exact Hue | exact He1]).
  clear Hue. apply Qabs_le_elim in Hue', Habd, Hcacc.
  destruct (fadd_spec (fsub a b) y 1 Hu Hy) as (Hw & _ & Hwe).
  { rewrite Hyd. apply Qabs_le_intro; lra. }
  { reflexivity. }
  assert (Hwe' : Qabs (to_Q (fadd (fsub a b) y) - (to_Q (fsub a b) + to_Q y))
                 <= 1 # 1000000000000000)
    by (eapply Qle_trans; [exact Hwe | exact He2]).
  clear Hwe. apply Qabs_le_elim in Hwe'. rewrite Hyd in Hwe'.
  destruct (fadd_spec cacc (fadd (fsub a b) y) 1 Hc Hw) as (Hc' & _ & Hce).
  { apply Qabs_le_intro; lra. }
  { reflexivity. }
  assert (Hce' : Qabs (to_Q (fadd cacc (fadd (fsub a b) y))
                       - (to_Q cacc + to_Q (fadd (fsub a b) y)))
                 <= 1 # 1000000000000000)
    by (eapply Qle_trans; [exact Hce | exact He2]).
  clear Hce. apply Qabs_le_elim in Hce'.
  split; [exact Hc'|].
  apply Qabs_le_intro;
    apply (comp_step_Q (to_Q (fsub a b)) (to_Q (fadd (fsub a b) y)) (to_Q cacc)
             _ (to_Q a - to_Q b) d K); assumption.
Qed.

Lemma comp_step (f cacc : float) (s c : Z) (K : Q) :
  nonneg f -> (0 <= s)%Z -> line_cents_ok c -> (s + c <= 2000000000000)%Z ->
  0 <= K <= 100 ->
  Qabs (to_Q f - inject_Z s / 100) <= K * (1 # 200000) ->
  is_finite cacc = true -> Qabs (to_Q cacc) <= K * (1 # 100000) ->
  let x := of_cents c in
  let t := fadd f x in
  let c' := if fabs_ge f x then fadd cacc (fadd (fsub f t) x)
            else fadd cacc (fadd (fsub x t) f) in
  is_finite c' = true /\ Qabs (to_Q c') <= (K + 1) * (1 # 100000).
Proof.
  intros Hf Hs Hc Hsc HK Hfs Hcf Hcacc x t c'.
  destruct (sum_step f s c K Hf Hs Hc Hsc HK Hfs) as (Ht & Hte & Hts).
  fold x in Ht, Hte, Hts. fold t in Ht, Hte, Hts.
  destruct (of_cents_line c Hc) as [Hx Hxe]. fold x in Hx, Hxe.
  pose proof (inject_Z_bounds _ _ _ Hc) as Hb.
  change (inject_Z 0) with 0 in Hb.
  change (inject_Z 20000000000) with 20000000000 in Hb.
  assert (Hqs : 0 <= inject_Z s) by (change 0 with (inject_Z 0); rewrite <- Zle_Qle; exact Hs).
  assert (Hqsc : inject_Z s + inject_Z c <= 2000000000000).
  { rewrite <- inject_Z_plus. change 2000000000000 with (inject_Z 2000000000000).
    rewrite <- Zle_Qle. exact Hsc. }
  pose proof (to_Q_nonneg _ Hf) as Hf0. pose proof (to_Q_nonneg _ Hx) as Hx0.
  pose proof (to_Q_nonneg _ Ht) as Ht0.
  apply Qabs_le_elim in Hfs, Hxe, Hte, Hts. rewrite inject_Z_plus in Hts.
  unfold c'. destruct (fabs_ge f x).
  - apply (comp_term f t cacc (to_Q x) K); try assumption;
      try apply Hf; try apply Ht; try apply Hx; try reflexivity;
      apply Qabs_le_intro; qlra.
  - apply (comp_term x t cacc (to_Q f) K); try assumption;
      try apply Hf; try apply Ht; try apply Hx; try reflexivity;
      apply Qabs_le_intro; qlra.
Qed.

(** ** The sums of a list of amounts *)

Lemma count_Q (k : nat) (n : nat) :
  (k + n <= 100)%nat ->
  0 <= inject_Z (Z.of_nat k) <= 100
  /\ inject_Z (Z.of_nat (S k)) == inject_Z (Z.of_nat k) + 1.
Proof.
  intros H. split.
  - apply (inject_Z_bounds (Z.of_nat k) 0 100). lia.
  - rewrite Nat2Z.inj_succ. unfold Z.succ. rewrite inject_Z_plus. reflexivity.
Qed.

Lemma plain_spec (cs : list Z) (f : float) (s : Z) (k : nat) :
  Forall line_cents_ok cs -> (k + length cs <= 100)%nat ->
  (0 <= s)%Z -> (s + zsum cs <= 2000000000000)%Z ->
  nonneg f ->
  Qabs (to_Q f - inject_Z s / 100) <= inject_Z (Z.of_nat k) * (1 # 200000) ->
  nonneg (fold_left fadd (map of_cents cs) f)
  /\ Qabs (to_Q (fold_left fadd (map of_cents cs) f) - inject_Z (s + zsum cs) / 100)
     <= 1 # 500.
Proof.
  intros Hcs. revert f s k.
  induction Hcs as [|c cs Hc Hcs IH]; intros f s k Hk Hs Hsum Hf Hfs.
  - cbn [map fold_left zsum fold_right]. rewrite Z.add_0_r.
    split; [exact Hf|]. destruct (count_Q k 0 Hk) as [HK _].
    eapply Qle_trans; [exact Hfs|]. lra.
  - cbn [map fold_left]. cbn [zsum fold_right length] in *. fold (zsum cs) in *.
    pose proof (zsum_bound cs Hcs) as Hz.
    destruct (count_Q k (length (c :: cs)) Hk) as [HK HK1].
    destruct (sum_step f s c _ Hf Hs Hc ltac:(lia) HK Hfs) as (Ht & _ & Hts).
    rewrite <- HK1 in Hts.
    destruct (IH (fadd f (of_cents c)) (s + c)%Z (S k)) as [H1 H2];
      try assumption; unfold line_cents_ok in Hc; try lia.
    split; [exact H1|]. rewrite Z.add_assoc. exact H2.
Qed.

Lemma neumaier_spec (cs : list Z) (f cacc : float) (s : Z) (k : nat) :
  Forall line_cents_ok cs -> (k + length cs <= 100)%nat ->
  (0 <= s)%Z -> (s + zsum cs <= 2000000000000)%Z ->
  nonneg f ->
  Qabs (to_Q f - inject_Z s / 100) <= inject_Z (Z.of_nat k) * (1 # 200000) ->
  is_finite cacc = true ->
  Qabs (to_Q cacc) <= inject_Z (Z.of_nat k) * (1 # 100000) ->
  (s = 0%Z -> f = S754_zero false /\ cacc = S754_zero false) ->
  is_finite (neumaier f cacc (map of_cents cs)) = true
  /\ Qabs (to_Q (neumaier f cacc (map of_cents cs)) - inject_Z (s + zsum cs) / 100)
     <= 1 # 500
  /\ ((s + zsum cs = 0)%Z -> neumaier f cacc (map of_cents cs) = S754_zero false).
Proof.
  intros Hcs. revert f cacc s k.
  induction Hcs as [|c cs Hc Hcs IH]; intros f cacc s k Hk Hs Hsum Hf Hfs Hcf Hca Hzero.
  - cbn [map neumaier zsum fold_right] in *. rewrite Z.add_0_r in *.
    destruct (count_Q k 0 Hk) as [HK _].
    destruct (negb (is_zero cacc) && is_finite cacc) eqn:Hb.
    + assert (Hqs : 0 <= inject_Z s <= 2000000000000).
      { apply (inject_Z_bounds s 0 2000000000000). lia. }
      pose proof (to_Q_nonneg _ Hf) as Hf0.
      apply Qabs_le_elim in Hfs, Hca.
      destruct (fadd_spec f cacc 30000000000) as (H1 & _ & H3);
        [apply Hf | exact Hcf | apply Qabs_le_intro; qlra
        | apply big_lt; apply Qle_bool_iff; reflexivity |].
      split; [exact H1|]. split.
      * pose proof err_sum as He.
        assert (H3' : Qabs (to_Q (fadd f cacc) - (to_Q f + to_Q cacc)) <= 1 # 250000)
          by (eapply Qle_trans; [exact H3 | exact He]).
        apply Qabs_le_elim in H3'. apply Qabs_le_intro; qlra.
      * intros H0. destruct (Hzero H0) as [_ ->]. discriminate Hb.
    + split; [apply Hf|]. split.
      * eapply Qle_trans; [exact Hfs|]. lra.
      * intros H0. apply (Hzero H0).
  - cbn [map neumaier]. cbn [zsum fold_right length] in *. fold (zsum cs) in *.
    pose proof (zsum_bound cs Hcs) as Hz.
    destruct (count_Q k (length (c :: cs)) Hk) as [HK HK1].
    destruct (sum_step f s c _ Hf Hs Hc ltac:(lia) HK Hfs) as (Ht & _ & Hts).
    destruct (comp_step f cacc s c _ Hf Hs Hc ltac:(lia) HK Hfs Hcf Hca) as [Hc1 Hc2].
    rewrite <- HK1 in Hts, Hc2.
    assert (Hc0 : (0 <= c)%Z) by apply Hc.
    destruct (IH (fadd f (of_cents c))
                (if fabs_ge f (of_cents c)
                 then fadd cacc (fadd (fsub f (fadd f (of_cents c))) (of_cents c))
                 else fadd cacc (fadd (fsub (of_cents c) (fadd f (of_cents c))) f))
                (s + c)%Z (S k)) as (H1 & H2 & H3); try assumption; try lia.
    + intros H0. assert (s = 0 /\ c = 0)%Z as [-> ->] by lia.
      destruct (Hzero eq_refl) as [-> ->]. split; reflexivity.
    + split; [exact H1|]. rewrite Z.add_assoc. split; [exact H2 | exact H3].
Qed.

(** [round(sum(xs), 2)] of at most a hundred amounts is the amount of the sum
    of the hundredths, with either algorithm of [sum]. *)
Lemma py_sum_cents (alg : sum_algorithm) (cs : list Z) :
  cs <> [] -> Forall line_cents_ok cs -> (length cs <= 100)%nat ->
  num_round2 (py_sum alg (map of_cents cs)) = NFloat (of_cents (zsum cs)).
Proof.
  intros Hne Hcs Hlen. destruct cs as [|c cs]; [congruence|].
  pose proof (zsum_bound _ Hcs) as Hz.
  inversion Hcs as [|? ? Hc Hcs']; subst.
  destruct (of_cents_line c Hc) as [Hx Hxe].
  cbn [map py_sum]. rewrite (fadd_zero_l _ Hx).
  cbn [zsum fold_right length] in *. fold (zsum cs) in *.
  assert (Hs : (c + zsum cs <= 2000000000000)%Z) by lia.
  assert (Hc0 : (0 <= c)%Z) by apply Hc.
  assert (H1 : Qabs (to_Q (of_cents c) - inject_Z c / 100)
               <= inject_Z (Z.of_nat 1) * (1 # 200000))
    by (eapply Qle_trans; [exact Hxe | apply Qle_bool_iff; reflexivity]).
  cbn [num_round2]. f_equal.
  set (tot := (c + zsum cs)%Z) in *.
  assert (Hround : forall r : float,
             is_finite r = true ->
             Qabs (to_Q r - inject_Z tot / 100) <= 1 # 500 ->
             (tot = 0%Z -> sign_of r = false) ->
             round2 r = of_cents tot).
  { intros r Hr Hre Hr0. apply round2_cents.
    - split; [exact Hr|]. destruct (Z.eq_dec tot 0%Z) as [H0|H0]; [exact (Hr0 H0)|].
      assert (Hq : 1 <= inject_Z tot).
      { change 1 with (inject_Z 1). rewrite <- Zle_Qle. lia. }
      apply pos_sign. apply Qabs_le_elim in Hre. qlra.
    - lia.
    - eapply Qle_lt_trans; [exact Hre | reflexivity]. }
  destruct alg.
  - destruct (plain_spec cs (of_cents c) c 1 Hcs' ltac:(simpl; lia) Hc0 Hs Hx H1)
      as [Hr Hre].
    apply Hround; [apply Hr | exact Hre | intros _; apply Hr].
  - destruct (neumaier_spec cs (of_cents c) (S754_zero false) c 1 Hcs'
                ltac:(simpl; lia) Hc0 Hs Hx H1 eq_refl) as (Hr & Hre & Hr0).
    + apply Qle_bool_iff. reflexivity.
    + intros ->. split; reflexivity.
    + apply Hround; [exact Hr | exact Hre |].
      intros H0. rewrite (Hr0 H0). reflexivity.
Qed.

End Sums.

Section UniformDraw.
Import PyFloat Generator Amounts.
Local Open Scope Q_scope.

(** ** The price that [random.uniform] returns *)



Lemma to_float_ok (n : num) :
  num_ok n -> num_value n <= 99999 ->
  exists x, to_float n = inr x /\ nonneg x /\ to_Q x == num_value n.
Proof.
  destruct n as [z|x]; cbn [num_ok num_value to_float]; intros Hok Hv.
  - apply of_int_exact. split; [exact Hok|].
    assert (z <= 99999)%Z; [|lia].
    rewrite Zle_Qle. exact Hv.
  - exists x. split; [reflexivity|]. split; [exact Hok | reflexivity].
Qed.

Lemma fsub_nonneg (x y : float) :
  nonneg x -> nonneg y -> to_Q y <= to_Q x -> to_Q x <= 100000 ->
  nonneg (fsub x y)
  /\ Qabs (to_Q (fsub x y) - (to_Q x - to_Q y)) <= 1 # 10000000000.
Proof.
  intros Hx Hy Hle Hb.
  pose proof (to_Q_nonneg _ Hy) as Hy0.
  destruct (fsub_spec x y 300000) as [Hf He];
    [apply Hx | apply Hy | apply Qabs_le_intro; lra
    | apply big_lt; apply Qle_bool_iff; reflexivity |].
  split; [|eapply Qle_trans; [exact He | exact err_unit]].
  split; [exact Hf|].
  destruct Hx as [Hxf Hxs], Hy as [Hyf Hys].
  destruct x as [sx|sx| |sx mx ex]; try discriminate Hxf;
    destruct y as [sy|sy| |sy my ey]; try discriminate Hyf;
    simpl in Hxs, Hys; subst.
  - reflexivity.
  - exfalso. rewrite to_Q_finite in Hle. change (to_Q (S754_zero false)) with 0 in Hle.
    pose proof (finite_pos my ey). lra.
  - reflexivity.
  - unfold fsub, fadd, fopp, SFopp.
    destruct (round_signed_spec
                (to_Q (S754_finite false mx ex) + to_Q (S754_finite true my ey)) 300000)
      as (_ & H2 & _).
    + rewrite !to_Q_finite in *. apply Qabs_le_intro; lra.
    + apply big_lt. apply Qle_bool_iff. reflexivity.
    + apply H2. rewrite !to_Q_finite in *. lra.
Qed.

Lemma uniform_value (fa fd r : float) :
  nonneg fa -> nonneg fd -> nonneg r -> to_Q r <= 1 ->
  to_Q fa + to_Q fd <= 99999 + (1 # 10000000000) ->
  nonneg (fadd fa (fmul fd r))
  /\ to_Q fa - (1 # 10000000000) <= to_Q (fadd fa (fmul fd r))
  /\ to_Q (fadd fa (fmul fd r)) <= to_Q fa + to_Q fd + (2 # 10000000000).
Proof.
  intros Ha Hd Hr Hr1 Hsum.
  pose proof (to_Q_nonneg _ Ha) as Ha0. pose proof (to_Q_nonneg _ Hd) as Hd0.
  pose proof (to_Q_nonneg _ Hr) as Hr0.
  assert (Hprod : to_Q fd * to_Q r <= to_Q fd).
  { rewrite <- (Qmult_1_r (to_Q fd)) at 2.
    apply Qmult_le_compat_nonneg; split; try assumption; apply Qle_refl. }
  assert (Hprod0 : 0 <= to_Q fd * to_Q r) by (apply Qmult_le_0_compat; assumption).
  destruct (fmul_spec fd r 300000 Hd Hr) as [Hm Hme];
    [lra | apply big_lt; apply Qle_bool_iff; reflexivity |].
  pose proof err_unit as He. apply Qabs_le_elim in Hme.
  pose proof (to_Q_nonneg _ Hm) as Hm0.
  generalize dependent (to_Q fd * to_Q r). intros p Hp Hp0 Hme.
  destruct (fadd_spec fa (fmul fd r) 300000) as (H1 & H2 & H3);
    [apply Ha | apply Hm | apply Qabs_le_intro; lra
    | apply big_lt; apply Qle_bool_iff; reflexivity |].
  split; [split; [exact H1 | apply H2; [apply Ha | apply Hm]]|].
  apply Qabs_le_elim in H3. split; lra.
Qed.

(** [random.uniform(a, b)] for [0 <= a <= b <= 99999] and [random()] in
    [[0, 1]]: a float that is not negative, within [3 * 10^-10] of the
    range. *)
Lemma uniform_spec (a b : num) (r : float) (w w' : world) (x : float) :
  uniform a b r w = (inr x, w') ->
  num_ok a -> num_ok b -> num_value a <= num_value b -> num_value b <= 99999 ->
  nonneg r -> to_Q r <= 1 ->
  w' = w /\ nonneg x
  /\ num_value a - (1 # 10000000000) <= to_Q x
  /\ to_Q x <= num_value b + (3 # 10000000000).
Proof.
  intros Hu Ha Hb Hab Hb9 Hr Hr1.
  destruct (to_float_ok a Ha ltac:(lra)) as (fa & Hfa & Hfan & Hfav).
  destruct (to_float_ok b Hb Hb9) as (fb & Hfb & Hfbn & Hfbv).
  assert (Hd : exists fd,
             (d <- num_sub b a ;; lift (to_float d))%py w = (inr fd, w)
             /\ nonneg fd
             /\ to_Q fa + to_Q fd <= num_value b + (1 # 10000000000)).
  { assert (Hfloat : exists fd,
               (d <- (fb' <- lift (to_float b) ;; fa' <- lift (to_float a) ;;
                      ret (NFloat (fsub fb' fa'))) ;; lift (to_float d))%py w
               = (inr fd, w)
               /\ nonneg fd /\ to_Q fa + to_Q fd <= num_value b + (1 # 10000000000)).
    { destruct (fsub_nonneg fb fa Hfbn Hfan) as [Hn He]; [lra | lra |].
      exists (fsub fb fa). unfold bind. rewrite Hfb, Hfa. simpl.
      split; [reflexivity|]. split; [exact Hn|].
      apply Qabs_le_elim in He. lra. }
    destruct b as [zb|xb], a as [za|xa]; try exact Hfloat.
    cbn [num_sub num_value num_ok] in *.
    assert (Hz : (za <= zb <= 99999)%Z) by (rewrite !Zle_Qle; split; assumption).
    destruct (of_int_exact (zb - za) ltac:(lia)) as (fd & Hfd & Hfdn & Hfdv).
    exists fd. unfold bind, ret. cbn [to_float lift]. rewrite Hfd.
    split; [reflexivity|]. split; [exact Hfdn|].
    rewrite Hfav, Hfdv, <- inject_Z_plus.
    replace (za + (zb - za))%Z with zb by lia. lra. }
  destruct Hd as (fd & Hd & Hfdn & Hsum).
  unfold uniform in Hu.
  assert (Hu' : (fd' <- (d <- num_sub b a ;; lift (to_float d)) ;;
                 fa' <- lift (to_float a) ;; ret (fadd fa' (fmul fd' r)))%py w
                = (inr x, w')).
  { rewrite <- Hu. unfold bind. destruct (num_sub b a w) as [[?|?] ?]; reflexivity. }
  unfold bind in Hu'. unfold bind in Hd. rewrite Hd in Hu'.
  rewrite Hfa in Hu'. simpl in Hu'. unfold ret in Hu'.
  injection Hu' as <- <-. split; [reflexivity|].
  destruct (uniform_value fa fd r Hfan Hfdn Hr Hr1 ltac:(lra)) as (H1 & H2 & H3).
  split; [exact H1|]. split; lra.
Qed.

End UniformDraw.

Section Lines.
Import PyFloat Generator Amounts.
Local Open Scope Z_scope.

Section Assembly.
Variable cfg : config.
Hypothesis rate_bounded : 0 <= tax_rate cfg <= 100.
Hypothesis products_bounded : Forall bounded_product (c_products cfg).

Lemma generate_position_exact (d : line_draw) (w w' : world) (p : gmap string atom) :
  bounded_draw d ->
  generate_position cfg d w = (inr p, w') ->
  w' = w
  /\ exists (product : product) (U V : Z),
       c_products cfg !! d_product d = Some product
       /\ (forall A B : Z,
              (inject_Z A <= num_value (price_net_min product) * 100)%Q ->
              (num_value (price_net_max product) * 100 <= inject_Z B)%Q ->
              A <= U <= B)
       /\ 0 <= U <= 10000000 /\ 0 <= V <= 10000000
       /\ Z.abs (100 * V - U * tax_rate cfg) <= 50
       /\ p !! "price_net"%string = Some (AStr (float_str (of_cents U)))
       /\ p !! "price_tax"%string = Some (AStr (float_str (of_cents V)))
       /\ p !! "price_gross"%string = Some (AStr (float_str (of_cents (U + V))))
       /\ p !! "total_price_net"%string
          = Some (AStr (float_str (of_cents (U * d_quantity d))))
       /\ p !! "total_price_tax"%string
          = Some (AStr (float_str (of_cents (V * d_quantity d))))
       /\ p !! "total_price_gross"%string
          = Some (AStr (float_str (of_cents ((U + V) * d_quantity d)))).
Proof.
  intros (Hq & Hr & Hr1). unfold generate_position.
  destruct (c_products cfg !! d_product d) as [product|] eqn:Hp; [|discriminate].
  pose proof (proj1 (Forall_lookup _ _) products_bounded _ _ Hp)
    as (Hmin & Hmax & Hle & Hhi).
  unfold bind at 1.
  destruct (uniform _ _ _ w) as [[e|drawn] w1] eqn:Hu; [discriminate|].
  destruct (uniform_spec _ _ _ _ _ _ Hu Hmin Hmax Hle Hhi Hr Hr1)
    as (-> & Hdn & Hd1 & Hd2).
  unfold bind at 1.
  destruct (line_amounts drawn (tax_rate cfg) (d_quantity d) w)
    as [[e|a] w2] eqn:Ha; [discriminate|].
  destruct (line_cents _ _ _ _ _ _ Ha Hdn ltac:(lra) rate_bounded Hq)
    as (U & V & HUdef & HU & HV & Hnear & Hun & Hut & Hug & Hn & Ht & Hg).
  apply line_amounts_spec in Ha. destruct Ha as (-> & _).
  unfold bind. destruct (of_int (d_quantity d)) as [e|qf]; [discriminate|].
  simpl. unfold ret. intros [= <- <-]. split; [reflexivity|].
  exists product, U, V.
  split; [reflexivity|]. split.
  { intros A B HA HB. split.
    - pose proof (round_half_even_near (to_Q drawn * 100)) as Hn'.
      rewrite <- HUdef in Hn'. apply Qabs_le_elim in Hn'.
      assert (A < U + 1); [|lia].
      rewrite Zlt_Qlt, inject_Z_plus. change (inject_Z 1) with 1%Q. lra.
    - rewrite HUdef. apply cents_bound. lra. }
  split; [exact HU|]. split; [exact HV|]. split; [exact Hnear|].
  rewrite <- Hun, <- Hut, <- Hug, <- Hn, <- Ht, <- Hg.
  repeat split; reflexivity.
Qed.

Lemma generate_position_cents (d : line_draw) (w w' : world) (p : gmap string atom) :
  bounded_draw d ->
  generate_position cfg d w = (inr p, w') ->
  w' = w /\ exists nt, line_totals p nt.
Proof.
  intros Hd Hp. pose proof Hd as (Hq & _).
  destruct (generate_position_exact d w w' p Hd Hp)
    as (-> & product & U & V & _ & _ & HU & HV & _ & _ & _ & _ & Hn & Ht & Hg).
  split; [reflexivity|].
  exists (U * d_quantity d, V * d_quantity d).
  unfold line_totals. cbn [fst snd].
  split; [nia|]. split; [nia|].
  rewrite <- Z.mul_add_distr_r. repeat split; assumption.
Qed.

Lemma generate_positions_cents (draws : list line_draw) (w w' : world)
      (positions : list (gmap string atom)) :
  Forall bounded_draw draws ->
  generate_positions cfg draws w = (inr positions, w') ->
  w' = w /\ exists cents, Forall2 line_totals positions cents
                          /\ length cents = length draws.
Proof.
  intros Hd. revert positions w'.
  induction Hd as [|d draws Hd _ IH]; intros positions w'; cbn [generate_positions].
  - unfold ret. intros [= <- <-]. split; [reflexivity|]. exists []. split; [constructor | reflexivity].
  - unfold bind at 1.
    destruct (generate_position cfg d w) as [[e|p] w1] eqn:Hp; [discriminate|].
    destruct (generate_position_cents _ _ _ _ Hd Hp) as (-> & nt & Hnt).
    unfold bind.
    destruct (generate_positions cfg draws w) as [[e|ps] w2] eqn:Hps; [discriminate|].
    destruct (IH _ _ eq_refl) as (-> & cents & Hc & Hlen).
    unfold ret. intros [= <- <-]. split; [reflexivity|].
    exists (nt :: cents). split; [constructor; assumption | simpl; lia].
Qed.

End Assembly.

(** ** Reading the line totals back and adding them up *)

Lemma total_of_cents (key : string) (p : gmap string atom) (c : Z) (w : world) :
  p !! key = Some (AStr (float_str (of_cents c))) ->
  0 <= c <= 4000000000000 ->
  total_of key p w = (inr (of_cents c), w).
Proof.
  intros Hp Hc. unfold total_of, subscript, bind. rewrite Hp. unfold ret.
  rewrite (float_of_str_float_str_cents c Hc). reflexivity.
Qed.

Lemma totals_of_cents (key : string) (f : Z * Z -> Z)
      (positions : list (gmap string atom)) (cents : list (Z * Z)) (w : world) :
  Forall2 (fun p nt => p !! key = Some (AStr (float_str (of_cents (f nt))))
                       /\ line_cents_ok (f nt)) positions cents ->
  totals_of key positions w = (inr (of_cents <$> (f <$> cents)), w).
Proof.
  induction 1 as [|p nt ps cents [Hp Hc] _ IH]; [reflexivity|].
  cbn [totals_of]. unfold bind.
  rewrite (total_of_cents key p (f nt) w Hp) by (unfold line_cents_ok in Hc; lia).
  rewrite IH. reflexivity.
Qed.

Lemma aggregate_cents (alg : sum_algorithm) (key : string) (f : Z * Z -> Z)
      (positions : list (gmap string atom)) (cents : list (Z * Z)) (w : world) :
  Forall2 (fun p nt => p !! key = Some (AStr (float_str (of_cents (f nt))))
                       /\ line_cents_ok (f nt)) positions cents ->
  (1 <= length cents <= 100)%nat ->
  aggregate alg key positions w
  = (inr (float_str (of_cents (zsum (f <$> cents)))), w).
Proof.
  intros H Hlen. unfold aggregate, bind. rewrite (totals_of_cents key f _ _ w H).
  unfold ret. rewrite py_sum_cents.
  - reflexivity.
  - destruct cents; [simpl in Hlen; lia | discriminate].
  - apply Forall_fmap. apply Forall2_Forall_r with (Q := fun nt => line_cents_ok (f nt)) in H.
    + exact H.
    + apply Forall_forall. intros; tauto.
  - rewrite length_fmap. lia.
Qed.

(** ** The lines of an invoice *)

(** X1. Within the bounds (tax rate 0 to 100, prices up to 99999, quantity
    1 to 1000) the six amounts of a generated line are exact decimals: with
    the unit net price of [U] hundredths and the unit tax of [V] hundredths,
    the unit gross price is [U + V] hundredths and the three totals are
    [U * q], [V * q] and [(U + V) * q] hundredths, with no rounding error;
    the unit tax is the rate applied to the unit net price, to the nearest
    hundredth. *)
Theorem line_amounts_in_hundredths
    (cfg : config) (d : line_draw) (w w' : world) (p : gmap string atom) :
  0 <= tax_rate cfg <= 100 ->
  Forall bounded_product (c_products cfg) ->
  bounded_draw d ->
  generate_position cfg d w = (inr p, w') ->
  exists U V : Z,
    0 <= U <= 10000000 /\ 0 <= V <= 10000000
    /\ Z.abs (100 * V - U * tax_rate cfg) <= 50
    /\ p !! "price_net"%string = Some (AStr (float_str (of_cents U)))
    /\ p !! "price_tax"%string = Some (AStr (float_str (of_cents V)))
    /\ p !! "price_gross"%string = Some (AStr (float_str (of_cents (U + V))))
    /\ p !! "total_price_net"%string
       = Some (AStr (float_str (of_cents (U * d_quantity d))))
    /\ p !! "total_price_tax"%string
       = Some (AStr (float_str (of_cents (V * d_quantity d))))
    /\ p !! "total_price_gross"%string
       = Some (AStr (float_str (of_cents ((U + V) * d_quantity d)))).
Proof.
  intros Hrate Hprod Hd Hp.
  destruct (generate_position_exact cfg Hrate Hprod d w w' p Hd Hp)
    as (_ & product & U & V & _ & _ & HU & HV & Hnear & H).
  exists U, V. split; [exact HU|]. split; [exact HV|]. split; [exact Hnear | exact H].
Qed.

(** X2. For a product whose price range has the integer ends [lo] and [hi],
    [0 <= lo <= hi <= 99999], and a value of [random()] within [[0, 1]],
    the unit net price of a generated line lies between the ends: it is a
    number of hundredths from [100 * lo] to [100 * hi].  Nothing is asked of
    the tax rate, of the quantity or of the other products. *)
Theorem unit_price_within_range
    (cfg : config) (d : line_draw) (w w' : world) (p : gmap string atom)
    (product : product) (lo hi : Z) :
  c_products cfg !! d_product d = Some product ->
  price_net_min product = NInt lo ->
  price_net_max product = NInt hi ->
  0 <= lo <= hi -> hi <= 99999 ->
  nonneg (d_random d) -> (to_Q (d_random d) <= 1)%Q ->
  generate_position cfg d w = (inr p, w') ->
  exists U : Z,
    100 * lo <= U <= 100 * hi
    /\ p !! "price_net"%string = Some (AStr (float_str (of_cents U))).
Proof.
  intros Hlook Hlo Hhi Hle Hhi9 Hr Hr1. unfold generate_position.
  rewrite Hlook, Hlo, Hhi. unfold bind at 1.
  destruct (uniform (NInt lo) (NInt hi) (d_random d) w) as [[e|drawn] w1] eqn:Hu;
    [discriminate|].
  assert (Hq : (inject_Z lo <= inject_Z hi)%Q /\ (inject_Z hi <= 99999)%Q).
  { change 99999%Q with (inject_Z 99999). rewrite <- !Zle_Qle. lia. }
  destruct (uniform_spec _ _ _ _ _ _ Hu) as (-> & Hdn & Hd1 & Hd2);
    [cbn [num_ok]; lia | cbn [num_ok]; lia | cbn [num_value]; tauto
    | cbn [num_value]; tauto | exact Hr | exact Hr1 |].
  cbn [num_value] in Hd1, Hd2.
  unfold bind at 1.
  destruct (line_amounts drawn (tax_rate cfg) (d_quantity d) w)
    as [[e|a] w2] eqn:Ha; [discriminate|].
  apply line_amounts_spec in Ha.
  destruct Ha as (-> & rate & hundred & pct & qty & _ & _ & _ & _ & Hnet & _).
  unfold bind. destruct (of_int (d_quantity d)) as [e|qf]; [discriminate|].
  simpl. unfold ret. intros [= <- <-].
  destruct (round2_nonneg drawn Hdn) as [Hround _].
  exists (round_half_even (to_Q drawn * 100)). split.
  - split.
    + pose proof (round_half_even_near (to_Q drawn * 100)) as Hn.
      apply Qabs_le_elim in Hn.
      assert (100 * lo < round_half_even (to_Q drawn * 100) + 1); [|lia].
      rewrite Zlt_Qlt, inject_Z_plus, inject_Z_mult.
      change (inject_Z 1) with 1%Q. change (inject_Z 100) with 100%Q. lra.
    + rewrite Z.mul_comm. apply cents_bound. rewrite inject_Z_mult.
      change (inject_Z 100) with 100%Q. lra.
  - rewrite <- Hround, <- Hnet. reflexivity.
Qed.

End Lines.

Section Aggregates.
Import PyFloat Generator Amounts.
Local Open Scope Z_scope.

Lemma zsum_add (cents : list (Z * Z)) :
  zsum ((fun nt => nt.1 + nt.2) <$> cents) = zsum cents.*1 + zsum cents.*2.
Proof.
  induction cents as [|[n t] cents IH]; [reflexivity|].
  cbn [fmap list_fmap zsum fold_right fst snd] in *. fold (zsum (cents.*1)).
  fold (zsum (cents.*2)). fold (zsum ((fun nt => nt.1 + nt.2) <$> cents)).
  rewrite IH. lia.
Qed.

Lemma buyer_has_no_totals (cfg : config) (r : party_draw) (k : string) :
  k = "price_net"%string \/ k = "price_tax"%string \/ k = "price_gross"%string
  \/ k = "positions"%string ->
  generate_buyer cfg r !! k = None.
Proof.
  unfold generate_buyer.
  intros [-> | [-> | [-> | ->]]]; destruct (get_true _ _); reflexivity.
Qed.

Lemma seller_has_no_totals (cfg : config) (r : party_draw) (k : string) :
  k = "price_net"%string \/ k = "price_tax"%string \/ k = "price_gross"%string
  \/ k = "positions"%string ->
  generate_seller cfg r !! k = None.
Proof.
  unfold generate_seller.
  intros [-> | [-> | [-> | ->]]]; reflexivity.
Qed.

(** The amounts of an invoice: how far the three floats are from each
    other. *)
Lemma cents_tolerance (n t : Z) :
  0 <= n <= 1000000000000 -> 0 <= t <= 1000000000000 ->
  (Qabs (to_Q (of_cents (n + t)) - (to_Q (of_cents n) + to_Q (of_cents t)))
   <= 1 # 100)%Q.
Proof.
  intros Hn Ht.
  assert (Hb : forall c, 0 <= c <= 2000000000000 ->
             (Qabs (to_Q (of_cents c) - inject_Z c / 100) <= 1 # 200000)%Q).
  { intros c Hc. pose proof (inject_Z_bounds c 0 2000000000000 Hc) as Hq.
    change (inject_Z 0) with 0%Q in Hq.
    change (inject_Z 2000000000000) with 2000000000000%Q in Hq.
    destruct (of_cents_spec c 40000000000) as [_ He]; [lia | qlra | |].
    - apply big_lt. apply Qle_bool_iff. reflexivity.
    - eapply Qle_trans; [exact He | exact err_total]. }
  pose proof (Hb n ltac:(lia)) as H1. pose proof (Hb t ltac:(lia)) as H2.
  pose proof (Hb (n + t) ltac:(lia)) as H3.
  rewrite inject_Z_plus in H3.
  apply Qabs_le_elim in H1, H2, H3. apply Qabs_le_intro; qlra.
Qed.

Lemma returned_inj {A : Type} (x y : A) (w w' : world) :
  (@inr exn A x, w) = (inr y, w') -> x = y /\ w = w'.
Proof. intros [= -> ->]. split; reflexivity. Qed.

(** The totals of a generated invoice, in hundredths. *)
Lemma invoice_totals
    (cfg : config) (alg : sum_algorithm) (draws : list line_draw)
    (parties : party_draw) (number : Z) (date : option datetime)
    (w w' : world) (inv : gmap string pyval) :
  0 <= tax_rate cfg <= 100 ->
  Forall bounded_product (c_products cfg) ->
  (1 <= length draws <= 100)%nat ->
  Forall bounded_draw draws ->
  generate_invoice cfg alg draws parties number date w = (inr inv, w') ->
  exists (positions : list (gmap string atom)) (cents : list (Z * Z)),
    inv !! "positions"%string = Some (VPositions positions)
    /\ Forall2 line_totals positions cents
    /\ 0 <= zsum cents.*1 <= 1000000000000
    /\ 0 <= zsum cents.*2 <= 1000000000000
    /\ inv !! "price_net"%string
       = Some (VStr (float_str (of_cents (zsum cents.*1))))
    /\ inv !! "price_tax"%string
       = Some (VStr (float_str (of_cents (zsum cents.*2))))
    /\ inv !! "price_gross"%string
       = Some (VStr (float_str (of_cents (zsum cents.*1 + zsum cents.*2)))).
Proof.
  intros Hrate Hprod Hlen Hdraws. unfold generate_invoice.
  unfold bind at 1. unfold get_world at 1.
  unfold bind at 1.
  destruct (lift (Calendar.plus_days _ _) w) as [[e|due] w1] eqn:Hdue; [discriminate|].
  apply lift_inr in Hdue. destruct Hdue as [_ ->].
  unfold bind at 1.
  destruct (generate_positions cfg draws w) as [[e|positions] w2] eqn:Hps; [discriminate|].
  destruct (generate_positions_cents cfg Hrate Hprod _ _ _ _ Hdraws Hps)
    as (-> & cents & Hc & Hclen).
  assert (Hlen' : (1 <= length cents <= 100)%nat) by lia.
  assert (Hnet : aggregate alg "total_price_net" positions w
                 = (inr (float_str (of_cents (zsum cents.*1))), w)).
  { apply (aggregate_cents alg _ fst); [|exact Hlen'].
    eapply Forall2_impl; [exact Hc|]. intros p nt (H1 & H2 & H3 & H4 & H5).
    split; [exact H3 | unfold line_cents_ok; lia]. }
  assert (Htax : aggregate alg "total_price_tax" positions w
                 = (inr (float_str (of_cents (zsum cents.*2))), w)).
  { apply (aggregate_cents alg _ snd); [|exact Hlen'].
    eapply Forall2_impl; [exact Hc|]. intros p nt (H1 & H2 & H3 & H4 & H5).
    split; [exact H4 | unfold line_cents_ok; lia]. }
  assert (Hgross : aggregate alg "total_price_gross" positions w
                   = (inr (float_str (of_cents (zsum cents.*1 + zsum cents.*2))), w)).
  { rewrite <- zsum_add.
    apply (aggregate_cents alg _ (fun nt => nt.1 + nt.2)); [|exact Hlen'].
    eapply Forall2_impl; [exact Hc|]. intros p nt (H1 & H2 & H3 & H4 & H5).
    split; [exact H5 | unfold line_cents_ok; lia]. }
  unfold bind. rewrite Hnet, Htax, Hgross. unfold ret.
  intros Hret. apply returned_inj in Hret. destruct Hret as [<- _].
  exists positions, cents.
  assert (Hsum : forall f : Z * Z -> Z,
             Forall (fun nt => 0 <= f nt <= 10000000000) cents ->
             0 <= zsum (f <$> cents) <= 1000000000000).
  { intros f Hf.
    assert (Hb : 0 <= zsum (f <$> cents)
                 <= Z.of_nat (length cents) * 10000000000); [|lia].
    clear -Hf. induction Hf as [|nt cs Hnt _ IH]; [simpl; lia|].
    cbn [fmap list_fmap zsum fold_right length] in *.
    fold (zsum (f <$> cs)) in *. lia. }
  assert (Hs1 : 0 <= zsum cents.*1 <= 1000000000000).
  { apply Hsum. eapply Forall2_Forall_r; [exact Hc|].
    apply Forall_forall. intros p _ nt (H1 & _). exact H1. }
  assert (Hs2 : 0 <= zsum cents.*2 <= 1000000000000).
  { apply Hsum. eapply Forall2_Forall_r; [exact Hc|].
    apply Forall_forall. intros p _ nt (_ & H2 & _). exact H2. }
  split.
  { rewrite lookup_union_r by (apply buyer_has_no_totals; tauto).
    rewrite lookup_union_r by (apply seller_has_no_totals; tauto).
    reflexivity. }
  split; [exact Hc|]. split; [exact Hs1|]. split; [exact Hs2|].
  split.
  { rewrite lookup_union_r by (apply buyer_has_no_totals; tauto).
    rewrite lookup_union_r by (apply seller_has_no_totals; tauto).
    reflexivity. }
  split.
  { rewrite lookup_union_r by (apply buyer_has_no_totals; tauto).
    rewrite lookup_union_r by (apply seller_has_no_totals; tauto).
    reflexivity. }
  rewrite lookup_union_r by (apply buyer_has_no_totals; tauto).
  rewrite lookup_union_r by (apply seller_has_no_totals; tauto).
  reflexivity.
Qed.

(** X3. Within the bounds and for 1 to 100 lines, the three totals of a
    generated invoice are the exact sums of the line totals, in hundredths,
    with either algorithm of [sum]; the gross total is the decimal sum of
    the net and the tax totals, and as floats the three are within 0.01 of
    each other; [invoice.update] with the seller and the buyer overwrites
    none of them. *)
Theorem invoice_aggregates_are_sums
    (cfg : config) (alg : sum_algorithm) (draws : list line_draw)
    (parties : party_draw) (number : Z) (date : option datetime)
    (w w' : world) (inv : gmap string pyval) :
  0 <= tax_rate cfg <= 100 ->
  Forall bounded_product (c_products cfg) ->
  (1 <= length draws <= 100)%nat ->
  Forall bounded_draw draws ->
  generate_invoice cfg alg draws parties number date w = (inr inv, w') ->
  exists (positions : list (gmap string atom)) (cents : list (Z * Z)),
    inv !! "positions"%string = Some (VPositions positions)
    /\ Forall2 line_totals positions cents
    /\ inv !! "price_net"%string
       = Some (VStr (float_str (of_cents (zsum cents.*1))))
    /\ inv !! "price_tax"%string
       = Some (VStr (float_str (of_cents (zsum cents.*2))))
    /\ inv !! "price_gross"%string
       = Some (VStr (float_str (of_cents (zsum cents.*1 + zsum cents.*2))))
    /\ (Qabs (to_Q (of_cents (zsum cents.*1 + zsum cents.*2))
              - (to_Q (of_cents (zsum cents.*1)) + to_Q (of_cents (zsum cents.*2))))
        <= 1 # 100)%Q.
Proof.
  intros Hrate Hprod Hlen Hdraws Hret.
  destruct (invoice_totals cfg alg draws parties number date w w' inv
              Hrate Hprod Hlen Hdraws Hret)
    as (positions & cents & Hp & Hc & Hs1 & Hs2 & Hnet & Htax & Hgross).
  exists positions, cents.
  split; [exact Hp|]. split; [exact Hc|]. split; [exact Hnet|].
  split; [exact Htax|]. split; [exact Hgross|].
  apply cents_tolerance; assumption.
Qed.


End Aggregates.

Section GeneratedInvoices.
Import PyFloat Generator Amounts.
Local Open Scope Z_scope.

(** X4. [generate_invoice] reads each line total back with [float(p[key])]
    from the text that [generate_positions] stored with [str]: within the
    bounds, what it reads is the very float whose text was stored. *)
Theorem line_total_reads_back
    (cfg : config) (d : line_draw) (w w' : world) (p : gmap string atom)
    (key : string) :
  0 <= tax_rate cfg <= 100 ->
  Forall bounded_product (c_products cfg) ->
  bounded_draw d ->
  generate_position cfg d w = (inr p, w') ->
  In key ["total_price_net"; "total_price_tax"; "total_price_gross"]%string ->
  exists x : float,
    p !! key = Some (AStr (float_str x))
    /\ forall w0 : world, total_of key p w0 = (inr x, w0).
Proof.
  intros Hrate Hprod Hd Hp Hkey.
  destruct (generate_position_cents cfg Hrate Hprod d w w' p Hd Hp)
    as (_ & [n t] & Hn & Ht & H1 & H2 & H3).
  cbn [fst snd] in *.
  destruct Hkey as [<- | [<- | [<- | []]]].
  - exists (of_cents n). split; [exact H1|].
    intros w0. apply total_of_cents; [exact H1 | lia].
  - exists (of_cents t). split; [exact H2|].
    intros w0. apply total_of_cents; [exact H2 | lia].
  - exists (of_cents (n + t)). split; [exact H3|].
    intros w0. apply total_of_cents; [exact H3 | lia].
Qed.





Lemma buyer_keys_absent (cfg : config) (r : party_draw) (k : string) :
  In k ["seller_tax_no"; "seller_name"; "seller_street"; "currency";
        "issue_date"; "number"; "price_net"; "price_tax"; "price_gross"]%string ->
  generate_buyer cfg r !! k = None.
Proof.
  unfold generate_buyer. intros Hk.
  destruct (get_true (c_buyer cfg) "name");
    repeat (destruct Hk as [<- | Hk]; [reflexivity|]); destruct Hk.
Qed.



Lemma seller_keys_absent (cfg : config) (r : party_draw) (k : string) :
  In k ["currency"; "issue_date"; "number"; "price_net"; "price_tax";
        "price_gross"]%string ->
  generate_seller cfg r !! k = None.
Proof.
  unfold generate_seller. intros Hk.
  repeat (destruct Hk as [<- | Hk]; [reflexivity|]); destruct Hk.
Qed.



End GeneratedInvoices.

(** ** The properties at the scenario of the specification *)

Lemma scenario_is_bounded :
  (0 <= Generator.tax_rate Samples.scenario <= 100)%Z
  /\ Forall Amounts.bounded_product (Generator.c_products Samples.scenario)
  /\ Amounts.bounded_draw (Samples.draw_of 2).
Proof.
  split; [vm_compute; split; discriminate|].
  split.
  - repeat constructor; vm_compute; discriminate.
  - split; [vm_compute; split; discriminate|].
    split; [split; reflexivity | vm_compute; discriminate].
Qed.

Lemma scenario_position_generated :
  Generator.generate_position Samples.scenario (Samples.draw_of 2)
    Samples.accepting_world
  = (inr Samples.scenario_position, Samples.accepting_world).
Proof.
  vm_cast_no_check
    (eq_refl (@inr exn _ Samples.scenario_position, Samples.accepting_world)).
Qed.

Lemma scenario_invoice_generated :
  Generator.generate_invoice Samples.scenario PyFloat.Plain [Samples.draw_of 2]
    Samples.parties 1 None Samples.accepting_world
  = (inr Examples.scenario_invoice, Samples.accepting_world).
Proof.
  vm_cast_no_check
    (eq_refl (@inr exn _ Examples.scenario_invoice, Samples.accepting_world)).
Qed.

Lemma line_amounts_in_hundredths_witness :
  exists U V : Z,
    (0 <= U <= 10000000)%Z /\ (0 <= V <= 10000000)%Z
    /\ (Z.abs (100 * V - U * 23) <= 50)%Z
    /\ Samples.scenario_position !! "price_net"%string
       = Some (AStr (PyFloat.float_str (PyFloat.of_cents U)))
    /\ Samples.scenario_position !! "price_tax"%string
       = Some (AStr (PyFloat.float_str (PyFloat.of_cents V))).
Proof.
  destruct scenario_is_bounded as (Hrate & Hprod & Hd).
  pose proof (line_amounts_in_hundredths Samples.scenario (Samples.draw_of 2)
                Samples.accepting_world Samples.accepting_world
                Samples.scenario_position Hrate Hprod Hd
                scenario_position_generated)
    as (U & V & HU & HV & Hnear & Hn & Ht & _).
  exists U, V.
  split; [exact HU|]. split; [exact HV|]. split; [exact Hnear|].
  split; [exact Hn | exact Ht].
Defined.

(** ** The properties at an invoice of three lines *)

Lemma catalogue_is_bounded :
  (0 <= Generator.tax_rate Samples.catalogue <= 100)%Z
  /\ Forall Amounts.bounded_product (Generator.c_products Samples.catalogue)
  /\ Forall Amounts.bounded_draw Samples.three_draws.
Proof.
  split; [vm_compute; split; discriminate|].
  split.
  - repeat constructor; vm_compute; discriminate.
  - repeat (apply Forall_cons_2;
            [split; [vm_compute; split; discriminate|];
             split; [split; reflexivity | vm_compute; discriminate]|]).
    apply Forall_nil_2.
Qed.

Lemma catalogue_position_generated :
  Generator.generate_position Samples.catalogue Samples.last_draw
    Samples.accepting_world
  = (inr Examples.catalogue_position, Samples.accepting_world).
Proof.
  vm_cast_no_check
    (eq_refl (@inr exn _ Examples.catalogue_position, Samples.accepting_world)).
Qed.

Lemma three_line_invoice_generated (alg : PyFloat.sum_algorithm) :
  Generator.generate_invoice Samples.catalogue alg Samples.three_draws
    Samples.parties 7 None Samples.accepting_world
  = (inr Examples.three_line_invoice, Samples.accepting_world).
Proof.
  destruct alg;
    vm_cast_no_check
      (eq_refl (@inr exn _ Examples.three_line_invoice, Samples.accepting_world)).
Qed.


(** Product A, from 100 to 500, at [random()] = 0.0625...: the price
    125.00548... is stored as 125.01. *)
Lemma unit_price_within_range_witness :
  exists U : Z,
    (100 * 100 <= U <= 100 * 500)%Z
    /\ Examples.catalogue_position !! "price_net"%string
       = Some (AStr (PyFloat.float_str (PyFloat.of_cents U)))
    /\ Examples.catalogue_position !! "price_net"%string = Some (AStr (T "125.01")).
Proof.
  assert (Hrange : (0 <= 100 <= 500)%Z) by lia.
  assert (Hhi : (500 <= 99999)%Z) by lia.
  assert (Hr : Amounts.nonneg (Generator.d_random Samples.last_draw))
    by (split; reflexivity).
  assert (Hr1 : (PyFloat.to_Q (Generator.d_random Samples.last_draw) <= 1)%Q)
    by (vm_compute; discriminate).
  destruct (unit_price_within_range Samples.catalogue Samples.last_draw
              Samples.accepting_world Samples.accepting_world
              Examples.catalogue_position
              {| Generator.p_name := T "A"; Generator.price_net_min := PyFloat.NInt 100;
                 Generator.price_net_max := PyFloat.NInt 500 |} 100 500
              eq_refl eq_refl eq_refl Hrange Hhi Hr Hr1
              catalogue_position_generated)
    as (U & HU & Hp).
  exists U. split; [exact HU|]. split; [exact Hp | vm_compute; reflexivity].
Defined.



(** Three lines, added up with the compensated algorithm: 1402.2, 274.68
    and 153.76 give 1830.64; the plain algorithm returns the same invoice. *)
Lemma invoice_aggregates_are_sums_witness :
  exists (positions : list (gmap string atom)) (cents : list (Z * Z)),
    Examples.three_line_invoice !! "positions"%string = Some (VPositions positions)
    /\ length positions = 3%nat
    /\ Forall2 Amounts.line_totals positions cents
    /\ Examples.three_line_invoice !! "price_gross"%string
       = Some (VStr (PyFloat.float_str
                       (PyFloat.of_cents (Amounts.zsum cents.*1 + Amounts.zsum cents.*2))))
    /\ Examples.three_line_invoice !! "price_net"%string = Some (VStr (T "1488.31"))
    /\ Examples.three_line_invoice !! "price_tax"%string = Some (VStr (T "342.33"))
    /\ Examples.three_line_invoice !! "price_gross"%string = Some (VStr (T "1830.64"))
    /\ Generator.generate_invoice Samples.catalogue PyFloat.Plain Samples.three_draws
         Samples.parties 7 None Samples.accepting_world
       = Generator.generate_invoice Samples.catalogue PyFloat.Compensated
           Samples.three_draws Samples.parties 7 None Samples.accepting_world.
Proof.
  destruct catalogue_is_bounded as (Hrate & Hprod & Hd).
  assert (Hlen : (1 <= length Samples.three_draws <= 100)%nat) by (simpl; lia).
  pose proof (invoice_aggregates_are_sums Samples.catalogue PyFloat.Compensated
                Samples.three_draws Samples.parties 7 None
                Samples.accepting_world Samples.accepting_world
                Examples.three_line_invoice Hrate Hprod Hlen Hd
                (three_line_invoice_generated PyFloat.Compensated))
    as (positions & cents & H1 & H2 & _ & _ & H5 & _).
  assert (Hthree : length (match Examples.three_line_invoice !! "positions"%string with
                           | Some (VPositions ps) => ps
                           | _ => []
                           end) = 3%nat) by (vm_compute; reflexivity).
  rewrite H1 in Hthree.
  exists positions, cents.
  split; [exact H1|]. split; [exact Hthree|]. split; [exact H2|].
  split; [exact H5|].
  split; [vm_compute; reflexivity|]. split; [vm_compute; reflexivity|].
  split; [vm_compute; reflexivity|].
  rewrite !three_line_invoice_generated. reflexivity.
Defined.

Lemma line_total_reads_back_witness :
  exists x : PyFloat.float,
    Samples.scenario_position !! "total_price_gross"%string
    = Some (AStr (PyFloat.float_str x))
    /\ Generator.total_of "total_price_gross" Samples.scenario_position
         Samples.accepting_world
       = (inr x, Samples.accepting_world).
Proof.
  destruct scenario_is_bounded as (Hrate & Hprod & Hd).
  assert (Hkey : In "total_price_gross"%string
                   ["total_price_net"; "total_price_tax"; "total_price_gross"]%string)
    by (simpl; tauto).
  pose proof (line_total_reads_back Samples.scenario (Samples.draw_of 2)
                Samples.accepting_world Samples.accepting_world
                Samples.scenario_position "total_price_gross" Hrate Hprod Hd
                scenario_position_generated Hkey)
    as (x & H1 & H2).
  exists x. split; [exact H1 | apply H2].
Defined.



Section RulesExtras.
Context {U : UnicodeTables}.
Import Rules.

(** What the cascade leaves under a key is what the step that writes the key
    left there. *)
Lemma tax_no_of_cascade txt k :
  k = "seller_tax_no"%string \/ k = "buyer_tax_no"%string ->
  cascade txt !! k = step_nip txt initial_invoice_data !! k.
Proof.
  intros Hk. unfold cascade.
  rewrite step_postal_other, step_streets_other, step_names_other,
    step_amounts_other, step_date_other, step_number_other;
    try reflexivity; destruct Hk as [-> | ->]; discriminate.
Qed.

Lemma rules_fail_without (txt : text) (f : string) :
  In f required_fields ->
  cascade txt !! f = Some [] \/ cascade txt !! f = Some (T "0.00") ->
  (parse_invoice_with_rules txt).2 = false.
Proof.
  intros Hin Hv. unfold parse_invoice_with_rules.
  destruct (missing_fields (cascade txt)) as [|x l] eqn:Hm; [|reflexivity].
  exfalso. unfold missing_fields in Hm.
  pose proof (proj1 (filter_nil_iff _ _) Hm f Hin) as Hf.
  apply field_missing_false in Hf. destruct Hf as (v & Hv' & Hne & Hz).
  destruct Hv as [Hv | Hv]; rewrite Hv in Hv'; injection Hv' as <-; congruence.
Qed.

(** X6. The tax identifiers are the first two matches of the NIP pattern,
    with dashes and white space removed: the first is the seller's, the
    second the buyer's, further ones are ignored.  With fewer than two
    matches the buyer's identifier stays empty and the parse is
    unsuccessful. *)
Theorem tax_numbers_from_first_two_matches (txt : text) :
  let nips := findall1 true nip_pattern txt in
  cascade txt !! "seller_tax_no"%string
  = Some (match nips with n0 :: _ => clean_nip n0 | [] => [] end)
  /\ cascade txt !! "buyer_tax_no"%string
     = Some (match nips with _ :: n1 :: _ => clean_nip n1 | _ => [] end)
  /\ ((length nips < 2)%nat -> (parse_invoice_with_rules txt).2 = false).
Proof.
  intros nips.
  assert (Hs : cascade txt !! "seller_tax_no"%string
               = Some (match nips with n0 :: _ => clean_nip n0 | [] => [] end)).
  { rewrite tax_no_of_cascade by tauto. unfold step_nip. fold nips.
    destruct nips as [|n0 [|n1 rest]].
    - reflexivity.
    - apply lookup_insert_eq.
    - rewrite lookup_insert_ne by discriminate. apply lookup_insert_eq. }
  assert (Hb : cascade txt !! "buyer_tax_no"%string
               = Some (match nips with _ :: n1 :: _ => clean_nip n1 | _ => [] end)).
  { rewrite tax_no_of_cascade by tauto. unfold step_nip. fold nips.
    destruct nips as [|n0 [|n1 rest]].
    - reflexivity.
    - rewrite lookup_insert_ne by discriminate. reflexivity.
    - apply lookup_insert_eq. }
  split; [exact Hs|]. split; [exact Hb|].
  intros Hlen. apply (rules_fail_without txt "buyer_tax_no").
  - unfold required_fields. simpl. tauto.
  - left. rewrite Hb. destruct nips as [|n0 [|n1 rest]]; try reflexivity.
    simpl in Hlen. lia.
Qed.

End RulesExtras.
Section RulesKeys.
Context {U : UnicodeTables}.
Import Rules.

Lemma insert_keeps_dom (d : gmap string text) (k : string) (v : text) :
  dom d = dom initial_invoice_data ->
  k ∈ dom initial_invoice_data ->
  dom (<[k := v]> d) = dom initial_invoice_data.
Proof.
  intros Hd Hk. rewrite dom_insert_lookup_L; [exact Hd|].
  apply elem_of_dom. rewrite Hd. exact Hk.
Qed.

Lemma initial_key (k : string) :
  is_Some (initial_invoice_data !! k) -> k ∈ dom initial_invoice_data.
Proof. apply elem_of_dom. Qed.

Ltac key_of_initial := apply initial_key; eexists; reflexivity.

Lemma step_nip_dom txt d :
  dom d = dom initial_invoice_data -> dom (step_nip txt d) = dom initial_invoice_data.
Proof.
  intros Hd. unfold step_nip.
  destruct (findall1 true nip_pattern txt) as [|n0 [|n1 rest]];
    repeat (apply insert_keeps_dom; [|key_of_initial]); exact Hd.
Qed.

Lemma step_number_dom txt d :
  dom d = dom initial_invoice_data -> dom (step_number txt d) = dom initial_invoice_data.
Proof.
  intros Hd. unfold step_number.
  destruct (first_match invoice_num_patterns txt) as [[p m]|];
    repeat (apply insert_keeps_dom; [|key_of_initial]); exact Hd.
Qed.

Lemma step_date_dom txt d :
  dom d = dom initial_invoice_data -> dom (step_date txt d) = dom initial_invoice_data.
Proof.
  intros Hd. unfold step_date.
  destruct (first_match date_patterns txt) as [[p m]|];
    repeat (apply insert_keeps_dom; [|key_of_initial]); exact Hd.
Qed.

Lemma step_amounts_dom txt d :
  dom d = dom initial_invoice_data -> dom (step_amounts txt d) = dom initial_invoice_data.
Proof.
  unfold step_amounts.
  assert (Hf : Forall (fun pf : regex * string => pf.2 ∈ dom initial_invoice_data)
                 amount_patterns).
  { unfold amount_patterns. repeat constructor; key_of_initial. }
  revert d. induction Hf as [|pf pats Hpf _ IH]; intros d Hd; [exact Hd|].
  cbn [fold_left]. apply IH. unfold amount_step.
  destruct (last (findall1 true pf.1 txt)); [|exact Hd].
  apply insert_keeps_dom; assumption.
Qed.

Lemma step_names_dom txt d :
  dom d = dom initial_invoice_data -> dom (step_names txt d) = dom initial_invoice_data.
Proof.
  intros Hd. unfold step_names.
  repeat match goal with
         | |- context [match ?x with _ => _ end] => destruct x
         | |- context [if ?x then _ else _] => destruct x
         end;
    repeat (apply insert_keeps_dom; [|key_of_initial]); exact Hd.
Qed.

Lemma step_streets_dom txt d :
  dom d = dom initial_invoice_data -> dom (step_streets txt d) = dom initial_invoice_data.
Proof.
  intros Hd. unfold step_streets.
  repeat match goal with
         | |- context [match ?x with _ => _ end] => destruct x
         | |- context [if ?x then _ else _] => destruct x
         end;
    repeat (apply insert_keeps_dom; [|key_of_initial]); exact Hd.
Qed.

Lemma step_postal_dom txt d :
  dom d = dom initial_invoice_data -> dom (step_postal txt d) = dom initial_invoice_data.
Proof.
  intros Hd. unfold step_postal, set_buyer_postal.
  repeat match goal with
         | |- context [match ?x with _ => _ end] => destruct x
         | |- context [if ?x then _ else _] => destruct x
         end;
    repeat (apply insert_keeps_dom; [|key_of_initial]); exact Hd.
Qed.

Lemma cascade_dom txt : dom (cascade txt) = dom initial_invoice_data.
Proof.
  unfold cascade.
  apply step_postal_dom, step_streets_dom, step_names_dom, step_amounts_dom,
    step_date_dom, step_number_dom, step_nip_dom. reflexivity.
Qed.

(** X7. Whatever the text, the record of the rule cascade has exactly the
    sixteen keys of the record it starts from: the rules add no key and
    remove none.  So the record of a successful rule-based parse holds every
    key the encoder reads, and encoding it never raises [KeyError], even
    when the buyer's postal code and city were not found (they are then the
    empty text). *)
Theorem rules_record_has_the_initial_keys
    {L : PyLib} (txt : text) (variant : text) (w : world) :
  dom (parse_invoice_with_rules txt).1 = dom initial_invoice_data
  /\ (forall k, In k Encoder.encoder_required ->
        exists v, (parse_invoice_with_rules txt).1 !! k = Some v)
  /\ exists tree,
       Encoder.build_tree variant (VStr <$> (parse_invoice_with_rules txt).1) w
       = (inr tree, w).
Proof.
  assert (Hp : (parse_invoice_with_rules txt).1 = cascade txt).
  { unfold parse_invoice_with_rules. destruct (missing_fields _); reflexivity. }
  rewrite Hp.
  assert (Hk : forall k, In k Encoder.encoder_required ->
                         exists v, cascade txt !! k = Some v).
  { intros k Hin. apply (elem_of_dom (cascade txt) k). rewrite cascade_dom.
    unfold Encoder.encoder_required in Hin.
    repeat (destruct Hin as [<- | Hin]; [key_of_initial|]). destruct Hin. }
  split; [apply cascade_dom|]. split; [exact Hk|].
  apply all_keys_build. intros k Hin. destruct (Hk k Hin) as [v Hv].
  rewrite lookup_fmap, Hv. eexists. reflexivity.
Qed.

End RulesKeys.
Section RulesAmounts.
Context {U : UnicodeTables}.
Import Rules.

(** ** Splitting at the decimal point *)

Lemma split_char_nonempty (c : N) (s : text) : split_char c s <> [].
Proof.
  destruct s as [|x s]; [discriminate|]. cbn [split_char].
  destruct (N.eqb x c); [discriminate|]. destruct (split_char c s); discriminate.
Qed.

Lemma has_char_cons (c x : N) (s : text) :
  has_char c (x :: s) = N.eqb x c || has_char c s.
Proof. unfold has_char. cbn [existsb]. rewrite (N.eqb_sym c x). reflexivity. Qed.

Lemma split_char_whole (c : N) (s : text) :
  has_char c s = false -> split_char c s = [s].
Proof.
  induction s as [|x s IH]; [reflexivity|].
  rewrite has_char_cons. intros H. apply orb_false_iff in H. destruct H as [Hx Hs].
  cbn [split_char]. rewrite Hx, (IH Hs). reflexivity.
Qed.

Lemma split_char_two (c : N) (s : text) :
  has_char c s = true -> exists p q qs, split_char c s = p :: q :: qs.
Proof.
  induction s as [|x s IH]; [discriminate|].
  rewrite has_char_cons. cbn [split_char]. destruct (N.eqb x c).
  - intros _. destruct (split_char c s) as [|q qs] eqn:Hs;
      [exfalso; eapply split_char_nonempty; exact Hs|].
    exists [], q, qs. reflexivity.
  - intros H. destruct (IH H) as (p & q & qs & ->).
    exists (x :: p), q, qs. reflexivity.
Qed.

(** The text after the last separator holds no separator, and the text
    ends with it. *)
Lemma last_part_spec (c : N) (s : text) :
  (has_char c s = false /\ last_part (split_char c s) = s)
  \/ (exists body, s = body ++ c :: last_part (split_char c s)
                   /\ has_char c (last_part (split_char c s)) = false).
Proof.
  induction s as [|x s IH]; [left; split; reflexivity|].
  cbn [split_char]. destruct (N.eqb x c) eqn:Hx.
  - apply N.eqb_eq in Hx. subst x. right.
    assert (Hl : last_part ([] :: split_char c s) = last_part (split_char c s)).
    { destruct (split_char c s) eqn:Hs;
        [exfalso; eapply split_char_nonempty; exact Hs | reflexivity]. }
    rewrite Hl. destruct IH as [[Hn Hw] | (body & Hb & Hn)].
    + exists []. rewrite Hw. split; [reflexivity | exact Hn].
    + exists (c :: body). split; [simpl; f_equal; exact Hb | exact Hn].
  - destruct IH as [[Hn Hw] | (body & Hb & Hn)].
    + left. rewrite has_char_cons, Hx, Hn. split; [reflexivity|].
      rewrite (split_char_whole c s Hn). reflexivity.
    + right.
      assert (Hc : has_char c s = true).
      { rewrite Hb. unfold has_char. rewrite existsb_app. cbn [existsb].
        rewrite N.eqb_refl. apply orb_true_iff. right. reflexivity. }
      destruct (split_char_two c s Hc) as (p & q & qs & Hs).
      rewrite Hs in *.
      change (last_part ((x :: p) :: q :: qs)) with (last_part (p :: q :: qs)).
      exists (x :: body). split; [simpl; f_equal; exact Hb | exact Hn].
Qed.

(** ** The amounts *)

Lemma normalize_amount_two_decimals (raw : text) :
  two_decimals (normalize_amount raw).
Proof.
  unfold normalize_amount, two_decimals.
  set (amount := remove_char (cc ",") (remove_char (cc " ") raw)).
  destruct (has_char (cc ".") amount) eqn:Hdot.
  - destruct (length (last_part (split_char (cc ".") amount)) =? 2)%nat eqn:Hlen.
    + apply Nat.eqb_eq in Hlen.
      destruct (last_part_spec (cc ".") amount) as [[Hn _] | (body & Hb & Hn)];
        [congruence|].
      destruct (last_part (split_char (cc ".") amount)) as [|a [|b [|c l]]];
        try discriminate Hlen.
      exists body, a, b. split; [exact Hb|].
      rewrite !has_char_cons in Hn. apply orb_false_iff in Hn.
      destruct Hn as [Ha Hn]. apply orb_false_iff in Hn. destruct Hn as [Hb' _].
      split; apply N.eqb_neq; assumption.
    + exists (remove_char (cc ".") amount), 48, 48.
      split; [reflexivity|]. split; discriminate.
  - exists amount, 48, 48. split; [reflexivity|]. split; discriminate.
Qed.

Lemma amount_keys :
  Forall (fun pf : regex * string =>
            In pf.2 ["price_net"; "price_tax"; "price_gross"]%string)
    amount_patterns.
Proof. unfold amount_patterns. repeat constructor; simpl; tauto. Qed.

(** The amount fields of the cascade are those the amount step left, and
    they start from [0.00]. *)
Lemma amount_of_cascade txt k :
  In k ["price_net"; "price_tax"; "price_gross"]%string ->
  cascade txt !! k
  = step_amounts txt (step_date txt (step_number txt
                        (step_nip txt initial_invoice_data))) !! k
  /\ step_date txt (step_number txt (step_nip txt initial_invoice_data)) !! k
     = Some (T "0.00").
Proof.
  intros Hk. unfold cascade. split.
  - rewrite step_postal_other, step_streets_other, step_names_other;
      try reflexivity;
      repeat (destruct Hk as [<- | Hk]; [discriminate|]); destruct Hk.
  - rewrite step_date_other, step_number_other, step_nip_other.
    + repeat (destruct Hk as [<- | Hk]; [reflexivity|]); destruct Hk.
    + repeat (destruct Hk as [<- | Hk]; [discriminate|]); destruct Hk.
    + repeat (destruct Hk as [<- | Hk]; [discriminate|]); destruct Hk.
    + repeat (destruct Hk as [<- | Hk]; [discriminate|]); destruct Hk.
    + repeat (destruct Hk as [<- | Hk]; [discriminate|]); destruct Hk.
Qed.

(** Patterns that write another field, or that do not match, leave a
    field as it is. *)
Lemma amount_fold_keeps txt (pats : list (regex * string)) d f :
  Forall (fun qf : regex * string => qf.2 = f -> findall1 true qf.1 txt = []) pats ->
  fold_left (amount_step txt) pats d !! f = d !! f.
Proof.
  intros H. revert d. induction H as [|qf pats Hq _ IH]; intros d; [reflexivity|].
  cbn [fold_left]. rewrite IH. unfold amount_step.
  destruct (last (findall1 true qf.1 txt)) as [raw|] eqn:Hl; [|reflexivity].
  destruct (decide (qf.2 = f)) as [Heq|Hne].
  - rewrite (Hq Heq) in Hl. discriminate.
  - apply lookup_insert_ne. exact Hne.
Qed.

(** X8. Every amount of the rule cascade, found or not, has exactly two
    characters after its last decimal point. *)
Theorem amounts_have_two_decimals (txt : text) (k : string) :
  In k ["price_net"; "price_tax"; "price_gross"]%string ->
  exists v, cascade txt !! k = Some v /\ two_decimals v.
Proof.
  intros Hk. destruct (amount_of_cascade txt k Hk) as [-> H0].
  unfold step_amounts.
  generalize dependent (step_date txt (step_number txt
                          (step_nip txt initial_invoice_data))).
  intros d H0.
  assert (Hd : exists v, d !! k = Some v /\ two_decimals v).
  { exists (T "0.00"). split; [exact H0|]. exists [48], 48, 48.
    split; [reflexivity|]. split; discriminate. }
  clear H0. revert d Hd.
  induction amount_patterns as [|pf pats IH]; intros d Hd; [exact Hd|].
  cbn [fold_left]. apply IH. unfold amount_step.
  destruct (last (findall1 true pf.1 txt)) as [raw|]; [|exact Hd].
  destruct (decide (pf.2 = k)) as [->|Hne].
  - exists (normalize_amount raw). split; [apply lookup_insert_eq|].
    apply normalize_amount_two_decimals.
  - rewrite lookup_insert_ne by exact Hne. exact Hd.
Qed.

(** X9. Every amount pattern is tried and each one that matches overwrites
    its field, so a field holds the last match of the last pattern that
    writes it and matches at all: [Do zapłaty] overrides [Razem], which
    overrides [Brutto], which overrides [TOTAL]. *)
Theorem amount_from_last_matching_pattern
    (txt : text) (pre post : list (regex * string)) (p : regex) (f : string)
    (raw : text) :
  amount_patterns = pre ++ (p, f) :: post ->
  last (findall1 true p txt) = Some raw ->
  Forall (fun qf : regex * string => qf.2 = f -> findall1 true qf.1 txt = []) post ->
  cascade txt !! f = Some (normalize_amount raw).
Proof.
  intros Hpats Hraw Hpost.
  assert (Hf : In f ["price_net"; "price_tax"; "price_gross"]%string).
  { pose proof amount_keys as Hk. rewrite Hpats in Hk.
    apply Forall_app in Hk. destruct Hk as [_ Hk].
    apply Forall_cons in Hk. apply Hk. }
  destruct (amount_of_cascade txt f Hf) as [-> _].
  unfold step_amounts. rewrite Hpats, fold_left_app. cbn [fold_left].
  rewrite (amount_fold_keeps txt post _ f Hpost).
  unfold amount_step at 1. cbn [fst snd]. rewrite Hraw. apply lookup_insert_eq.
Qed.

(** X10. When none of the patterns that write an amount field matches, the
    field keeps its initial [0.00] and the parse is unsuccessful. *)
Theorem amount_without_match_stays_zero (txt : text) (f : string) :
  In f ["price_net"; "price_tax"; "price_gross"]%string ->
  Forall (fun qf : regex * string => qf.2 = f -> findall1 true qf.1 txt = [])
    amount_patterns ->
  cascade txt !! f = Some (T "0.00")
  /\ (parse_invoice_with_rules txt).2 = false.
Proof.
  intros Hf Hnone.
  assert (Hz : cascade txt !! f = Some (T "0.00")).
  { destruct (amount_of_cascade txt f Hf) as [-> H0].
    unfold step_amounts. rewrite (amount_fold_keeps txt _ _ f Hnone). exact H0. }
  split; [exact Hz|].
  apply (rules_fail_without txt f); [|right; exact Hz].
  unfold required_fields.
  repeat (destruct Hf as [<- | Hf]; [simpl; tauto|]). destruct Hf.
Qed.

(** ** The issue date *)

Lemma assoc_get_absent (k : text) (d : list (text * text)) (dflt : text) :
  (forall v, ~ In (k, v) d) -> assoc_get k d dflt = dflt.
Proof.
  induction d as [|[k' v'] d IH]; intros H; [reflexivity|].
  cbn [assoc_get]. unfold text_eqb.
  destruct (bool_decide (k = k')) eqn:Hk.
  - apply bool_decide_eq_true in Hk. subst k'. exfalso. apply (H v'). left. reflexivity.
  - apply IH. intros v Hin. apply (H v). right. exact Hin.
Qed.

(** X11. A date written with a month name that is not one of the twelve
    full English names (an abbreviation such as Sept, a Polish name) is read
    as a date in January; the day is padded to two digits. *)
Theorem unknown_month_reads_as_january (txt : text) (p : regex) (m : rematch) :
  first_match date_patterns txt = Some (p, m) ->
  ngroups p = 3%nat ->
  (forall v, ~ In (str_lower (group m 2), v) month_names) ->
  cascade txt !! "issue_date"%string
  = Some (group m 3 ++ T "-01-" ++ zfill 2 (group m 1)).
Proof.
  intros Hm Hg Hmonth. rewrite issue_date_of_cascade. unfold step_date.
  rewrite Hm, lookup_insert_eq. unfold date_of_match. rewrite Hg.
  cbn [Nat.eqb]. rewrite (assoc_get_absent _ _ _ Hmonth).
  reflexivity.
Qed.

End RulesAmounts.
Section OrchestrationExtras.
Context {U : UnicodeTables} {L : PyLib}.
Variable self : Converter.converter.

(** The secondary extractor changes the log of the completion service
    only. *)
Lemma parse_from_text_frame txt w :
  let w' := (Converter.parse_invoice_from_text self txt w).2 in
  w_files w' = w_files w /\ w_pdfs w' = w_pdfs w /\ w_now w' = w_now w.
Proof.
  unfold Converter.parse_invoice_from_text.
  destruct (Converter.anthropic_client self) as [create|]; [|simpl; auto].
  unfold bind, modify, raise, ret. simpl.
  destruct (create (ai_prompt txt)) as [e|answer]; [simpl; auto|].
  destruct (json_loads _); simpl; auto.
Qed.

Lemma extract_record_frame force_ai txt w :
  let w' := (Converter.extract_record self force_ai txt w).2 in
  w_files w' = w_files w /\ w_pdfs w' = w_pdfs w /\ w_now w' = w_now w.
Proof.
  unfold Converter.extract_record.
  destruct (Converter.rule_based force_ai txt); [simpl; auto|].
  destruct (Converter.anthropic_client self) eqn:Hc; [|simpl; auto].
  apply parse_from_text_frame.
Qed.

(** What the second half of the conversion returns and writes. *)
Lemma encode_validate_write_cases out j w :
  (exists e, Converter.encode_validate_write self out j w = (inl e, w))
  \/ (exists d xml schema_doc,
         j = JObject d
         /\ w_files w !! Converter.schema_path self = Some schema_doc
         /\ xsd_check schema_doc xml = XsdValid
         /\ Converter.encode_validate_write self out j w
            = (inr xml,
               match Converter.path_given out with
               | Some p => set_files (fun fs => <[p := xml]> fs) w
               | None => w
               end)).
Proof.
  remember (Converter.encode_validate_write self out j w) as E eqn:HE.
  unfold Converter.encode_validate_write in HE.
  destruct j as [d|]; [|left; eexists; exact HE].
  unfold bind at 1 in HE. cbn [Converter.as_dict ret] in HE.
  unfold bind at 1 in HE. rewrite (convert_result self d w) in HE.
  destruct (Converter.convert_to_ksef_xml self d w).1 as [e|xml];
    [left; eexists; exact HE|].
  unfold bind at 1 in HE.
  pose proof (validate_cases self xml w) as Hv.
  destruct (w_files w !! Converter.schema_path self) as [schema_doc|] eqn:Hs.
  - destruct Hv as [msg Hv]. rewrite Hv in HE.
    destruct (xsd_check schema_doc xml) eqn:Hx;
      try (left; eexists; exact HE).
    right. exists d, xml, schema_doc.
    split; [reflexivity|]. split; [reflexivity|]. split; [exact Hx|].
    rewrite HE. unfold bind, ret. cbn [fst snd].
    destruct (Converter.path_given out) as [p|]; reflexivity.
  - destruct Hv as [msg Hv]. rewrite Hv in HE. left. eexists. exact HE.
Qed.

Lemma encode_validate_write_effect out j w :
  let r := Converter.encode_validate_write self out j w in
  w_pdfs r.2 = w_pdfs w /\ w_now r.2 = w_now w
  /\ (forall e, r.1 = inl e -> r.2 = w)
  /\ (forall xml, r.1 = inr xml ->
        (exists schema_doc,
            w_files w !! Converter.schema_path self = Some schema_doc
            /\ xsd_check schema_doc xml = XsdValid)
        /\ w_files r.2
           = match Converter.path_given out with
             | Some p => <[p := xml]> (w_files w)
             | None => w_files w
             end).
Proof.
  intros r.
  destruct (encode_validate_write_cases out j w)
    as [[e He] | (d & xml & sd & _ & Hs & Hx & He)]; subst r; rewrite He;
    cbn [fst snd].
  - split; [reflexivity|]. split; [reflexivity|].
    split; [reflexivity | intros; discriminate].
  - split; [destruct (Converter.path_given out); reflexivity|].
    split; [destruct (Converter.path_given out); reflexivity|].
    split; [intros; discriminate|].
    intros xml' [= <-]. split; [exists sd; split; assumption|].
    destruct (Converter.path_given out); reflexivity.
Qed.

(** X12. What [convert_pdf_to_ksef_xml] does to the world: a missing PDF
    raises [FileNotFoundError] before anything else happens; the PDFs and
    the clock are never changed; when the conversion raises, no file is
    written; when it returns an XML, that XML passed the validation against
    the schema file, and the only file written is the output path, holding
    exactly the returned XML (nothing at all is written without an output
    path, or with the empty path). *)
Theorem conversion_writes_only_validated_xml
    (pdf_path : string) (output_path : option string) (force_ai : bool)
    (w : world) :
  let r := Converter.convert_pdf_to_ksef_xml self pdf_path output_path force_ai w in
  (w_pdfs w !! pdf_path = None ->
   r = (inl (FileNotFoundError (T "PDF file not found: " ++ T pdf_path)), w))
  /\ w_pdfs r.2 = w_pdfs w /\ w_now r.2 = w_now w
  /\ (forall e, r.1 = inl e -> w_files r.2 = w_files w)
  /\ (forall xml, r.1 = inr xml ->
        (exists schema_doc,
            w_files w !! Converter.schema_path self = Some schema_doc
            /\ xsd_check schema_doc xml = XsdValid)
        /\ w_files r.2
           = match Converter.path_given output_path with
             | Some p => <[p := xml]> (w_files w)
             | None => w_files w
             end).
Proof.
  intros r.
  assert (Hr : r = match w_pdfs w !! pdf_path with
                   | None =>
                       (inl (FileNotFoundError (T "PDF file not found: " ++ T pdf_path)), w)
                   | Some pages =>
                       match Converter.extract_record self force_ai
                               (Converter.joined_pages pages) w with
                       | (inl e, w1) => (inl e, w1)
                       | (inr j, w1) =>
                           Converter.encode_validate_write self output_path j w1
                       end
                   end).
  { subst r.
    unfold Converter.convert_pdf_to_ksef_xml, Converter.extract_text_from_pdf,
      bind, get_world, ret, raise.
    destruct (w_pdfs w !! pdf_path); reflexivity. }
  clearbody r. subst r.
  destruct (w_pdfs w !! pdf_path) as [pages|] eqn:Hp.
  2: { cbn [fst snd]. split; [reflexivity|]. split; [reflexivity|].
       split; [reflexivity|]. split; [reflexivity | intros; discriminate]. }
  pose proof (extract_record_frame force_ai (Converter.joined_pages pages) w)
    as (Hf & Hpd & Hn).
  destruct (Converter.extract_record self force_ai (Converter.joined_pages pages) w)
    as [[e|j] w1].
  { cbn [fst snd] in *. split; [discriminate|]. split; [exact Hpd|].
    split; [exact Hn|]. split; [intros; exact Hf | intros; discriminate]. }
  cbn [fst snd] in *.
  pose proof (encode_validate_write_effect output_path j w1)
    as (H1 & H2 & H4 & H5).
  destruct (Converter.encode_validate_write self output_path j w1) as [res w2].
  cbn [fst snd] in *.
  split; [discriminate|].
  split; [congruence|]. split; [congruence|].
  split.
  - intros e He. rewrite (H4 e He). exact Hf.
  - intros xml Hx. destruct (H5 xml Hx) as [(sd & Hs & Hv) Hw].
    rewrite Hf in Hs, Hw. split; [exists sd; split; assumption | exact Hw].
Qed.

End OrchestrationExtras.
Section FenceRemoval.
Context {U : UnicodeTables}.

(** ** The code fence of the completion service's answer *)

(** Whether a fence begins at a character depends on the two characters
    after it only. *)
Lemma fence_here_take (x : N) (inner tail : text) :
  is_prefix (T "```") (x :: inner ++ tail)
  = is_prefix (T "```") (x :: inner ++ take 2 tail).
Proof.
  change (T "```") with [96; 96; 96].
  destruct inner as [|y [|z inner]]; destruct tail as [|a [|b tail]]; reflexivity.
Qed.

(** Scanning up to the next fence: no fence begins inside [inner], and
    [tail] is empty or begins with the fence. *)
Lemma split_on_go_scan (inner : text) :
  forall (fuel : nat) (acc tail : text),
    is_infix (T "```") (inner ++ take 2 tail) = false ->
    (length inner < fuel)%nat ->
    (tail = [] \/ is_prefix (T "```") tail = true) ->
    exists parts,
      split_on_go fuel (T "```") acc (inner ++ tail)
      = (rev acc ++ inner) :: parts.
Proof.
  induction inner as [|x inner IH]; intros fuel acc tail Hno Hfuel Htail.
  - rewrite app_nil_r. cbn [app]. destruct fuel as [|fuel]; [simpl in Hfuel; lia|].
    cbn [split_on_go]. destruct Htail as [-> | Hf].
    + exists []. reflexivity.
    + destruct tail as [|y tail]; [discriminate|]. rewrite Hf. eexists. reflexivity.
  - cbn [app is_infix] in Hno. apply orb_false_iff in Hno. destruct Hno as [Hx Hno].
    destruct fuel as [|fuel]; [simpl in Hfuel; lia|].
    cbn [app split_on_go]. rewrite fence_here_take, Hx.
    destruct (IH fuel (x :: acc) tail Hno ltac:(simpl in Hfuel; lia) Htail)
      as [parts Hp].
    exists parts. rewrite Hp. cbn [rev]. rewrite <- app_assoc. reflexivity.
Qed.

(** X13. An answer of the completion service that opens with a code fence
    is reduced to what stands between the fence and the next one, without a
    leading [json] and without surrounding white space, and whatever
    follows the next fence is dropped; when no other fence follows, all that
    follows the opening fence is kept.  The next fence is the first place
    where three backquotes begin: [inner] may hold backquotes, but no fence
    begins inside it, the first two backquotes of the closing fence
    included. *)
Theorem fenced_answer_is_unwrapped (inner rest : text) :
  let body := if is_prefix (T "json") inner then drop 4 inner else inner in
  (is_infix (T "```") (inner ++ T "``") = false ->
   Converter.unfence (T "```" ++ inner ++ T "```" ++ rest) = strip body)
  /\ (is_infix (T "```") inner = false ->
      Converter.unfence (T "```" ++ inner) = strip body).
Proof.
  intros body.
  assert (Hgen : forall tail,
             is_infix (T "```") (inner ++ take 2 tail) = false ->
             tail = [] \/ is_prefix (T "```") tail = true ->
             Converter.unfence (T "```" ++ inner ++ tail) = strip body).
  { intros tail Hno Htail. unfold Converter.unfence.
    change (T "```" ++ inner ++ tail) with (96 :: 96 :: 96 :: inner ++ tail).
    change (is_prefix (T "```") (96 :: 96 :: 96 :: inner ++ tail)) with true.
    cbv iota. unfold split_on. cbn [split_on_go].
    change (is_prefix (T "```") (96 :: 96 :: 96 :: inner ++ tail)) with true.
    cbv iota. change (drop (length (T "```")) (96 :: 96 :: 96 :: inner ++ tail))
      with (inner ++ tail).
    destruct (split_on_go_scan inner
                (length (96 :: 96 :: 96 :: inner ++ tail)) [] tail) as [parts Hp].
    - exact Hno.
    - simpl. rewrite length_app. lia.
    - exact Htail.
    - rewrite Hp. reflexivity. }
  split.
  - intros Hno. apply Hgen; [exact Hno | right; reflexivity].
  - intros Hno. rewrite <- (app_nil_r inner) at 1. apply Hgen.
    + cbn [take]. rewrite app_nil_r. exact Hno.
    + left. reflexivity.
Qed.

End FenceRemoval.

Section EncoderFrame.
Context {L : PyLib}.

(** X14. The encoder reads sixteen keys of the invoice record and nothing
    else: two records that agree on them are encoded alike, so the line
    items, the payment data and the seller's postal code and city never
    reach the XML. *)
Theorem encoder_reads_sixteen_keys
    (variant : text) (d1 d2 : gmap string pyval) (w : world) :
  (forall k, In k (Encoder.encoder_required
                     ++ ["seller_country"; "buyer_country"]%string) ->
             d1 !! k = d2 !! k) ->
  Encoder.convert_with_variant variant d1 w
  = Encoder.convert_with_variant variant d2 w.
Proof.
  intros Hk.
  assert (H : forall k, In k (Encoder.encoder_required
                                ++ ["seller_country"; "buyer_country"]%string) ->
                        d1 !! k = d2 !! k) by exact Hk.
  unfold Encoder.encoder_required in H. cbn [app] in H.
  unfold Encoder.convert_with_variant, Encoder.build_tree, subscript, dict_get.
  rewrite !(H "seller_tax_no"%string), !(H "seller_name"%string),
    !(H "seller_street"%string), !(H "buyer_tax_no"%string),
    !(H "buyer_name"%string), !(H "buyer_street"%string),
    !(H "buyer_post_code"%string), !(H "buyer_city"%string),
    !(H "currency"%string), !(H "issue_date"%string), !(H "number"%string),
    !(H "price_net"%string), !(H "price_tax"%string), !(H "price_gross"%string),
    !(H "seller_country"%string), !(H "buyer_country"%string)
    by (simpl; tauto).
  reflexivity.
Qed.

End EncoderFrame.
Section SubstitutionOfAClass.
Context {U : UnicodeTables}.

(** ** [re.sub] of a character class by the empty text *)

Variable icase : bool.
Variable items : list cset_item.


Lemma match_here_class (ma : bool) (pos : nat) (s : text) :
  match_here icase (Set_ false items) ma pos s
  = match s with
    | x :: s' =>
        if set_matches icase false items x
        then Some {| m_start := pos; m_text := [x]; m_rest := s'; m_caps := [] |}
        else None
    | [] => None
    end.
Proof.
  unfold match_here. cbn [rmatch]. destruct s as [|x s']; [reflexivity|].
  destruct (set_matches icase false items x); [|reflexivity].
  replace (length s' =? length (x :: s'))%nat with false
    by (symmetry; apply Nat.eqb_neq; simpl; lia).
  rewrite andb_false_r.
  replace (length (x :: s') - length s')%nat with 1%nat by (simpl; lia).
  reflexivity.
Qed.

Lemma search_from_class_cons (ma : bool) (pos : nat) (x : N) (s : text) :
  search_from icase (Set_ false items) ma pos (x :: s)
  = if set_matches icase false items x
    then Some {| m_start := pos; m_text := [x]; m_rest := s; m_caps := [] |}
    else search_from icase (Set_ false items) false (S pos) s.
Proof.
  cbn [search_from]. rewrite match_here_class. destruct (set_matches icase false items x); reflexivity.
Qed.

Lemma search_from_class_nil (ma : bool) (pos : nat) :
  search_from icase (Set_ false items) ma pos [] = None.
Proof. reflexivity. Qed.

Lemma search_from_class_start (ma : bool) (pos : nat) (s : text) (m : rematch) :
  search_from icase (Set_ false items) ma pos s = Some m -> (pos <= m_start m)%nat.
Proof.
  revert ma pos. induction s as [|x s IH]; intros ma pos; [discriminate|].
  rewrite search_from_class_cons. destruct (set_matches icase false items x).
  - intros [= <-]. simpl. lia.
  - intros H. apply IH in H. lia.
Qed.

Lemma sub_class_go (s : text) :
  forall (fuel : nat) (ma : bool) (pos : nat),
    (length s < fuel)%nat ->
    sub_empty_go (finditer_go icase fuel (Set_ false items) ma pos s) pos s
    = List.filter (fun x => negb (set_matches icase false items x)) s.
Proof.
  induction s as [|x s IH]; intros fuel ma pos Hfuel.
  - destruct fuel; reflexivity.
  - destruct fuel as [|fuel]; [simpl in Hfuel; lia|].
    cbn [finditer_go List.filter]. rewrite search_from_class_cons.
    destruct (set_matches icase false items x) eqn:Hx; cbn [negb].
    + cbn [sub_empty_go m_start m_text m_rest length Nat.eqb].
      rewrite Nat.sub_diag. cbn [take app].
      replace (pos + 1)%nat with (S pos) by lia.
      apply IH. simpl in Hfuel. lia.
    + specialize (IH (S fuel) false (S pos) ltac:(simpl in Hfuel; lia)).
      cbn [finditer_go] in IH.
      destruct (search_from icase (Set_ false items) false (S pos) s) as [m|] eqn:Hm.
      * cbn [sub_empty_go] in *.
        pose proof (search_from_class_start _ _ _ _ Hm) as Hstart.
        replace (m_start m - pos)%nat with (S (m_start m - S pos)) by lia.
        cbn [take app]. f_equal. exact IH.
      * cbn [sub_empty_go] in *. f_equal. exact IH.
Qed.

Lemma re_sub_empty_class (s : text) :
  re_sub_empty icase (Set_ false items) s = List.filter (fun x => negb (set_matches icase false items x)) s.
Proof. unfold re_sub_empty, finditer. apply sub_class_go. lia. Qed.

End SubstitutionOfAClass.

Section TaxNumbers.
Context {U : UnicodeTables}.
Import Rules.

(** [re.sub(r'[-\s]', '', nip)] keeps the characters that are neither a
    dash nor white space. *)
Lemma clean_nip_filter (n : text) :
  clean_nip n = List.filter (fun x => negb (N.eqb (cc "-") x || uni_isspace x)) n.
Proof.
  unfold clean_nip, nip_separator, dash_sp. rewrite re_sub_empty_class.
  apply filter_ext. intros x. unfold set_matches. cbn [existsb item_matches xorb].
  unfold lit_matches. rewrite orb_false_r. reflexivity.
Qed.

Lemma clean_nip_has_no_separator (n : text) :
  Forall (fun x => x <> cc "-" /\ uni_isspace x = false) (clean_nip n).
Proof.
  rewrite clean_nip_filter. apply List.Forall_forall. intros x Hx.
  apply filter_In in Hx. destruct Hx as [_ Hx].
  apply negb_true_iff, orb_false_iff in Hx. destruct Hx as [Hd Hs].
  split; [|exact Hs]. apply N.eqb_neq in Hd. congruence.
Qed.

(** X15. The tax identifiers the rules store never hold a dash or a white
    space character, whatever the text: they are the captured identifiers
    with exactly those characters removed, and the other characters in
    order. *)
Theorem tax_numbers_have_no_separators (txt : text) (k : string) :
  k = "seller_tax_no"%string \/ k = "buyer_tax_no"%string ->
  exists v,
    cascade txt !! k = Some v
    /\ Forall (fun x => x <> cc "-" /\ uni_isspace x = false) v
    /\ (v = []
        \/ exists n, In n (findall1 true nip_pattern txt)
                     /\ v = List.filter
                              (fun x => negb (N.eqb (cc "-") x || uni_isspace x)) n).
Proof.
  intros Hk. rewrite (tax_no_of_cascade txt k Hk). unfold step_nip.
  assert (Hnil : Forall (fun x : N => x <> cc "-" /\ uni_isspace x = false) [])
    by constructor.
  destruct (findall1 true nip_pattern txt) as [|n0 [|n1 rest]];
    destruct Hk as [-> | ->].
  - exists []. split; [reflexivity|]. split; [exact Hnil | left; reflexivity].
  - exists []. split; [reflexivity|]. split; [exact Hnil | left; reflexivity].
  - exists (clean_nip n0). split; [apply lookup_insert_eq|].
    split; [apply clean_nip_has_no_separator|].
    right. exists n0. split; [left; reflexivity | apply clean_nip_filter].
  - exists []. split; [rewrite lookup_insert_ne by discriminate; reflexivity|].
    split; [exact Hnil | left; reflexivity].
  - exists (clean_nip n0).
    split; [rewrite lookup_insert_ne by discriminate; apply lookup_insert_eq|].
    split; [apply clean_nip_has_no_separator|].
    right. exists n0. split; [left; reflexivity | apply clean_nip_filter].
  - exists (clean_nip n1). split; [apply lookup_insert_eq|].
    split; [apply clean_nip_has_no_separator|].
    right. exists n1. split; [right; left; reflexivity | apply clean_nip_filter].
Qed.

End TaxNumbers.
(** ** The properties above on the samples *)

Lemma amounts_have_two_decimals_witness :
  exists v,
    Rules.cascade (U := latin_tables) Samples.polish_invoice !! "price_net"%string
    = Some v
    /\ two_decimals v.
Proof.
  apply (amounts_have_two_decimals (U := latin_tables) Samples.polish_invoice
           "price_net"%string).
  left. reflexivity.
Defined.

Lemma amount_from_last_matching_pattern_witness :
  Rules.cascade (U := latin_tables) Examples.two_totals !! "price_gross"%string
  = Some (T "1250.00").
Proof.
  refine (eq_trans
            (amount_from_last_matching_pattern (U := latin_tables)
               Examples.two_totals (firstn 6 Rules.amount_patterns)
               (skipn 7 Rules.amount_patterns)
               (Seq [Str "Razem"; Star Rules.colon_sp;
                           Rules.plain_amount])
               "price_gross"%string (T "1250 ") _ _ _) _);
    lazymatch goal with
    | |- Forall _ _ => repeat constructor; intros _; vm_compute; reflexivity
    | |- _ => vm_compute; reflexivity
    end.
Defined.

Lemma amount_without_match_stays_zero_witness :
  Rules.cascade (U := latin_tables) Samples.date_line !! "price_net"%string
  = Some (T "0.00")
  /\ (Rules.parse_invoice_with_rules (U := latin_tables) Samples.date_line).2 = false.
Proof.
  apply (amount_without_match_stays_zero (U := latin_tables) Samples.date_line
           "price_net"%string).
  - left. reflexivity.
  - repeat constructor; intros H;
      first [ discriminate H | vm_compute; reflexivity ].
Defined.

Lemma unknown_month_reads_as_january_witness :
  Rules.cascade (U := latin_tables) Examples.abbreviated_month !! "issue_date"%string
  = Some (T "2024-01-05").
Proof.
  refine (eq_trans
            (unknown_month_reads_as_january (U := latin_tables)
               Examples.abbreviated_month Rules.named_date_1
               {| m_start := 0; m_text := T "Date: 5 Sept 2024"; m_rest := [];
                  m_caps := [(3%nat, T "2024"); (2%nat, T "Sept"); (1%nat, T "5")] |}
               _ _ _) _).
  - vm_compute. reflexivity.
  - reflexivity.
  - intros v H. vm_compute in H.
    repeat (destruct H as [H | H]; [discriminate H|]). exact H.
  - vm_compute. reflexivity.
Defined.

Lemma conversion_writes_only_validated_xml_witness :
  exists xml,
    (Converter.convert_pdf_to_ksef_xml (U := latin_tables) (L := Samples.sample_lib)
       Samples.without_ai "good.pdf" (Some "out.xml"%string) false
       Samples.accepting_world).1 = inr xml
    /\ w_files (Converter.convert_pdf_to_ksef_xml (U := latin_tables)
                  (L := Samples.sample_lib) Samples.without_ai "good.pdf"
                  (Some "out.xml"%string) false Samples.accepting_world).2
       = <["out.xml"%string := xml]> (w_files Samples.accepting_world).
Proof.
  eexists. split.
  - vm_compute. reflexivity.
  - refine (proj2 (proj2 (proj2 (proj2 (proj2
              (conversion_writes_only_validated_xml (U := latin_tables)
                 (L := Samples.sample_lib) Samples.without_ai "good.pdf"
                 (Some "out.xml"%string) false Samples.accepting_world))))
              _ _)).
    vm_compute. reflexivity.
Defined.

(** Single backquotes inside the fence are kept; with the closing fence
    missing, the rest of the answer is kept. *)
Lemma fenced_answer_is_unwrapped_witness :
  Converter.unfence (U := latin_tables) (T "```json { `a` } ```and more")
  = T "{ `a` }"
  /\ Converter.unfence (U := latin_tables) (T "```json { `a` } ") = T "{ `a` }".
Proof.
  split.
  - exact (proj1 (fenced_answer_is_unwrapped (U := latin_tables)
                    (T "json { `a` } ") (T "and more")) eq_refl).
  - exact (proj2 (fenced_answer_is_unwrapped (U := latin_tables)
                    (T "json { `a` } ") (T "and more")) eq_refl).
Defined.

Lemma encoder_reads_sixteen_keys_witness :
  Encoder.convert_with_variant (L := Samples.sample_lib) (T "2")
    Examples.with_seller_city Samples.accepting_world
  = Encoder.convert_with_variant (L := Samples.sample_lib) (T "2")
      Samples.ai_record Samples.accepting_world.
Proof.
  apply (encoder_reads_sixteen_keys (L := Samples.sample_lib)).
  intros k Hk. unfold Examples.with_seller_city. apply lookup_insert_ne.
  intros <-. simpl in Hk. intuition discriminate.
Defined.

Lemma tax_numbers_have_no_separators_witness :
  exists v,
    Rules.cascade (U := latin_tables) Samples.polish_invoice !! "seller_tax_no"%string
    = Some v
    /\ Forall (fun x => x <> Rules.cc "-" /\ uni_isspace (UnicodeTables := latin_tables) x = false) v
    /\ (v = []
        \/ exists n,
             In n (findall1 (U := latin_tables) true Rules.nip_pattern Samples.polish_invoice)
             /\ v = List.filter
                      (fun x => negb (N.eqb (Rules.cc "-") x || uni_isspace (UnicodeTables := latin_tables) x)) n).
Proof.
  apply (tax_numbers_have_no_separators (U := latin_tables) Samples.polish_invoice
           "seller_tax_no"%string).
  left. reflexivity.
Defined.

Section AmountsInWords.
Import PyFloat Generator Amounts Pdf.
Local Open Scope Q_scope.

(** ** The amount in words of a number of hundredths *)

Lemma Qred_inject_Z (z : Z) : Qred (inject_Z z) = inject_Z z.
Proof.
  unfold Qred, inject_Z.
  generalize (Z.ggcd_gcd z 1) (Z.ggcd_correct_divisors z 1).
  destruct (Z.ggcd z 1) as [g [r1 r2]]. cbn [fst snd Qnum Qden].
  intros Hg [H1 H2]. rewrite Z.gcd_1_r in Hg. subst g.
  assert (E1 : r1 = z) by lia. assert (E2 : r2 = 1%Z) by lia.
  rewrite E1, E2. reflexivity.
Qed.

(** A whole amount is a float. *)
Lemma of_cents_whole (z : Z) :
  (0 < z < 2 ^ 53)%Z ->
  nonneg (of_cents (100 * z)) /\ to_Q (of_cents (100 * z)) == inject_Z z.
Proof.
  intros Hz. unfold of_cents.
  assert (Hq : inject_Z (100 * z) * 10 ^ (-2) == inject_Z z * 10 ^ 0).
  { rewrite inject_Z_mult. change (inject_Z 100) with 100.
    change (10 ^ (-2)) with (1 # 100). change (10 ^ 0) with 1.
    lra. }
  rewrite (of_decimal_eq false (100 * z) (-2) z 0 ltac:(lia) ltac:(lia) Hq).
  unfold of_decimal. destruct z as [|p|p]; try lia.
  assert (E : Qred (inject_Z (Z.pos p) * 10 ^ 0) = inject_Z (Z.pos p)).
  { transitivity (Qred (inject_Z (Z.pos p))); [|apply Qred_inject_Z].
    apply Qred_complete. change (10 ^ 0) with 1. ring. }
  rewrite E. destruct (round_float_int false (Z.pos p) Hz) as (H1 & H2 & H3).
  split; [split; assumption | exact H3].
Qed.

Lemma fsub_below (x y : float) (M : Q) :
  nonneg x -> nonneg y -> to_Q y <= to_Q x -> to_Q x - to_Q y <= M -> M < 2 ^ 1000 ->
  nonneg (fsub x y)
  /\ Qabs (to_Q (fsub x y) - (to_Q x - to_Q y)) <= M * eps + eta.
Proof.
  intros Hx Hy Hle Hb HM.
  pose proof (to_Q_nonneg _ Hy) as Hy0.
  destruct (fsub_spec x y M) as [Hf He];
    [apply Hx | apply Hy | apply Qabs_le_intro; lra | exact HM |].
  split; [|exact He].
  split; [exact Hf|].
  destruct Hx as [Hxf Hxs], Hy as [Hyf Hys].
  destruct x as [sx|sx| |sx mx ex]; try discriminate Hxf;
    destruct y as [sy|sy| |sy my ey]; try discriminate Hyf;
    simpl in Hxs, Hys; subst.
  - reflexivity.
  - exfalso. rewrite to_Q_finite in Hle. change (to_Q (S754_zero false)) with 0 in Hle.
    pose proof (finite_pos my ey). lra.
  - reflexivity.
  - unfold fsub, fadd, fopp, SFopp.
    destruct (round_signed_spec
                (to_Q (S754_finite false mx ex) + to_Q (S754_finite true my ey)) M)
      as (_ & H2 & _).
    + rewrite !to_Q_finite in *. apply Qabs_le_intro; lra.
    + exact HM.
    + apply H2. rewrite !to_Q_finite in *. lra.
Qed.

Lemma floor_between (q : Q) (z : Z) :
  inject_Z z <= q -> q < inject_Z z + 1 -> Qfloor q = z.
Proof.
  intros H1 H2.
  pose proof (Qfloor_le q) as Hlo. pose proof (Qlt_floor q) as Hhi.
  rewrite inject_Z_plus in Hhi. change (inject_Z 1) with 1 in Hhi.
  set (f := Qfloor q) in *.
  assert (f < z + 1)%Z.
  { rewrite Zlt_Qlt, inject_Z_plus. change (inject_Z 1) with 1. lra. }
  assert (z < f + 1)%Z.
  { rewrite Zlt_Qlt, inject_Z_plus. change (inject_Z 1) with 1. lra. }
  lia.
Qed.

Lemma int_of_float_nonneg (x : float) (z : Z) :
  nonneg x -> inject_Z z <= to_Q x -> to_Q x < inject_Z z + 1 ->
  int_of_float x = inr z.
Proof.
  intros [Hf Hs] H1 H2.
  pose proof (to_Q_nonneg x (conj Hf Hs)) as H0.
  assert (E : Qle_bool 0 (to_Q x) = true) by (apply Qle_bool_iff; exact H0).
  unfold int_of_float.
  destruct x as [s|s| |s m e]; try discriminate Hf;
    rewrite E, (floor_between _ z H1 H2); reflexivity.
Qed.

Lemma round_to_int_near (x : float) (c : Z) :
  is_finite x = true -> Qabs (to_Q x - inject_Z c) < 1 # 2 ->
  round_to_int x = inr c.
Proof.
  intros Hf Hc. unfold round_to_int.
  destruct x as [s|s| |s m e]; try discriminate Hf;
    rewrite (round_half_even_unique _ c Hc); reflexivity.
Qed.

(** The two integers [_number_to_words_pl] computes from the float of [n]
    hundredths. *)
Lemma split_of_cents (n : Z) :
  (0 <= n <= 4000000000000)%Z ->
  exists whole hundred : float,
    int_of_float (of_cents n) = inr (n / 100)%Z
    /\ of_int (n / 100) = inr whole
    /\ of_int 100 = inr hundred
    /\ round_to_int (fmul (fsub (of_cents n) whole) hundred) = inr (n mod 100)%Z.
Proof.
  intros Hn.
  pose proof (Z.div_mod n 100 ltac:(lia)) as Hdm.
  pose proof (Z.mod_pos_bound n 100 ltac:(lia)) as Hc.
  set (z := (n / 100)%Z) in *. set (c := (n mod 100)%Z) in *.
  assert (Hz : (0 <= z <= 40000000000)%Z) by lia.
  destruct (of_int_exact z ltac:(lia)) as (whole & Hw & Hwn & Hwv).
  destruct (of_int_small 100 ltac:(lia)) as (hundred & Hh & Hhn & Hhv).
  change (inject_Z 100) with 100 in Hhv.
  exists whole, hundred.
  (* the float of [n] hundredths lies in [z, z + 1) and near [z + c/100] *)
  assert (Hx : nonneg (of_cents n)
               /\ inject_Z z <= to_Q (of_cents n)
               /\ Qabs (to_Q (of_cents n) - (inject_Z z + inject_Z c / 100))
                  <= 1 # 200000).
  { destruct (Z.eq_dec c 0%Z) as [Hc0|Hc0].
    - destruct (Z.eq_dec z 0%Z) as [Hz0|Hz0].
      + replace n with 0%Z by lia. rewrite Hz0, Hc0.
        split; [split; reflexivity|]. split; [vm_compute; discriminate|].
        vm_compute. discriminate.
      + replace n with (100 * z)%Z by lia.
        destruct (of_cents_whole z ltac:(lia)) as [Hnn Hv].
        split; [exact Hnn|]. rewrite Hv, Hc0. split; [lra|].
        apply Qabs_le_intro; change (inject_Z 0) with 0; qlra.
    - pose proof (inject_Z_bounds n 0 4000000000000 ltac:(lia)) as Hb.
      change (inject_Z 0) with 0 in Hb.
      change (inject_Z 4000000000000) with 4000000000000 in Hb.
      destruct (of_cents_spec n 40000000000) as [Hnn He]; [lia | qlra | |].
      { apply big_lt. num_le. }
      pose proof err_total as Herr.
      assert (Hsplit : inject_Z n == 100 * inject_Z z + inject_Z c).
      { replace n with (100 * z + c)%Z at 1 by lia.
        rewrite inject_Z_plus, inject_Z_mult. reflexivity. }
      pose proof (inject_Z_bounds c 1 99 ltac:(lia)) as Hcb.
      change (inject_Z 1) with 1 in Hcb. change (inject_Z 99) with 99 in Hcb.
      apply Qabs_le_elim in He.
      split; [exact Hnn|]. split; [qlra|]. apply Qabs_le_intro; qlra. }
  destruct Hx as (Hnn & Hlo & Hnear).
  pose proof (inject_Z_bounds c 0 99 ltac:(lia)) as Hcb.
  change (inject_Z 0) with 0 in Hcb. change (inject_Z 99) with 99 in Hcb.
  apply Qabs_le_elim in Hnear.
  split.
  { apply int_of_float_nonneg; [exact Hnn | exact Hlo | qlra]. }
  split; [exact Hw|]. split; [exact Hh|].
  destruct (fsub_below (of_cents n) whole 1) as [Hdn Hde];
    [exact Hnn | exact Hwn | rewrite Hwv; exact Hlo | rewrite Hwv; qlra
    | apply big_lt; num_le |].
  pose proof err_one as Herr1. apply Qabs_le_elim in Hde. rewrite Hwv in Hde.
  pose proof (to_Q_nonneg _ Hdn) as Hd0.
  destruct (fmul_spec (fsub (of_cents n) whole) hundred 300000) as [Hpn Hpe];
    [exact Hdn | exact Hhn | rewrite Hhv; qlra | apply big_lt; num_le |].
  pose proof err_unit as Herr2. apply Qabs_le_elim in Hpe. rewrite Hhv in Hpe.
  apply round_to_int_near; [apply Hpn|].
  apply Qabs_Qlt_condition. split; qlra.
Qed.

Lemma number_to_words_split (x whole hundred : float) (z c : Z) (w : world) :
  int_of_float x = inr z -> of_int z = inr whole -> of_int 100 = inr hundred ->
  round_to_int (fmul (fsub x whole) hundred) = inr c ->
  number_to_words_pl x w = amount_in_words z c w.
Proof.
  intros H1 H2 H3 H4. unfold number_to_words_pl. rewrite H1.
  unfold bind at 1. cbn [lift ret]. rewrite H2.
  unfold bind at 1. cbn [lift ret]. rewrite H3.
  unfold bind at 1. cbn [lift ret]. rewrite H4.
  unfold bind at 1. cbn [lift ret]. reflexivity.
Qed.

(** X16. For an amount of [n] hundredths, up to forty thousand million
    currency units, the float arithmetic of [_number_to_words_pl] is exact:
    the words are those of the whole part [n // 100] and of [n % 100]
    hundredths. *)
Theorem words_of_hundredths (n : Z) (w : world) :
  (0 <= n <= 4000000000000)%Z ->
  number_to_words_pl (of_cents n) w = amount_in_words (n / 100) (n mod 100) w.
Proof.
  intros Hn. destruct (split_of_cents n Hn) as (whole & hundred & H1 & H2 & H3 & H4).
  exact (number_to_words_split _ whole hundred _ _ w H1 H2 H3 H4).
Qed.

(** X17. The amount in words on the PDF of a generated invoice: within the
    bounds and for 1 to 100 lines, [float(data['price_gross'])] put into
    words gives the words of the exact sum of the gross totals of the lines,
    split into its whole part and its hundredths. *)
Theorem generated_gross_in_words
    (cfg : config) (alg : sum_algorithm) (draws : list line_draw)
    (parties : party_draw) (number : Z) (date : option datetime)
    (w w' : world) (inv : gmap string pyval) :
  (0 <= tax_rate cfg <= 100)%Z ->
  Forall bounded_product (c_products cfg) ->
  (1 <= length draws <= 100)%nat ->
  Forall bounded_draw draws ->
  generate_invoice cfg alg draws parties number date w = (inr inv, w') ->
  exists (positions : list (gmap string atom)) (cents : list (Z * Z))
         (price_gross : text),
    inv !! "positions"%string = Some (VPositions positions)
    /\ Forall2 line_totals positions cents
    /\ inv !! "price_gross"%string = Some (VStr price_gross)
    /\ forall w0 : world,
         gross_in_words price_gross w0
         = amount_in_words ((zsum cents.*1 + zsum cents.*2) / 100)
             ((zsum cents.*1 + zsum cents.*2) mod 100) w0.
Proof.
  intros Hrate Hprod Hlen Hdraws Hret.
  destruct (invoice_totals cfg alg draws parties number date w w' inv
              Hrate Hprod Hlen Hdraws Hret)
    as (positions & cents & Hp & Hc & Hs1 & Hs2 & _ & _ & Hgross).
  exists positions, cents, (float_str (of_cents (zsum cents.*1 + zsum cents.*2))).
  split; [exact Hp|]. split; [exact Hc|]. split; [exact Hgross|].
  intros w0. unfold gross_in_words.
  rewrite float_of_str_float_str_cents by lia.
  unfold bind at 1. cbn [lift ret].
  assert (Hb : (0 <= zsum cents.*1 + zsum cents.*2 <= 4000000000000)%Z) by lia.
  destruct (split_of_cents _ Hb) as (whole & hundred & H1 & H2 & H3 & H4).
  exact (number_to_words_split _ whole hundred _ _ w0 H1 H2 H3 H4).
Qed.

End AmountsInWords.

Section WordsReadBack.
Import PyFloat Generator Amounts Pdf Reading.
Local Open Scope Z_scope.

(** ** The words determine the amount *)

Lemma split_char_app (c : N) (a b : text) :
  split_char c (a ++ c :: b) = split_char c a ++ split_char c b.
Proof.
  induction a as [|x a IH].
  - cbn [app split_char]. rewrite N.eqb_refl. reflexivity.
  - cbn [app split_char]. destruct (N.eqb x c); [rewrite IH; reflexivity|].
    rewrite IH. destruct (split_char c a) as [|p ps] eqn:Hs;
      [exfalso; eapply split_char_nonempty; exact Hs | reflexivity].
Qed.

Lemma read_words_app (a b : text) (st : Z * option Z) :
  read_words (a ++ 32%N :: b) st = read_words b (read_words a st).
Proof. unfold read_words. rewrite split_char_app, fold_left_app. reflexivity. Qed.

Lemma numbers_read (ws : list text) :
  forall (vs : list Z) (st : Z * option Z),
    numbers_of (classify <$> ws) = Some vs ->
    fold_left read_step ws st = (st.1 + fold_right Z.add 0 vs, st.2).
Proof.
  induction ws as [|t ws IH]; intros vs st H.
  - injection H as <-. destruct st. cbn. f_equal. lia.
  - cbn [fmap list_fmap numbers_of] in H.
    destruct (classify t) as [v| | | |] eqn:Ht; try discriminate H.
    destruct (numbers_of _) as [vs'|] eqn:Hvs; cbn in H; [|discriminate H].
    injection H as <-. cbn [fold_left]. rewrite (IH vs' _ eq_refl).
    unfold read_step. rewrite Ht. cbn [fst snd fold_right]. f_equal. lia.
Qed.

(** The words of a group do not depend on the world. *)
Lemma item_world (l : list text) (i : Z) :
  exists r, forall w : world, item l i w = (r, w).
Proof.
  unfold item. destruct (_ && _); [destruct (l !! _)|]; eexists; reflexivity.
Qed.

Lemma ret_world {A : Type} (x : A) :
  exists r, forall w : world, ret x w = (r, w).
Proof. eexists. reflexivity. Qed.

Lemma bind_world {A B : Type} (m : M A) (f : A -> M B) :
  (exists r, forall w : world, m w = (r, w)) ->
  (forall x, exists r, forall w : world, f x w = (r, w)) ->
  exists r, forall w : world, bind m f w = (r, w).
Proof.
  intros [[e|x] Hr] Hf.
  - exists (inl e). intros w. unfold bind. rewrite Hr. reflexivity.
  - destruct (Hf x) as [r' Hr']. exists r'. intros w. unfold bind.
    rewrite Hr. apply Hr'.
Qed.

Lemma convert_group_world (n : Z) :
  exists r, forall w : world, convert_group n w = (r, w).
Proof.
  unfold convert_group. destruct (n =? 0); [apply ret_world|].
  repeat first
    [ apply ret_world
    | apply item_world
    | apply bind_world
    | intros ?
    | match goal with
      | |- context [if ?c then _ else _] => destruct c
      end ].
Qed.

Lemma group_words (n : Z) (w : world) :
  1 <= n <= 999 ->
  exists s, convert_group n w = (inr s, w)
            /\ forall st, read_words s st = (st.1 + n, st.2).
Proof.
  intros Hn.
  assert (Hall : forallb (group_reads Samples.later_world) (Z.of_nat <$> seq 1 999)
                 = true) by (vm_compute; reflexivity).
  assert (Hin : In n (Z.of_nat <$> seq 1 999)).
  { replace n with (Z.of_nat (Z.to_nat n)) by lia.
    apply in_map, in_seq. lia. }
  pose proof (proj1 (forallb_forall _ _) Hall n Hin) as Hg.
  unfold group_reads in Hg.
  destruct (convert_group_world n) as [r Hr]. rewrite Hr in Hg. rewrite Hr.
  destruct r as [e|s]; [discriminate|].
  destruct (numbers_of _) as [vs|] eqn:Hvs; [|discriminate].
  apply Z.eqb_eq in Hg. exists s. split; [reflexivity|].
  intros st. unfold read_words. rewrite (numbers_read _ vs st Hvs), Hg. reflexivity.
Qed.

Lemma zloty_form_reads (z : Z) (st : Z * option Z) :
  read_words (zloty_form z) st = (0, Some st.1).
Proof.
  unfold zloty_form. destruct (z =? 1); [|destruct (takes_plural z)]; reflexivity.
Qed.

Lemma grosze_form_reads (g : Z) (st : Z * option Z) :
  read_words (grosze_form g) st = st.
Proof.
  unfold grosze_form. destruct (g =? 1); [|destruct (takes_plural g)]; reflexivity.
Qed.

Lemma digits_differ (d : N) (t x : text) :
  is_digit d -> starts_without_digit x = true -> text_eqb (d :: t) x = false.
Proof.
  intros Hd Hx. unfold text_eqb. apply bool_decide_eq_false. intros E. subst x.
  cbn in Hx. apply negb_true_iff, andb_false_iff in Hx. unfold is_digit in Hd.
  destruct Hx as [H | H]; apply N.leb_gt in H; lia.
Qed.

Lemma index_from_digits (d : N) (t : text) (l : list text) (k : Z) :
  is_digit d -> forallb starts_without_digit l = true ->
  index_from k (d :: t) l = None.
Proof.
  intros Hd. revert k. induction l as [|x l IH]; intros k Hl; [reflexivity|].
  cbn [forallb] in Hl. apply andb_true_iff in Hl. destruct Hl as [Hx Hl].
  cbn [index_from]. rewrite (digits_differ d t x Hd Hx). apply IH, Hl.
Qed.

Lemma is_one_of_digits (d : N) (t : text) (l : list string) :
  is_digit d -> forallb starts_without_digit (T <$> l) = true ->
  is_one_of (d :: t) l = false.
Proof.
  intros Hd. unfold is_one_of. induction l as [|x l IH]; intros Hl; [reflexivity|].
  cbn [fmap list_fmap forallb] in Hl. apply andb_true_iff in Hl.
  destruct Hl as [Hx Hl]. cbn [existsb].
  rewrite (digits_differ d t (T x) Hd Hx). apply IH, Hl.
Qed.

Lemma classify_digits (t : text) :
  Forall is_digit t -> t <> [] -> classify t = Number (digits_num t 0).
Proof.
  intros Ht Hne. destruct t as [|d t]; [congruence|].
  pose proof (Forall_inv Ht) as Hd.
  unfold classify.
  rewrite !(is_one_of_digits d t) by (exact Hd || reflexivity).
  rewrite (digits_differ d t (T "zero") Hd eq_refl).
  rewrite !(index_from_digits d t) by (exact Hd || reflexivity).
  rewrite (digits_opt_num (d :: t) Ht Hne). reflexivity.
Qed.

Lemma digits_read (z : Z) :
  0 < z -> read_words (Z_to_text z) (0, None) = (z, None).
Proof.
  intros Hz. destruct (Z_to_text_spec z Hz) as (Hd & Hnum & Hlen & _).
  unfold read_words.
  rewrite (split_char_notin 32 (Z_to_text z))
    by (apply digits_avoid; [unfold is_digit; lia | exact Hd]).
  cbn [fold_left]. unfold read_step. rewrite classify_digits.
  - rewrite Hnum. reflexivity.
  - exact Hd.
  - intros E. rewrite E in Hlen. simpl in Hlen. lia.
Qed.

Lemma zloty_words_read (z : Z) (w : world) :
  0 <= z ->
  exists s, zloty_words z w = (inr s, w) /\ read_words s (0, None) = (z, None).
Proof.
  intros Hz. unfold zloty_words.
  destruct (z =? 0) eqn:H0.
  { apply Z.eqb_eq in H0. subst z. exists (T "zero"). split; reflexivity. }
  apply Z.eqb_neq in H0.
  destruct (z <? 1000) eqn:H1.
  { apply Z.ltb_lt in H1.
    destruct (group_words z w ltac:(lia)) as (s & Hs & Hr).
    exists s. split; [exact Hs|]. rewrite Hr. reflexivity. }
  apply Z.ltb_ge in H1.
  destruct (z <? 1000000) eqn:H2.
  2:{ exists (Z_to_text z). split; [reflexivity|]. apply digits_read. lia. }
  apply Z.ltb_lt in H2.
  pose proof (Z.div_mod z 1000 ltac:(lia)) as Hdm.
  pose proof (Z.mod_pos_bound z 1000 ltac:(lia)) as Hb.
  set (a := z / 1000) in *. set (b := z mod 1000) in *.
  assert (Ha : 1 <= a <= 999) by lia.
  destruct (group_words a w Ha) as (sa & Hsa & Hra).
  unfold bind at 1. rewrite Hsa.
  set (tw := if a =? 1 then T "tysiąc"
             else if takes_plural a then sa ++ T " tysiące"
             else sa ++ T " tysięcy").
  assert (Htw : read_words tw (0, None) = (a * 1000, None)).
  { unfold tw. destruct (a =? 1) eqn:Ha1.
    - apply Z.eqb_eq in Ha1. rewrite Ha1. reflexivity.
    - apply Z.eqb_neq in Ha1.
      assert (Hthousand : forall word : text,
                 classify word = Thousand -> has_char 32 word = false ->
                 read_words (sa ++ 32%N :: word) (0, None) = (a * 1000, None)).
      { intros word Hc Hsp. rewrite read_words_app, Hra. cbn [fst snd].
        unfold read_words. rewrite (split_char_whole 32 word Hsp).
        cbn [fold_left]. unfold read_step. rewrite Hc. cbn [fst snd].
        replace (0 + a =? 0) with false by (symmetry; apply Z.eqb_neq; lia).
        reflexivity. }
      destruct (takes_plural a).
      + change (T " tysiące") with (32%N :: T "tysiące").
        apply Hthousand; reflexivity.
      + change (T " tysięcy") with (32%N :: T "tysięcy").
        apply Hthousand; reflexivity. }
  destruct (0 <? b) eqn:Hb0.
  - apply Z.ltb_lt in Hb0.
    destruct (group_words b w ltac:(lia)) as (sb & Hsb & Hrb).
    unfold bind. rewrite Hsb. eexists. split; [reflexivity|].
    cbn [join]. change (T " ") with [32%N]. cbn [app].
    rewrite read_words_app, Htw, Hrb. cbn [fst snd]. f_equal. lia.
  - apply Z.ltb_ge in Hb0. unfold bind, ret. eexists. split; [reflexivity|].
    cbn [join]. rewrite Htw. f_equal. lia.
Qed.

(** The words of an amount are returned in any world and read back as the
    amount. *)
Lemma amount_read (z g : Z) (w : world) :
  0 <= z -> 0 <= g <= 999 ->
  exists s, amount_in_words z g w = (inr s, w) /\ read_amount s = (z, g).
Proof.
  intros Hz Hg. unfold amount_in_words.
  destruct ((z =? 0) && (g =? 0)) eqn:H00.
  { apply andb_true_iff in H00. destruct H00 as [Hz0 Hg0].
    apply Z.eqb_eq in Hz0, Hg0. subst. eexists. split; reflexivity. }
  destruct (zloty_words_read z w Hz) as (zw & Hzw & Hrz).
  unfold bind at 1. rewrite Hzw.
  change (T " ") with [32%N]. cbn [app].
  assert (Hres : read_words (zw ++ 32%N :: zloty_form z) (0, None) = (0, Some z)).
  { rewrite read_words_app, Hrz, zloty_form_reads. reflexivity. }
  destruct (0 <? g) eqn:Hg0.
  - apply Z.ltb_lt in Hg0.
    destruct (group_words g w ltac:(lia)) as (gw & Hgw & Hrg).
    unfold bind. rewrite Hgw. eexists. split; [reflexivity|].
    unfold read_amount.
    replace ((zw ++ 32%N :: zloty_form z) ++ 32%N :: gw ++ 32%N :: grosze_form g)
      with (((zw ++ 32%N :: zloty_form z) ++ 32%N :: gw) ++ 32%N :: grosze_form g)
      by (rewrite <- !app_assoc; reflexivity).
    rewrite read_words_app, grosze_form_reads, read_words_app, Hres, Hrg.
    reflexivity.
  - apply Z.ltb_ge in Hg0. assert (g = 0) by lia. subst g.
    eexists. split; [reflexivity|]. unfold read_amount. rewrite Hres. reflexivity.
Qed.

(** X18. The words determine the amount: [_number_to_words_pl] builds its
    text for every whole part that is not negative and every number of
    hundredths up to 999 without raising, and two such amounts with the same
    text are the same amount. *)
Theorem words_determine_the_amount (z g z' g' : Z) (w : world) :
  0 <= z -> 0 <= g <= 999 -> 0 <= z' -> 0 <= g' <= 999 ->
  (exists s, amount_in_words z g w = (inr s, w))
  /\ (amount_in_words z g w = amount_in_words z' g' w -> z = z' /\ g = g').
Proof.
  intros Hz Hg Hz' Hg'.
  destruct (amount_read z g w Hz Hg) as (s & Hs & Hr).
  destruct (amount_read z' g' w Hz' Hg') as (s' & Hs' & Hr').
  split; [exists s; exact Hs|].
  rewrite Hs, Hs'. intros E. apply returned_inj in E. destruct E as [E _].
  subst s'. rewrite Hr in Hr'. injection Hr' as -> ->. split; reflexivity.
Qed.

End WordsReadBack.

(** ** The amount in words on the samples *)

Lemma words_of_hundredths_witness :
  (Pdf.number_to_words_pl (PyFloat.of_cents 123456) Samples.later_world).1
  = inr (T "tysiąc dwieście trzydzieści cztery złote pięćdziesiąt sześć groszy").
Proof.
  refine (eq_trans
            (f_equal fst (words_of_hundredths 123456 Samples.later_world _)) _).
  - lia.
  - vm_compute. reflexivity.
Defined.

(** The invoice of three lines: the gross total 1830.64 is the sum of
    1402.2, 274.68 and 153.76, and its sixty-four hundredths are put into
    words. *)
Lemma generated_gross_in_words_witness :
  exists (positions : list (gmap string atom)) (cents : list (Z * Z)),
    Examples.three_line_invoice !! "positions"%string = Some (VPositions positions)
    /\ length positions = 3%nat
    /\ Forall2 Amounts.line_totals positions cents
    /\ Examples.three_line_invoice !! "price_gross"%string = Some (VStr (T "1830.64"))
    /\ Pdf.gross_in_words (T "1830.64") Samples.later_world
       = Pdf.amount_in_words
           ((Amounts.zsum cents.*1 + Amounts.zsum cents.*2) / 100)
           ((Amounts.zsum cents.*1 + Amounts.zsum cents.*2) mod 100)
           Samples.later_world
    /\ (Pdf.gross_in_words (T "1830.64") Samples.later_world).1
       = inr (T "tysiąc osiemset trzydzieści złotych sześćdziesiąt cztery grosze").
Proof.
  destruct catalogue_is_bounded as (Hrate & Hprod & Hd).
  assert (Hlen : (1 <= length Samples.three_draws <= 100)%nat) by (simpl; lia).
  pose proof (generated_gross_in_words Samples.catalogue PyFloat.Compensated
                Samples.three_draws Samples.parties 7 None
                Samples.accepting_world Samples.accepting_world
                Examples.three_line_invoice Hrate Hprod Hlen Hd
                (three_line_invoice_generated PyFloat.Compensated))
    as (positions & cents & s & H1 & H2 & H3 & H4).
  assert (Hthree : length (match Examples.three_line_invoice !! "positions"%string with
                           | Some (VPositions ps) => ps
                           | _ => []
                           end) = 3%nat) by (vm_compute; reflexivity).
  rewrite H1 in Hthree.
  assert (Hs : match Examples.three_line_invoice !! "price_gross"%string with
               | Some (VStr x) => x
               | _ => []
               end = T "1830.64") by (vm_compute; reflexivity).
  rewrite H3 in Hs.
  exists positions, cents.
  split; [exact H1|]. split; [exact Hthree|]. split; [exact H2|].
  split; [rewrite <- Hs; exact H3|].
  split; [rewrite <- Hs; apply H4|].
  vm_compute. reflexivity.
Defined.

Lemma words_determine_the_amount_witness :
  (exists s, Pdf.amount_in_words 1234 56 Samples.later_world
             = (inr s, Samples.later_world))
  /\ (Pdf.amount_in_words 1234 56 Samples.later_world
      = Pdf.amount_in_words 2000 1 Samples.later_world ->
      1234 = 2000 /\ 56 = 1)%Z.
Proof.
  apply (words_determine_the_amount 1234 56 2000 1 Samples.later_world); lia.
Defined.

Section Batches.
Import PyFloat Generator Amounts Batch.
Local Open Scope Z_scope.

(** ** The invoices of a batch *)

Variable cfg : config.
Variable alg : sum_algorithm.
Variable draws : Z -> invoice_draw.

(** The number and the date of a generated invoice. *)
Lemma generate_invoice_number
    (lines : list line_draw) (parties : party_draw) (i : Z) (date : datetime)
    (w w' : world) (inv : gmap string pyval) :
  generate_invoice cfg alg lines parties i (Some date) w = (inr inv, w') ->
  inv !! "number"%string
  = Some (VStr (Z_to_text i ++ T "/" ++ Z_to_text (dt_month date) ++ T "/"
                  ++ Z_to_text (dt_year date)))
  /\ inv !! "issue_date"%string = Some (VStr (strftime_date date)).
Proof.
  unfold generate_invoice.
  unfold bind at 1. unfold get_world at 1. unfold bind at 1.
  destruct (lift (Calendar.plus_days _ _) w) as [[e|due] w1]; [discriminate|].
  unfold bind at 1.
  destruct (generate_positions cfg lines w1) as [[e|positions] w2]; [discriminate|].
  unfold bind at 1.
  destruct (aggregate alg "total_price_net" positions w2) as [[e|net] w3];
    [discriminate|].
  unfold bind at 1.
  destruct (aggregate alg "total_price_tax" positions w3) as [[e|tax] w4];
    [discriminate|].
  unfold bind at 1.
  destruct (aggregate alg "total_price_gross" positions w4) as [[e|gross] w5];
    [discriminate|].
  unfold ret. intros Hret. apply returned_inj in Hret. destruct Hret as [<- _].
  split.
  - rewrite lookup_union_r by (apply buyer_keys_absent; simpl; tauto).
    rewrite lookup_union_r by (apply seller_keys_absent; simpl; tauto).
    reflexivity.
  - rewrite lookup_union_r by (apply buyer_keys_absent; simpl; tauto).
    rewrite lookup_union_r by (apply seller_keys_absent; simpl; tauto).
    reflexivity.
Qed.

Lemma generate_from_spec (start_date : datetime) (n : nat) :
  forall (i : Z) (w w' : world) (invoices : list (gmap string pyval)),
    generate_from cfg alg draws start_date n i w = (inr invoices, w') ->
    length invoices = n
    /\ forall (k : nat) (inv : gmap string pyval),
         invoices !! k = Some inv ->
         exists date,
           Calendar.plus_days start_date (- i_days (draws (i + Z.of_nat k)))
           = inr date
           /\ inv !! "number"%string
              = Some (VStr (Z_to_text (i + Z.of_nat k) ++ T "/"
                              ++ Z_to_text (dt_month date) ++ T "/"
                              ++ Z_to_text (dt_year date)))
           /\ inv !! "issue_date"%string = Some (VStr (strftime_date date)).
Proof.
  induction n as [|n IH]; intros i w w' invoices.
  - cbn [generate_from]. unfold ret. intros H. apply returned_inj in H.
    destruct H as [<- _]. split; [reflexivity|]. intros k inv Hk. discriminate Hk.
  - cbn [generate_from]. unfold bind at 1.
    destruct (lift (Calendar.plus_days _ _) w) as [[e|date] w1] eqn:Hd; [discriminate|].
    apply lift_inr in Hd. destruct Hd as [Hd ->].
    unfold bind at 1.
    destruct (generate_invoice _ _ _ _ _ _ w) as [[e|inv0] w2] eqn:Hi; [discriminate|].
    unfold bind at 1.
    destruct (generate_from _ _ _ _ _ _ w2) as [[e|rest] w3] eqn:Hr; [discriminate|].
    unfold ret. intros H. apply returned_inj in H. destruct H as [<- _].
    destruct (IH _ _ _ _ Hr) as [Hlen Hrest].
    split; [cbn [length]; rewrite Hlen; reflexivity|].
    intros [|k] inv Hk.
    + cbn in Hk. injection Hk as <-. exists date.
      replace (i + Z.of_nat 0) with i by lia.
      split; [exact Hd|]. exact (generate_invoice_number _ _ _ _ _ _ _ Hi).
    + cbn in Hk. destruct (Hrest k inv Hk) as (date' & H1 & H2 & H3).
      replace (i + Z.of_nat (S k)) with (i + 1 + Z.of_nat k) by lia.
      exists date'. split; [exact H1|]. split; [exact H2 | exact H3].
Qed.

(** ** File names *)

Lemma digits_prefix (c : N) (a : text) :
  ~ is_digit c -> Forall is_digit a ->
  forall (b r r' : text),
    Forall is_digit b -> a ++ c :: r = b ++ c :: r' -> a = b.
Proof.
  intros Hc. induction a as [|x a IH]; intros Ha b r r' Hb E.
  - destruct b as [|y b]; [reflexivity|]. cbn in E. injection E as <- _.
    exfalso. apply Hc. exact (Forall_inv Hb).
  - destruct b as [|y b].
    + cbn in E. injection E as -> _. exfalso. apply Hc. exact (Forall_inv Ha).
    + cbn in E. injection E as -> E. f_equal.
      apply (IH (Forall_inv_tail Ha) b r r' (Forall_inv_tail Hb) E).
Qed.

Lemma Z_to_text_inj (i j : Z) :
  0 < i -> 0 < j -> Z_to_text i = Z_to_text j -> i = j.
Proof.
  intros Hi Hj E.
  destruct (Z_to_text_spec i Hi) as (_ & Hni & _).
  destruct (Z_to_text_spec j Hj) as (_ & Hnj & _).
  rewrite <- Hni, <- Hnj, E. reflexivity.
Qed.

Lemma replace_digits (a : text) :
  Forall is_digit a -> replace_char (Rules.cc "/") (Rules.cc "-") a = a.
Proof.
  intros Ha. unfold replace_char. induction Ha as [|x a Hx _ IH]; [reflexivity|].
  cbn [fmap list_fmap]. fold (list_fmap _ _ (fun x => if N.eqb x (Rules.cc "/")
                                                    then Rules.cc "-" else x) a).
  change (list_fmap N N ?f a) with (f <$> a). rewrite IH.
  replace (N.eqb x (Rules.cc "/")) with false; [reflexivity|].
  symmetry. apply N.eqb_neq. unfold is_digit in Hx. change (Rules.cc "/") with 47%N. lia.
Qed.

(** The file name of a number that begins with the digits of [i]. *)
Lemma filename_of_number (i : Z) (rest fmt : text) :
  0 < i ->
  invoice_filename (Z_to_text i ++ T "/" ++ rest) fmt
  = T "faktura-" ++ Z_to_text i
      ++ 45%N :: (replace_char (Rules.cc "/") (Rules.cc "-") rest ++ T "." ++ fmt).
Proof.
  intros Hi. destruct (Z_to_text_spec i Hi) as (Hd & _).
  unfold invoice_filename. f_equal.
  unfold replace_char at 1. rewrite fmap_app. fold (replace_char (Rules.cc "/")
    (Rules.cc "-") (Z_to_text i)). rewrite (replace_digits _ Hd).
  rewrite <- app_assoc. f_equal.
Qed.

(** X19. A batch that [generate_invoices] returns has [count] invoices (none
    for a count below 1).  The invoice at position [k] has the number
    [k+1/month/year] and the issue date of the start date moved back by its
    draw of days, and the file names [save_invoices] derives from the
    numbers of two different invoices of the batch differ, so no file of a
    batch overwrites another. *)
Theorem batch_numbers_and_file_names
    (count : Z) (start_date : option datetime) (w w' : world)
    (invoices : list (gmap string pyval)) :
  generate_invoices cfg alg draws count start_date w = (inr invoices, w') ->
  length invoices = Z.to_nat count
  /\ (forall (k : nat) (inv : gmap string pyval),
         invoices !! k = Some inv ->
         exists date,
           Calendar.plus_days (default (w_now w) start_date)
             (- i_days (draws (Z.of_nat k + 1))) = inr date
           /\ inv !! "number"%string
              = Some (VStr (Z_to_text (Z.of_nat k + 1) ++ T "/"
                              ++ Z_to_text (dt_month date) ++ T "/"
                              ++ Z_to_text (dt_year date)))
           /\ inv !! "issue_date"%string = Some (VStr (strftime_date date)))
  /\ (forall (k k' : nat) (inv inv' : gmap string pyval)
             (number number' output_format : text),
         invoices !! k = Some inv -> invoices !! k' = Some inv' ->
         inv !! "number"%string = Some (VStr number) ->
         inv' !! "number"%string = Some (VStr number') ->
         k <> k' ->
         invoice_filename number output_format
         <> invoice_filename number' output_format).
Proof.
  unfold generate_invoices. unfold bind, get_world. intros Hgen.
  destruct (generate_from_spec _ _ _ _ _ _ Hgen) as [Hlen Hall].
  assert (Hshape : forall (k : nat) (inv : gmap string pyval),
             invoices !! k = Some inv ->
             exists date,
               Calendar.plus_days (default (w_now w) start_date)
                 (- i_days (draws (Z.of_nat k + 1))) = inr date
               /\ inv !! "number"%string
                  = Some (VStr (Z_to_text (Z.of_nat k + 1) ++ T "/"
                                  ++ Z_to_text (dt_month date) ++ T "/"
                                  ++ Z_to_text (dt_year date)))
               /\ inv !! "issue_date"%string = Some (VStr (strftime_date date))).
  { intros k inv Hk. destruct (Hall k inv Hk) as (date & H1 & H2 & H3).
    replace (1 + Z.of_nat k) with (Z.of_nat k + 1) in * by lia.
    exists date. split; [exact H1|]. split; [exact H2 | exact H3]. }
  split; [exact Hlen|]. split; [exact Hshape|].
  intros k k' inv inv' number number' fmt Hk Hk' Hn Hn' Hne E.
  destruct (Hshape k inv Hk) as (date & _ & H2 & _).
  destruct (Hshape k' inv' Hk') as (date' & _ & H2' & _).
  assert (En : number = Z_to_text (Z.of_nat k + 1) ++ T "/"
                          ++ Z_to_text (dt_month date) ++ T "/"
                          ++ Z_to_text (dt_year date)) by congruence.
  assert (En' : number' = Z_to_text (Z.of_nat k' + 1) ++ T "/"
                            ++ Z_to_text (dt_month date') ++ T "/"
                            ++ Z_to_text (dt_year date')) by congruence.
  rewrite En, En' in E.
  rewrite !filename_of_number in E by lia.
  apply app_inv_head in E.
  destruct (Z_to_text_spec (Z.of_nat k + 1) ltac:(lia)) as (Hd & _).
  destruct (Z_to_text_spec (Z.of_nat k' + 1) ltac:(lia)) as (Hd' & _).
  apply (digits_prefix 45 _ ltac:(unfold is_digit; lia) Hd _ _ _ Hd') in E.
  apply Z_to_text_inj in E; lia.
Qed.

End Batches.

Section TextlessDocuments.
Context {U : UnicodeTables} {L : PyLib}.
Variable self : Converter.converter.
Import Rules.

(** ** A PDF without text *)

Lemma joined_pages_textless (pages : pdf) :
  Forall (fun p : option text => p = None \/ p = Some []) pages ->
  Converter.joined_pages pages = [].
Proof.
  intros H. unfold Converter.joined_pages.
  replace (omap _ pages) with (@nil text); [reflexivity|].
  induction H as [|p ps Hp _ IH]; [reflexivity|].
  cbn [omap list_omap]. destruct Hp as [-> | ->]; exact IH.
Qed.

Lemma rules_fail_on_no_text : (parse_invoice_with_rules []).2 = false.
Proof.
  apply (rules_fail_without [] "buyer_tax_no").
  - unfold required_fields. simpl. tauto.
  - left. rewrite tax_no_of_cascade by tauto. reflexivity.
Qed.

(** X20. A PDF whose pages have no text (a scanned document) is read as the
    empty text; the rules fail on it whatever the Unicode tables are; so
    without a completion service the conversion raises [ValueError] and
    changes nothing, and with one the service is asked exactly once, about
    the empty text. *)
Theorem textless_pdf_is_left_to_the_service
    (pdf_path : string) (pages : pdf) (output_path : option string)
    (force_ai : bool) (w : world) :
  w_pdfs w !! pdf_path = Some pages ->
  Forall (fun p : option text => p = None \/ p = Some []) pages ->
  Converter.extract_text_from_pdf pdf_path w = (inr [], w)
  /\ (parse_invoice_with_rules []).2 = false
  /\ (Converter.anthropic_client self = None ->
      Converter.convert_pdf_to_ksef_xml self pdf_path output_path force_ai w
      = (inl (ValueError
                (T "Rule-based parsing failed and Claude AI is not configured. ")),
         w))
  /\ (forall create, Converter.anthropic_client self = Some create ->
      w_api_log (Converter.convert_pdf_to_ksef_xml self pdf_path output_path
                   force_ai w).2
      = w_api_log w ++ [ai_prompt []]).
Proof.
  intros Hp Hpages.
  assert (Htxt : Converter.extract_text_from_pdf pdf_path w = (inr [], w)).
  { unfold Converter.extract_text_from_pdf, bind, get_world. rewrite Hp.
    rewrite (joined_pages_textless pages Hpages). reflexivity. }
  assert (Hrb : Converter.rule_based force_ai [] = None).
  { unfold Converter.rule_based. destruct force_ai; [reflexivity|].
    pose proof rules_fail_on_no_text as Hf.
    destruct (parse_invoice_with_rules []) as [d ok]. cbn in Hf. rewrite Hf.
    reflexivity. }
  split; [exact Htxt|]. split; [exact rules_fail_on_no_text|].
  split.
  - intros Hc. unfold Converter.convert_pdf_to_ksef_xml. unfold bind at 1.
    rewrite Htxt. unfold bind at 1. unfold Converter.extract_record.
    rewrite Hrb, Hc. reflexivity.
  - intros create Hc. unfold Converter.convert_pdf_to_ksef_xml. unfold bind at 1.
    rewrite Htxt. unfold bind at 1. unfold Converter.extract_record.
    rewrite Hrb, Hc.
    destruct (secondary_extractor_log self create [] w Hc) as [Hlog _].
    destruct (Converter.parse_invoice_from_text self [] w) as [[e|j] w1] eqn:Hparse;
      cbn in Hlog; subst w1.
    + reflexivity.
    + rewrite encode_validate_write_log. reflexivity.
Qed.

End TextlessDocuments.

(** ** Batches and textless documents on the samples *)

Lemma scenario_batch_generated :
  Batch.generate_invoices Samples.scenario PyFloat.Plain Examples.batch_draws 2 None
    Samples.accepting_world
  = (inr Examples.scenario_batch, Samples.accepting_world).
Proof.
  vm_cast_no_check
    (eq_refl (@inr exn _ Examples.scenario_batch, Samples.accepting_world)).
Qed.

Lemma batch_numbers_and_file_names_witness :
  length Examples.scenario_batch = 2%nat
  /\ forall (inv inv' : gmap string pyval) (number number' : text),
       Examples.scenario_batch !! 0%nat = Some inv ->
       Examples.scenario_batch !! 1%nat = Some inv' ->
       inv !! "number"%string = Some (VStr number) ->
       inv' !! "number"%string = Some (VStr number') ->
       Batch.invoice_filename number (T "json")
       <> Batch.invoice_filename number' (T "json").
Proof.
  destruct (batch_numbers_and_file_names Samples.scenario PyFloat.Plain
              Examples.batch_draws 2 None Samples.accepting_world
              Samples.accepting_world Examples.scenario_batch
              scenario_batch_generated)
    as (Hlen & _ & Hnames).
  split; [exact Hlen|].
  intros inv inv' number number' H0 H1 Hn Hn'.
  apply (Hnames 0%nat 1%nat inv inv' number number' (T "json") H0 H1 Hn Hn').
  discriminate.
Defined.

Lemma textless_pdf_is_left_to_the_service_witness :
  Converter.convert_pdf_to_ksef_xml (U := latin_tables) (L := Samples.sample_lib)
    Samples.without_ai "scan.pdf" None false Examples.scanned_world
  = (inl (ValueError
            (T "Rule-based parsing failed and Claude AI is not configured. ")),
     Examples.scanned_world).
Proof.
  refine (proj1 (proj2 (proj2
            (textless_pdf_is_left_to_the_service (U := latin_tables)
               (L := Samples.sample_lib) Samples.without_ai "scan.pdf"
               [None; Some []] None false Examples.scanned_world _ _))) _).
  - reflexivity.
  - apply Forall_cons_2; [left; reflexivity|].
    apply Forall_cons_2; [right; reflexivity | apply Forall_nil_2].
  - reflexivity.
Defined.

Section InvoiceNumbers.
Context {U : UnicodeTables}.
Import Rules.

(** ** The invoice number *)

Lemma first_match_in (ps : list regex) (txt : text) (p : regex) (m : rematch) :
  first_match ps txt = Some (p, m) ->
  In p ps /\ re_search true p txt = Some m.
Proof.
  induction ps as [|q ps IH]; [discriminate|].
  cbn [first_match]. destruct (re_search true q txt) as [m'|] eqn:Hq.
  - intros H. assert (q = p /\ m' = m) as [-> ->] by (split; congruence).
    split; [left; reflexivity | exact Hq].
  - intros H. destruct (IH H) as [Hin Hm]. split; [right; exact Hin | exact Hm].
Qed.

Lemma number_of_cascade (txt : text) :
  cascade txt !! "number"%string
  = step_number txt (step_nip txt initial_invoice_data) !! "number"%string.
Proof.
  unfold cascade.
  rewrite step_postal_other, step_streets_other, step_names_other,
    step_amounts_other, step_date_other; try reflexivity; discriminate.
Qed.

Lemma first_match_none (ps : list regex) (txt : text) :
  Forall (fun q => re_search true q txt = None) ps -> first_match ps txt = None.
Proof.
  induction 1 as [|q ps Hq _ IH]; [reflexivity|].
  cbn [first_match]. rewrite Hq. exact IH.
Qed.

Lemma first_match_at (pre post : list regex) (p : regex) (txt : text) (m : rematch) :
  Forall (fun q => re_search true q txt = None) pre ->
  re_search true p txt = Some m ->
  first_match (pre ++ p :: post) txt = Some (p, m).
Proof.
  induction 1 as [|q pre Hq _ IH]; intros Hp; cbn [app first_match].
  - rewrite Hp. reflexivity.
  - rewrite Hq. exact (IH Hp).
Qed.

(** X21. The invoice number is the first group of the first pattern of the
    list that matches anywhere in the text: when a pattern of
    [invoice_num_patterns] matches and none of those before it in the list
    does, the number is group 1 of its leftmost match, whatever the patterns
    after it match; every pattern has exactly one group, so the whole match
    is never stored.  When no pattern matches, the number stays empty and
    the parse is unsuccessful. *)
Theorem number_from_first_matching_pattern (txt : text) :
  (forall (pre post : list regex) (p : regex) (m : rematch),
     invoice_num_patterns = pre ++ p :: post ->
     Forall (fun q => re_search true q txt = None) pre ->
     re_search true p txt = Some m ->
     cascade txt !! "number"%string = Some (group m 1))
  /\ (Forall (fun q => re_search true q txt = None) invoice_num_patterns ->
      cascade txt !! "number"%string = Some []
      /\ (parse_invoice_with_rules txt).2 = false).
Proof.
  split.
  - intros pre post p m Hsplit Hpre Hm.
    rewrite number_of_cascade. unfold step_number.
    rewrite Hsplit, (first_match_at pre post p txt m Hpre Hm).
    assert (Hin : In p invoice_num_patterns)
      by (rewrite Hsplit; apply in_elt).
    assert (Hg : ngroups p = 1%nat).
    { unfold invoice_num_patterns in Hin.
      repeat (destruct Hin as [<- | Hin]; [reflexivity|]). destruct Hin. }
    rewrite Hg. cbn [Nat.eqb]. apply lookup_insert_eq.
  - intros Hnone. apply first_match_none in Hnone.
    assert (Hn : cascade txt !! "number"%string = Some []).
    { rewrite number_of_cascade. unfold step_number. rewrite Hnone.
      rewrite step_nip_other by discriminate. reflexivity. }
    split; [exact Hn|].
    apply (rules_fail_without txt "number").
    + unfold required_fields. simpl. tauto.
    + left. exact Hn.
Qed.

End InvoiceNumbers.

(** Two numbers in a text: the one that the fourth pattern reads stands
    first, but the third pattern comes before it in the list, and the number
    it reads further on is stored. *)
Lemma number_from_first_matching_pattern_witness :
  exists m3 m4 : rematch,
    re_search (U := latin_tables) true (nth 2 Rules.invoice_num_patterns Eps)
      Examples.two_numbers = Some m3
    /\ re_search (U := latin_tables) true (nth 3 Rules.invoice_num_patterns Eps)
         Examples.two_numbers = Some m4
    /\ (m_start m4 < m_start m3)%nat
    /\ group m4 1 = T "1/4/2025"
    /\ group m3 1 = T "12/4/2025"
    /\ Rules.cascade (U := latin_tables) Examples.two_numbers !! "number"%string
       = Some (group m3 1).
Proof.
  assert (H3 : exists m3,
             re_search (U := latin_tables) true (nth 2 Rules.invoice_num_patterns Eps)
               Examples.two_numbers = Some m3
             /\ m_start m3 = 12%nat /\ group m3 1 = T "12/4/2025").
  { eexists. split; [vm_compute; reflexivity|]. split; vm_compute; reflexivity. }
  assert (H4 : exists m4,
             re_search (U := latin_tables) true (nth 3 Rules.invoice_num_patterns Eps)
               Examples.two_numbers = Some m4
             /\ m_start m4 = 0%nat /\ group m4 1 = T "1/4/2025").
  { eexists. split; [vm_compute; reflexivity|]. split; vm_compute; reflexivity. }
  destruct H3 as (m3 & Hm3 & Hs3 & Hg3). destruct H4 as (m4 & Hm4 & Hs4 & Hg4).
  exists m3, m4.
  split; [exact Hm3|]. split; [exact Hm4|]. split; [rewrite Hs3, Hs4; lia|].
  split; [exact Hg4|]. split; [exact Hg3|].
  apply (proj1 (number_from_first_matching_pattern (U := latin_tables)
                  Examples.two_numbers)
           (take 2 Rules.invoice_num_patterns) (drop 3 Rules.invoice_num_patterns)
           (nth 2 Rules.invoice_num_patterns Eps) m3 eq_refl).
  - apply Forall_cons_2; [vm_compute; reflexivity|].
    apply Forall_cons_2; [vm_compute; reflexivity|].
    apply Forall_nil_2.
  - exact Hm3.
Defined.

Section MatcherSoundness.
Context {U : UnicodeTables}.
Variable icase : bool.

(** ** The matcher is sound *)

Lemma take_consumed (a s' : text) :
  take (length (a ++ s') - length s') (a ++ s') = a.
Proof.
  rewrite length_app. replace (length a + length s' - length s')%nat
    with (length a) by lia.
  apply take_app_length.
Qed.

Lemma cap_lookup_app (i : nat) (a b : caps) :
  cap_lookup i (a ++ b)
  = match cap_lookup i a with
    | Some t => Some t
    | None => cap_lookup i b
    end.
Proof.
  induction a as [|[j t] a IH]; [reflexivity|].
  cbn [app cap_lookup]. destruct (Nat.eqb i j); [reflexivity | exact IH].
Qed.

Lemma cap_lookup_in (i : nat) (t : text) (cs : caps) :
  cap_lookup i cs = Some t -> In (i, t) cs.
Proof.
  induction cs as [|[j u] cs IH]; [discriminate|].
  cbn [cap_lookup]. destruct (Nat.eqb i j) eqn:Hj.
  - apply Nat.eqb_eq in Hj. intros [= ->]. left. congruence.
  - intros H. right. apply IH, H.
Qed.

Lemma captures_none (r : regex) (cs : caps) :
  (forall i, sure_group i r = false) -> captures_of icase r cs cs.
Proof.
  intros Hs. exists []. split; [reflexivity|]. split; [intros i t []|].
  intros i Hi. rewrite Hs in Hi. discriminate.
Qed.

(** The captures of two matches in a row. *)
Lemma captures_seq (r r1 r2 : regex) (cs cs1 cs2 : caps) :
  (forall i r', has_group i r' r1 -> has_group i r' r) ->
  (forall i r', has_group i r' r2 -> has_group i r' r) ->
  (forall i, sure_group i r = true ->
             sure_group i r1 = true \/ sure_group i r2 = true) ->
  captures_of icase r1 cs cs1 -> captures_of icase r2 cs1 cs2 ->
  captures_of icase r cs cs2.
Proof.
  intros H1 H2 Hs (n1 & -> & Hl1 & Hs1) (n2 & -> & Hl2 & Hs2).
  exists (n2 ++ n1). split; [apply app_assoc|]. split.
  - intros i t Hin. apply in_app_or in Hin. destruct Hin as [Hin | Hin].
    + destruct (Hl2 i t Hin) as (r' & Hg & Hl). exists r'. split; [apply H2, Hg | exact Hl].
    + destruct (Hl1 i t Hin) as (r' & Hg & Hl). exists r'. split; [apply H1, Hg | exact Hl].
  - intros i Hi. rewrite cap_lookup_app.
    destruct (cap_lookup i n2) as [t|] eqn:Ht; [exists t; reflexivity|].
    destruct (Hs i Hi) as [Hi1 | Hi2].
    + apply Hs1, Hi1.
    + destruct (Hs2 i Hi2) as [t Ht']. congruence.
Qed.

(** The captures of a part stand for the whole when the whole promises no
    more groups. *)
Lemma captures_part (r r1 : regex) (cs cs1 : caps) :
  (forall i r', has_group i r' r1 -> has_group i r' r) ->
  (forall i, sure_group i r = true -> sure_group i r1 = true) ->
  captures_of icase r1 cs cs1 -> captures_of icase r cs cs1.
Proof.
  intros H1 Hs (n1 & -> & Hl1 & Hs1). exists n1. split; [reflexivity|]. split.
  - intros i t Hin. destruct (Hl1 i t Hin) as (r' & Hg & Hl).
    exists r'. split; [apply H1, Hg | exact Hl].
  - intros i Hi. apply Hs1, Hs, Hi.
Qed.

(** Whatever the matcher returns went through its continuation, after a
    prefix in the language of the pattern. *)
Lemma rmatch_sound {A : Type} (r : regex) :
  forall (s : text) (cs : caps) (k : text -> caps -> option A) (x : A),
    rmatch icase r s cs k = Some x ->
    exists (a s' : text) (cs' : caps),
      s = a ++ s' /\ lang icase r a /\ captures_of icase r cs cs'
      /\ k s' cs' = Some x.
Proof.
  induction r as [|c|neg items|r1 IH1 r2 IH2|r1 IH1 r2 IH2|r IH|i r IH];
    intros s cs k x H.
  - exists [], s, cs. split; [reflexivity|]. split; [constructor|].
    split; [apply captures_none; reflexivity | exact H].
  - cbn [rmatch] in H. destruct s as [|y s]; [discriminate|].
    destruct (lit_matches icase c y) eqn:Hy; [|discriminate].
    exists [y], s, cs. split; [reflexivity|]. split; [constructor; exact Hy|].
    split; [apply captures_none; reflexivity | exact H].
  - cbn [rmatch] in H. destruct s as [|y s]; [discriminate|].
    destruct (set_matches icase neg items y) eqn:Hy; [|discriminate].
    exists [y], s, cs. split; [reflexivity|]. split; [constructor; exact Hy|].
    split; [apply captures_none; reflexivity | exact H].
  - cbn [rmatch] in H.
    destruct (IH1 _ _ _ _ H) as (a1 & s1 & cs1 & -> & Hl1 & Hc1 & H1).
    destruct (IH2 _ _ _ _ H1) as (a2 & s2 & cs2 & -> & Hl2 & Hc2 & H2).
    exists (a1 ++ a2), s2, cs2. split; [apply app_assoc|].
    split; [constructor; assumption|]. split; [|exact H2].
    apply (captures_seq _ r1 r2 cs cs1 cs2); try assumption.
    + intros j r' Hg. cbn [has_group]. tauto.
    + intros j r' Hg. cbn [has_group]. tauto.
    + intros j Hj. cbn [sure_group] in Hj. apply orb_true_iff in Hj. exact Hj.
  - cbn [rmatch] in H. destruct (rmatch icase r1 s cs k) as [y|] eqn:H1.
    + injection H as ->.
      destruct (IH1 _ _ _ _ H1) as (a & s' & cs' & -> & Hl & Hc & Hk).
      exists a, s', cs'. split; [reflexivity|]. split; [apply lang_alt_l, Hl|].
      split; [|exact Hk].
      apply (captures_part _ r1); [| |exact Hc].
      * intros j r' Hg. cbn [has_group]. tauto.
      * intros j Hj. cbn [sure_group] in Hj. apply andb_true_iff in Hj. tauto.
    + destruct (IH2 _ _ _ _ H) as (a & s' & cs' & -> & Hl & Hc & Hk).
      exists a, s', cs'. split; [reflexivity|]. split; [apply lang_alt_r, Hl|].
      split; [|exact Hk].
      apply (captures_part _ r2); [| |exact Hc].
      * intros j r' Hg. cbn [has_group]. tauto.
      * intros j Hj. cbn [sure_group] in Hj. apply andb_true_iff in Hj. tauto.
  - cbn [rmatch] in H. revert H. generalize (length s) at 1. intros n.
    revert s cs. induction n as [|n IHn]; intros s cs H.
    + exists [], s, cs. split; [reflexivity|]. split; [constructor|].
      split; [apply captures_none; reflexivity | exact H].
    + match type of H with
      | match ?m with _ => _ end = _ => destruct m as [y|] eqn:Hm
      end.
      * injection H as ->.
        destruct (IH _ _ _ _ Hm) as (a & s' & cs' & -> & Hl & Hc & Hk).
        destruct (length s' <? length (a ++ s'))%nat; [|discriminate].
        destruct (IHn _ _ Hk) as (b & s'' & cs'' & -> & Hlb & Hcb & Hk').
        exists (a ++ b), s'', cs''. split; [apply app_assoc|].
        split; [constructor; assumption|]. split; [|exact Hk'].
        apply (captures_seq _ r (Star r) cs cs' cs''); try assumption.
        -- intros j r' Hg. exact Hg.
        -- intros j r' Hg. exact Hg.
        -- intros j Hj. discriminate Hj.
      * exists [], s, cs. split; [reflexivity|]. split; [constructor|].
        split; [apply captures_none; reflexivity | exact H].
  - cbn [rmatch] in H.
    destruct (IH _ _ _ _ H) as (a & s' & cs' & -> & Hl & Hc & Hk).
    rewrite take_consumed in Hk.
    exists a, s', ((i, a) :: cs'). split; [reflexivity|].
    split; [constructor; exact Hl|]. split; [|exact Hk].
    destruct Hc as (n1 & -> & Hl1 & Hs1).
    exists ((i, a) :: n1). split; [reflexivity|]. split.
    + intros j t [E | Hin].
      * injection E as <- <-. exists r. split; [cbn [has_group]; tauto | exact Hl].
      * destruct (Hl1 j t Hin) as (r' & Hg & Hl'). exists r'.
        split; [cbn [has_group]; tauto | exact Hl'].
    + intros j Hj. cbn [sure_group] in Hj. cbn [cap_lookup].
      destruct (Nat.eqb j i); [exists a; reflexivity|].
      apply Hs1. exact Hj.
Qed.

(** The groups of a match found by [search] or [findall]. *)
Lemma match_here_captures (r : regex) (ma : bool) (pos : nat) (s : text)
      (m : rematch) :
  match_here icase r ma pos s = Some m -> captures_of icase r [] (m_caps m).
Proof.
  unfold match_here. intros H.
  destruct (rmatch_sound r _ _ _ _ H) as (a & s' & cs' & -> & _ & Hc & Hk).
  destruct (ma && _); [discriminate|]. injection Hk as <-. exact Hc.
Qed.

Lemma search_from_captures (r : regex) (s : text) :
  forall (ma : bool) (pos : nat) (m : rematch),
    search_from icase r ma pos s = Some m -> captures_of icase r [] (m_caps m).
Proof.
  induction s as [|x s IH]; intros ma pos m; cbn [search_from];
    destruct (match_here icase r ma pos _) as [m'|] eqn:Hm.
  - intros [= <-]. apply (match_here_captures _ _ _ _ _ Hm).
  - discriminate.
  - intros [= <-]. apply (match_here_captures _ _ _ _ _ Hm).
  - apply IH.
Qed.

Lemma finditer_captures (r : regex) (fuel : nat) :
  forall (ma : bool) (pos : nat) (s : text) (m : rematch),
    In m (finditer_go icase fuel r ma pos s) -> captures_of icase r [] (m_caps m).
Proof.
  induction fuel as [|fuel IH]; intros ma pos s m; [intros []|].
  cbn [finditer_go]. destruct (search_from icase r ma pos s) as [m0|] eqn:Hs;
    [|intros []].
  intros [<- | Hin]; [apply (search_from_captures _ _ _ _ _ Hs) | apply (IH _ _ _ _ Hin)].
Qed.

(** A group of a match is empty (it took no part) or in the language of the
    group's pattern; a group on every path takes part. *)
Lemma group_lang (r : regex) (m : rematch) (i : nat) :
  captures_of icase r [] (m_caps m) ->
  (group m i = [] \/ exists r', has_group i r' r /\ lang icase r' (group m i))
  /\ (sure_group i r = true ->
      exists r', has_group i r' r /\ lang icase r' (group m i)).
Proof.
  intros (new & Hnew & Hl & Hs). rewrite app_nil_r in Hnew. unfold group.
  rewrite Hnew. split.
  - destruct (cap_lookup i new) as [t|] eqn:Ht; [|left; reflexivity].
    right. apply Hl, cap_lookup_in, Ht.
  - intros Hi. destruct (Hs i Hi) as [t Ht]. rewrite Ht.
    apply Hl, cap_lookup_in, Ht.
Qed.

(** Every text that [re.findall] returns for a pattern with a group 1 is
    empty or belongs to the language of that group's pattern. *)
Lemma findall1_lang (r : regex) (s n : text) :
  In n (findall1 icase r s) ->
  n = [] \/ exists r', has_group 1 r' r /\ lang icase r' n.
Proof.
  unfold findall1, finditer. intros Hin.
  apply in_map_iff in Hin. destruct Hin as (m & <- & Hm).
  apply group_lang. exact (finditer_captures _ _ _ _ _ _ Hm).
Qed.

Lemma findall2_lang (r : regex) (s : text) (p : text * text) :
  In p (findall2 icase r s) ->
  p.1 = [] \/ exists r', has_group 1 r' r /\ lang icase r' p.1.
Proof.
  unfold findall2, finditer. intros Hin.
  apply in_map_iff in Hin. destruct Hin as (m & <- & Hm).
  cbn [fst]. apply group_lang. exact (finditer_captures _ _ _ _ _ _ Hm).
Qed.

End MatcherSoundness.

Section TenDigits.
Context {U : UnicodeTables}.
Import Rules.

(** ** The shape of a tax identifier *)

Lemma tax_no_source (txt : text) (k : string) :
  k = "seller_tax_no"%string \/ k = "buyer_tax_no"%string ->
  exists v,
    cascade txt !! k = Some v
    /\ (v = [] \/ exists n, In n (findall1 true nip_pattern txt) /\ v = clean_nip n).
Proof.
  intros Hk. rewrite (tax_no_of_cascade txt k Hk). unfold step_nip.
  destruct (findall1 true nip_pattern txt) as [|n0 [|n1 rest]];
    destruct Hk as [-> | ->].
  - exists []. split; [reflexivity | left; reflexivity].
  - exists []. split; [reflexivity | left; reflexivity].
  - exists (clean_nip n0). split; [apply lookup_insert_eq|].
    right. exists n0. split; [left; reflexivity | reflexivity].
  - exists []. split; [rewrite lookup_insert_ne by discriminate; reflexivity|].
    left; reflexivity.
  - exists (clean_nip n0).
    split; [rewrite lookup_insert_ne by discriminate; apply lookup_insert_eq|].
    right. exists n0. split; [left; reflexivity | reflexivity].
  - exists (clean_nip n1). split; [apply lookup_insert_eq|].
    right. exists n1. split; [right; left; reflexivity | reflexivity].
Qed.

Lemma clean_nip_app (a b : text) : clean_nip (a ++ b) = clean_nip a ++ clean_nip b.
Proof. rewrite !clean_nip_filter. apply List.filter_app. Qed.

Lemma lang_rep_digit (icase : bool) (n : nat) :
  forall t : text,
    lang icase (Rep n digit) t ->
    length t = n /\ Forall (fun x => uni_isdecimal x = true) t.
Proof.
  induction n as [|n IH]; intros t H; cbn [Rep] in H.
  - inversion H; subst. split; [reflexivity | constructor].
  - inversion H as [| | |r1 r2 a b Ha Hb| | | | |]; subst.
    unfold digit in Ha. inversion Ha as [| |neg items x Hx| | | | | |]; subst.
    destruct (IH b Hb) as [Hlen Hall].
    unfold set_matches in Hx. cbn [existsb item_matches xorb] in Hx.
    rewrite orb_false_r in Hx.
    split; [cbn [app length]; rewrite Hlen; reflexivity|].
    constructor; [exact Hx | exact Hall].
Qed.

Lemma lang_cat_inv (r1 r2 : regex) (t : text) :
  lang true (Cat r1 r2) t ->
  exists a b, t = a ++ b /\ lang true r1 a /\ lang true r2 b.
Proof.
  intros H. inversion H as [| | |? ? a b Ha Hb| | | | |]; subst.
  exists a, b. split; [reflexivity|]. split; assumption.
Qed.

Section Tables.
Hypothesis digits_are_kept :
  forall x, uni_isdecimal x = true -> uni_isspace x = false /\ x <> cc "-".
Hypothesis dash_has_no_case : forall x, ci_eq (cc "-") x = true -> x = cc "-".

Lemma clean_digits (t : text) :
  Forall (fun x => uni_isdecimal x = true) t -> clean_nip t = t.
Proof.
  intros H. rewrite clean_nip_filter. induction H as [|x t Hx _ IH]; [reflexivity|].
  cbn [List.filter]. destruct (digits_are_kept x Hx) as [Hs Hd].
  rewrite Hs. replace (N.eqb (cc "-") x) with false
    by (symmetry; apply N.eqb_neq; congruence).
  cbn [orb negb]. rewrite IH. reflexivity.
Qed.

Lemma clean_separator (t : text) : lang true (Opt dash_sp) t -> clean_nip t = [].
Proof.
  intros H. unfold Opt in H.
  inversion H as [| | | |r1 r2 a Ha|r1 r2 a Ha| | |]; subst.
  - unfold dash_sp in Ha. inversion Ha as [| |neg items x Hx| | | | | |]; subst.
    unfold set_matches in Hx. cbn [existsb item_matches xorb] in Hx.
    rewrite orb_false_r in Hx. unfold lit_matches in Hx.
    rewrite clean_nip_filter. cbn [List.filter].
    apply orb_true_iff in Hx. destruct Hx as [Hx | Hx].
    + rewrite (dash_has_no_case x Hx), N.eqb_refl. reflexivity.
    + rewrite Hx, orb_true_r. reflexivity.
  - inversion Ha; subst. reflexivity.
Qed.

Lemma clean_identifier (t : text) :
  (exists r', has_group 1 r' nip_pattern /\ lang true r' t) ->
  length (clean_nip t) = 10%nat
  /\ Forall (fun x => uni_isdecimal x = true) (clean_nip t).
Proof.
  intros (r' & Hg & Hl).
  assert (Hr : r' = Alt (Seq [Rep 3 digit; Opt dash_sp; Rep 3 digit; Opt dash_sp;
                              Rep 2 digit; Opt dash_sp; Rep 2 digit])
                        (Rep 10 digit)).
  { unfold nip_pattern in Hg. vm_compute in Hg.
    repeat match goal with
           | H : _ \/ _ |- _ => destruct H
           | H : _ /\ _ |- _ => destruct H
           | H : False |- _ => destruct H
           end.
    subst r'. reflexivity. }
  subst r'.
  inversion Hl as [| | | |r1 r2 a Ha|r1 r2 a Ha| | |]; subst.
  - cbn [Seq] in Ha.
    destruct (lang_cat_inv _ _ _ Ha) as (d1 & t1 & -> & Hd1 & H1).
    destruct (lang_cat_inv _ _ _ H1) as (o1 & t2 & -> & Ho1 & H2).
    destruct (lang_cat_inv _ _ _ H2) as (d2 & t3 & -> & Hd2 & H3).
    destruct (lang_cat_inv _ _ _ H3) as (o2 & t4 & -> & Ho2 & H4).
    destruct (lang_cat_inv _ _ _ H4) as (d3 & t5 & -> & Hd3 & H5).
    destruct (lang_cat_inv _ _ _ H5) as (o3 & d4 & -> & Ho3 & Hd4).
    apply (lang_rep_digit true 3) in Hd1. apply (lang_rep_digit true 3) in Hd2.
    apply (lang_rep_digit true 2) in Hd3. apply (lang_rep_digit true 2) in Hd4.
    destruct Hd1 as [L1 F1], Hd2 as [L2 F2], Hd3 as [L3 F3], Hd4 as [L4 F4].
    rewrite !clean_nip_app.
    rewrite (clean_separator o1 Ho1), (clean_separator o2 Ho2),
      (clean_separator o3 Ho3).
    rewrite (clean_digits d1 F1), (clean_digits d2 F2), (clean_digits d3 F3),
      (clean_digits d4 F4).
    cbn [app]. split.
    + rewrite !length_app. lia.
    + repeat (apply Forall_app; split); assumption.
  - destruct (lang_rep_digit true 10 _ Ha) as [Hlen Hall].
    rewrite (clean_digits _ Hall). split; assumption.
Qed.

End Tables.

(** X22. When the decimal digits of the Unicode tables are neither white
    space nor a dash, and a dash matches only itself without regard to case
    (as in Unicode), each tax identifier the rules store is empty or
    consists of exactly ten decimal digits. *)
Theorem tax_numbers_are_ten_digits (txt : text) (k : string) :
  (forall x, uni_isdecimal x = true -> uni_isspace x = false /\ x <> cc "-") ->
  (forall x, ci_eq (cc "-") x = true -> x = cc "-") ->
  k = "seller_tax_no"%string \/ k = "buyer_tax_no"%string ->
  exists v,
    cascade txt !! k = Some v
    /\ (v = []
        \/ (length v = 10%nat /\ Forall (fun x => uni_isdecimal x = true) v)).
Proof.
  intros Hdigits Hdash Hk.
  destruct (tax_no_source txt k Hk) as (v & Hv & [-> | (n & Hin & ->)]).
  - exists []. split; [exact Hv | left; reflexivity].
  - exists (clean_nip n). split; [exact Hv|].
    destruct (findall1_lang true nip_pattern txt n Hin) as [-> | Hl].
    + left. rewrite clean_nip_filter. reflexivity.
    + right. apply (clean_identifier Hdigits Hdash n Hl).
Qed.

End TenDigits.

(** ** The Latin tables satisfy the conditions on the tables *)

Lemma latin_digits_are_kept (x : N) :
  uni_isdecimal (UnicodeTables := latin_tables) x = true ->
  uni_isspace (UnicodeTables := latin_tables) x = false /\ x <> Rules.cc "-".
Proof.
  cbn [uni_isdecimal uni_isspace latin_tables]. unfold latin_isdecimal, latin_isspace.
  intros H. apply andb_true_iff in H. destruct H as [H1 H2].
  apply N.leb_le in H1, H2. change (Rules.cc "-") with 45%N.
  split; [|lia].
  repeat match goal with
         | |- _ || _ = false => apply orb_false_iff; split
         | |- _ && _ = false => apply andb_false_iff
         end;
    try (apply N.eqb_neq; lia);
    first [ left; apply N.leb_gt; lia | right; apply N.leb_gt; lia ].
Qed.

Lemma latin_digits_are_not_separators (x : N) :
  uni_isdecimal (UnicodeTables := latin_tables) x = true ->
  x <> Rules.cc "-" /\ x <> Rules.cc "/" /\ x <> Rules.cc ".".
Proof.
  cbn [uni_isdecimal latin_tables]. unfold latin_isdecimal.
  intros H. apply andb_true_iff in H. destruct H as [H1 H2].
  apply N.leb_le in H1, H2.
  change (Rules.cc "-") with 45%N. change (Rules.cc "/") with 47%N.
  change (Rules.cc ".") with 46%N. lia.
Qed.

(** A character below the letters matches only itself without regard to
    case. *)
Lemma latin_punctuation_has_no_case (c x : N) :
  (c < 65)%N -> ci_eq (UnicodeTables := latin_tables) c x = true -> x = c.
Proof.
  cbn [ci_eq latin_tables]. intros Hc H. apply N.eqb_eq in H.
  assert (Hlc : latin_lower c = c).
  { unfold latin_lower.
    replace ((65 <=? c) && (c <=? 90)) with false
      by (symmetry; apply andb_false_iff; left; apply N.leb_gt; lia).
    replace (N.eqb c 211) with false by (symmetry; apply N.eqb_neq; lia).
    destruct (existsb (N.eqb c) polish_upper) eqn:He; [|reflexivity].
    apply existsb_exists in He. destruct He as (y & Hy & Hcy).
    apply N.eqb_eq in Hcy. subst y. vm_compute in Hy.
    repeat (destruct Hy as [Hy | Hy]; [subst c; discriminate Hc|]). destruct Hy. }
  rewrite Hlc in H. unfold latin_lower in H.
  destruct ((65 <=? x) && (x <=? 90)) eqn:H1.
  { apply andb_true_iff in H1. destruct H1 as [Ha Hb]. apply N.leb_le in Ha, Hb. lia. }
  destruct (N.eqb x 211) eqn:H2; [lia|].
  destruct (existsb (N.eqb x) polish_upper) eqn:H3; [|congruence].
  apply existsb_exists in H3. destruct H3 as (y & Hy & Hxy).
  apply N.eqb_eq in Hxy. subst y. vm_compute in Hy.
  repeat (destruct Hy as [Hy | Hy]; [subst x; lia|]). destruct Hy.
Qed.

Lemma latin_dash_has_no_case (x : N) :
  ci_eq (UnicodeTables := latin_tables) (Rules.cc "-") x = true -> x = Rules.cc "-".
Proof. apply latin_punctuation_has_no_case. reflexivity. Qed.

Lemma latin_separators_have_no_case (c x : N) :
  In c (T "-/.") -> ci_eq (UnicodeTables := latin_tables) c x = true -> x = c.
Proof.
  change (T "-/.") with [45%N; 47%N; 46%N].
  intros [<- | [<- | [<- | []]]]; apply latin_punctuation_has_no_case; reflexivity.
Qed.

Lemma tax_numbers_are_ten_digits_witness :
  exists v,
    Rules.cascade (U := latin_tables) Samples.polish_invoice !! "buyer_tax_no"%string
    = Some v
    /\ (v = []
        \/ (length v = 10%nat
            /\ Forall (fun x => uni_isdecimal (UnicodeTables := latin_tables) x = true) v)).
Proof.
  apply (tax_numbers_are_ten_digits (U := latin_tables) Samples.polish_invoice
           "buyer_tax_no"%string latin_digits_are_kept latin_dash_has_no_case).
  right. reflexivity.
Defined.

Section PostalCodes.
Context {U : UnicodeTables}.
Import Rules.

(** ** The shape of the postal code *)

Lemma postal_code_source (txt : text) :
  exists v,
    cascade txt !! "buyer_post_code"%string = Some v
    /\ (v = [] \/ exists p, In p (findall2 false postal_pattern txt) /\ v = p.1).
Proof.
  unfold cascade.
  set (d := step_streets txt _).
  assert (Hd : d !! "buyer_post_code"%string = Some []).
  { unfold d.
    rewrite step_streets_other, step_names_other, step_amounts_other,
      step_date_other, step_number_other, step_nip_other by discriminate.
    reflexivity. }
  unfold step_postal, set_buyer_postal.
  destruct (findall2 false postal_pattern txt) as [|p0 [|p1 rest]].
  - exists []. split; [exact Hd | left; reflexivity].
  - destruct (_ || _).
    + exists p0.1.
      split; [rewrite lookup_insert_ne by discriminate; apply lookup_insert_eq|].
      right. exists p0. split; [left; reflexivity | reflexivity].
    + exists []. split; [exact Hd | left; reflexivity].
  - exists p1.1.
    split; [rewrite lookup_insert_ne by discriminate; apply lookup_insert_eq|].
    right. exists p1. split; [right; left; reflexivity | reflexivity].
Qed.

(** X23. The postal code of the buyer that the rules store is empty or has
    the shape of a Polish postal code: two decimal digits, a dash, three
    decimal digits. *)
Theorem postal_code_has_its_shape (txt : text) :
  exists v,
    cascade txt !! "buyer_post_code"%string = Some v
    /\ (v = []
        \/ exists a b : text,
             v = a ++ cc "-" :: b
             /\ length a = 2%nat /\ length b = 3%nat
             /\ Forall (fun x => uni_isdecimal x = true) (a ++ b)).
Proof.
  destruct (postal_code_source txt) as (v & Hv & [-> | (p & Hin & ->)]).
  - exists []. split; [exact Hv | left; reflexivity].
  - exists p.1. split; [exact Hv|].
    destruct (findall2_lang false postal_pattern txt p Hin) as [-> | (r' & Hg & Hl)];
      [left; reflexivity|].
    right.
    assert (Hr : r' = Seq [Rep 2 digit; Lit (cc "-"); Rep 3 digit]).
    { unfold postal_pattern in Hg. vm_compute in Hg.
      repeat match goal with
             | H : _ \/ _ |- _ => destruct H
             | H : _ /\ _ |- _ => destruct H
             | H : False |- _ => destruct H
             end;
        try discriminate.
      subst r'. reflexivity. }
    subst r'. cbn [Seq] in Hl.
    inversion Hl as [| | |? ? a t1 Ha H1| | | | |]; subst.
    inversion H1 as [| | |? ? s b Hs Hb| | | | |]; subst.
    inversion Hs as [|c x Hx| | | | | | |]; subst.
    unfold lit_matches in Hx. apply N.eqb_eq in Hx. subst x.
    apply (lang_rep_digit false 2) in Ha. apply (lang_rep_digit false 3) in Hb.
    destruct Ha as [La Fa], Hb as [Lb Fb].
    exists a, b. split; [reflexivity|]. split; [exact La|]. split; [exact Lb|].
    apply Forall_app. split; assumption.
Qed.

End PostalCodes.

Section NumericDates.
Context {U : UnicodeTables}.
Import Rules.

(** ** Numeric dates *)

Hypothesis digits_are_not_separators :
  forall x, uni_isdecimal x = true -> x <> cc "-" /\ x <> cc "/" /\ x <> cc ".".
Hypothesis separators_have_no_case :
  forall c x, In c (T "-/.") -> ci_eq c x = true -> x = c.

Lemma digit_is_digit (x : N) :
  uni_isdecimal x = true -> set_matches false false [CDigit] x = true.
Proof.
  intros H. unfold set_matches. cbn [existsb item_matches xorb]. rewrite H. reflexivity.
Qed.

Lemma digit_is_no_separator (x : N) :
  uni_isdecimal x = true -> set_matches false false (chars "-/.") x = false.
Proof.
  intros H. destruct (digits_are_not_separators x H) as (H1 & H2 & H3).
  change (cc "-") with 45%N in H1. change (cc "/") with 47%N in H2.
  change (cc ".") with 46%N in H3.
  change (chars "-/.") with [CChar 45; CChar 47; CChar 46].
  unfold set_matches. cbn [existsb item_matches xorb]. unfold lit_matches.
  apply N.eqb_neq in H1, H2, H3.
  rewrite (N.eqb_sym 45 x), (N.eqb_sym 47 x), (N.eqb_sym 46 x), H1, H2, H3.
  reflexivity.
Qed.

Lemma separator_is_separator (x : N) :
  In x (T "-/.") -> set_matches false false (chars "-/.") x = true.
Proof.
  change (T "-/.") with [45%N; 47%N; 46%N].
  intros [<- | [<- | [<- | []]]]; reflexivity.
Qed.

Lemma lang_date_sep (t : text) :
  lang true date_sep t -> exists x, t = [x] /\ In x (T "-/.").
Proof.
  intros H. unfold date_sep in H.
  inversion H as [| |neg items x Hx| | | | | |]; subst.
  exists x. split; [reflexivity|].
  change (chars "-/.") with [CChar 45; CChar 47; CChar 46] in Hx.
  unfold set_matches in Hx. cbn [existsb item_matches xorb] in Hx.
  unfold lit_matches in Hx. change (T "-/.") with [45%N; 47%N; 46%N].
  repeat (apply orb_true_iff in Hx; destruct Hx as [Hx | Hx]);
    try discriminate Hx;
    apply separators_have_no_case in Hx;
    try (change (T "-/.") with [45%N; 47%N; 46%N]; simpl; tauto);
    subst x; simpl; tauto.
Qed.

Lemma two_chars (t : text) (P : N -> Prop) :
  length t = 2%nat -> Forall P t -> exists a b, t = [a; b] /\ P a /\ P b.
Proof.
  destruct t as [|a [|b [|c t]]]; try discriminate. intros _ H.
  exists a, b. split; [reflexivity|].
  split; [exact (Forall_inv H) | exact (Forall_inv (Forall_inv_tail H))].
Qed.

Lemma four_chars (t : text) (P : N -> Prop) :
  length t = 4%nat -> Forall P t ->
  exists a b c d, t = [a; b; c; d] /\ P a /\ P b /\ P c /\ P d.
Proof.
  destruct t as [|a [|b [|c [|d [|e t]]]]]; try discriminate. intros _ H.
  exists a, b, c, d. split; [reflexivity|].
  pose proof (Forall_inv H) as Ha. apply Forall_inv_tail in H.
  pose proof (Forall_inv H) as Hb. apply Forall_inv_tail in H.
  pose proof (Forall_inv H) as Hc. apply Forall_inv_tail in H.
  pose proof (Forall_inv H) as Hd. tauto.
Qed.

(** The shape of a text of [\d{2}[-/.]\d{2}[-/.]\d{4}] found without regard
    to case. *)
Lemma lang_dmy (t : text) :
  lang true dmy_date t ->
  exists a b s1 c d s2 e f g h,
    t = [a; b; s1; c; d; s2; e; f; g; h]
    /\ Forall (fun x => uni_isdecimal x = true) [a; b; c; d; e; f; g; h]
    /\ In s1 (T "-/.") /\ In s2 (T "-/.").
Proof.
  intros H. unfold dmy_date in H. cbn [Seq] in H.
  destruct (lang_cat_inv _ _ _ H) as (t1 & r1 & -> & H1 & R1).
  destruct (lang_cat_inv _ _ _ R1) as (t2 & r2 & -> & H2 & R2).
  destruct (lang_cat_inv _ _ _ R2) as (t3 & r3 & -> & H3 & R3).
  destruct (lang_cat_inv _ _ _ R3) as (t4 & t5 & -> & H4 & H5).
  apply (lang_rep_digit true 2) in H1. apply (lang_rep_digit true 2) in H3.
  apply (lang_rep_digit true 4) in H5.
  destruct H1 as [L1 F1], H3 as [L3 F3], H5 as [L5 F5].
  destruct (two_chars _ _ L1 F1) as (a & b & -> & Ha & Hb).
  destruct (two_chars _ _ L3 F3) as (c & d & -> & Hc & Hd).
  destruct (four_chars _ _ L5 F5) as (e & f & g & h & -> & He & Hf & Hg & Hh).
  destruct (lang_date_sep _ H2) as (s1 & -> & Hs1).
  destruct (lang_date_sep _ H4) as (s2 & -> & Hs2).
  exists a, b, s1, c, d, s2, e, f, g, h. split; [reflexivity|].
  split; [repeat constructor; assumption|]. split; assumption.
Qed.

(** What [date_of_match] does with such a text. *)
Lemma dmy_reordered (a b s1 c d s2 e f g h : N) :
  Forall (fun x => uni_isdecimal x = true) [a; b; c; d; e; f; g; h] ->
  In s1 (T "-/.") -> In s2 (T "-/.") ->
  (exists m, re_match false dmy_date [a; b; s1; c; d; s2; e; f; g; h] = Some m)
  /\ re_split false date_sep [a; b; s1; c; d; s2; e; f; g; h]
     = [[a; b]; [c; d]; [e; f; g; h]].
Proof.
  intros HF Hs1 Hs2.
  assert (Hdig : forall x, In x [a; b; c; d; e; f; g; h] -> uni_isdecimal x = true).
  { apply List.Forall_forall. exact HF. }
  assert (Ha := Hdig a ltac:(simpl; tauto)). assert (Hb := Hdig b ltac:(simpl; tauto)).
  assert (Hc := Hdig c ltac:(simpl; tauto)). assert (Hd := Hdig d ltac:(simpl; tauto)).
  assert (He := Hdig e ltac:(simpl; tauto)). assert (Hf := Hdig f ltac:(simpl; tauto)).
  assert (Hg := Hdig g ltac:(simpl; tauto)). assert (Hh := Hdig h ltac:(simpl; tauto)).
  pose proof (separator_is_separator s1 Hs1) as S1.
  pose proof (separator_is_separator s2 Hs2) as S2.
  split.
  - eexists. unfold re_match, match_here, dmy_date, date_sep, digit.
    cbn [Seq Rep rmatch].
    rewrite !digit_is_digit by assumption. rewrite S1, S2.
    reflexivity.
  - unfold re_split, finditer, date_sep. cbn [length].
    repeat (cbn [finditer_go m_text m_start m_rest length Nat.eqb Nat.add];
            rewrite ?search_from_class_cons, ?search_from_class_nil;
            rewrite ?(digit_is_no_separator a Ha), ?(digit_is_no_separator b Hb),
              ?(digit_is_no_separator c Hc), ?(digit_is_no_separator d Hd),
              ?(digit_is_no_separator e He), ?(digit_is_no_separator f Hf),
              ?(digit_is_no_separator g Hg), ?(digit_is_no_separator h Hh),
              ?S1, ?S2).
    reflexivity.
Qed.

(** X24. When the first date pattern that matches is one of the two numeric
    day-first patterns ([Data wystawienia] or [Data sprzedaży] followed by
    [dd?mm?yyyy] with separators among [-/.]), the issue date is stored as
    [yyyy-mm-dd], whatever the digits and the separators are; the tables'
    decimal digits must not be separators and the separators must match only
    themselves without regard to case. *)
Theorem numeric_date_is_reordered (txt : text) (p : regex) (m : rematch) :
  first_match date_patterns txt = Some (p, m) ->
  p = wystawienia_dmy \/ p = sprzedazy_dmy ->
  exists (day month year : text) (s1 s2 : N),
    group m 1 = day ++ s1 :: month ++ s2 :: year
    /\ length day = 2%nat /\ length month = 2%nat /\ length year = 4%nat
    /\ In s1 (T "-/.") /\ In s2 (T "-/.")
    /\ Forall (fun x => uni_isdecimal x = true) (day ++ month ++ year)
    /\ cascade txt !! "issue_date"%string
       = Some (year ++ T "-" ++ month ++ T "-" ++ day).
Proof.
  intros Hfm Hp.
  destruct (first_match_in _ _ _ _ Hfm) as [_ Hm].
  pose proof (search_from_captures true p txt false 0%nat m Hm) as Hc.
  assert (Hsure : sure_group 1 p = true) by (destruct Hp as [-> | ->]; reflexivity).
  destruct (proj2 (group_lang true p m 1 Hc) Hsure) as (r' & Hg & Hl).
  assert (Hr : r' = dmy_date).
  { destruct Hp as [-> | ->]; vm_compute in Hg;
      repeat match goal with
             | H : _ \/ _ |- _ => destruct H
             | H : _ /\ _ |- _ => destruct H
             | H : False |- _ => destruct H
             end;
      try discriminate; subst r'; reflexivity. }
  subst r'.
  destruct (lang_dmy _ Hl)
    as (a & b & s1 & c & d & s2 & e & f & g & h & Ht & HF & Hs1 & Hs2).
  exists [a; b], [c; d], [e; f; g; h], s1, s2.
  split; [exact Ht|]. split; [reflexivity|]. split; [reflexivity|].
  split; [reflexivity|]. split; [exact Hs1|]. split; [exact Hs2|].
  split; [exact HF|].
  rewrite issue_date_of_cascade. unfold step_date. rewrite Hfm.
  rewrite lookup_insert_eq. f_equal. unfold date_of_match.
  replace (ngroups p =? 3)%nat with false
    by (destruct Hp as [-> | ->]; reflexivity).
  rewrite Ht.
  destruct (dmy_reordered a b s1 c d s2 e f g h HF Hs1 Hs2) as [[m' Hm'] Hsplit].
  rewrite Hm', Hsplit. reflexivity.
Qed.

End NumericDates.

Lemma sale_date_matches :
  exists m,
    Rules.first_match (U := latin_tables) Rules.date_patterns Examples.sale_date
    = Some (Rules.sprzedazy_dmy, m).
Proof. eexists. vm_compute. reflexivity. Qed.

Lemma numeric_date_is_reordered_witness :
  exists day month year : text,
    length day = 2%nat /\ length month = 2%nat /\ length year = 4%nat
    /\ Rules.cascade (U := latin_tables) Examples.sale_date !! "issue_date"%string
       = Some (year ++ T "-" ++ month ++ T "-" ++ day).
Proof.
  destruct sale_date_matches as [m Hm].
  destruct (numeric_date_is_reordered (U := latin_tables)
              latin_digits_are_not_separators latin_separators_have_no_case
              Examples.sale_date Rules.sprzedazy_dmy m Hm (or_intror eq_refl))
    as (day & month & year & s1 & s2 & _ & H1 & H2 & H3 & _ & _ & _ & H4).
  exists day, month, year. repeat split; assumption.
Defined.

Section IssueDates.
Context {U : UnicodeTables}.
Import Rules.

(** ** The shape of the issue date *)

Hypothesis digits_are_plain :
  forall x, uni_isdecimal x = true -> ~ In x (T "+-/.").
Hypothesis separators_have_no_case :
  forall c x, In c (T "-/.") -> ci_eq c x = true -> x = c.

Lemma plain_digits_are_not_separators (x : N) :
  uni_isdecimal x = true -> x <> cc "-" /\ x <> cc "/" /\ x <> cc ".".
Proof.
  intros H. pose proof (digits_are_plain x H) as Hn.
  change (T "+-/.") with [43%N; 45%N; 47%N; 46%N] in Hn.
  change (cc "-") with 45%N. change (cc "/") with 47%N. change (cc ".") with 46%N.
  cbn [In] in Hn. repeat split; intros ->; apply Hn; tauto.
Qed.

Lemma one_char (t : text) (P : N -> Prop) :
  length t = 1%nat -> Forall P t -> exists a, t = [a] /\ P a.
Proof.
  destruct t as [|a [|b t]]; try discriminate. intros _ H.
  exists a. split; [reflexivity | exact (Forall_inv H)].
Qed.

Lemma lang_day (t : text) :
  lang true (RepRange 1 2 digit) t ->
  (length t = 1%nat \/ length t = 2%nat)
  /\ Forall (fun x => uni_isdecimal x = true) t.
Proof.
  intros H. unfold RepRange in H. cbn [Nat.sub RepUpTo] in H.
  destruct (lang_cat_inv _ _ _ H) as (a & b & -> & Ha & Hb).
  apply (lang_rep_digit true 1) in Ha. destruct Ha as [La Fa].
  unfold Opt in Hb. inversion Hb as [| | | |r1 r2 c Hc|r1 r2 c Hc| | |]; subst.
  - apply (lang_rep_digit true 1) in Hc. destruct Hc as [Lc Fc].
    split; [right; rewrite length_app; lia | apply Forall_app; split; assumption].
  - inversion Hc; subst. rewrite app_nil_r. split; [left; exact La | exact Fa].
Qed.

(** [day.zfill(2)] *)
Lemma zfill_day (t : text) :
  (length t = 1%nat \/ length t = 2%nat) ->
  Forall (fun x => uni_isdecimal x = true) t ->
  length (zfill 2 t) = 2%nat /\ Forall (fun x => uni_isdecimal x = true) (zfill 2 t).
Proof.
  intros Hlen HF. destruct t as [|x t]; [cbn in Hlen; lia|].
  pose proof (Forall_inv HF) as Hx.
  pose proof (digits_are_plain x Hx) as Hn.
  change (T "+-/.") with [43%N; 45%N; 47%N; 46%N] in Hn. cbn [In] in Hn.
  unfold zfill.
  replace (N.eqb x 43 || N.eqb x 45) with false.
  2:{ symmetry. apply orb_false_iff. split; apply N.eqb_neq; intros ->; apply Hn; tauto. }
  destruct t as [|y [|z t]]; cbn in Hlen; try lia.
  - cbn. split; [reflexivity|].
    constructor; [apply uni_ascii_digit; reflexivity | exact HF].
  - cbn. split; [reflexivity | exact HF].
Qed.

(** The month number is one of the table or [01]. *)
Lemma month_number (name : text) :
  length (assoc_get name month_names (T "01")) = 2%nat
  /\ Forall (fun x => uni_isdecimal x = true) (assoc_get name month_names (T "01")).
Proof.
  unfold month_names. cbn [assoc_get].
  repeat match goal with
         | |- context [if text_eqb ?a ?b then _ else _] => destruct (text_eqb a b)
         end;
    (split; [reflexivity|]);
    repeat constructor; apply uni_ascii_digit; reflexivity.
Qed.

Lemma lang_dash (t : text) : lang true (Lit (cc "-")) t -> t = [cc "-"].
Proof.
  intros H. inversion H as [|c x Hx| | | | | | |]; subst.
  unfold lit_matches in Hx. apply separators_have_no_case in Hx.
  - subst x. reflexivity.
  - change (T "-/.") with [45%N; 47%N; 46%N]. left. reflexivity.
Qed.

Lemma lang_iso (t : text) :
  lang true iso_date t ->
  exists a b c d e f g h,
    t = [a; b; c; d; cc "-"; e; f; cc "-"; g; h]
    /\ Forall (fun x => uni_isdecimal x = true) [a; b; c; d; e; f; g; h].
Proof.
  intros H. unfold iso_date in H. cbn [Seq] in H.
  destruct (lang_cat_inv _ _ _ H) as (t1 & r1 & -> & H1 & R1).
  destruct (lang_cat_inv _ _ _ R1) as (t2 & r2 & -> & H2 & R2).
  destruct (lang_cat_inv _ _ _ R2) as (t3 & r3 & -> & H3 & R3).
  destruct (lang_cat_inv _ _ _ R3) as (t4 & t5 & -> & H4 & H5).
  apply (lang_rep_digit true 4) in H1. apply (lang_rep_digit true 2) in H3.
  apply (lang_rep_digit true 2) in H5.
  destruct H1 as [L1 F1], H3 as [L3 F3], H5 as [L5 F5].
  destruct (four_chars _ _ L1 F1) as (a & b & c & d & -> & Ha & Hb & Hc & Hd).
  destruct (two_chars _ _ L3 F3) as (e & f & -> & He & Hf).
  destruct (two_chars _ _ L5 F5) as (g & h & -> & Hg & Hh).
  rewrite (lang_dash _ H2), (lang_dash _ H4).
  exists a, b, c, d, e, f, g, h. split; [reflexivity|].
  repeat constructor; assumption.
Qed.

(** A date that is already [yyyy-mm-dd] is not taken for a day-first date. *)
Lemma iso_is_kept (a b c d e f g h : N) :
  Forall (fun x => uni_isdecimal x = true) [a; b; c; d; e; f; g; h] ->
  re_match false dmy_date [a; b; c; d; cc "-"; e; f; cc "-"; g; h] = None.
Proof.
  intros HF.
  assert (Hdig : forall x, In x [a; b; c; d; e; f; g; h] -> uni_isdecimal x = true).
  { apply List.Forall_forall. exact HF. }
  assert (Ha := Hdig a ltac:(simpl; tauto)). assert (Hb := Hdig b ltac:(simpl; tauto)).
  assert (Hc := Hdig c ltac:(simpl; tauto)).
  unfold re_match, match_here, dmy_date, date_sep, digit.
  cbn [Seq Rep rmatch].
  rewrite (digit_is_digit a Ha), (digit_is_digit b Hb).
  rewrite (digit_is_no_separator plain_digits_are_not_separators c Hc).
  reflexivity.
Qed.

Lemma groups_of (p : regex) (m : rematch) (txt : text) (i : nat) :
  re_search true p txt = Some m -> sure_group i p = true ->
  exists r', has_group i r' p /\ lang true r' (group m i).
Proof.
  intros Hm Hs.
  exact (proj2 (group_lang true p m i (search_from_captures true p txt false 0%nat m Hm)) Hs).
Qed.

Ltac which_group H :=
  vm_compute in H;
  repeat match goal with
         | H : _ \/ _ |- _ => destruct H
         | H : _ /\ _ |- _ => destruct H
         | H : False |- _ => destruct H
         end;
  try discriminate.

Lemma named_date_shape (p : regex) (m : rematch) (txt : text) :
  p = named_date_1 \/ p = named_date_2 ->
  re_search true p txt = Some m ->
  iso_shaped (date_of_match p m).
Proof.
  intros Hp Hm. unfold date_of_match.
  replace (ngroups p =? 3)%nat with true by (destruct Hp as [-> | ->]; reflexivity).
  destruct (groups_of p m txt 1 Hm ltac:(destruct Hp as [-> | ->]; reflexivity))
    as (r1 & Hg1 & Hl1).
  destruct (groups_of p m txt 3 Hm ltac:(destruct Hp as [-> | ->]; reflexivity))
    as (r3 & Hg3 & Hl3).
  assert (Hday : lang true (RepRange 1 2 digit) (group m 1)).
  { destruct Hp as [-> | ->]; which_group Hg1; subst r1; exact Hl1. }
  assert (Hyear : lang true (Rep 4 digit) (group m 3)).
  { destruct Hp as [-> | ->]; which_group Hg3; subst r3; exact Hl3. }
  destruct (lang_day _ Hday) as [Ld Fd].
  destruct (zfill_day _ Ld Fd) as [Lz Fz].
  apply (lang_rep_digit true 4) in Hyear. destruct Hyear as [Ly Fy].
  destruct (month_number (str_lower (group m 2))) as [Lm Fm].
  exists (group m 3), (assoc_get (str_lower (group m 2)) month_names (T "01")),
    (zfill 2 (group m 1)).
  split; [reflexivity|]. split; [exact Ly|]. split; [exact Lm|]. split; [exact Lz|].
  repeat (apply Forall_app; split); assumption.
Qed.

Lemma iso_date_shape (p : regex) (m : rematch) (txt : text) :
  p = wystawienia_iso \/ p = sprzedazy_iso ->
  re_search true p txt = Some m ->
  iso_shaped (date_of_match p m).
Proof.
  intros Hp Hm. unfold date_of_match.
  replace (ngroups p =? 3)%nat with false by (destruct Hp as [-> | ->]; reflexivity).
  destruct (groups_of p m txt 1 Hm ltac:(destruct Hp as [-> | ->]; reflexivity))
    as (r1 & Hg1 & Hl1).
  assert (Hiso : lang true iso_date (group m 1)).
  { destruct Hp as [-> | ->]; which_group Hg1; subst r1; exact Hl1. }
  destruct (lang_iso _ Hiso) as (a & b & c & d & e & f & g & h & -> & HF).
  rewrite (iso_is_kept a b c d e f g h HF).
  exists [a; b; c; d], [e; f], [g; h]. split; [reflexivity|].
  split; [reflexivity|]. split; [reflexivity|]. split; [reflexivity|]. exact HF.
Qed.

Lemma dmy_date_shape (p : regex) (m : rematch) (txt : text) :
  p = wystawienia_dmy \/ p = sprzedazy_dmy ->
  re_search true p txt = Some m ->
  iso_shaped (date_of_match p m).
Proof.
  intros Hp Hm. unfold date_of_match.
  replace (ngroups p =? 3)%nat with false by (destruct Hp as [-> | ->]; reflexivity).
  destruct (groups_of p m txt 1 Hm ltac:(destruct Hp as [-> | ->]; reflexivity))
    as (r1 & Hg1 & Hl1).
  assert (Hdmy : lang true dmy_date (group m 1)).
  { destruct Hp as [-> | ->]; which_group Hg1; subst r1; exact Hl1. }
  destruct (lang_dmy separators_have_no_case _ Hdmy)
    as (a & b & s1 & c & d & s2 & e & f & g & h & -> & HF & Hs1 & Hs2).
  destruct (dmy_reordered plain_digits_are_not_separators a b s1 c d s2 e f g h
              HF Hs1 Hs2) as [[m' Hm'] Hsplit].
  rewrite Hm', Hsplit.
  exists [e; f; g; h], [c; d], [a; b]. split; [reflexivity|].
  split; [reflexivity|]. split; [reflexivity|]. split; [reflexivity|].
  assert (Hdig : forall x, In x [a; b; c; d; e; f; g; h] -> uni_isdecimal x = true).
  { apply List.Forall_forall. exact HF. }
  repeat constructor; apply Hdig; simpl; tauto.
Qed.

(** X25. Whatever the text, the issue date the rules store is empty or has
    the form [yyyy-mm-dd] with decimal digits: named-month dates are
    assembled in this form, day-first dates are reordered and dates that
    have the form already are kept.  The tables' decimal digits must be none
    of [+-/.] and the three separators must match only themselves without
    regard to case. *)
Theorem issue_date_is_empty_or_iso (txt : text) :
  exists v,
    cascade txt !! "issue_date"%string = Some v /\ (v = [] \/ iso_shaped v).
Proof.
  rewrite issue_date_of_cascade. unfold step_date.
  destruct (first_match date_patterns txt) as [[p m]|] eqn:Hfm.
  - destruct (first_match_in _ _ _ _ Hfm) as [Hin Hm].
    exists (date_of_match p m). split; [apply lookup_insert_eq|]. right.
    unfold date_patterns in Hin. cbn [In] in Hin.
    destruct Hin as [<- | [<- | [<- | [<- | [<- | [<- | []]]]]]].
    + apply (named_date_shape _ m txt); [tauto | exact Hm].
    + apply (named_date_shape _ m txt); [tauto | exact Hm].
    + apply (iso_date_shape _ m txt); [tauto | exact Hm].
    + apply (dmy_date_shape _ m txt); [tauto | exact Hm].
    + apply (iso_date_shape _ m txt); [tauto | exact Hm].
    + apply (dmy_date_shape _ m txt); [tauto | exact Hm].
  - exists []. split; [|left; reflexivity].
    rewrite step_number_other, step_nip_other by discriminate. reflexivity.
Qed.

End IssueDates.

Lemma latin_digits_are_plain (x : N) :
  uni_isdecimal (UnicodeTables := latin_tables) x = true -> ~ In x (T "+-/.").
Proof.
  cbn [uni_isdecimal latin_tables]. unfold latin_isdecimal.
  intros H. apply andb_true_iff in H. destruct H as [H1 H2].
  apply N.leb_le in H1, H2.
  change (T "+-/.") with [43%N; 45%N; 47%N; 46%N]. cbn [In]. lia.
Qed.

Lemma issue_date_is_empty_or_iso_witness :
  exists v,
    Rules.cascade (U := latin_tables) Samples.polish_invoice !! "issue_date"%string
    = Some v
    /\ (v = [] \/ iso_shaped (U := latin_tables) v).
Proof.
  exact (issue_date_is_empty_or_iso (U := latin_tables) latin_digits_are_plain
           latin_separators_have_no_case Samples.polish_invoice).
Defined.

Section AmountShape.
Context {U : UnicodeTables}.
Import Rules.

(** ** The shape of an amount *)

Hypothesis digits_are_no_punctuation :
  forall x, uni_isdecimal x = true -> ~ In x (T " ,.").
Hypothesis spaces_are_no_punctuation :
  forall x, uni_isspace x = true -> ~ In x (T ",.").
Hypothesis marks_have_no_case :
  forall c x, In c (T ",.") -> ci_eq c x = true -> x = c.

Lemma lang_amount_char (t : text) :
  lang true amount_char t -> exists x, t = [x] /\ amount_part x.
Proof.
  intros H. unfold amount_char in H.
  inversion H as [| |neg items x Hx| | | | | |]; subst.
  exists x. split; [reflexivity|].
  unfold set_matches in Hx. cbn [existsb item_matches xorb] in Hx.
  unfold lit_matches in Hx. rewrite orb_false_r in Hx.
  apply orb_true_iff in Hx. destruct Hx as [Hx | Hx]; [left; exact Hx|].
  apply orb_true_iff in Hx. destruct Hx as [Hx | Hx]; [|right; right; exact Hx].
  right; left. apply marks_have_no_case in Hx; [exact Hx|].
  change (T ",.") with [44%N; 46%N]. left. reflexivity.
Qed.

Lemma lang_amount_chars (t : text) :
  lang true (Star amount_char) t -> Forall amount_part t.
Proof.
  intros H. remember (Star amount_char) as r eqn:Hr.
  induction H as [| | | | | |r0|r0 a b Ha _ Hb IHb|]; try discriminate Hr.
  - constructor.
  - injection Hr as ->. destruct (lang_amount_char a Ha) as (x & -> & Hx).
    constructor; [exact Hx | apply IHb; reflexivity].
Qed.

Lemma lang_amount_run (t : text) :
  lang true (Plus amount_char) t -> Forall amount_part t.
Proof.
  intros H. unfold Plus in H.
  destruct (lang_cat_inv _ _ _ H) as (a & b & -> & Ha & Hb).
  destruct (lang_amount_char a Ha) as (x & -> & Hx).
  constructor; [exact Hx | apply lang_amount_chars, Hb].
Qed.

Lemma cleaned_run (t : text) :
  Forall amount_part t ->
  Forall amount_rest (remove_char (cc ",") (remove_char (cc " ") t))
  /\ has_char (cc ".") (remove_char (cc ",") (remove_char (cc " ") t)) = false.
Proof.
  unfold remove_char. induction 1 as [|x t Hx _ [IH1 IH2]]; [split; [constructor | reflexivity]|].
  rewrite (filter_cons _ x t).
  destruct (decide (x <> cc " ")) as [Hb|Hb]; [|split; assumption].
  rewrite (filter_cons _ x).
  destruct (decide (x <> cc ",")) as [Hc|Hc]; [|split; assumption].
  split.
  - constructor; [|exact IH1].
    destruct Hx as [Hx | [Hx | Hx]]; [left; exact Hx | contradiction | right; tauto].
  - rewrite has_char_cons, IH2, orb_false_r. apply N.eqb_neq. intros ->.
    change (cc ".") with 46%N in *.
    destruct Hx as [Hx | [Hx | Hx]].
    + apply (digits_are_no_punctuation _ Hx).
      change (T " ,.") with [32%N; 44%N; 46%N]. simpl. tauto.
    + discriminate Hx.
    + apply (spaces_are_no_punctuation _ Hx).
      change (T ",.") with [44%N; 46%N]. simpl. tauto.
Qed.

Lemma cleaned_digit (x : N) (t : text) :
  uni_isdecimal x = true ->
  remove_char (cc ",") (remove_char (cc " ") (x :: t))
  = x :: remove_char (cc ",") (remove_char (cc " ") t).
Proof.
  intros Hx. pose proof (digits_are_no_punctuation _ Hx) as Hn.
  change (T " ,.") with [32%N; 44%N; 46%N] in Hn. cbn [In] in Hn.
  unfold remove_char. rewrite (filter_cons _ x t).
  destruct (decide (x <> cc " ")) as [Hb|Hb].
  2:{ exfalso. apply Hb. change (cc " ") with 32%N. intros ->. tauto. }
  rewrite (filter_cons _ x).
  destruct (decide (x <> cc ",")) as [Hc|Hc]; [reflexivity|].
  exfalso. apply Hc. change (cc ",") with 44%N. intros ->. tauto.
Qed.

Lemma cleaned_app (a b : text) :
  remove_char (cc ",") (remove_char (cc " ") (a ++ b))
  = remove_char (cc ",") (remove_char (cc " ") a)
    ++ remove_char (cc ",") (remove_char (cc " ") b).
Proof. unfold remove_char. rewrite !filter_app. reflexivity. Qed.

Lemma zero_is_digit : uni_isdecimal 48 = true.
Proof. apply uni_ascii_digit. reflexivity. Qed.

(** An amount without decimals gets [.00]. *)
Lemma normalize_run (t : text) :
  Forall amount_part t -> amount_shaped (normalize_amount t).
Proof.
  intros Ht. destruct (cleaned_run t Ht) as [Hrest Hdot].
  unfold normalize_amount. rewrite Hdot.
  exists (remove_char (cc ",") (remove_char (cc " ") t)), 48%N, 48%N.
  split; [reflexivity|]. split; [exact Hrest|]. split; apply zero_is_digit.
Qed.

(** An amount with two decimals keeps them. *)
Lemma normalize_decimals (t : text) (a b : N) :
  Forall amount_part t -> uni_isdecimal a = true -> uni_isdecimal b = true ->
  amount_shaped (normalize_amount (t ++ [cc "."; a; b])).
Proof.
  intros Ht Ha Hb. destruct (cleaned_run t Ht) as [Hrest Hdot].
  set (body := remove_char (cc ",") (remove_char (cc " ") t)) in *.
  assert (Hclean : remove_char (cc ",") (remove_char (cc " ") (t ++ [cc "."; a; b]))
                   = body ++ [cc "."; a; b]).
  { rewrite cleaned_app. fold body. f_equal.
    assert (Hp : remove_char (cc ",") (remove_char (cc " ") (cc "." :: [a; b]))
                 = cc "." :: remove_char (cc ",") (remove_char (cc " ") [a; b])).
    { unfold remove_char. rewrite (filter_cons _ (cc ".")).
      destruct (decide (cc "." <> cc " ")) as [H1|H1]; [|exfalso; apply H1; discriminate].
      rewrite (filter_cons _ (cc ".")).
      destruct (decide (cc "." <> cc ",")) as [H2|H2]; [|exfalso; apply H2; discriminate].
      reflexivity. }
    rewrite Hp, (cleaned_digit a [b] Ha), (cleaned_digit b [] Hb). reflexivity. }
  pose proof (digits_are_no_punctuation _ Ha) as Hna.
  pose proof (digits_are_no_punctuation _ Hb) as Hnb.
  change (T " ,.") with [32%N; 44%N; 46%N] in Hna, Hnb. cbn [In] in Hna, Hnb.
  assert (Hab : has_char (cc ".") [a; b] = false).
  { rewrite !has_char_cons. change (cc ".") with 46%N.
    replace (N.eqb a 46) with false by (symmetry; apply N.eqb_neq; intros ->; tauto).
    replace (N.eqb b 46) with false by (symmetry; apply N.eqb_neq; intros ->; tauto).
    reflexivity. }
  unfold normalize_amount. rewrite Hclean.
  replace (has_char (cc ".") (body ++ [cc "."; a; b])) with true.
  2:{ symmetry. unfold has_char. rewrite existsb_app. cbn [existsb].
      rewrite N.eqb_refl. rewrite orb_true_r. reflexivity. }
  change (body ++ [cc "."; a; b]) with (body ++ cc "." :: [a; b]) at 1.
  rewrite split_char_app, (split_char_whole _ _ Hab).
  unfold last_part. rewrite last_snoc. cbn [default length Nat.eqb].
  exists body, a, b. split; [reflexivity|]. split; [exact Hrest|]. split; assumption.
Qed.

(** What the group of an amount pattern can be. *)
Lemma amount_group (raw : text) :
  (exists r',
      (r' = Plus amount_char
       \/ r' = Cat (Plus amount_char) (Opt (Cat (Lit (cc ".")) (Rep 2 digit))))
      /\ lang true r' raw) ->
  amount_shaped (normalize_amount raw).
Proof.
  intros (r' & [-> | ->] & Hl).
  - apply normalize_run, lang_amount_run, Hl.
  - destruct (lang_cat_inv _ _ _ Hl) as (t & d & -> & Ht & Hd).
    apply lang_amount_run in Ht. unfold Opt in Hd.
    inversion Hd as [| | | |r1 r2 c Hc|r1 r2 c Hc| | |]; subst.
    + destruct (lang_cat_inv _ _ _ Hc) as (p & ab & -> & Hp & Hab).
      inversion Hp as [|c0 x Hx| | | | | | |]; subst.
      unfold lit_matches in Hx. apply marks_have_no_case in Hx.
      2:{ change (T ",.") with [44%N; 46%N]. simpl. tauto. }
      subst x. apply (lang_rep_digit true 2) in Hab. destruct Hab as [Lab Fab].
      destruct (two_chars _ _ Lab Fab) as (a & b & -> & Ha & Hb).
      apply normalize_decimals; assumption.
    + inversion Hc; subst. rewrite app_nil_r. apply normalize_run, Ht.
Qed.

Lemma amount_pattern_groups :
  Forall (fun pf : regex * string =>
            forall r', has_group 1 r' pf.1 ->
                       r' = Plus amount_char
                       \/ r' = Cat (Plus amount_char)
                                   (Opt (Cat (Lit (cc ".")) (Rep 2 digit))))
    amount_patterns.
Proof.
  unfold amount_patterns.
  repeat (apply Forall_cons_2;
          [ cbn [fst]; intros r' Hg; vm_compute in Hg;
            repeat match goal with
                   | H : _ \/ _ |- _ => destruct H
                   | H : _ /\ _ |- _ => destruct H
                   | H : False |- _ => destruct H
                   end;
            try discriminate; subst r';
            first [left; reflexivity | right; reflexivity]
          | ]).
  apply Forall_nil_2.
Qed.

Lemma last_in {A : Type} (l : list A) (x : A) : last l = Some x -> In x l.
Proof.
  induction l as [|y l IH]; [discriminate|].
  destruct l as [|z l]; [intros [= ->]; left; reflexivity|].
  intros H. right. apply IH. exact H.
Qed.

Lemma amount_step_shape (txt : text) (pf : regex * string) (d : gmap string text) :
  (forall r', has_group 1 r' pf.1 ->
              r' = Plus amount_char
              \/ r' = Cat (Plus amount_char) (Opt (Cat (Lit (cc ".")) (Rep 2 digit)))) ->
  (forall f, In f ["price_net"; "price_tax"; "price_gross"]%string ->
             exists v, d !! f = Some v /\ amount_shaped v) ->
  forall f, In f ["price_net"; "price_tax"; "price_gross"]%string ->
            exists v, amount_step txt d pf !! f = Some v /\ amount_shaped v.
Proof.
  intros Hgroups Hd f Hf. unfold amount_step.
  destruct (last (findall1 true pf.1 txt)) as [raw|] eqn:Hl; [|apply Hd, Hf].
  destruct (decide (pf.2 = f)) as [<- | Hne].
  - exists (normalize_amount raw). split; [apply lookup_insert_eq|].
    destruct (findall1_lang true pf.1 txt raw (last_in _ _ Hl)) as [-> | (r' & Hg & Hr)].
    + apply normalize_run. constructor.
    + apply amount_group. exists r'. split; [apply Hgroups, Hg | exact Hr].
  - rewrite lookup_insert_ne by exact Hne. apply Hd, Hf.
Qed.

(** X26. Whatever the text, each of the three amounts the rules store
    consists of decimal digits, possibly with white space other than blanks
    among them (a line end matched by [\s] is not removed), followed by a
    decimal point and two decimal digits.  The tables' decimal digits must
    be none of blank, comma and point, their white space neither comma nor
    point, and comma and point must match only themselves without regard to
    case. *)
Theorem amounts_are_digits_and_white_space (txt : text) (f : string) :
  In f ["price_net"; "price_tax"; "price_gross"]%string ->
  exists v, cascade txt !! f = Some v /\ amount_shaped v.
Proof.
  intros Hf. destruct (amount_of_cascade txt f Hf) as [-> _].
  unfold step_amounts.
  assert (H0 : forall k, In k ["price_net"; "price_tax"; "price_gross"]%string ->
               exists v, step_date txt (step_number txt
                           (step_nip txt initial_invoice_data)) !! k = Some v
                         /\ amount_shaped v).
  { intros k Hk. destruct (amount_of_cascade txt k Hk) as [_ Hz].
    exists (T "0.00"). split; [exact Hz|].
    exists [48%N], 48%N, 48%N. split; [reflexivity|].
    split; [constructor; [left; apply zero_is_digit | constructor]|].
    split; apply zero_is_digit. }
  revert H0.
  generalize (step_date txt (step_number txt (step_nip txt initial_invoice_data))).
  pose proof amount_pattern_groups as Hgroups.
  induction Hgroups as [|pf pats Hpf _ IH]; intros d Hd; [apply Hd, Hf|].
  cbn [fold_left]. apply IH. intros k Hk.
  apply amount_step_shape; assumption.
Qed.

End AmountShape.

Lemma latin_digits_are_no_punctuation (x : N) :
  uni_isdecimal (UnicodeTables := latin_tables) x = true -> ~ In x (T " ,.").
Proof.
  cbn [uni_isdecimal latin_tables]. unfold latin_isdecimal.
  intros H. apply andb_true_iff in H. destruct H as [H1 H2].
  apply N.leb_le in H1, H2.
  change (T " ,.") with [32%N; 44%N; 46%N]. cbn [In]. lia.
Qed.

Lemma latin_spaces_are_no_punctuation (x : N) :
  uni_isspace (UnicodeTables := latin_tables) x = true -> ~ In x (T ",.").
Proof.
  change (T ",.") with [44%N; 46%N].
  intros H [<- | [<- | []]]; discriminate H.
Qed.

Lemma latin_marks_have_no_case (c x : N) :
  In c (T ",.") -> ci_eq (UnicodeTables := latin_tables) c x = true -> x = c.
Proof.
  change (T ",.") with [44%N; 46%N].
  intros [<- | [<- | []]]; apply latin_punctuation_has_no_case; reflexivity.
Qed.

(** The line end after an amount is matched by [\s] and stays in it. *)
Lemma line_end_stays_in_the_amount :
  Rules.cascade (U := latin_tables) Examples.amounts_at_line_ends !! "price_net"%string
  = Some (T "1000" ++ [Rules.NL] ++ T ".00").
Proof. vm_compute. reflexivity. Qed.

Lemma amounts_are_digits_and_white_space_witness :
  exists v,
    Rules.cascade (U := latin_tables) Examples.amounts_at_line_ends
      !! "price_net"%string = Some v
    /\ amount_shaped (U := latin_tables) v.
Proof.
  apply (amounts_are_digits_and_white_space (U := latin_tables)
           latin_digits_are_no_punctuation latin_spaces_are_no_punctuation
           latin_marks_have_no_case Examples.amounts_at_line_ends
           "price_net"%string).
  left. reflexivity.
Defined.
